(** * Interest-rate derivatives pricer: curve, surface and Hull-White model

    A shallow embedding of the numerical core of [montecarlo_ir]:
    - [utils/date_helpers.py]      (module [DateHelpers]),
    - [market_data/yield_curve.py] (module [YieldCurveM]),
    - [market_data/vol_surface.py] (module [VolSurface]),
    - [models/hull_white.py]       (module [HullWhite]).

    Conventions of the embedding.
    - Python floats are modelled by the real numbers [R]: arithmetic is
      exact, there is no NaN, no infinity and no overflow.  The exceptions that
      float arithmetic raises on real inputs are kept: division by zero,
      logarithm and square root outside their domain, and a zero base raised to
      a negative power.  Left out are the [OverflowError] of [math.exp] and of
      [**] beyond the range of floats, their underflow to zero, and the
      rounding of every operation, in particular of the product that
      [int(t * 365)] truncates.  A statement about the value that a call
      returns is therefore a statement in real arithmetic.  The lemmas of the
      model that say that a call returns (modules [Totality] and [PathFacts])
      hold in real arithmetic too; they serve to show that such statements
      are not vacuous.
    - Exceptions are values: every fallible function returns a [result].
    - A [datetime.date] is modelled by its proleptic Gregorian ordinal; year,
      month and day are computed from the ordinal as the [datetime] library
      does.  The range of [date] (years 1 to 9999) is kept. *)

From Stdlib Require Import String Reals Lra Lia ZArith Bool List.
From Stdlib Require Import Sorted Permutation.
Import ListNotations.
Open Scope R_scope.

(** ** Exceptions and the error monad *)

Module Py.

Inductive exn : Type :=
| ValueError (msg : string)
| ZeroDivisionError
| OverflowError
| IndexError
| MemoryError
| TypeError (msg : string).

Inductive result (A : Type) : Type :=
| Ok (a : A)
| Raise (e : exn).

Arguments Ok {A} a.
Arguments Raise {A} e.

Definition bind {A B : Type} (m : result A) (k : A -> result B) : result B :=
  match m with
  | Ok a => k a
  | Raise e => Raise e
  end.

Definition raises {A : Type} (m : result A) : Prop :=
  exists e, m = Raise e.

Definition returns {A : Type} (m : result A) : Prop :=
  exists a, m = Ok a.

(** Python's [seq[i]] for [0 <= i < len(seq)]. *)
Definition index {A : Type} (l : list A) (i : nat) : result A :=
  match nth_error l i with
  | Some a => Ok a
  | None => Raise IndexError
  end.

(** Python's [seq[-k]] for [k >= 1]. *)
Definition index_back {A : Type} (l : list A) (k : nat) : result A :=
  if (k <=? length l)%nat && (1 <=? k)%nat
  then index l (length l - k)
  else Raise IndexError.

(** In-place store [arr[i] = v] on an array of fixed length. *)
Fixpoint store {A : Type} (l : list A) (i : nat) (v : A) : result (list A) :=
  match l, i with
  | [], _ => Raise IndexError
  | _ :: r, O => Ok (v :: r)
  | a :: r, S j =>
      match store r j v with
      | Ok r' => Ok (a :: r')
      | Raise e => Raise e
      end
  end.

(** [[f(x) for x in l]] where [f] may raise. *)
Fixpoint map_result {A B : Type} (f : A -> result B) (l : list A)
  : result (list B) :=
  match l with
  | [] => Ok []
  | a :: r =>
      match f a with
      | Ok b =>
          match map_result f r with
          | Ok bs => Ok (b :: bs)
          | Raise e => Raise e
          end
      | Raise e => Raise e
      end
  end.

(** [sorted(l, key=key)]: a stable sort, written as an insertion sort. *)
Fixpoint insert_by {A : Type} (key : A -> Z) (a : A) (l : list A) : list A :=
  match l with
  | [] => [a]
  | b :: r =>
      if (key a <=? key b)%Z then a :: b :: r
      else b :: insert_by key a r
  end.

Definition sorted {A : Type} (key : A -> Z) (l : list A) : list A :=
  fold_right (insert_by key) [] l.

(** [for i in range(start, start + count): s = body(i, s)]. *)
Fixpoint for_range {S : Type} (start count : nat)
         (body : nat -> S -> result S) (s : S) : result S :=
  match count with
  | O => Ok s
  | Datatypes.S c =>
      match body start s with
      | Ok s' => for_range (Datatypes.S start) c body s'
      | Raise e => Raise e
      end
  end.

End Py.

Import Py.

Declare Scope py_scope.
Delimit Scope py_scope with py.
Notation "x <- m ;; k" := (Py.bind m (fun x => k))
  (at level 61, m at next level, right associativity) : py_scope.
Notation "m ;;; k" := (Py.bind m (fun _ => k))
  (at level 61, right associativity) : py_scope.
Open Scope py_scope.

(** ** Float operations on reals *)

Module Float.

Definition flt (x y : R) : bool := if Rlt_dec x y then true else false.
Definition fle (x y : R) : bool := if Rle_dec x y then true else false.
Definition feq (x y : R) : bool := if Req_dec_T x y then true else false.

(** [x / y] on Python floats. *)
Definition fdiv (x y : R) : result R :=
  if feq y 0 then Raise ZeroDivisionError else Ok (x / y).

(** [math.log]. *)
Definition flog (x : R) : result R :=
  if flt 0 x then Ok (ln x) else Raise (ValueError "math domain error").

(** [math.sqrt]. *)
Definition fsqrt (x : R) : result R :=
  if flt x 0 then Raise (ValueError "math domain error") else Ok (sqrt x).

(** [int(x)]: truncation toward zero. *)
Definition ftrunc (x : R) : Z :=
  if fle 0 x then Int_part x else (- Int_part (- x))%Z.

(** [x ** y] on Python floats.  A negative base with a fractional exponent
    yields a complex number in Python; the float model stops there.  In real
    arithmetic a positive base has a power for every exponent: the
    [OverflowError] that Python raises when the power leaves the range of
    floats has no counterpart here. *)
Definition fpow (x y : R) : result R :=
  if flt 0 x then Ok (Rpower x y)
  else if feq x 0 then
         if flt 0 y then Ok 0
         else if feq y 0 then Ok 1
              else Raise ZeroDivisionError
       else if feq (IZR (ftrunc y)) y then Ok (powerRZ x (ftrunc y))
            else Raise (TypeError "complex result").

Definition fmax (x y : R) : R := if flt x y then y else x.

(** [bisect.bisect_right(a, x)] on a sorted list [a] of floats: the index of
    the first element greater than [x], or [len(a)]. *)
Fixpoint bisect_right (a : list R) (x : R) : nat :=
  match a with
  | [] => O
  | y :: r => if flt x y then O else S (bisect_right r x)
  end.

End Float.

Import Float.

(** ** Calendar dates ([datetime.date])

    The calendar arithmetic below follows the [datetime] library:
    [days_before_year], [days_before_month], [ymd2ord] and [ord2ymd]. *)

Module Calendar.

Local Open Scope Z_scope.

Record date : Type := Date { toordinal : Z }.

Definition MINYEAR : Z := 1.
Definition MAXYEAR : Z := 9999.
Definition MAXORDINAL : Z := 3652059.

Definition is_leap (year : Z) : bool :=
  (year mod 4 =? 0) && (negb (year mod 100 =? 0) || (year mod 400 =? 0)).

Definition lib_days_in_month (year month : Z) : Z :=
  if (month =? 2) && is_leap year then 29
  else nth (Z.to_nat month) [0; 31; 28; 31; 30; 31; 30; 31; 31; 30; 31; 30; 31] 0.

Definition days_before_year (year : Z) : Z :=
  let y := year - 1 in
  y * 365 + y / 4 - y / 100 + y / 400.

Definition DAYS_BEFORE_MONTH : list Z :=
  [0; 0; 31; 59; 90; 120; 151; 181; 212; 243; 273; 304; 334].

Definition days_before_month (year month : Z) : Z :=
  nth (Z.to_nat month) DAYS_BEFORE_MONTH 0
  + (if (2 <? month) && is_leap year then 1 else 0).

Definition ymd2ord (year month day : Z) : Z :=
  days_before_year year + days_before_month year month + day.

Definition DI400Y : Z := 146097.
Definition DI100Y : Z := 36524.
Definition DI4Y : Z := 1461.

Definition ord2ymd (n0 : Z) : Z * Z * Z :=
  let n := n0 - 1 in
  let n400 := n / DI400Y in
  let n := n mod DI400Y in
  let year := n400 * 400 + 1 in
  let n100 := n / DI100Y in
  let n := n mod DI100Y in
  let n4 := n / DI4Y in
  let n := n mod DI4Y in
  let n1 := n / 365 in
  let n := n mod 365 in
  let year := year + n100 * 100 + n4 * 4 + n1 in
  if (n1 =? 4) || (n100 =? 4) then (year - 1, 12, 31)
  else
    let leapyear := (n1 =? 3) && (negb (n4 =? 24) || (n100 =? 3)) in
    let month := Z.shiftr (n + 50) 5 in
    let preceding :=
      nth (Z.to_nat month) DAYS_BEFORE_MONTH 0
      + (if (2 <? month) && leapyear then 1 else 0) in
    if n <? preceding then
      let month := month - 1 in
      let preceding :=
        preceding
        - (nth (Z.to_nat month) [0; 31; 28; 31; 30; 31; 30; 31; 31; 30; 31; 30; 31] 0
           + (if (month =? 2) && leapyear then 1 else 0)) in
      (year, month, n - preceding + 1)
    else (year, month, n - preceding + 1).

Definition year (d : date) : Z := fst (fst (ord2ymd (toordinal d))).
Definition month (d : date) : Z := snd (fst (ord2ymd (toordinal d))).
Definition day (d : date) : Z := snd (ord2ymd (toordinal d)).

(** [date(year, month, day)]. *)
Definition date_new (y m d : Z) : result date :=
  if negb ((MINYEAR <=? y) && (y <=? MAXYEAR)) then
    Raise (ValueError "year is out of range")
  else if negb ((1 <=? m) && (m <=? 12)) then
    Raise (ValueError "month must be in 1..12")
  else if negb ((1 <=? d) && (d <=? lib_days_in_month y m)) then
    Raise (ValueError "day is out of range for month")
  else Ok (Date (ymd2ord y m d)).

(** [d + timedelta(days=n)]. *)
Definition add_days (d : date) (n : Z) : result date :=
  let o := toordinal d + n in
  if (1 <=? o) && (o <=? MAXORDINAL) then Ok (Date o)
  else Raise OverflowError.

(** [(d2 - d1).days]. *)
Definition days_diff (d2 d1 : date) : Z := toordinal d2 - toordinal d1.

Definition date_ltb (d1 d2 : date) : bool := toordinal d1 <? toordinal d2.
Definition date_leb (d1 d2 : date) : bool := toordinal d1 <=? toordinal d2.
Definition date_eqb (d1 d2 : date) : bool := toordinal d1 =? toordinal d2.

(** Monday is 0, Sunday is 6. *)
Definition weekday (d : date) : Z := (toordinal d + 6) mod 7.

End Calendar.

Import Calendar.

(** ** [utils/date_helpers.py] *)

Module DateHelpers.

Inductive DayCountConvention : Type :=
| ACT_360
| ACT_365
| ACT_ACT
| ACT_365_25
| THIRTY_360.

Inductive BusinessDayRule : Type :=
| FOLLOWING
| MODIFIED_FOLLOWING
| PRECEDING
| MODIFIED_PRECEDING
| NONE.

(** The [while current_year < end_date.year] loop of the ACT/ACT branch. *)
Fixpoint act_act_full_years (fuel : nat) (end_year : Z) (total_days : R)
         (current_year : Z) : result (R * Z) :=
  match fuel with
  | O => Ok (total_days, current_year)
  | S fuel' =>
      if (current_year <? end_year)%Z then
        date_new current_year 1 1 ;;;
        date_new (current_year + 1) 1 1 ;;;
        act_act_full_years fuel' end_year (total_days + 1) (current_year + 1)
      else Ok (total_days, current_year)
  end.

Definition days_between (start_date end_date : date)
           (convention : DayCountConvention) : result R :=
  if date_ltb end_date start_date then
    Raise (ValueError "end_date must be >= start_date")
  else
    match convention with
    | ACT_360 => Ok (IZR (days_diff end_date start_date) / 360)
    | ACT_365 => Ok (IZR (days_diff end_date start_date) / 365)
    | ACT_365_25 => Ok (IZR (days_diff end_date start_date) / 365.25)
    | ACT_ACT =>
        year_start <- date_new (year start_date) 1 1 ;;
        year_end <- date_new (year start_date + 1) 1 1 ;;
        let days_in_year := days_diff year_end year_start in
        if (year start_date =? year end_date)%Z then
          fdiv (IZR (days_diff end_date start_date)) (IZR days_in_year)
        else
          let current_year := year start_date in
          year_end_date <- date_new (current_year + 1) 1 1 ;;
          let days_in_first_year := days_diff year_end_date year_start in
          first <- fdiv (IZR (days_diff year_end_date start_date))
                        (IZR days_in_first_year) ;;
          let total_days := 0 + first in
          let current_year := (current_year + 1)%Z in
          st <- act_act_full_years
                  (Z.to_nat (year end_date - current_year))
                  (year end_date) total_days current_year ;;
          let total_days := fst st in
          let current_year := snd st in
          if (current_year =? year end_date)%Z then
            year_start_date <- date_new current_year 1 1 ;;
            year_end_date <- date_new (current_year + 1) 1 1 ;;
            let days_in_last_year := days_diff year_end_date year_start_date in
            last <- fdiv (IZR (days_diff end_date year_start_date))
                         (IZR days_in_last_year) ;;
            Ok (total_days + last)
          else Ok total_days
    | THIRTY_360 =>
        let d1 := day start_date in
        let m1 := month start_date in
        let y1 := year start_date in
        let d2 := day end_date in
        let m2 := month end_date in
        let y2 := year end_date in
        let d1 := if (d1 =? 31)%Z then 30%Z else d1 in
        let d2 := if (d2 =? 31)%Z && (d1 =? 30)%Z then 30%Z else d2 in
        let days := (360 * (y2 - y1) + 30 * (m2 - m1) + (d2 - d1))%Z in
        Ok (IZR days / 360)
    end.

Definition is_business_day (d : date) (calendar : option (list date)) : bool :=
  if (5 <=? weekday d)%Z then false
  else
    match calendar with
    | Some holidays => negb (existsb (date_eqb d) holidays)
    | None => true
    end.

(** [while not is_business_day(adjusted): adjusted += timedelta(days=step)].
    The walk leaves the range of [date] within [MAXORDINAL] steps. *)
Fixpoint roll (fuel : nat) (step : Z) (calendar : option (list date))
         (adjusted : date) : result date :=
  match fuel with
  | O => Raise OverflowError
  | S fuel' =>
      if is_business_day adjusted calendar then Ok adjusted
      else
        adjusted' <- add_days adjusted step ;;
        roll fuel' step calendar adjusted'
  end.

(** The loop of the two modified rules: walk by [step], and on leaving the
    month walk the other way from [d] instead. *)
Fixpoint roll_modified (fuel : nat) (step : Z) (calendar : option (list date))
         (d : date) (original_month : Z) (adjusted : date) : result date :=
  match fuel with
  | O => Raise OverflowError
  | S fuel' =>
      if is_business_day adjusted calendar then Ok adjusted
      else
        adjusted' <- add_days adjusted step ;;
        if negb (month adjusted' =? original_month)%Z then
          roll (Z.to_nat MAXORDINAL) (- step) calendar d
        else roll_modified fuel' step calendar d original_month adjusted'
  end.

Definition adjust_business_day (d : date) (rule : BusinessDayRule)
           (calendar : option (list date)) : result date :=
  match rule with
  | NONE => Ok d
  | _ =>
      if is_business_day d calendar then Ok d
      else
        match rule with
        | FOLLOWING => roll (Z.to_nat MAXORDINAL) 1 calendar d
        | PRECEDING => roll (Z.to_nat MAXORDINAL) (-1) calendar d
        | MODIFIED_FOLLOWING =>
            roll_modified (Z.to_nat MAXORDINAL) 1 calendar d (month d) d
        | MODIFIED_PRECEDING =>
            roll_modified (Z.to_nat MAXORDINAL) (-1) calendar d (month d) d
        | NONE => Ok d
        end
  end.

Definition _days_in_month (year month : Z) : Z :=
  if (month =? 2)%Z then
    if (year mod 4 =? 0)%Z
       && (negb (year mod 100 =? 0)%Z || (year mod 400 =? 0)%Z)
    then 29%Z else 28%Z
  else if existsb (Z.eqb month) [4; 6; 9; 11]%Z then 30%Z
  else 31%Z.

Definition add_months (d : date) (months : Z) : result date :=
  let month0 := (month d - 1 + months)%Z in
  let year' := (year d + month0 / 12)%Z in
  let month' := (month0 mod 12 + 1)%Z in
  let day' := Z.min (day d) (_days_in_month year' month') in
  date_new year' month' day'.

Definition add_years (d : date) (years : Z) : result date :=
  match date_new (year d + years) (month d) (day d) with
  | Ok d' => Ok d'
  | Raise (ValueError _) => date_new (year d + years) (month d) (day d - 1)
  | Raise e => Raise e
  end.

(** A frequency string such as ["6M"], split as [generate_schedule] splits
    it: the integer before the last character, and the last character in
    upper case. *)
Inductive FrequencyUnit : Type :=
| UnitM
| UnitY
| UnitOther.

Record Frequency : Type := {
  frequency_value : Z;
  frequency_unit : FrequencyUnit
}.

Definition freq_6M : Frequency :=
  {| frequency_value := 6; frequency_unit := UnitM |}.

(** No valid date is more than [12 * 10000] months away from another: a loop
    whose every pass moves [current_date] by a non-zero number of months ends
    (normally or with [ValueError]) within that many passes. *)
Definition SCHEDULE_FUEL : nat := Z.to_nat 120000.

(** The [while current_date < end_date] loop of [generate_schedule].  With a
    frequency of zero months the loop appends the same date for ever; Python
    ends that with [MemoryError]. *)
Fixpoint schedule_loop (fuel : nat) (end_date : date) (frequency : Frequency)
         (business_day_rule : BusinessDayRule) (calendar : option (list date))
         (schedule : list date) (current_date : date) : result (list date) :=
  match fuel with
  | O => Raise MemoryError
  | S fuel' =>
      if date_ltb current_date end_date then
        current_date' <-
          match frequency_unit frequency with
          | UnitM => add_months current_date (frequency_value frequency)
          | UnitY => add_years current_date (frequency_value frequency)
          | UnitOther => Raise (ValueError "Unsupported frequency unit")
          end ;;
        schedule' <-
          (if date_leb current_date' end_date then
             adjusted_date <-
               adjust_business_day current_date' business_day_rule calendar ;;
             Ok (schedule ++ [adjusted_date])
           else Ok schedule) ;;
        schedule_loop fuel' end_date frequency business_day_rule calendar
                      schedule' current_date'
      else Ok schedule
  end.

Definition generate_schedule (start_date end_date : date)
           (frequency : Frequency) (business_day_rule : BusinessDayRule)
           (calendar : option (list date)) : result (list date) :=
  if date_ltb end_date start_date then
    Raise (ValueError "end_date must be >= start_date")
  else
    let current_date := start_date in
    adjusted_start <- adjust_business_day start_date business_day_rule calendar ;;
    let schedule := [adjusted_start] in
    schedule <- schedule_loop SCHEDULE_FUEL end_date frequency
                              business_day_rule calendar schedule current_date ;;
    last <- index_back schedule 1 ;;
    if negb (date_eqb last end_date) then
      adjusted_end <- adjust_business_day end_date business_day_rule calendar ;;
      if negb (date_eqb adjusted_end last) then Ok (schedule ++ [adjusted_end])
      else Ok schedule
    else Ok schedule.

(** [year_fraction] with the convention given as an enum member, as every
    caller in the core gives it. *)
Definition year_fraction (start_date end_date : date)
           (convention : DayCountConvention) : result R :=
  days_between start_date end_date convention.

End DateHelpers.

Import DateHelpers.

(** ** [market_data/yield_curve.py] *)

Module YieldCurveM.

Inductive InterpolationMethod : Type :=
| linear_zero
| log_linear_df.

Inductive CompoundingMethod : Type :=
| cont
| simple
| annual.

(** Raises at the first [i] with [not (values[i] > values[i - 1])]. *)
Fixpoint _validate_strictly_increasing (values : list R) : result unit :=
  match values with
  | prev :: ((cur :: _) as rest) =>
      if negb (flt prev cur) then
        Raise (ValueError "Values must be strictly increasing.")
      else _validate_strictly_increasing rest
  | _ => Ok tt
  end.

Definition _linear_interpolate (x0 y0 x1 y1 x : R) : R :=
  if feq x1 x0 then y0
  else
    let w := (x - x0) / (x1 - x0) in
    (1 - w) * y0 + w * y1.

Record YieldCurve : Type := {
  valuation_date : date;
  pillar_dates : list date;
  pillar_zero_rates : list R;
  day_count : DayCountConvention;
  interpolation : InterpolationMethod;
  compounding : CompoundingMethod;
  _pillar_times : list R
}.

(** [YieldCurve(...)]: the dataclass constructor followed by
    [__post_init__]. *)
Definition YieldCurve_init (valuation_date : date) (pillar_dates : list date)
           (pillar_zero_rates : list R) (day_count : DayCountConvention)
           (interpolation : InterpolationMethod)
           (compounding : CompoundingMethod) : result YieldCurve :=
  if negb (length pillar_dates =? length pillar_zero_rates)%nat then
    Raise (ValueError
             "pillar_dates and pillar_zero_rates must have the same length.")
  else if (length pillar_dates =? 0)%nat then
    Raise (ValueError "At least one pillar is required.")
  else if existsb (fun d => date_ltb d valuation_date) pillar_dates then
    Raise (ValueError "All pillar_dates must be on or after valuation_date.")
  else
    let sorted_pairs :=
      sorted (fun x => toordinal (fst x))
             (combine pillar_dates pillar_zero_rates) in
    let dates_sorted := map fst sorted_pairs in
    _validate_strictly_increasing
      (map (fun d => IZR (toordinal d)) dates_sorted) ;;;
    times <- map_result
               (fun d => year_fraction valuation_date d day_count)
               dates_sorted ;;
    _validate_strictly_increasing times ;;;
    Ok {| valuation_date := valuation_date;
          pillar_dates := dates_sorted;
          pillar_zero_rates := map snd sorted_pairs;
          day_count := day_count;
          interpolation := interpolation;
          compounding := compounding;
          _pillar_times := times |}.

Section Methods.

Variable self : YieldCurve.

Definition _time_from_valuation (d : date) : result R :=
  year_fraction (valuation_date self) d (day_count self).

(** In real arithmetic [math.exp] has a value for every argument: the
    [OverflowError] that Python raises above about 709.78, and the underflow
    to zero, have no counterpart here. *)
Definition _df_from_rate (r t : R) : result R :=
  match compounding self with
  | cont => Ok (exp (- r * t))
  | annual =>
      p <- fpow (1 + r) t ;;
      fdiv 1 p
  | simple => fdiv 1 (1 + r * t)
  end.

Definition _rate_from_df (df t : R) : result R :=
  if feq t 0 then index (pillar_zero_rates self) 0
  else
    match compounding self with
    | cont =>
        l <- flog df ;;
        fdiv (- l) t
    | annual =>
        e <- fdiv (-1) t ;;
        p <- fpow df e ;;
        Ok (p - 1)
    | simple =>
        i <- fdiv 1 df ;;
        fdiv (i - 1) t
    end.

Definition _zero_rate_at_time (t : R) : result R :=
  let times := _pillar_times self in
  let zeros := pillar_zero_rates self in
  first_time <- index times 0 ;;
  if fle t first_time then index zeros 0
  else
    last_time <- index_back times 1 ;;
    if fle last_time t then index_back zeros 1
    else
      let idx := bisect_right times t in
      t0 <- index times (idx - 1) ;;
      t1 <- index times idx ;;
      z0 <- index zeros (idx - 1) ;;
      z1 <- index zeros idx ;;
      match interpolation self with
      | linear_zero => Ok (_linear_interpolate t0 z0 t1 z1 t)
      | log_linear_df =>
          df0 <- _df_from_rate z0 t0 ;;
          df1 <- _df_from_rate z1 t1 ;;
          log_df0 <- flog df0 ;;
          log_df1 <- flog df1 ;;
          let log_df_t := _linear_interpolate t0 log_df0 t1 log_df1 t in
          let df_t := exp log_df_t in
          _rate_from_df df_t t
      end.

Definition discount_factor (target_date : date) : result R :=
  if date_ltb target_date (valuation_date self) then
    Raise (ValueError "target_date must be on or after valuation_date.")
  else
    t <- _time_from_valuation target_date ;;
    if feq t 0 then Ok 1
    else
      r <- _zero_rate_at_time t ;;
      _df_from_rate r t.

Definition zero_rate (target_date : date) : result R :=
  if date_ltb target_date (valuation_date self) then
    Raise (ValueError "target_date must be on or after valuation_date.")
  else
    t <- _time_from_valuation target_date ;;
    if feq t 0 then index (pillar_zero_rates self) 0
    else _zero_rate_at_time t.

Definition forward_rate (start_date end_date : date) : result R :=
  if date_leb end_date start_date then
    Raise (ValueError "end_date must be after start_date.")
  else
    df_start <- discount_factor start_date ;;
    df_end <- discount_factor end_date ;;
    tau <- year_fraction start_date end_date (day_count self) ;;
    q <- fdiv df_start df_end ;;
    fdiv (q - 1) tau.

End Methods.

(** One pass of the loop of [build_yield_curve_from_discount_factors]. *)
Definition zero_from_discount_factor (valuation_date : date)
           (day_count : DayCountConvention) (compounding : CompoundingMethod)
           (p : date * R) : result R :=
  let d := fst p in
  let df := snd p in
  t <- year_fraction valuation_date d day_count ;;
  if fle t 0 then
    Raise (ValueError "All pillar dates must be after valuation_date.")
  else if fle df 0 || fle (1 + 1e-12) df then
    Raise (ValueError "Discount factors must be in (0, 1].")
  else
    match compounding with
    | cont =>
        l <- flog df ;;
        fdiv (- l) t
    | annual =>
        e <- fdiv (-1) t ;;
        p <- fpow df e ;;
        Ok (p - 1)
    | simple =>
        i <- fdiv 1 df ;;
        fdiv (i - 1) t
    end.

Definition build_yield_curve_from_discount_factors (valuation_date : date)
           (pillar_dates : list date) (discount_factors : list R)
           (day_count : DayCountConvention)
           (interpolation : InterpolationMethod)
           (compounding : CompoundingMethod) : result YieldCurve :=
  if negb (length pillar_dates =? length discount_factors)%nat then
    Raise (ValueError
             "pillar_dates and discount_factors must have the same length.")
  else
    zeros <- map_result
               (zero_from_discount_factor valuation_date day_count compounding)
               (combine pillar_dates discount_factors) ;;
    YieldCurve_init valuation_date pillar_dates zeros day_count interpolation
                    compounding.

Definition build_yield_curve_from_zero_rates (valuation_date : date)
           (pillar_dates : list date) (zero_rates : list R)
           (day_count : DayCountConvention)
           (interpolation : InterpolationMethod)
           (compounding : CompoundingMethod) : result YieldCurve :=
  YieldCurve_init valuation_date pillar_dates zero_rates day_count
                  interpolation compounding.

Definition build_yield_curve_from_deposits_simple (valuation_date : date)
           (deposit_maturities : list date) (deposit_simple_rates : list R)
           (day_count : DayCountConvention)
           (interpolation : InterpolationMethod)
           (compounding : CompoundingMethod) : result YieldCurve :=
  if negb (length deposit_maturities =? length deposit_simple_rates)%nat then
    Raise (ValueError
             "deposit_maturities and deposit_simple_rates must have the same length.")
  else
    dfs <- map_result
             (fun p : date * R =>
                t <- year_fraction valuation_date (fst p) day_count ;;
                if fle t 0 then
                  Raise (ValueError
                           "All deposit maturities must be after valuation_date.")
                else fdiv 1 (1 + snd p * t))
             (combine deposit_maturities deposit_simple_rates) ;;
    build_yield_curve_from_discount_factors
      valuation_date deposit_maturities dfs day_count interpolation compounding.

(** The body of the [for i in range(len(schedule))] loop of the swap
    bootstrap; the state is [(fixed_leg_pv_known, tau_maturity)]. *)
Definition swap_period (valuation_date : date) (schedule : list date)
           (swap_maturity : date) (swap_rate : R)
           (day_count : DayCountConvention) (temp_curve : YieldCurve)
           (i : nat) (st : R * R) : result (R * R) :=
  let fixed_leg_pv_known := fst st in
  let tau_maturity := snd st in
  period <-
    (if (i =? 0)%nat then
       end_date <- index schedule 0 ;;
       Ok (valuation_date, end_date)
     else
       start_date <- index schedule (i - 1) ;;
       end_date <- index schedule i ;;
       Ok (start_date, end_date)) ;;
  let start_date := fst period in
  let end_date := snd period in
  tau <- year_fraction start_date end_date day_count ;;
  if date_eqb end_date swap_maturity then Ok (fixed_leg_pv_known, tau)
  else
    df_pay <- discount_factor temp_curve end_date ;;
    Ok (fixed_leg_pv_known + df_pay * swap_rate * tau, tau_maturity).

(** The body of the [for swap_maturity, swap_rate in zip(...)] loop; the
    state is [(pillar_dates, discount_factors)]. *)
Definition bootstrap_swap (valuation_date : date) (swap_frequency : Frequency)
           (day_count : DayCountConvention)
           (interpolation : InterpolationMethod)
           (compounding : CompoundingMethod)
           (st : list date * list R) (swap : date * R)
  : result (list date * list R) :=
  let pillar_dates := fst st in
  let discount_factors := snd st in
  let swap_maturity := fst swap in
  let swap_rate := snd swap in
  schedule <- generate_schedule valuation_date swap_maturity swap_frequency
                                NONE None ;;
  let schedule :=
    match schedule with
    | first :: rest => if date_eqb first valuation_date then rest else schedule
    | [] => schedule
    end in
  if (length schedule =? 0)%nat then
    Raise (ValueError "Invalid swap schedule for maturity {swap_maturity}.")
  else if negb (length pillar_dates =? 0)%nat then
    temp_curve <- build_yield_curve_from_discount_factors
                    valuation_date pillar_dates discount_factors day_count
                    interpolation compounding ;;
    acc <- for_range 0 (length schedule)
                     (swap_period valuation_date schedule swap_maturity
                                  swap_rate day_count temp_curve)
                     (0, 0) ;;
    let fixed_leg_pv_known := fst acc in
    let tau_maturity := snd acc in
    last <- index_back schedule 1 ;;
    tau_maturity <-
      (if negb (date_eqb last swap_maturity) then
         year_fraction last swap_maturity day_count
       else Ok tau_maturity) ;;
    df_maturity <-
      (if flt 0 tau_maturity then
         fdiv (1 - fixed_leg_pv_known) (1 + swap_rate * tau_maturity)
       else Ok 1) ;;
    if fle df_maturity 0 || flt 1 df_maturity then
      Raise (ValueError
               "Bootstrapping failed for swap maturity {swap_maturity}: invalid discount factor {df_maturity}.")
    else Ok (pillar_dates ++ [swap_maturity], discount_factors ++ [df_maturity])
  else
    t <- year_fraction valuation_date swap_maturity day_count ;;
    if fle t 0 then
      Raise (ValueError "All swap maturities must be after valuation_date.")
    else
      df_maturity <- fdiv 1 (1 + swap_rate * t) ;;
      Ok (pillar_dates ++ [swap_maturity], discount_factors ++ [df_maturity]).

(** The sequential bootstrap: the loop over the swaps in order. *)
Fixpoint bootstrap_swaps (valuation_date : date) (swap_frequency : Frequency)
         (day_count : DayCountConvention)
         (interpolation : InterpolationMethod)
         (compounding : CompoundingMethod)
         (swaps : list (date * R)) (st : list date * list R)
  : result (list date * list R) :=
  match swaps with
  | [] => Ok st
  | swap :: rest =>
      st' <- bootstrap_swap valuation_date swap_frequency day_count
                            interpolation compounding st swap ;;
      bootstrap_swaps valuation_date swap_frequency day_count interpolation
                      compounding rest st'
  end.

Definition build_yield_curve_from_swaps (valuation_date : date)
           (swap_maturities : list date) (par_swap_rates : list R)
           (swap_frequency : Frequency) (day_count : DayCountConvention)
           (interpolation : InterpolationMethod)
           (compounding : CompoundingMethod) : result YieldCurve :=
  if negb (length swap_maturities =? length par_swap_rates)%nat then
    Raise (ValueError
             "swap_maturities and par_swap_rates must have the same length.")
  else if (length swap_maturities =? 0)%nat then
    Raise (ValueError "At least one swap is required.")
  else
    let sorted_pairs :=
      sorted (fun x => toordinal (fst x))
             (combine swap_maturities par_swap_rates) in
    st <- bootstrap_swaps valuation_date swap_frequency day_count
                          interpolation compounding sorted_pairs ([], []) ;;
    build_yield_curve_from_discount_factors
      valuation_date (fst st) (snd st) day_count interpolation compounding.

End YieldCurveM.

Import YieldCurveM.

(** ** [market_data/vol_surface.py] *)

Module VolSurface.

Inductive InterpolationMethod : Type :=
| linear
| flat.

Inductive ExtrapolationMethod : Type :=
| extrapolation_flat
| extrapolation_linear.

(** The module has its own copies of these two helpers, word for word those
    of [yield_curve.py]. *)
Definition _validate_strictly_increasing : list R -> result unit :=
  YieldCurveM._validate_strictly_increasing.

Definition _linear_interpolate : R -> R -> R -> R -> R -> R :=
  YieldCurveM._linear_interpolate.

Record VolatilitySurface : Type := {
  valuation_date : date;
  expiry_times : list R;
  tenor_times : list R;
  volatility_matrix : list (list R);
  interpolation : InterpolationMethod;
  extrapolation : ExtrapolationMethod;
  day_count : DayCountConvention
}.

(** The checks of one row of the matrix in [__post_init__]. *)
Definition validate_row (n_tenors : nat) (row : list R) : result unit :=
  if negb (length row =? n_tenors)%nat then
    Raise (ValueError
             "volatility_matrix row {i} must have {len(self.tenor_times)} columns (tenors), got {len(row)}.")
  else
    map_result
      (fun vol =>
         if flt vol 0 then
           Raise (ValueError
                    "Volatility at [{i}][{j}] must be non-negative, got {vol}.")
         else Ok tt)
      row ;;;
    Ok tt.

(** [VolatilitySurface(...)]: the dataclass constructor followed by
    [__post_init__]. *)
Definition VolatilitySurface_init (valuation_date : date)
           (expiry_times tenor_times : list R)
           (volatility_matrix : list (list R))
           (interpolation : InterpolationMethod)
           (extrapolation : ExtrapolationMethod)
           (day_count : DayCountConvention) : result VolatilitySurface :=
  if (length expiry_times =? 0)%nat then
    Raise (ValueError "At least one expiry time is required.")
  else if (length tenor_times =? 0)%nat then
    Raise (ValueError "At least one tenor time is required.")
  else
    _validate_strictly_increasing expiry_times ;;;
    _validate_strictly_increasing tenor_times ;;;
    if negb (length volatility_matrix =? length expiry_times)%nat then
      Raise (ValueError
               "volatility_matrix must have {len(self.expiry_times)} rows (expiries), got {len(self.volatility_matrix)}.")
    else
      map_result (validate_row (length tenor_times)) volatility_matrix ;;;
      Ok {| valuation_date := valuation_date;
            expiry_times := expiry_times;
            tenor_times := tenor_times;
            volatility_matrix := volatility_matrix;
            interpolation := interpolation;
            extrapolation := extrapolation;
            day_count := day_count |}.

Section Methods.

Variable self : VolatilitySurface.

Definition _find_index (times : list R) (t : R) : result Z :=
  first_time <- index times 0 ;;
  if fle t first_time then Ok (-1)%Z
  else
    last_time <- index_back times 1 ;;
    if fle last_time t then Ok (Z.of_nat (length times) - 1)%Z
    else Ok (Z.of_nat (bisect_right times t) - 1)%Z.

Definition _get_bounds (times : list R) (idx : Z) : result (R * R) :=
  if (idx <? 0)%Z then
    match extrapolation self with
    | extrapolation_flat =>
        a <- index times 0 ;;
        Ok (a, a)
    | extrapolation_linear =>
        if (1 <? length times)%nat then
          a <- index times 0 ;;
          b <- index times 1 ;;
          Ok (a, b)
        else
          a <- index times 0 ;;
          Ok (a, a)
    end
  else if (Z.of_nat (length times) - 1 <=? idx)%Z then
    match extrapolation self with
    | extrapolation_flat =>
        a <- index_back times 1 ;;
        Ok (a, a)
    | extrapolation_linear =>
        if (1 <? length times)%nat then
          a <- index_back times 2 ;;
          b <- index_back times 1 ;;
          Ok (a, b)
        else
          a <- index_back times 1 ;;
          Ok (a, a)
    end
  else
    a <- index times (Z.to_nat idx) ;;
    b <- index times (Z.to_nat (idx + 1)) ;;
    Ok (a, b).

Definition _interpolate_1d (x0 y0 x1 y1 x : R) : R :=
  match interpolation self with
  | flat => y0
  | linear => _linear_interpolate x0 y0 x1 y1 x
  end.

Definition volatility_at_times (expiry_time tenor_time : R) : result R :=
  if flt expiry_time 0 then
    Raise (ValueError "expiry_time must be non-negative.")
  else if flt tenor_time 0 then
    Raise (ValueError "tenor_time must be non-negative.")
  else
    exp_idx <- _find_index (expiry_times self) expiry_time ;;
    ten_idx <- _find_index (tenor_times self) tenor_time ;;
    exp_bounds <- _get_bounds (expiry_times self) exp_idx ;;
    ten_bounds <- _get_bounds (tenor_times self) ten_idx ;;
    let exp_low := fst exp_bounds in
    let exp_high := snd exp_bounds in
    let ten_low := fst ten_bounds in
    let ten_high := snd ten_bounds in
    rows <-
      (if (exp_idx <? 0)%Z then
         vol_row_low <- index (volatility_matrix self) 0 ;;
         vol_row_high <-
           (if (length (expiry_times self) =? 1)%nat
            then index (volatility_matrix self) 0
            else index (volatility_matrix self) 1) ;;
         Ok (vol_row_low, vol_row_high)
       else if (Z.of_nat (length (expiry_times self)) - 1 <=? exp_idx)%Z then
         if (1 <? length (expiry_times self))%nat
            && match extrapolation self with
               | extrapolation_linear => true
               | extrapolation_flat => false
               end
         then
           vol_row_low <- index_back (volatility_matrix self) 2 ;;
           vol_row_high <- index_back (volatility_matrix self) 1 ;;
           Ok (vol_row_low, vol_row_high)
         else
           vol_row_low <- index_back (volatility_matrix self) 1 ;;
           vol_row_high <- index_back (volatility_matrix self) 1 ;;
           Ok (vol_row_low, vol_row_high)
       else
         vol_row_low <- index (volatility_matrix self) (Z.to_nat exp_idx) ;;
         vol_row_high <-
           index (volatility_matrix self) (Z.to_nat (exp_idx + 1)) ;;
         Ok (vol_row_low, vol_row_high)) ;;
    let vol_row_low := fst rows in
    let vol_row_high := snd rows in
    vols <-
      (if (ten_idx <? 0)%Z then
         vol_low <- index vol_row_low 0 ;;
         vol_high <- index vol_row_high 0 ;;
         Ok (vol_low, vol_high)
       else if (Z.of_nat (length (tenor_times self)) - 1 <=? ten_idx)%Z then
         vol_low <- index_back vol_row_low 1 ;;
         vol_high <- index_back vol_row_high 1 ;;
         Ok (vol_low, vol_high)
       else
         a0 <- index vol_row_low (Z.to_nat ten_idx) ;;
         a1 <- index vol_row_low (Z.to_nat (ten_idx + 1)) ;;
         let vol_low := _interpolate_1d ten_low a0 ten_high a1 tenor_time in
         b0 <- index vol_row_high (Z.to_nat ten_idx) ;;
         b1 <- index vol_row_high (Z.to_nat (ten_idx + 1)) ;;
         let vol_high := _interpolate_1d ten_low b0 ten_high b1 tenor_time in
         Ok (vol_low, vol_high)) ;;
    let vol_low := fst vols in
    let vol_high := snd vols in
    Ok (_interpolate_1d exp_low vol_low exp_high vol_high expiry_time).

Definition volatility (expiry_date : date) (tenor_years : R) : result R :=
  if date_ltb expiry_date (valuation_date self) then
    Raise (ValueError "expiry_date must be on or after valuation_date.")
  else
    expiry_time <- year_fraction (valuation_date self) expiry_date
                                 (day_count self) ;;
    volatility_at_times expiry_time tenor_years.

End Methods.

Definition build_volatility_surface_from_matrix (valuation_date : date)
           (expiry_dates : list date) (tenor_years : list R)
           (volatility_matrix : list (list R))
           (day_count : DayCountConvention)
           (interpolation : InterpolationMethod)
           (extrapolation : ExtrapolationMethod) : result VolatilitySurface :=
  expiry_times <- map_result
                    (fun d => year_fraction valuation_date d day_count)
                    expiry_dates ;;
  VolatilitySurface_init valuation_date expiry_times tenor_years
                         volatility_matrix interpolation extrapolation
                         day_count.

End VolSurface.

(** ** [models/hull_white.py] *)

Module HullWhite.

Inductive DiscretizationScheme : Type :=
| exact
| euler.

Record HullWhite1F : Type := {
  yield_curve : YieldCurve;
  mean_reversion : R;
  volatility : R;
  scheme : DiscretizationScheme;
  day_count : DayCountConvention
}.

(** [HullWhite1F(...)]: the dataclass constructor followed by
    [__post_init__]. *)
Definition HullWhite1F_init (yield_curve : YieldCurve)
           (mean_reversion volatility : R) (scheme : DiscretizationScheme)
           (day_count : DayCountConvention) : result HullWhite1F :=
  if fle mean_reversion 0 then
    Raise (ValueError "mean_reversion must be positive.")
  else if fle volatility 0 then
    Raise (ValueError "volatility must be positive.")
  else
    Ok {| yield_curve := yield_curve;
          mean_reversion := mean_reversion;
          volatility := volatility;
          scheme := scheme;
          day_count := day_count |}.

(** The process-level random source [np.random].  Its state is the stream of
    standard-normal variates it has yet to deliver; [standard_normal n]
    delivers the next [n] of them and advances the stream. *)
Definition rng_state : Type := nat -> R.

Definition standard_normal (n : Z) (g : rng_state)
  : result (list R) * rng_state :=
  if (n <? 0)%Z then
    (Raise (ValueError "negative dimensions are not allowed"), g)
  else
    (Ok (map g (seq 0 (Z.to_nat n))), fun i => g (Z.to_nat n + i)%nat).

Section Methods.

Variable self : HullWhite1F.

(** [int(t * 365.0)] truncates the exact product here, and the rounded
    product in Python: the two can differ by a day when the exact product is a
    whole number or close to one. *)
Definition _time_to_date (t : R) : result date :=
  let val_date := YieldCurveM.valuation_date (yield_curve self) in
  let days :=
    match day_count self with
    | ACT_365 => ftrunc (t * 365)
    | ACT_360 => ftrunc (t * 360)
    | _ => ftrunc (t * 365)
    end in
  add_days val_date days.

Definition _initial_short_rate (t : R) : result R :=
  t_date <- _time_to_date t ;;
  zero_rate (yield_curve self) t_date.

Definition _theta (t : R) : result R :=
  t_date <- _time_to_date t ;;
  let eps := fmax 1e-4 (t * 1e-6) in
  t1_date <- _time_to_date (t + eps) ;;
  t1_date <-
    (if date_leb t1_date t_date
     then _time_to_date (t + fmax 0.01 (t * 0.01))
     else Ok t1_date) ;;
  f_t <- forward_rate (yield_curve self) t_date t1_date ;;
  t2_date <- _time_to_date (t + 2 * eps) ;;
  t2_date <-
    (if date_leb t2_date t1_date
     then _time_to_date (t + fmax 0.02 (t * 0.02))
     else Ok t2_date) ;;
  f_t_plus <- forward_rate (yield_curve self) t1_date t2_date ;;
  df_dt <- fdiv (f_t_plus - f_t) eps ;;
  let a := mean_reversion self in
  let sigma := volatility self in
  c <- fdiv (sigma ^ 2) (2 * a) ;;
  Ok (df_dt + a * f_t + c * (1 - exp (- 2 * a * t))).

Definition _theta_integral (s t : R) : result R :=
  let n_points := 10%nat in
  let dt := (t - s) / INR n_points in
  integral <-
    for_range 0 (n_points + 1)
      (fun i integral =>
         let tau := s + INR i * dt in
         let weight :=
           if (i =? 0)%nat || (i =? n_points)%nat then 1 else 2 in
         th <- _theta tau ;;
         Ok (integral + weight * th))
      0 ;;
  Ok (integral * dt / 2).

Definition _forward_rate_integral (t T : R) : result R :=
  t_date <- _time_to_date t ;;
  T_date <- _time_to_date T ;;
  fwd <- forward_rate (yield_curve self) t_date T_date ;;
  Ok (fwd * (T - t)).

(** The shocks a simulation uses: the supplied ones after the length check,
    or [n - 1] fresh draws from the process-level source. *)
Definition shocks_for (n : nat) (random_shocks : option (list R))
           (g : rng_state) : result (list R) * rng_state :=
  match random_shocks with
  | None => standard_normal (Z.of_nat n - 1) g
  | Some shocks =>
      if negb (Z.of_nat (length shocks) =? Z.of_nat n - 1)%Z then
        (Raise (ValueError "random_shocks must have length {n - 1}."), g)
      else (Ok shocks, g)
  end.

(** The body of the [for i in range(1, n)] loop of [_simulate_exact]. *)
Definition exact_step (times random_shocks : list R) (i : nat)
           (rates : list R) : result (list R) :=
  let a := mean_reversion self in
  let sigma := volatility self in
  t_i <- index times i ;;
  t_prev <- index times (i - 1) ;;
  let dt := t_i - t_prev in
  if fle dt 0 then Raise (ValueError "Times must be strictly increasing.")
  else
    r_prev <- index rates (i - 1) ;;
    let mean_rev_term := r_prev * exp (- a * dt) in
    drift_term <- _theta_integral t_prev t_i ;;
    c <- fdiv (sigma ^ 2) (2 * a) ;;
    let variance := c * (1 - exp (- 2 * a * dt)) in
    sd <- fsqrt variance ;;
    shock <- index random_shocks (i - 1) ;;
    let stoch_term := sd * shock in
    store rates i (mean_rev_term + drift_term + stoch_term).

(** The body of the [for i in range(1, n)] loop of [_simulate_euler]. *)
Definition euler_step (times random_shocks : list R) (i : nat)
           (rates : list R) : result (list R) :=
  let a := mean_reversion self in
  let sigma := volatility self in
  t_i <- index times i ;;
  t_prev <- index times (i - 1) ;;
  let dt := t_i - t_prev in
  if fle dt 0 then Raise (ValueError "Times must be strictly increasing.")
  else
    theta_t <- _theta t_prev ;;
    r_prev <- index rates (i - 1) ;;
    let drift := (theta_t - a * r_prev) * dt in
    sd <- fsqrt dt ;;
    shock <- index random_shocks (i - 1) ;;
    let diffusion := sigma * sd * shock in
    store rates i (r_prev + drift + diffusion).

(** The part shared by [_simulate_exact] and [_simulate_euler]: the shocks,
    the array [rates] with [rates[0] = r0], and the loop. *)
Definition simulate_with
           (step : list R -> list R -> nat -> list R -> result (list R))
           (times : list R) (r0 : R) (random_shocks : option (list R))
           (g : rng_state) : result (list R) * rng_state :=
  let n := length times in
  let drawn := shocks_for n random_shocks g in
  (shocks <- fst drawn ;;
   rates <- store (repeat 0 n) 0 r0 ;;
   for_range 1 (n - 1) (step times shocks) rates,
   snd drawn).

Definition _simulate_exact := simulate_with exact_step.

Definition _simulate_euler := simulate_with euler_step.

Definition simulate_short_rate_path (times : list R)
           (random_shocks : option (list R)) (g : rng_state)
  : result (list R) * rng_state :=
  match times with
  | [] => (Ok [], g)
  | t0 :: _ =>
      if flt t0 0 then (Raise (ValueError "All times must be non-negative."), g)
      else
        match _initial_short_rate t0 with
        | Raise e => (Raise e, g)
        | Ok r0 =>
            match scheme self with
            | exact => _simulate_exact times r0 random_shocks g
            | euler => _simulate_euler times r0 random_shocks g
            end
        end
  end.

Definition bond_price (t T r_t : R) : result R :=
  if flt T t then
    Raise (ValueError "Bond maturity T must be >= current time t.")
  else if flt t 0 || flt T 0 then
    Raise (ValueError "Times must be non-negative.")
  else
    let tau := T - t in
    if feq tau 0 then Ok 1
    else
      let a := mean_reversion self in
      let sigma := volatility self in
      t_date <- _time_to_date t ;;
      T_date <- _time_to_date T ;;
      P_market_t <- discount_factor (yield_curve self) t_date ;;
      P_market_T <- discount_factor (yield_curve self) T_date ;;
      q <- fdiv (1 - exp (- a * tau)) a ;;
      let B := q in
      ratio <- fdiv P_market_T P_market_t ;;
      fri <- _forward_rate_integral t T ;;
      c <- fdiv (sigma ^ 2) (a ^ 2) ;;
      let A :=
        ratio
        * exp (B * fri - 0.5 * c * (B - tau) * (1 - exp (- 2 * a * t))) in
      Ok (A * exp (- B * r_t)).

Definition discount_factor (t T r_t : R) : result R :=
  bond_price t T r_t.

End Methods.

End HullWhite.

(** ** Example data *)

Definition d_2024_01_01 : date := Date 738886.
Definition d_2025_01_01 : date := Date 739252.
Definition d_2026_01_01 : date := Date 739617.
Definition d_2027_01_01 : date := Date 739982.

Definition test_curve : YieldCurve :=
  {| valuation_date := d_2024_01_01;
     pillar_dates := [d_2025_01_01; d_2026_01_01; d_2027_01_01];
     pillar_zero_rates := [0.02; 0.022; 0.025];
     day_count := ACT_365;
     interpolation := log_linear_df;
     compounding := cont;
     _pillar_times := [IZR 366 / 365; IZR 731 / 365; IZR 1096 / 365] |}.

Definition test_model : HullWhite.HullWhite1F :=
  {| HullWhite.yield_curve := test_curve;
     HullWhite.mean_reversion := 0.1;
     HullWhite.volatility := 0.01;
     HullWhite.scheme := HullWhite.exact;
     HullWhite.day_count := ACT_365 |}.

Definition flat_surface : VolSurface.VolatilitySurface :=
  {| VolSurface.valuation_date := d_2024_01_01;
     VolSurface.expiry_times := [1; 2];
     VolSurface.tenor_times := [1; 2];
     VolSurface.volatility_matrix := [[0.20; 0.21]; [0.22; 0.23]];
     VolSurface.interpolation := VolSurface.flat;
     VolSurface.extrapolation := VolSurface.extrapolation_flat;
     VolSurface.day_count := ACT_365 |}.

(** The process-level random source delivering only zeros. *)
Definition quiet_rng : HullWhite.rng_state := fun _ => 0.

Definition d_2024_07_30 : date := Date 739097.
Definition d_2024_10_30 : date := Date 739189.
Definition d_2025_01_30 : date := Date 739281.
Definition d_2025_01_31 : date := Date 739282.

(** The curve that the bootstrap holds after the three-month swap at 2%,
    valued on 2024-07-30 under 30/360. *)
Definition df_2024_10_30 : R := 1 / (1 + 0.02 * (IZR 90 / 360)).

Definition temp_curve : YieldCurve :=
  {| valuation_date := d_2024_07_30;
     pillar_dates := [d_2024_10_30];
     pillar_zero_rates := [- ln df_2024_10_30 / (IZR 90 / 360)];
     day_count := THIRTY_360;
     interpolation := log_linear_df;
     compounding := cont;
     _pillar_times := [IZR 90 / 360] |}.

(** The discount factor of [temp_curve] at 2025-01-30. *)
Definition df_2025_01_30 : R :=
  exp (- (- ln df_2024_10_30 / (IZR 90 / 360)) * (IZR 180 / 360)).

(** ** Vocabulary of the statements *)

(** A loop body of the simulator that raises at a step whose time does not
    exceed the previous one. *)
Definition descent_rejecting
           (step : list R -> list R -> nat -> list R -> result (list R))
  : Prop :=
  forall times shocks i rates a b,
    nth_error times i = Some a -> nth_error times (S i) = Some b -> b <= a ->
    raises (step times shocks (S i) rates).

(** What a successful construction establishes. *)
Record constructed (val : date) (dates : list date) (rates : list R)
       (dc : DayCountConvention) (interp : InterpolationMethod)
       (comp : CompoundingMethod) (c : YieldCurve) : Prop := {
  c_valuation : valuation_date c = val;
  c_dates : pillar_dates c
            = map fst (sorted (fun x => toordinal (fst x)) (combine dates rates));
  c_rates : pillar_zero_rates c
            = map snd (sorted (fun x => toordinal (fst x)) (combine dates rates));
  c_day_count : YieldCurveM.day_count c = dc;
  c_interpolation : interpolation c = interp;
  c_compounding : compounding c = comp;
  c_same_length : length dates = length rates;
  c_nonempty : length dates <> 0%nat;
  c_after : forall d, In d dates -> date_ltb d val = false;
  c_dates_sorted : Sorted Rlt (map (fun d => IZR (toordinal d)) (pillar_dates c));
  c_times : map_result (fun d => year_fraction val d dc) (pillar_dates c)
            = Ok (_pillar_times c);
  c_times_sorted : Sorted Rlt (_pillar_times c)
}.

(** The zero rate that inverts the compounding formula at discount factor
    [df] and time [t]. *)
Definition zero_of (comp : CompoundingMethod) (df t : R) : R :=
  match comp with
  | cont => - ln df / t
  | annual => Rpower df (-1 / t) - 1
  | simple => (1 / df - 1) / t
  end.

Definition date_lt (d1 d2 : date) : Prop := (toordinal d1 < toordinal d2)%Z.

(** The pillars of a curve invert positive discount factors. *)
Definition pillars_invert (c : YieldCurve) (dfs : list R) : Prop :=
  length (_pillar_times c) = length dfs
  /\ length (pillar_zero_rates c) = length dfs
  /\ (0 < length dfs)%nat
  /\ StronglySorted Rlt (_pillar_times c)
  /\ forall i t df,
      nth_error (_pillar_times c) i = Some t -> nth_error dfs i = Some df ->
      0 < t /\ 0 < df
      /\ nth_error (pillar_zero_rates c) i = Some (zero_of (compounding c) df t).

(** The conventions that divide the actual number of days by a constant. *)
Definition actual_basis (dc : DayCountConvention) : option R :=
  match dc with
  | ACT_360 => Some 360
  | ACT_365 => Some 365
  | ACT_365_25 => Some 365.25
  | _ => None
  end.

(** The discount factors that the builder's range check lets through, and
    those it rejects. *)
Definition df_accepted (df : R) : Prop := 0 < df < 1 + 1e-12.
Definition df_rejected (df : R) : Prop := df <= 0 \/ 1 + 1e-12 <= df.

(** The composite trapezoidal rule for [f] over [[a, b]] with [n]
    sub-intervals of width [h = (b - a) / n]:
    [h * (f(a)/2 + f(a + h) + ... + f(a + (n-1) h) + f(b)/2)]. *)
Definition composite_trapezoid (f : R -> R) (n : nat) (a b : R) : R :=
  let h := (b - a) / INR n in
  h * (f a / 2
       + fold_right Rplus 0 (map (fun k => f (a + INR k * h)) (seq 1 (n - 1)))
       + f b / 2).

(** The calibration drift as a function, where [_theta] returns. *)
Definition theta_value (m : HullWhite.HullWhite1F) (t : R) : R :=
  match HullWhite._theta m t with
  | Ok v => v
  | Raise _ => 0
  end.

(** The rate that the exact scheme reaches from [r_prev] over the step
    [[t_prev, t_i]] with the shock [shock]. *)
Definition exact_next_rate (m : HullWhite.HullWhite1F)
           (r_prev t_prev t_i shock : R) : R :=
  let a := HullWhite.mean_reversion m in
  let sigma := HullWhite.volatility m in
  let dt := t_i - t_prev in
  r_prev * exp (- a * dt)
  + composite_trapezoid (theta_value m) 10 t_prev t_i
  + sqrt (sigma ^ 2 / (2 * a) * (1 - exp (- 2 * a * dt))) * shock.

(** The state of the loop after the passes [1 .. k - 1]. *)
Definition exact_prefix (m : HullWhite.HullWhite1F) (times shocks : list R)
           (n k : nat) (rates : list R) : Prop :=
  length rates = n
  /\ forall i, (S i < k)%nat ->
       exists t_prev t_i r_prev shock,
         nth_error times i = Some t_prev /\ nth_error times (S i) = Some t_i
         /\ nth_error rates i = Some r_prev /\ nth_error shocks i = Some shock
         /\ nth_error rates (S i)
            = Some (exact_next_rate m r_prev t_prev t_i shock)
         /\ (forall j, (j <= 10)%nat ->
               returns (HullWhite._theta
                          m (t_prev + INR j * ((t_i - t_prev) / 10)))).

(** The number of days per year that [_time_to_date] counts. *)
Definition days_per_year (m : HullWhite.HullWhite1F) : R :=
  match HullWhite.day_count m with
  | ACT_360 => 360
  | _ => 365
  end.

(** The ordinal of the latest date that [_theta] can look at from time
    [t]. *)
Definition theta_horizon (m : HullWhite.HullWhite1F) (t : R) : Z :=
  (toordinal (valuation_date (HullWhite.yield_curve m))
   + ftrunc ((t + fmax 0.02 (t * 0.02)) * days_per_year m))%Z.

(** A model whose curve has continuous compounding and an actual-day
    convention, came out of the curve constructor, and whose mean reversion is
    positive. *)
Definition continuous_model (m : HullWhite.HullWhite1F) : Prop :=
  0 < HullWhite.mean_reversion m
  /\ compounding (HullWhite.yield_curve m) = cont
  /\ (exists basis,
         actual_basis (YieldCurveM.day_count (HullWhite.yield_curve m))
         = Some basis)
  /\ (1 <= toordinal (valuation_date (HullWhite.yield_curve m)))%Z
  /\ exists dates rates,
      YieldCurve_init (valuation_date (HullWhite.yield_curve m)) dates rates
                      (YieldCurveM.day_count (HullWhite.yield_curve m))
                      (interpolation (HullWhite.yield_curve m)) cont
      = Ok (HullWhite.yield_curve m).

(** The payment periods of a swap: from [start] to the first payment date,
    then from each payment date to the next. *)
Fixpoint periods (start : date) (schedule : list date) : list (date * date) :=
  match schedule with
  | [] => []
  | end_date :: rest => (start, end_date) :: periods end_date rest
  end.

(** The present value of the fixed payment of one period on a curve:
    the discount factor at the period end, times the rate, times the year
    fraction of the period. *)
Definition payment_value (curve : YieldCurve) (rate : R)
           (dc : DayCountConvention) (p : date * date) : result R :=
  tau <- year_fraction (fst p) (snd p) dc ;;
  df <- discount_factor curve (snd p) ;;
  Ok (df * rate * tau).

Definition total (values : list R) : R := fold_right Rplus 0 values.

(** The dates appended by the schedule loop, under the rule [NONE]: all
    before [end_date], except that the last one may be [end_date] itself, and
    then the loop has stopped. *)
Definition appended_ok (end_date : date) (appended : list date)
           (current_date : date) : Prop :=
  Forall (fun d => date_lt d end_date) appended
  \/ exists init, appended = init ++ [end_date]
                  /\ Forall (fun d => date_lt d end_date) init
                  /\ date_ltb current_date end_date = false.

(** A loop over a list with a body that may raise:
    [for a in l: s = f(a, s)]. *)
Fixpoint fold_result {S A : Type} (f : A -> S -> result S) (l : list A)
         (s : S) : result S :=
  match l with
  | [] => Ok s
  | a :: r => s' <- f a s ;; fold_result f r s'
  end.

(** The body of the loop over the payment periods of a swap, as a function
    of the period; the state is [(fixed_leg_pv_known, tau_maturity)]. *)
Definition period_step (maturity : date) (rate : R) (dc : DayCountConvention)
           (temp_curve : YieldCurve) (p : date * date) (st : R * R)
  : result (R * R) :=
  tau <- year_fraction (fst p) (snd p) dc ;;
  if date_eqb (snd p) maturity then Ok (fst st, tau)
  else
    df_pay <- discount_factor temp_curve (snd p) ;;
    Ok (fst st + df_pay * rate * tau, snd st).

(** ** Further vocabulary *)

(** The key by which the constructor of a curve sorts its pillars: the date
    of the pair. *)
Definition pair_key (x : date * R) : Z := toordinal (fst x).

(** ** Further example data *)

(** Saturday 6 January 2024 and the Monday after it. *)
Definition d_2024_01_06 : date := Date 738891.
Definition d_2024_01_08 : date := Date 738893.


(** ** The steps of a surface query *)

(** The two rows of the matrix that [volatility_at_times] reads for the
    expiry index [exp_idx]. *)
Definition select_rows (self : VolSurface.VolatilitySurface) (exp_idx : Z)
  : result (list R * list R) :=
  if (exp_idx <? 0)%Z then
    vol_row_low <- index (VolSurface.volatility_matrix self) 0 ;;
    vol_row_high <-
      (if (length (VolSurface.expiry_times self) =? 1)%nat
       then index (VolSurface.volatility_matrix self) 0
       else index (VolSurface.volatility_matrix self) 1) ;;
    Ok (vol_row_low, vol_row_high)
  else if (Z.of_nat (length (VolSurface.expiry_times self)) - 1 <=? exp_idx)%Z
  then
    if (1 <? length (VolSurface.expiry_times self))%nat
       && match VolSurface.extrapolation self with
          | VolSurface.extrapolation_linear => true
          | VolSurface.extrapolation_flat => false
          end
    then
      vol_row_low <- index_back (VolSurface.volatility_matrix self) 2 ;;
      vol_row_high <- index_back (VolSurface.volatility_matrix self) 1 ;;
      Ok (vol_row_low, vol_row_high)
    else
      vol_row_low <- index_back (VolSurface.volatility_matrix self) 1 ;;
      vol_row_high <- index_back (VolSurface.volatility_matrix self) 1 ;;
      Ok (vol_row_low, vol_row_high)
  else
    vol_row_low <- index (VolSurface.volatility_matrix self) (Z.to_nat exp_idx) ;;
    vol_row_high <-
      index (VolSurface.volatility_matrix self) (Z.to_nat (exp_idx + 1)) ;;
    Ok (vol_row_low, vol_row_high).

(** The two volatilities that it then reads or interpolates along the tenor
    axis, one in each row. *)
Definition select_vols (self : VolSurface.VolatilitySurface) (ten_idx : Z)
           (ten_low ten_high tenor_time : R)
           (vol_row_low vol_row_high : list R) : result (R * R) :=
  if (ten_idx <? 0)%Z then
    vol_low <- index vol_row_low 0 ;;
    vol_high <- index vol_row_high 0 ;;
    Ok (vol_low, vol_high)
  else if (Z.of_nat (length (VolSurface.tenor_times self)) - 1 <=? ten_idx)%Z
  then
    vol_low <- index_back vol_row_low 1 ;;
    vol_high <- index_back vol_row_high 1 ;;
    Ok (vol_low, vol_high)
  else
    a0 <- index vol_row_low (Z.to_nat ten_idx) ;;
    a1 <- index vol_row_low (Z.to_nat (ten_idx + 1)) ;;
    let vol_low :=
      VolSurface._interpolate_1d self ten_low a0 ten_high a1 tenor_time in
    b0 <- index vol_row_high (Z.to_nat ten_idx) ;;
    b1 <- index vol_row_high (Z.to_nat (ten_idx + 1)) ;;
    let vol_high :=
      VolSurface._interpolate_1d self ten_low b0 ten_high b1 tenor_time in
    Ok (vol_low, vol_high).

(** Where a query time lies on a grid, as [_find_index] classifies it: at or
    below the first grid time, at or above the last, or in the cell that
    starts at position [i]. *)
Inductive grid_position (times : list R) (t : R) : Z -> Prop :=
| below_first first :
    nth_error times 0 = Some first -> t <= first ->
    grid_position times t (-1)
| above_last first last :
    nth_error times 0 = Some first -> first < t ->
    nth_error times (length times - 1) = Some last -> last <= t ->
    grid_position times t (Z.of_nat (length times) - 1)
| in_cell i a b :
    (S i < length times)%nat ->
    nth_error times i = Some a -> nth_error times (S i) = Some b ->
    a <= t < b ->
    grid_position times t (Z.of_nat i).

(** What the constructor of a surface checks. *)
Record surface_ok (s : VolSurface.VolatilitySurface) : Prop := {
  s_expiries : VolSurface.expiry_times s <> [];
  s_tenors : VolSurface.tenor_times s <> [];
  s_expiries_sorted : StronglySorted Rlt (VolSurface.expiry_times s);
  s_tenors_sorted : StronglySorted Rlt (VolSurface.tenor_times s);
  s_rows : length (VolSurface.volatility_matrix s)
           = length (VolSurface.expiry_times s);
  s_columns : Forall (fun row => length row
                                 = length (VolSurface.tenor_times s))
                     (VolSurface.volatility_matrix s);
  s_nonneg : Forall (Forall (fun vol => 0 <= vol))
                    (VolSurface.volatility_matrix s)
}.

(** ** The Euler scheme *)

(** The rate that the Euler scheme reaches from [r_prev] over the step
    [[t_prev, t_i]] with the shock [shock]. *)
Definition euler_next_rate (m : HullWhite.HullWhite1F)
           (r_prev t_prev t_i shock : R) : R :=
  let a := HullWhite.mean_reversion m in
  let sigma := HullWhite.volatility m in
  let dt := t_i - t_prev in
  r_prev + (theta_value m t_prev - a * r_prev) * dt + sigma * sqrt dt * shock.

(** The state of the loop of [_simulate_euler] after the passes
    [1 .. k - 1]. *)
Definition euler_prefix (m : HullWhite.HullWhite1F) (times shocks : list R)
           (n k : nat) (rates : list R) : Prop :=
  length rates = n
  /\ forall i, (S i < k)%nat ->
       exists t_prev t_i r_prev shock,
         nth_error times i = Some t_prev /\ nth_error times (S i) = Some t_i
         /\ nth_error rates i = Some r_prev /\ nth_error shocks i = Some shock
         /\ t_prev < t_i
         /\ returns (HullWhite._theta m t_prev)
         /\ nth_error rates (S i)
            = Some (euler_next_rate m r_prev t_prev t_i shock).

(** The shocks that a simulation over [n] times draws from the source [g]
    when none are supplied, and the source it leaves behind. *)
Definition drawn_shocks (n : nat) (g : HullWhite.rng_state) : list R :=
  map g (seq 0 (n - 1)).

Definition advanced (n : nat) (g : HullWhite.rng_state) : HullWhite.rng_state :=
  fun i => g (n - 1 + i)%nat.

(** The bond-price coefficient [B(t, T) = (1 - exp(-a (T - t))) / a]. *)
Definition bond_B (m : HullWhite.HullWhite1F) (t T : R) : R :=
  (1 - exp (- HullWhite.mean_reversion m * (T - t))) / HullWhite.mean_reversion m.

(** The model of the tests under the Euler scheme. *)
Definition euler_model : HullWhite.HullWhite1F :=
  {| HullWhite.yield_curve := test_curve;
     HullWhite.mean_reversion := 0.1;
     HullWhite.volatility := 0.01;
     HullWhite.scheme := HullWhite.euler;
     HullWhite.day_count := ACT_365 |}.

(** * Facts about the embedding *)

(** ** Floats *)

Module FloatFacts.

Lemma flt_true x y : x < y -> flt x y = true.
Proof. intros H. unfold flt. destruct (Rlt_dec x y); [reflexivity | contradiction]. Qed.

Lemma flt_false x y : y <= x -> flt x y = false.
Proof. intros H. unfold flt. destruct (Rlt_dec x y); [lra | reflexivity]. Qed.

Lemma fle_true x y : x <= y -> fle x y = true.
Proof. intros H. unfold fle. destruct (Rle_dec x y); [reflexivity | contradiction]. Qed.

Lemma fle_false x y : y < x -> fle x y = false.
Proof. intros H. unfold fle. destruct (Rle_dec x y); [lra | reflexivity]. Qed.

Lemma feq_true x y : x = y -> feq x y = true.
Proof. intros H. unfold feq. destruct (Req_dec_T x y); [reflexivity | contradiction]. Qed.

Lemma feq_false x y : x <> y -> feq x y = false.
Proof. intros H. unfold feq. destruct (Req_dec_T x y); [contradiction | reflexivity]. Qed.

Lemma flt_spec x y : reflect (x < y) (flt x y).
Proof. unfold flt. destruct (Rlt_dec x y); constructor; assumption. Qed.

Lemma fle_spec x y : reflect (x <= y) (fle x y).
Proof. unfold fle. destruct (Rle_dec x y); constructor; assumption. Qed.

Lemma feq_spec x y : reflect (x = y) (feq x y).
Proof. unfold feq. destruct (Req_dec_T x y); constructor; assumption. Qed.

Lemma ftrunc_nonneg x n : IZR n <= x < IZR n + 1 -> (0 <= n)%Z -> ftrunc x = n.
Proof.
  intros [Hlo Hhi] Hn. unfold ftrunc.
  assert (0 <= x) by (apply IZR_le in Hn; lra).
  rewrite fle_true by assumption.
  symmetry. apply Int_part_spec. lra.
Qed.

Lemma fdiv_ok x y : y <> 0 -> fdiv x y = Ok (x / y).
Proof. intros H. unfold fdiv. rewrite feq_false by assumption. reflexivity. Qed.

Lemma flog_ok x : 0 < x -> flog x = Ok (ln x).
Proof. intros H. unfold flog. rewrite flt_true by assumption. reflexivity. Qed.

Lemma fsqrt_ok x : 0 <= x -> fsqrt x = Ok (sqrt x).
Proof. intros H. unfold fsqrt. rewrite flt_false by assumption. reflexivity. Qed.

Lemma fpow_pos x y : 0 < x -> fpow x y = Ok (Rpower x y).
Proof. intros H. unfold fpow. rewrite flt_true by assumption. reflexivity. Qed.

End FloatFacts.

Import FloatFacts.

(** Decide the float comparisons of the goal whose outcome [lra] can settle. *)
Ltac fcmp_step :=
  match goal with
  | |- context [flt ?a ?b] =>
      first [ rewrite (flt_true a b) by lra | rewrite (flt_false a b) by lra ]
  | |- context [fle ?a ?b] =>
      first [ rewrite (fle_true a b) by lra | rewrite (fle_false a b) by lra ]
  | |- context [feq ?a ?b] =>
      first [ rewrite (feq_true a b) by lra | rewrite (feq_false a b) by lra ]
  end.

Ltac fcmp := repeat fcmp_step.

(** Evaluate the closed integer expressions under [IZR]. *)
Ltac zcompute :=
  repeat match goal with
         | |- context [IZR ?z] =>
             let v := eval vm_compute in z in
             tryif constr_eq z v then fail else change z with v
         end.

(** ** The error monad, arrays and loops *)

Module PyFacts.

Lemma raises_not_ok {A : Type} (m : result A) (a : A) : raises m -> m <> Ok a.
Proof. intros [e He] Hok. rewrite He in Hok. discriminate. Qed.

Lemma result_cases {A : Type} (m : result A) : returns m \/ raises m.
Proof. destruct m as [a | e]; [left; exists a | right; exists e]; reflexivity. Qed.

Lemma bind_ok_inv {A B : Type} (m : result A) (k : A -> result B) (b : B) :
  Py.bind m k = Ok b -> exists a, m = Ok a /\ k a = Ok b.
Proof. destruct m as [a | e]; simpl; intros H; [eauto | discriminate]. Qed.

Lemma bind_raises_l {A B : Type} (m : result A) (k : A -> result B) :
  raises m -> raises (Py.bind m k).
Proof. intros [e ->]. exists e. reflexivity. Qed.

Lemma index_ok {A : Type} (l : list A) (i : nat) (a : A) :
  index l i = Ok a <-> nth_error l i = Some a.
Proof.
  unfold index. destruct (nth_error l i); split; intros H;
    try discriminate; congruence.
Qed.

Lemma index_in_range {A : Type} (l : list A) (i : nat) :
  (i < length l)%nat -> exists a, index l i = Ok a /\ nth_error l i = Some a.
Proof.
  intros H. unfold index. destruct (nth_error l i) as [a |] eqn:E.
  - exists a. auto.
  - apply nth_error_None in E. lia.
Qed.

Lemma index_back_ok {A : Type} (l : list A) (k : nat) (a : A) :
  index_back l k = Ok a <->
  (1 <= k <= length l)%nat /\ nth_error l (length l - k) = Some a.
Proof.
  unfold index_back.
  destruct (Nat.leb_spec k (length l)) as [H1 | H1];
    destruct (Nat.leb_spec 1 k) as [H2 | H2]; cbn [andb];
    rewrite ?index_ok; split; intros H; try discriminate;
    try (exfalso; lia).
  - split; [lia | assumption].
  - apply H.
Qed.

Lemma index_back_1 {A : Type} (l : list A) (a : A) :
  index_back (l ++ [a]) 1 = Ok a.
Proof.
  apply index_back_ok. rewrite length_app. simpl. split; [lia |].
  replace (length l + 1 - 1)%nat with (length l) by lia.
  rewrite nth_error_app2 by lia. rewrite Nat.sub_diag. reflexivity.
Qed.

Lemma store_length {A : Type} (l l' : list A) (i : nat) (v : A) :
  store l i v = Ok l' -> length l' = length l.
Proof.
  revert l' i. induction l as [| a r IH]; intros l' i H; simpl in H.
  - discriminate.
  - destruct i as [| j].
    + inversion H; reflexivity.
    + destruct (store r j v) as [r' |] eqn:E; [| discriminate].
      inversion H; subst. simpl. f_equal. eapply IH; eassumption.
Qed.

Lemma store_same {A : Type} (l l' : list A) (i : nat) (v : A) :
  store l i v = Ok l' -> nth_error l' i = Some v.
Proof.
  revert l' i. induction l as [| a r IH]; intros l' i H; simpl in H.
  - discriminate.
  - destruct i as [| j].
    + inversion H; reflexivity.
    + destruct (store r j v) as [r' |] eqn:E; [| discriminate].
      inversion H; subst. simpl. eapply IH; eassumption.
Qed.

Lemma store_other {A : Type} (l l' : list A) (i j : nat) (v : A) :
  store l i v = Ok l' -> i <> j -> nth_error l' j = nth_error l j.
Proof.
  revert l' i j. induction l as [| a r IH]; intros l' i j H Hij; simpl in H.
  - discriminate.
  - destruct i as [| i].
    + inversion H; subst. destruct j; [congruence | reflexivity].
    + destruct (store r i v) as [r' |] eqn:E; [| discriminate].
      inversion H; subst. destruct j as [| j]; [reflexivity |].
      simpl. eapply IH; [eassumption | congruence].
Qed.

Lemma store_in_range {A : Type} (l : list A) (i : nat) (v : A) :
  (i < length l)%nat -> returns (store l i v).
Proof.
  revert i. induction l as [| a r IH]; intros i H; simpl in *.
  - lia.
  - destruct i as [| j]; [eexists; reflexivity |].
    destruct (IH j) as [r' Hr]; [lia |]. rewrite Hr. eexists; reflexivity.
Qed.

(** A pass whose body raises in every state makes the loop raise. *)
Lemma for_range_raises {S : Type} (body : nat -> S -> result S) :
  forall count start s i,
    (start <= i < start + count)%nat ->
    (forall s', raises (body i s')) ->
    raises (for_range start count body s).
Proof.
  induction count as [| c IH]; intros start s i Hi Hbody; simpl.
  - lia.
  - destruct (body start s) as [s' |] eqn:E.
    + destruct (Nat.eq_dec i start) as [-> | Hne].
      * exfalso. eapply raises_not_ok; [apply Hbody | eassumption].
      * apply (IH (Datatypes.S start) s' i); [lia | assumption].
    + eexists; reflexivity.
Qed.

(** Invariant rule for a loop that returns. *)
Lemma for_range_invariant {S : Type} (body : nat -> S -> result S)
      (P : nat -> S -> Prop) :
  forall count start s s',
    P start s ->
    (forall i x y, (start <= i < start + count)%nat ->
                   P i x -> body i x = Ok y -> P (Datatypes.S i) y) ->
    for_range start count body s = Ok s' ->
    P (start + count)%nat s'.
Proof.
  induction count as [| c IH]; intros start s s' H0 Hstep Hrun; simpl in Hrun.
  - inversion Hrun; subst. rewrite Nat.add_0_r. assumption.
  - destruct (body start s) as [x |] eqn:E; [| discriminate].
    replace (start + Datatypes.S c)%nat with (Datatypes.S start + c)%nat by lia.
    apply (IH (Datatypes.S start) x s').
    + apply (Hstep start s x); [lia | assumption | assumption].
    + intros i a b Hi. apply Hstep. lia.
    + assumption.
Qed.

(** A loop whose body returns in every state satisfying the invariant
    returns. *)
Lemma for_range_returns {S : Type} (body : nat -> S -> result S)
      (P : nat -> S -> Prop) :
  forall count start s,
    P start s ->
    (forall i x, (start <= i < start + count)%nat -> P i x ->
                 exists y, body i x = Ok y /\ P (Datatypes.S i) y) ->
    exists s', for_range start count body s = Ok s' /\ P (start + count)%nat s'.
Proof.
  induction count as [| c IH]; intros start s H0 Hstep; simpl.
  - exists s. rewrite Nat.add_0_r. auto.
  - destruct (Hstep start s) as [y [Hy HP]]; [lia | assumption |].
    rewrite Hy.
    replace (start + Datatypes.S c)%nat with (Datatypes.S start + c)%nat by lia.
    apply IH; [assumption |]. intros i x Hi. apply Hstep. lia.
Qed.

Lemma map_result_length {A B : Type} (f : A -> result B) (l : list A)
      (bs : list B) :
  map_result f l = Ok bs -> length bs = length l.
Proof.
  revert bs. induction l as [| a r IH]; intros bs H; simpl in H.
  - inversion H; reflexivity.
  - destruct (f a) as [b |]; [| discriminate].
    destruct (map_result f r) as [bs' |]; [| discriminate].
    inversion H; subst. simpl. f_equal. apply IH. reflexivity.
Qed.

Lemma map_result_nth {A B : Type} (f : A -> result B) (l : list A)
      (bs : list B) (i : nat) (a : A) :
  map_result f l = Ok bs -> nth_error l i = Some a ->
  exists b, nth_error bs i = Some b /\ f a = Ok b.
Proof.
  revert bs i. induction l as [| x r IH]; intros bs i H Hi; simpl in H.
  - destruct i; discriminate.
  - destruct (f x) as [b |] eqn:Ef; [| discriminate].
    destruct (map_result f r) as [bs' |] eqn:Er; [| discriminate].
    inversion H; subst. destruct i as [| i]; simpl in *.
    + inversion Hi; subst. exists b. auto.
    + apply (IH bs' i); auto.
Qed.

Lemma map_result_all_ok {A B : Type} (f : A -> result B) (l : list A) :
  (forall a, In a l -> returns (f a)) -> returns (map_result f l).
Proof.
  induction l as [| x r IH]; intros H; simpl.
  - eexists; reflexivity.
  - destruct (H x) as [b Hb]; [left; reflexivity |]. rewrite Hb.
    destruct IH as [bs Hbs]; [intros a Ha; apply H; right; assumption |].
    rewrite Hbs. eexists; reflexivity.
Qed.

Lemma map_result_some_raises {A B : Type} (f : A -> result B) (l : list A) :
  (exists a, In a l /\ raises (f a)) -> raises (map_result f l).
Proof.
  induction l as [| x r IH]; intros [a [Ha Hr]]; simpl.
  - contradiction.
  - destruct (f x) as [b |] eqn:Ef; [| eexists; reflexivity].
    destruct Ha as [-> | Ha].
    + exfalso. eapply raises_not_ok; eassumption.
    + destruct IH as [e He]; [exists a; auto |]. rewrite He.
      eexists; reflexivity.
Qed.

End PyFacts.

Import PyFacts.

(** ** Sorted sequences *)

Module SortedFacts.

Lemma validate_ok_sorted (values : list R) :
  _validate_strictly_increasing values = Ok tt <-> Sorted Rlt values.
Proof.
  induction values as [| a r IH].
  - simpl. split; auto.
  - destruct r as [| b r'].
    + simpl. split; auto.
    + cbn [_validate_strictly_increasing].
      destruct (flt_spec a b) as [Hab | Hab]; cbn [negb].
      * rewrite IH. split; intros H.
        -- constructor; [assumption | constructor; assumption].
        -- apply Sorted_inv in H. apply H.
      * split; intros H; [discriminate |].
        apply Sorted_inv in H. destruct H as [_ H]. inversion H; subst.
        contradiction.
Qed.

Lemma validate_cases (values : list R) :
  _validate_strictly_increasing values = Ok tt \/
  raises (_validate_strictly_increasing values).
Proof.
  destruct (_validate_strictly_increasing values) as [[] | e].
  - left; reflexivity.
  - right; exists e; reflexivity.
Qed.

Lemma sorted_strongly (l : list R) : Sorted Rlt l -> StronglySorted Rlt l.
Proof.
  apply Sorted_StronglySorted. intros x y z Hxy Hyz. lra.
Qed.

(** A sequence that is not strictly increasing has a descent. *)
Lemma not_sorted_descent (l : list R) :
  ~ Sorted Rlt l ->
  exists i a b,
    nth_error l i = Some a /\ nth_error l (S i) = Some b /\ b <= a.
Proof.
  induction l as [| a r IH]; intros H.
  - exfalso. apply H. constructor.
  - destruct r as [| b r'].
    + exfalso. apply H. constructor; constructor.
    + destruct (Rlt_dec a b) as [Hab | Hab].
      * destruct IH as [i [x [y [Hx [Hy Hxy]]]]].
        -- intros Hs. apply H. constructor; [assumption | constructor; assumption].
        -- exists (S i), x, y. auto.
      * exists O, a, b. simpl. repeat split; try reflexivity. lra.
Qed.

Lemma strongly_sorted_nth (l : list R) :
  StronglySorted Rlt l ->
  forall i j a b, (i < j)%nat ->
    nth_error l i = Some a -> nth_error l j = Some b -> a < b.
Proof.
  induction 1 as [| x l Hs IH Hall]; intros i j a b Hij Hi Hj.
  - destruct i; discriminate.
  - destruct j as [| j]; [lia |]. simpl in Hj.
    destruct i as [| i]; simpl in Hi.
    + inversion Hi; subst. rewrite Forall_forall in Hall. apply Hall.
      eapply nth_error_In; eassumption.
    + apply (IH i j); [lia | assumption | assumption].
Qed.

Lemma sorted_nth (l : list R) :
  Sorted Rlt l ->
  forall i j a b, (i < j)%nat ->
    nth_error l i = Some a -> nth_error l j = Some b -> a < b.
Proof. intros H. apply strongly_sorted_nth, sorted_strongly, H. Qed.

End SortedFacts.

Import SortedFacts.

(** ** The Hull-White simulator: input checks and determinism *)

Module SimulationFacts.

Import HullWhite.

Lemma exact_step_rejects (m : HullWhite1F) : descent_rejecting (exact_step m).
Proof.
  intros times shocks i rates a b Ha Hb Hle. unfold exact_step.
  replace (S i - 1)%nat with i by lia.
  apply index_ok in Ha. apply index_ok in Hb. rewrite Ha, Hb. cbn [Py.bind].
  rewrite fle_true by lra. eexists; reflexivity.
Qed.

Lemma euler_step_rejects (m : HullWhite1F) : descent_rejecting (euler_step m).
Proof.
  intros times shocks i rates a b Ha Hb Hle. unfold euler_step.
  replace (S i - 1)%nat with i by lia.
  apply index_ok in Ha. apply index_ok in Hb. rewrite Ha, Hb. cbn [Py.bind].
  rewrite fle_true by lra. eexists; reflexivity.
Qed.

Lemma simulate_with_unsorted step times r0 random_shocks g :
  descent_rejecting step -> ~ Sorted Rlt times ->
  raises (fst (simulate_with step times r0 random_shocks g)).
Proof.
  intros Hstep Hns. unfold simulate_with. cbn [fst].
  destruct (fst (shocks_for (length times) random_shocks g)) as [shocks | e];
    [| eexists; reflexivity].
  cbn [Py.bind].
  destruct (store (repeat 0 (length times)) 0%nat r0) as [rates | e];
    [| eexists; reflexivity].
  cbn [Py.bind].
  destruct (not_sorted_descent times Hns) as [i [a [b [Ha [Hb Hle]]]]].
  apply (for_range_raises _ _ _ _ (S i)).
  - assert (S i < length times)%nat by (apply nth_error_Some; congruence). lia.
  - intros s'. eapply Hstep; eassumption.
Qed.

Lemma simulate_with_bad_length step times r0 shocks g :
  times <> [] -> length shocks <> (length times - 1)%nat ->
  fst (simulate_with step times r0 (Some shocks) g)
  = Raise (ValueError "random_shocks must have length {n - 1}.").
Proof.
  intros Hne Hlen. unfold simulate_with, shocks_for.
  assert (length times <> 0)%nat by (destruct times; simpl; congruence).
  replace (Z.of_nat (length shocks) =? Z.of_nat (length times) - 1)%Z
    with false by (symmetry; apply Z.eqb_neq; lia).
  reflexivity.
Qed.

Lemma simulate_with_supplied step times r0 shocks g1 g2 :
  fst (simulate_with step times r0 (Some shocks) g1)
  = fst (simulate_with step times r0 (Some shocks) g2)
  /\ snd (simulate_with step times r0 (Some shocks) g1) = g1.
Proof.
  unfold simulate_with, shocks_for.
  destruct (negb (Z.of_nat (length shocks) =? Z.of_nat (length times) - 1)%Z);
    split; reflexivity.
Qed.

End SimulationFacts.

Import SimulationFacts.

(** C1.  Determinism of [simulate_short_rate_path] with supplied shocks: the
    outcome (the path, or the exception) is the same whatever the state of the
    process-level random source, and the call leaves that state untouched.  So
    two calls with the same time grid and the same shocks give identical
    output, whatever happens to the random source in between. *)
Theorem simulate_short_rate_path_deterministic
        (m : HullWhite.HullWhite1F) (times shocks : list R)
        (g1 g2 : HullWhite.rng_state) :
  fst (HullWhite.simulate_short_rate_path m times (Some shocks) g1)
  = fst (HullWhite.simulate_short_rate_path m times (Some shocks) g2)
  /\ snd (HullWhite.simulate_short_rate_path m times (Some shocks) g1) = g1.
Proof.
  unfold HullWhite.simulate_short_rate_path.
  destruct times as [| t0 rest]; [split; reflexivity |].
  destruct (flt t0 0); [split; reflexivity |].
  destruct (HullWhite._initial_short_rate m t0) as [r0 | e];
    [| split; reflexivity].
  destruct (HullWhite.scheme m); apply simulate_with_supplied.
Qed.

(** C8, as amended.  On a non-empty grid [simulate_short_rate_path] raises
    whenever some time is negative, or the times are not strictly increasing,
    or the supplied shocks do not have [len(times) - 1] entries; in the last
    case the exception is the length-mismatch error as soon as the first time
    is non-negative and the initial rate is read from the curve. *)
Theorem simulate_short_rate_path_rejects
        (m : HullWhite.HullWhite1F) (times : list R)
        (random_shocks : option (list R)) (g : HullWhite.rng_state) :
  times <> [] ->
  (exists t, In t times /\ t < 0)
  \/ ~ Sorted Rlt times
  \/ (exists shocks, random_shocks = Some shocks
                     /\ length shocks <> (length times - 1)%nat) ->
  raises (fst (HullWhite.simulate_short_rate_path m times random_shocks g))
  /\ (forall shocks,
         random_shocks = Some shocks ->
         length shocks <> (length times - 1)%nat ->
         0 <= hd 0 times ->
         returns (HullWhite._initial_short_rate m (hd 0 times)) ->
         fst (HullWhite.simulate_short_rate_path m times random_shocks g)
         = Raise (ValueError "random_shocks must have length {n - 1}.")).
Proof.
  intros Hne Hbad. destruct times as [| t0 rest]; [congruence |].
  split.
  - unfold HullWhite.simulate_short_rate_path.
    destruct (flt_spec t0 0) as [Hneg | Hpos]; [eexists; reflexivity |].
    destruct (HullWhite._initial_short_rate m t0) as [r0 | e];
      [| eexists; reflexivity].
    assert (Hcases : ~ Sorted Rlt (t0 :: rest)
                     \/ exists shocks, random_shocks = Some shocks
                          /\ length shocks <> (length (t0 :: rest) - 1)%nat).
    { destruct Hbad as [[t [Hin Ht]] | [Hns | Hlen]]; [left | left | right]; auto.
      intros Hs. apply sorted_strongly in Hs. apply StronglySorted_inv in Hs.
      destruct Hs as [_ Hall]. rewrite Forall_forall in Hall.
      destruct Hin as [-> | Hin]; [lra |]. specialize (Hall t Hin). lra. }
    destruct Hcases as [Hns | [shocks [-> Hlen]]].
    + destruct (HullWhite.scheme m).
      * apply simulate_with_unsorted; [apply exact_step_rejects | assumption].
      * apply simulate_with_unsorted; [apply euler_step_rejects | assumption].
    + exists (ValueError "random_shocks must have length {n - 1}.").
      destruct (HullWhite.scheme m); apply simulate_with_bad_length;
        congruence || assumption.
  - intros shocks -> Hlen Hpos [r0 Hr0]. cbn [hd] in *.
    unfold HullWhite.simulate_short_rate_path.
    rewrite flt_false by lra. rewrite Hr0.
    destruct (HullWhite.scheme m); apply simulate_with_bad_length;
      congruence || assumption.
Qed.

(** C10.  [forward_rate] raises whenever the start date precedes the curve's
    valuation date, whatever the end date. *)
Theorem forward_rate_before_valuation_raises
        (c : YieldCurve) (start_date end_date : date) :
  date_ltb start_date (valuation_date c) = true ->
  raises (forward_rate c start_date end_date).
Proof.
  intros Hlt. unfold forward_rate.
  destruct (date_leb end_date start_date); [eexists; reflexivity |].
  unfold discount_factor. rewrite Hlt. eexists; reflexivity.
Qed.

(** Evaluate a computation on concrete inputs: unfold the program, leave the
    real arithmetic alone and settle the comparisons with [lra]. *)
Ltac py_eval :=
  repeat (progress
            (cbn -[IZR Rdiv Rplus Rmult Rminus Ropp Rinv exp ln sqrt Rpower
                   powerRZ Int_part INR pow ftrunc];
             try unfold fdiv, flog, fsqrt, fpow, fmax;
             fcmp)).

(** The same, leaving the calls of [year_fraction] for rewriting. *)
Ltac py_eval_dates :=
  repeat (progress
            (cbn -[IZR Rdiv Rplus Rmult Rminus Ropp Rinv exp ln sqrt Rpower
                   powerRZ Int_part INR pow ftrunc year_fraction];
             try unfold fdiv, flog, fsqrt, fpow, fmax;
             fcmp)).

(** Settle [int(x)] for a concrete non-negative [x] whose integer part is
    [n]. *)
Ltac ftrunc_is x n :=
  rewrite (ftrunc_nonneg x n) by (try split; simpl; lra || lia).

(** ** The curve constructor *)

Module CurveFacts.

Lemma insert_by_length {A : Type} (key : A -> Z) (a : A) (l : list A) :
  length (insert_by key a l) = S (length l).
Proof.
  induction l as [| b r IH]; simpl; [reflexivity |].
  destruct (key a <=? key b)%Z; simpl; [reflexivity | rewrite IH; reflexivity].
Qed.

Lemma sorted_length {A : Type} (key : A -> Z) (l : list A) :
  length (sorted key l) = length l.
Proof.
  induction l as [| a r IH]; simpl; [reflexivity |].
  rewrite insert_by_length, IH. reflexivity.
Qed.

Lemma insert_by_perm {A : Type} (key : A -> Z) (a : A) (l : list A) :
  Permutation (insert_by key a l) (a :: l).
Proof.
  induction l as [| b r IH]; simpl; [reflexivity |].
  destruct (key a <=? key b)%Z; [reflexivity |].
  rewrite IH. apply perm_swap.
Qed.

Lemma sorted_perm {A : Type} (key : A -> Z) (l : list A) :
  Permutation (sorted key l) l.
Proof.
  induction l as [| a r IH]; simpl; [reflexivity |].
  rewrite insert_by_perm. constructor. assumption.
Qed.

(** A list already in strictly increasing key order is left as it is. *)
Lemma sorted_increasing_id {A : Type} (key : A -> Z) (l : list A) :
  StronglySorted (fun x y => (key x < key y)%Z) l -> sorted key l = l.
Proof.
  induction 1 as [| a l Hs IH Hall]; simpl; [reflexivity |].
  rewrite IH. destruct l as [| b r]; simpl; [reflexivity |].
  inversion Hall; subst.
  replace (key a <=? key b)%Z with true by (symmetry; apply Z.leb_le; lia).
  reflexivity.
Qed.

Lemma YieldCurve_init_ok val dates rates dc interp comp c :
  YieldCurve_init val dates rates dc interp comp = Ok c ->
  constructed val dates rates dc interp comp c.
Proof.
  unfold YieldCurve_init.
  destruct (Nat.eqb_spec (length dates) (length rates)) as [Hlen | Hlen];
    cbn [negb]; [| discriminate].
  destruct (Nat.eqb_spec (length dates) 0) as [Hz | Hz]; [discriminate |].
  destruct (existsb (fun d => date_ltb d val) dates) eqn:Hex; [discriminate |].
  set (sp := sorted (fun x => toordinal (fst x)) (combine dates rates)).
  destruct (validate_cases (map (fun d => IZR (toordinal d)) (map fst sp)))
    as [Hv1 | [e He]]; [| rewrite He; discriminate].
  rewrite Hv1. cbn [Py.bind].
  destruct (map_result (fun d => year_fraction val d dc) (map fst sp))
    as [times |] eqn:Ht; [| discriminate].
  cbn [Py.bind].
  destruct (validate_cases times) as [Hv2 | [e He]]; [| rewrite He; discriminate].
  rewrite Hv2. cbn [Py.bind]. intros H. inversion H; subst c; clear H.
  constructor; cbn; try reflexivity; try assumption.
  - intros d Hd. destruct (date_ltb d val) eqn:E; [| reflexivity].
    assert (existsb (fun d => date_ltb d val) dates = true)
      by (apply existsb_exists; exists d; auto).
    congruence.
  - apply validate_ok_sorted, Hv1.
  - apply validate_ok_sorted, Hv2.
Qed.

Lemma constructed_lengths val dates rates dc interp comp c :
  constructed val dates rates dc interp comp c ->
  length (pillar_zero_rates c) = length dates
  /\ length (_pillar_times c) = length dates
  /\ length (pillar_dates c) = length dates.
Proof.
  intros H.
  assert (Hc : length (combine dates rates) = length dates)
    by (rewrite length_combine, <- (c_same_length _ _ _ _ _ _ _ H); lia).
  assert (Hd : length (pillar_dates c) = length dates)
    by (rewrite (c_dates _ _ _ _ _ _ _ H), length_map, sorted_length; exact Hc).
  repeat split.
  - rewrite (c_rates _ _ _ _ _ _ _ H), length_map, sorted_length. exact Hc.
  - rewrite (map_result_length _ _ _ (c_times _ _ _ _ _ _ _ H)). exact Hd.
  - exact Hd.
Qed.

End CurveFacts.

Import CurveFacts.

(** C7.  On every curve that the constructor accepts, and for both
    interpolation modes, the zero rate at a time at or below the first pillar
    time is the first pillar's rate, and at a time at or above the last pillar
    time it is the last pillar's rate. *)
Theorem zero_rate_flat_clamping
        (val : date) (dates : list date) (rates : list R)
        (dc : DayCountConvention) (interp : InterpolationMethod)
        (comp : CompoundingMethod) (c : YieldCurve) :
  YieldCurve_init val dates rates dc interp comp = Ok c ->
  exists t_first z_first t_last z_last,
    nth_error (_pillar_times c) 0 = Some t_first
    /\ nth_error (pillar_zero_rates c) 0 = Some z_first
    /\ nth_error (_pillar_times c) (length (_pillar_times c) - 1) = Some t_last
    /\ nth_error (pillar_zero_rates c) (length (pillar_zero_rates c) - 1)
       = Some z_last
    /\ (forall t, t <= t_first -> _zero_rate_at_time c t = Ok z_first)
    /\ (forall t, t_last <= t -> _zero_rate_at_time c t = Ok z_last).
Proof.
  intros Hinit. apply YieldCurve_init_ok in Hinit.
  destruct (constructed_lengths _ _ _ _ _ _ _ Hinit) as [Hlz [Hlt _]].
  pose proof (c_nonempty _ _ _ _ _ _ _ Hinit) as Hne.
  pose proof (c_times_sorted _ _ _ _ _ _ _ Hinit) as Hsorted.
  set (times := _pillar_times c) in *. set (zeros := pillar_zero_rates c) in *.
  destruct (index_in_range times 0) as [t_first [Ht0 Ht0']]; [lia |].
  destruct (index_in_range zeros 0) as [z_first [Hz0 Hz0']]; [lia |].
  destruct (index_in_range times (length times - 1)) as [t_last [Ht1 Ht1']];
    [lia |].
  destruct (index_in_range zeros (length zeros - 1)) as [z_last [Hz1 Hz1']];
    [lia |].
  exists t_first, z_first, t_last, z_last.
  repeat (split; [assumption |]).
  assert (Hb1 : index_back times 1 = Ok t_last)
    by (apply index_back_ok; split; [lia | assumption]).
  assert (Hb2 : index_back zeros 1 = Ok z_last)
    by (apply index_back_ok; split; [lia | assumption]).
  split; intros t Ht; unfold _zero_rate_at_time; fold times; fold zeros;
    rewrite Ht0; cbn [Py.bind].
  - rewrite fle_true by assumption. assumption.
  - destruct (fle_spec t t_first) as [Hle | Hgt].
    + destruct (Nat.eq_dec (length times) 1) as [Hone | Hmany].
      * replace (length zeros - 1)%nat with 0%nat in Hz1' by lia.
        rewrite Hz0. congruence.
      * exfalso.
        assert (t_first < t_last)
          by (apply (sorted_nth times Hsorted 0 (length times - 1));
              [lia | assumption | assumption]).
        lra.
    + rewrite Hb1. cbn [Py.bind]. rewrite fle_true by assumption. assumption.
Qed.

(** ** The example data are what the constructors return *)

Lemma dates_check :
  date_new 2024 1 1 = Ok d_2024_01_01 /\ date_new 2025 1 1 = Ok d_2025_01_01
  /\ date_new 2026 1 1 = Ok d_2026_01_01 /\ date_new 2027 1 1 = Ok d_2027_01_01.
Proof. repeat split; vm_compute; reflexivity. Qed.

Lemma test_curve_built :
  YieldCurve_init d_2024_01_01 [d_2025_01_01; d_2026_01_01; d_2027_01_01]
                  [0.02; 0.022; 0.025] ACT_365 log_linear_df cont
  = Ok test_curve.
Proof. unfold YieldCurve_init. py_eval. reflexivity. Qed.

(** C7 on the curve of the tests. *)
Lemma zero_rate_flat_clamping_witness :
  exists t_first z_first t_last z_last,
    nth_error (_pillar_times test_curve) 0 = Some t_first
    /\ nth_error (pillar_zero_rates test_curve) 0 = Some z_first
    /\ nth_error (_pillar_times test_curve)
                 (length (_pillar_times test_curve) - 1) = Some t_last
    /\ nth_error (pillar_zero_rates test_curve)
                 (length (pillar_zero_rates test_curve) - 1) = Some z_last
    /\ (forall t, t <= t_first -> _zero_rate_at_time test_curve t = Ok z_first)
    /\ (forall t, t_last <= t -> _zero_rate_at_time test_curve t = Ok z_last).
Proof.
  exact (zero_rate_flat_clamping _ _ _ _ _ _ _ test_curve_built).
Defined.

Lemma test_model_built :
  HullWhite.HullWhite1F_init test_curve 0.1 0.01 HullWhite.exact ACT_365
  = Ok test_model.
Proof. unfold HullWhite.HullWhite1F_init. py_eval. reflexivity. Qed.

Lemma flat_surface_built :
  VolSurface.VolatilitySurface_init
    d_2024_01_01 [1; 2] [1; 2] [[0.20; 0.21]; [0.22; 0.23]]
    VolSurface.flat VolSurface.extrapolation_flat ACT_365
  = Ok flat_surface.
Proof. unfold VolSurface.VolatilitySurface_init. py_eval. reflexivity. Qed.

Lemma test_model_initial_rate :
  HullWhite._initial_short_rate test_model 0 = Ok 0.02.
Proof.
  unfold HullWhite._initial_short_rate, HullWhite._time_to_date.
  cbn [HullWhite.day_count test_model].
  ftrunc_is (0 * 365) 0%Z.
  unfold zero_rate, _time_from_valuation, year_fraction, days_between.
  py_eval. reflexivity.
Qed.

(** C8 on the model of the tests, with three times and one shock. *)
Lemma simulate_short_rate_path_rejects_witness :
  [0; 0.25; 0.5] <> []
  /\ length [0.5] <> (length [0; 0.25; 0.5]%R - 1)%nat
  /\ raises (fst (HullWhite.simulate_short_rate_path
                    test_model [0; 0.25; 0.5] (Some [0.5]) quiet_rng))
  /\ fst (HullWhite.simulate_short_rate_path
            test_model [0; 0.25; 0.5] (Some [0.5]) quiet_rng)
     = Raise (ValueError "random_shocks must have length {n - 1}.").
Proof.
  assert (Hne : [0; 0.25; 0.5] <> []) by discriminate.
  assert (Hlen : length [0.5] <> (length [0; 0.25; 0.5]%R - 1)%nat)
    by (simpl; lia).
  destruct (simulate_short_rate_path_rejects
              test_model [0; 0.25; 0.5] (Some [0.5]) quiet_rng Hne)
    as [Hraises Hkind].
  - right. right. exists [0.5]. split; [reflexivity | exact Hlen].
  - split; [exact Hne |]. split; [exact Hlen |]. split; [exact Hraises |].
    apply (Hkind [0.5] eq_refl Hlen).
    + simpl. lra.
    + exists 0.02. exact test_model_initial_rate.
Defined.

(** C8, counterexample.  On an empty grid the simulator returns the empty
    path although the supplied shocks do not have [len(times) - 1] entries. *)
Lemma simulate_empty_grid_accepts_any_shocks :
  length [0.5] <> (length (@nil R) - 1)%nat
  /\ HullWhite.simulate_short_rate_path test_model [] (Some [0.5]) quiet_rng
     = (Ok [], quiet_rng).
Proof. split; [simpl; lia | reflexivity]. Qed.

(** C10 on the curve of the tests, from the day before the valuation
    date. *)
Lemma forward_rate_before_valuation_raises_witness :
  date_ltb (Date 738885) (valuation_date test_curve) = true
  /\ raises (forward_rate test_curve (Date 738885) d_2025_01_01).
Proof.
  split; [reflexivity |].
  apply forward_rate_before_valuation_raises. reflexivity.
Defined.

(** ** The volatility surface with flat interpolation *)

(** C9, counterexample.  A surface built with flat interpolation answers two
    in-range queries with different values. *)
Lemma flat_surface_not_constant :
  VolSurface.interpolation flat_surface = VolSurface.flat
  /\ (1 <= 1 <= 2) /\ (1 <= 2 <= 2)
  /\ VolSurface.volatility_at_times flat_surface 1 1 = Ok 0.20
  /\ VolSurface.volatility_at_times flat_surface 2 2 = Ok 0.23
  /\ 0.20 <> 0.23.
Proof.
  split; [reflexivity |]. split; [lra |]. split; [lra |].
  split; [| split]; [| | lra];
    unfold VolSurface.volatility_at_times, VolSurface._find_index;
    py_eval; reflexivity.
Qed.

(** C9, as amended.  With flat interpolation the result depends only on the
    grid cell of the query: two non-negative queries with the same bracketing
    index on the expiry axis and the same bracketing index on the tenor axis
    have the same outcome. *)
Theorem flat_surface_constant_per_cell
        (s : VolSurface.VolatilitySurface) (e1 t1 e2 t2 : R) :
  VolSurface.interpolation s = VolSurface.flat ->
  0 <= e1 -> 0 <= t1 -> 0 <= e2 -> 0 <= t2 ->
  VolSurface._find_index (VolSurface.expiry_times s) e1
  = VolSurface._find_index (VolSurface.expiry_times s) e2 ->
  VolSurface._find_index (VolSurface.tenor_times s) t1
  = VolSurface._find_index (VolSurface.tenor_times s) t2 ->
  VolSurface.volatility_at_times s e1 t1
  = VolSurface.volatility_at_times s e2 t2.
Proof.
  intros Hflat He1 Ht1 He2 Ht2 Hexp Hten.
  unfold VolSurface.volatility_at_times, VolSurface._interpolate_1d.
  rewrite Hflat, Hexp, Hten.
  rewrite (flt_false e1 0), (flt_false t1 0), (flt_false e2 0), (flt_false t2 0)
    by assumption.
  reflexivity.
Qed.

(** C9 on a 2 x 2 surface, for two queries inside its only cell. *)
Lemma flat_surface_constant_per_cell_witness :
  VolSurface.volatility_at_times flat_surface 1.2 1.3
  = VolSurface.volatility_at_times flat_surface 1.7 1.9.
Proof.
  apply flat_surface_constant_per_cell; try lra; try reflexivity;
    unfold VolSurface._find_index; py_eval; reflexivity.
Defined.

(** ** Bond pricing *)

Module BondFacts.

Import HullWhite.

Lemma bond_price_invalid_times (m : HullWhite1F) (t T r_t : R) :
  T < t \/ t < 0 \/ T < 0 -> raises (bond_price m t T r_t).
Proof.
  intros H. unfold bond_price.
  destruct (flt_spec T t) as [Hlt | Hge]; [eexists; reflexivity |].
  destruct H as [H | [H | H]]; [contradiction | |].
  - rewrite (flt_true t 0) by assumption. eexists; reflexivity.
  - rewrite (flt_true T 0) by assumption. rewrite orb_true_r.
    eexists; reflexivity.
Qed.

Lemma bond_price_at_maturity (m : HullWhite1F) (t r_t : R) :
  0 <= t -> bond_price m t t r_t = Ok 1.
Proof.
  intros H. unfold bond_price.
  rewrite (flt_false t t) by lra. rewrite (flt_false t 0) by assumption.
  cbn [orb]. rewrite feq_true by lra. reflexivity.
Qed.

End BondFacts.

(** C4, at the failing input.  With [0 <= t < T] less than a day apart both
    times map to the same calendar date, and [bond_price] raises the
    [ValueError] of [forward_rate]. *)
Theorem bond_price_same_day_raises :
  0 <= 0 < 0.001
  /\ HullWhite.bond_price test_model 0 0.001 0.02
     = Raise (ValueError "end_date must be after start_date.").
Proof.
  split; [lra |].
  unfold HullWhite.bond_price, HullWhite._forward_rate_integral,
    HullWhite._time_to_date.
  cbn [HullWhite.day_count test_model].
  ftrunc_is (0 * 365) 0%Z. ftrunc_is (0.001 * 365) 0%Z.
  unfold discount_factor, forward_rate, _time_from_valuation, year_fraction,
    days_between.
  py_eval. reflexivity.
Qed.

(** ** Stable sorting by a key *)

Module SortFacts.

Section ByKey.

Context {A : Type} (key : A -> Z).

Let key_le (x y : A) : Prop := (key x <= key y)%Z.
Let key_lt (x y : A) : Prop := (key x < key y)%Z.

Lemma insert_by_in (a x : A) (l : list A) :
  In x (insert_by key a l) <-> x = a \/ In x l.
Proof.
  split; intros H.
  - apply (Permutation_in _ (insert_by_perm key a l)) in H.
    destruct H; [left; congruence | right; assumption].
  - apply (Permutation_in _ (Permutation_sym (insert_by_perm key a l))).
    destruct H; [left; congruence | right; assumption].
Qed.

Lemma insert_by_sorted (a : A) (l : list A) :
  StronglySorted key_le l -> StronglySorted key_le (insert_by key a l).
Proof.
  induction 1 as [| b r Hs IH Hall]; simpl.
  - constructor; constructor.
  - destruct (Z.leb_spec (key a) (key b)) as [Hle | Hgt].
    + constructor; [constructor; assumption |].
      constructor; [exact Hle |].
      rewrite Forall_forall in *. intros x Hx. specialize (Hall x Hx).
      unfold key_le in *. lia.
    + constructor; [assumption |].
      rewrite Forall_forall in *. intros x Hx.
      apply insert_by_in in Hx. destruct Hx as [-> | Hx].
      * unfold key_le. lia.
      * apply Hall, Hx.
Qed.

Lemma sorted_is_sorted (l : list A) : StronglySorted key_le (sorted key l).
Proof.
  induction l as [| a r IH]; simpl; [constructor |].
  apply insert_by_sorted, IH.
Qed.

(** With pairwise distinct keys the sorted list is strictly increasing. *)
Lemma sorted_strict (l : list A) :
  NoDup (map key l) -> StronglySorted key_lt (sorted key l).
Proof.
  intros Hnd.
  assert (Hnd' : NoDup (map key (sorted key l))).
  { eapply Permutation_NoDup; [| exact Hnd].
    apply Permutation_map, Permutation_sym, sorted_perm. }
  pose proof (sorted_is_sorted l) as Hs.
  induction Hs as [| a r Hs IH Hall]; [constructor |].
  simpl in Hnd'. inversion Hnd' as [| k ks Hnotin Hnd'']; subst.
  constructor; [apply IH; assumption |].
  rewrite Forall_forall in *. intros x Hx. specialize (Hall x Hx).
  assert (key x <> key a).
  { intros Heq. apply Hnotin. rewrite <- Heq. apply in_map, Hx. }
  unfold key_le, key_lt in *. lia.
Qed.

End ByKey.

Lemma combine_strongly_sorted (dates : list date) (rates : list R) :
  StronglySorted date_lt dates ->
  StronglySorted
    (fun x y : date * R => (toordinal (fst x) < toordinal (fst y))%Z)
    (combine dates rates).
Proof.
  intros H. revert rates.
  induction H as [| d r Hs IH Hall]; intros rates; simpl; [constructor |].
  destruct rates as [| z zs]; [constructor |].
  constructor; [apply IH |].
  rewrite Forall_forall in *. intros [d' z'] Hin.
  apply in_combine_l in Hin. apply (Hall d' Hin).
Qed.

Lemma map_fst_combine {A B : Type} (l : list A) (l' : list B) :
  length l = length l' -> map fst (combine l l') = l.
Proof.
  revert l'. induction l as [| a r IH]; intros [| b r'] H; simpl in *;
    try reflexivity; try discriminate.
  f_equal. apply IH. lia.
Qed.

Lemma map_snd_combine {A B : Type} (l : list A) (l' : list B) :
  length l = length l' -> map snd (combine l l') = l'.
Proof.
  revert l'. induction l as [| a r IH]; intros [| b r'] H; simpl in *;
    try reflexivity; try discriminate.
  f_equal. apply IH. lia.
Qed.

Lemma nth_error_combine {A B : Type} (l : list A) (l' : list B) i a b :
  nth_error l i = Some a -> nth_error l' i = Some b ->
  nth_error (combine l l') i = Some (a, b).
Proof.
  revert l' i. induction l as [| x r IH]; intros [| y r'] [| i] Ha Hb;
    simpl in *; try discriminate.
  - congruence.
  - apply IH; assumption.
Qed.

Lemma in_combine_exists_l {A B : Type} (l : list A) (l' : list B) (b : B) :
  length l = length l' -> In b l' -> exists a, In (a, b) (combine l l').
Proof.
  revert l'. induction l as [| x r IH]; intros [| y r'] Hlen Hin;
    simpl in *; try contradiction; try discriminate.
  destruct Hin as [-> | Hin].
  - exists x. left; reflexivity.
  - destruct (IH r') as [a Ha]; [lia | assumption |]. exists a. right; exact Ha.
Qed.

(** The image of a strictly increasing list under a fallible map that is
    strictly monotone on that list is strictly increasing. *)
Lemma map_result_sorted {A : Type} (lt : A -> A -> Prop)
      (f : A -> result R) (l : list A) (bs : list R) :
  StronglySorted lt l ->
  (forall a b x y, In a l -> In b l -> lt a b ->
                   f a = Ok x -> f b = Ok y -> x < y) ->
  map_result f l = Ok bs -> StronglySorted Rlt bs.
Proof.
  intros Hs. revert bs.
  induction Hs as [| a r Hs IH Hall]; intros bs Hmono Hmap; simpl in Hmap.
  - inversion Hmap; constructor.
  - destruct (f a) as [x |] eqn:Ef; [| discriminate].
    destruct (map_result f r) as [bs' |] eqn:Er; [| discriminate].
    inversion Hmap; subst bs; clear Hmap.
    constructor.
    + apply IH; [| reflexivity].
      intros p q u v Hp Hq. apply Hmono; right; assumption.
    + rewrite Forall_forall. intros y Hy.
      apply In_nth_error in Hy. destruct Hy as [i Hi].
      assert (Hlen : (i < length r)%nat).
      { rewrite <- (map_result_length _ _ _ Er). apply nth_error_Some. congruence. }
      destruct (nth_error r i) as [b |] eqn:Eb;
        [| apply nth_error_None in Eb; lia].
      destruct (map_result_nth _ _ _ _ _ Er Eb) as [y' [Hy' Hfb]].
      assert (y' = y) by congruence. subst y'.
      rewrite Forall_forall in Hall.
      apply (Hmono a b x y); auto.
      * left; reflexivity.
      * right. eapply nth_error_In; eassumption.
      * apply Hall. eapply nth_error_In; eassumption.
Qed.

End SortFacts.

Import SortFacts.

(** ** Curves built from discount factors *)

Module BuilderFacts.

Lemma year_fraction_ok_after val d dc t :
  year_fraction val d dc = Ok t -> date_ltb d val = false.
Proof.
  unfold year_fraction, days_between.
  destruct (date_ltb d val); [discriminate | reflexivity].
Qed.

(** The conversion of one discount factor, when it is accepted. *)
Lemma zero_from_discount_factor_ok val dc comp d df t :
  year_fraction val d dc = Ok t -> 0 < t -> 0 < df < 1 + 1e-12 ->
  zero_from_discount_factor val dc comp (d, df) = Ok (zero_of comp df t).
Proof.
  intros Hyf Ht [Hlo Hhi]. unfold zero_from_discount_factor. cbn [fst snd].
  rewrite Hyf. cbn [Py.bind].
  rewrite (fle_false t 0), (fle_false df 0), (fle_false (1 + 1e-12) df)
    by assumption.
  cbn [orb]. destruct comp; unfold zero_of.
  - rewrite flog_ok by assumption. cbn [Py.bind]. apply fdiv_ok. lra.
  - rewrite fdiv_ok by lra. cbn [Py.bind]. rewrite fdiv_ok by lra. reflexivity.
  - rewrite fdiv_ok by lra. cbn [Py.bind]. rewrite fpow_pos by assumption.
    reflexivity.
Qed.

Lemma zero_from_discount_factor_inv val dc comp d df z :
  zero_from_discount_factor val dc comp (d, df) = Ok z ->
  exists t, year_fraction val d dc = Ok t /\ 0 < t
            /\ 0 < df < 1 + 1e-12 /\ z = zero_of comp df t.
Proof.
  intros H.
  assert (H' := H). unfold zero_from_discount_factor in H'. cbn [fst snd] in H'.
  destruct (year_fraction val d dc) as [t |] eqn:Hyf; [| discriminate].
  cbn [Py.bind] in H'.
  destruct (fle_spec t 0) as [Ht | Ht]; [discriminate |].
  destruct (fle_spec df 0) as [Hd | Hd]; [discriminate |].
  destruct (fle_spec (1 + 1e-12) df) as [Hu | Hu]; [discriminate |].
  clear H'. exists t.
  assert (Hr : 0 < df < 1 + 1e-12) by lra.
  assert (Ht' : 0 < t) by lra.
  rewrite (zero_from_discount_factor_ok val dc comp d df t Hyf Ht' Hr) in H.
  inversion H. auto.
Qed.

Lemma zero_from_discount_factor_rejects val dc comp d df :
  df <= 0 \/ 1 + 1e-12 <= df ->
  raises (zero_from_discount_factor val dc comp (d, df)).
Proof.
  intros Hbad. unfold zero_from_discount_factor. cbn [fst snd].
  destruct (year_fraction val d dc) as [t | e]; [| eexists; reflexivity].
  cbn [Py.bind]. destruct (fle t 0); [eexists; reflexivity |].
  destruct Hbad as [H | H].
  - rewrite (fle_true df 0) by assumption. eexists; reflexivity.
  - rewrite (fle_true (1 + 1e-12) df) by assumption. rewrite orb_true_r.
    eexists; reflexivity.
Qed.

(** Each compounding formula undoes its inverse. *)
Lemma df_from_rate_zero_of (c : YieldCurve) (df t : R) :
  0 < df -> 0 < t ->
  _df_from_rate c (zero_of (compounding c) df t) t = Ok df.
Proof.
  intros Hdf Ht. unfold _df_from_rate, zero_of.
  destruct (compounding c).
  - f_equal. replace (- (- ln df / t) * t) with (ln df) by (field; lra).
    apply exp_ln, Hdf.
  - assert (Hinv : 1 / df <> 0).
    { unfold Rdiv. rewrite Rmult_1_l. apply Rinv_neq_0_compat. lra. }
    replace (1 + (1 / df - 1) / t * t) with (1 / df) by (field; lra).
    rewrite fdiv_ok by exact Hinv. f_equal. field. lra.
  - replace (1 + (Rpower df (-1 / t) - 1)) with (Rpower df (-1 / t)) by ring.
    assert (Hp : 0 < Rpower df (-1 / t)) by (unfold Rpower; apply exp_pos).
    rewrite fpow_pos by exact Hp. cbn [Py.bind].
    rewrite Rpower_mult.
    replace (-1 / t * t) with (- (1)) by (field; lra).
    rewrite Rpower_Ropp, Rpower_1 by assumption.
    rewrite fdiv_ok by (apply Rinv_neq_0_compat; lra).
    f_equal. field. lra.
Qed.

Lemma rate_from_df_zero_of (c : YieldCurve) (df t : R) :
  0 < df -> 0 < t ->
  _rate_from_df c df t = Ok (zero_of (compounding c) df t).
Proof.
  intros Hdf Ht. unfold _rate_from_df, zero_of.
  rewrite feq_false by lra.
  destruct (compounding c).
  - rewrite flog_ok by assumption. cbn [Py.bind]. apply fdiv_ok. lra.
  - rewrite fdiv_ok by lra. cbn [Py.bind]. apply fdiv_ok. lra.
  - rewrite fdiv_ok by lra. cbn [Py.bind]. rewrite fpow_pos by assumption.
    reflexivity.
Qed.

Lemma bisect_right_at_pillar (times : list R) :
  StronglySorted Rlt times ->
  forall i t, nth_error times i = Some t -> bisect_right times t = S i.
Proof.
  induction 1 as [| y r Hs IH Hall]; intros i t Hi.
  - destruct i; discriminate.
  - cbn [bisect_right]. destruct i as [| i]; simpl in Hi.
    + inversion Hi; subst. rewrite flt_false by lra. f_equal.
      destruct r as [| y' r']; [reflexivity |].
      cbn [bisect_right]. inversion Hall; subst.
      rewrite flt_true by assumption. reflexivity.
    + rewrite Forall_forall in Hall.
      assert (y < t) by (apply Hall; eapply nth_error_In; eassumption).
      rewrite flt_false by lra. f_equal. apply IH, Hi.
Qed.

(** On such a curve the zero rate at a pillar time is the pillar's rate, in
    both interpolation modes. *)
Lemma zero_rate_at_pillar (c : YieldCurve) (dfs : list R) i t df :
  pillars_invert c dfs ->
  nth_error (_pillar_times c) i = Some t -> nth_error dfs i = Some df ->
  _zero_rate_at_time c t = Ok (zero_of (compounding c) df t).
Proof.
  intros [Hlt [Hlz [Hpos [Hsorted Hpil]]]] Hti Hdfi.
  destruct (Hpil i t df Hti Hdfi) as [Ht [Hdf Hzi]].
  assert (Hi : (i < length dfs)%nat) by (apply nth_error_Some; congruence).
  set (times := _pillar_times c) in *. set (zeros := pillar_zero_rates c) in *.
  destruct (index_in_range times 0) as [t_first [Ht0 Ht0']]; [lia |].
  destruct (index_in_range times (length times - 1)) as [t_last [Ht1 Ht1']];
    [lia |].
  assert (Hb1 : index_back times 1 = Ok t_last)
    by (apply index_back_ok; split; [lia | assumption]).
  unfold _zero_rate_at_time. fold times. fold zeros.
  rewrite Ht0. cbn [Py.bind].
  destruct (fle_spec t t_first) as [Hle | Hgt].
  { (* at the first pillar *)
    destruct (Nat.eq_dec i 0) as [-> | Hne].
    - apply index_ok. exact Hzi.
    - exfalso.
      assert (t_first < t)
        by (apply (strongly_sorted_nth times Hsorted 0 i); [lia | |]; assumption).
      lra. }
  rewrite Hb1. cbn [Py.bind].
  destruct (fle_spec t_last t) as [Hle | Hlt'].
  { (* at the last pillar *)
    destruct (Nat.eq_dec i (length times - 1)) as [-> | Hne].
    - apply index_back_ok. split; [lia |].
      replace (length zeros - 1)%nat with (length times - 1)%nat by lia.
      exact Hzi.
    - exfalso.
      assert (t < t_last)
        by (apply (strongly_sorted_nth times Hsorted i (length times - 1));
            [lia | |]; assumption).
      lra. }
  (* strictly between the first and the last pillar *)
  assert (Hi0 : i <> 0%nat) by (intros ->; assert (t = t_first) by congruence; lra).
  assert (Hi1 : i <> (length times - 1)%nat)
    by (intros ->; assert (t = t_last) by congruence; lra).
  rewrite (bisect_right_at_pillar times Hsorted i t Hti).
  replace (S i - 1)%nat with i by lia.
  destruct (index_in_range times (S i)) as [t1 [Hn1 Hn1']]; [lia |].
  destruct (nth_error dfs (S i)) as [df1 |] eqn:Hdf1;
    [| apply nth_error_None in Hdf1; lia].
  destruct (Hpil (S i) t1 df1 Hn1' Hdf1) as [Ht1pos [Hdf1pos Hz1]].
  assert (Hlt01 : t < t1)
    by (apply (strongly_sorted_nth times Hsorted i (S i)); [lia | |]; assumption).
  apply index_ok in Hti. apply index_ok in Hzi. apply index_ok in Hz1.
  rewrite Hti, Hn1, Hzi, Hz1. cbn [Py.bind].
  destruct (interpolation c).
  - (* linear on zero rates *)
    f_equal. unfold _linear_interpolate. rewrite feq_false by lra.
    field. lra.
  - (* linear on log discount factors *)
    rewrite !df_from_rate_zero_of by assumption. cbn [Py.bind].
    rewrite !flog_ok by assumption. cbn [Py.bind].
    unfold _linear_interpolate. rewrite feq_false by lra.
    replace ((1 - (t - t) / (t1 - t)) * ln df + (t - t) / (t1 - t) * ln df1)
      with (ln df) by (field; lra).
    rewrite exp_ln by assumption.
    apply rate_from_df_zero_of; assumption.
Qed.

(** What a successful build from discount factors in date order gives. *)
Lemma build_from_discount_factors_ok val dates dfs dc interp comp c :
  StronglySorted date_lt dates ->
  build_yield_curve_from_discount_factors val dates dfs dc interp comp = Ok c ->
  valuation_date c = val /\ YieldCurveM.day_count c = dc
  /\ compounding c = comp /\ interpolation c = interp
  /\ pillar_dates c = dates
  /\ map_result (fun d => year_fraction val d dc) dates = Ok (_pillar_times c)
  /\ pillars_invert c dfs.
Proof.
  intros Hinc Hbuild. unfold build_yield_curve_from_discount_factors in Hbuild.
  destruct (Nat.eqb_spec (length dates) (length dfs)) as [Hlen | Hlen];
    cbn [negb] in Hbuild; [| discriminate].
  destruct (map_result (zero_from_discount_factor val dc comp)
                       (combine dates dfs)) as [zeros |] eqn:Hz;
    [| discriminate].
  cbn [Py.bind] in Hbuild.
  assert (Hlz : length zeros = length dates).
  { rewrite (map_result_length _ _ _ Hz), length_combine. lia. }
  apply YieldCurve_init_ok in Hbuild.
  destruct Hbuild as [Hval Hdates Hrates Hdc Hint Hcomp _ Hne _ _ Htimes Hts].
  rewrite (sorted_increasing_id _ _ (combine_strongly_sorted dates zeros Hinc))
    in Hdates, Hrates.
  rewrite map_fst_combine in Hdates by lia.
  rewrite map_snd_combine in Hrates by lia.
  rewrite Hdates in Htimes.
  repeat (split; [assumption |]).
  assert (Hlt : length (_pillar_times c) = length dates)
    by (apply (map_result_length _ _ _ Htimes)).
  unfold pillars_invert. rewrite Hrates, Hcomp.
  repeat split; try lia.
  - apply sorted_strongly, Hts.
  - destruct (nth_error dates i) as [d |] eqn:Hd.
    + destruct (map_result_nth _ _ _ _ _ Htimes Hd) as [t' [Ht' Hyf]].
      pose proof (nth_error_combine _ _ _ _ _ Hd H0) as Hc.
      destruct (map_result_nth _ _ _ _ _ Hz Hc) as [z [Hzi Hzf]].
      apply zero_from_discount_factor_inv in Hzf.
      destruct Hzf as [t'' [Hyf' [Hpos _]]]. congruence.
    + apply nth_error_None in Hd.
      assert (i < length (_pillar_times c))%nat
        by (apply nth_error_Some; congruence). lia.
  - destruct (nth_error dates i) as [d |] eqn:Hd.
    + pose proof (nth_error_combine _ _ _ _ _ Hd H0) as Hc.
      destruct (map_result_nth _ _ _ _ _ Hz Hc) as [z [Hzi Hzf]].
      apply zero_from_discount_factor_inv in Hzf.
      destruct Hzf as [t'' [_ [_ [Hr _]]]]. lra.
    + apply nth_error_None in Hd.
      assert (i < length (_pillar_times c))%nat
        by (apply nth_error_Some; congruence). lia.
  - destruct (nth_error dates i) as [d |] eqn:Hd.
    + destruct (map_result_nth _ _ _ _ _ Htimes Hd) as [t' [Ht' Hyf]].
      pose proof (nth_error_combine _ _ _ _ _ Hd H0) as Hc.
      destruct (map_result_nth _ _ _ _ _ Hz Hc) as [z [Hzi Hzf]].
      apply zero_from_discount_factor_inv in Hzf.
      destruct Hzf as [t'' [Hyf' [_ [_ ->]]]].
      assert (t'' = t) by congruence. subst t''. exact Hzi.
    + apply nth_error_None in Hd.
      assert (i < length (_pillar_times c))%nat
        by (apply nth_error_Some; congruence). lia.
Qed.

End BuilderFacts.

Import BuilderFacts.

(** C6.  Round trip: when a curve is built from discount factors at strictly
    increasing pillar dates, the discount factor it returns at each of those
    dates is the input discount factor, for every day-count convention, both
    interpolation modes and the three compounding conventions. *)
Theorem discount_factor_round_trip
        (val : date) (dates : list date) (dfs : list R)
        (dc : DayCountConvention) (interp : InterpolationMethod)
        (comp : CompoundingMethod) (c : YieldCurve) :
  StronglySorted date_lt dates ->
  Forall (fun df => 0 < df <= 1) dfs ->
  build_yield_curve_from_discount_factors val dates dfs dc interp comp = Ok c ->
  forall i d df,
    nth_error dates i = Some d -> nth_error dfs i = Some df ->
    discount_factor c d = Ok df.
Proof.
  intros Hinc _ Hbuild i d df Hd Hdf.
  destruct (build_from_discount_factors_ok _ _ _ _ _ _ _ Hinc Hbuild)
    as [Hval [Hdc [Hcomp [_ [_ [Htimes Hpil]]]]]].
  destruct (map_result_nth _ _ _ _ _ Htimes Hd) as [t [Ht Hyf]].
  destruct (proj2 (proj2 (proj2 (proj2 Hpil))) i t df Ht Hdf)
    as [Htpos [Hdfpos _]].
  unfold discount_factor, _time_from_valuation. rewrite Hval, Hdc.
  rewrite (year_fraction_ok_after _ _ _ _ Hyf), Hyf. cbn [Py.bind].
  rewrite feq_false by lra.
  rewrite (zero_rate_at_pillar c dfs i t df Hpil Ht Hdf). cbn [Py.bind].
  apply df_from_rate_zero_of; assumption.
Qed.

Module BuilderTotality.

Lemma strongly_sorted_map {A B : Type} (f : A -> B)
      (ltA : A -> A -> Prop) (ltB : B -> B -> Prop) (l : list A) :
  (forall x y, In x l -> In y l -> ltA x y -> ltB (f x) (f y)) ->
  StronglySorted ltA l -> StronglySorted ltB (map f l).
Proof.
  intros Hf Hs. induction Hs as [| a r Hs IH Hall]; simpl; [constructor |].
  constructor.
  - apply IH. intros x y Hx Hy. apply Hf; right; assumption.
  - rewrite Forall_forall in *. intros y Hy.
    apply in_map_iff in Hy. destruct Hy as [x [<- Hx]].
    apply Hf; [left; reflexivity | right; assumption | apply Hall, Hx].
Qed.

(** The constructor accepts pillars with pairwise distinct dates whose year
    fractions exist and increase strictly with the date. *)
Lemma YieldCurve_init_returns val dates rates dc interp comp :
  length dates = length rates -> dates <> [] ->
  NoDup (map toordinal dates) ->
  (forall d, In d dates -> returns (year_fraction val d dc)) ->
  (forall d1 d2 t1 t2, In d1 dates -> In d2 dates -> date_lt d1 d2 ->
      year_fraction val d1 dc = Ok t1 -> year_fraction val d2 dc = Ok t2 ->
      t1 < t2) ->
  returns (YieldCurve_init val dates rates dc interp comp).
Proof.
  intros Hlen Hne Hnd Hyf Hmono. unfold YieldCurve_init.
  rewrite (proj2 (Nat.eqb_eq _ _) Hlen). cbn [negb].
  destruct (Nat.eqb_spec (length dates) 0) as [Hz | _];
    [destruct dates; [congruence | discriminate] |].
  destruct (existsb (fun d => date_ltb d val) dates) eqn:Hex.
  { exfalso. apply existsb_exists in Hex. destruct Hex as [d [Hd Hlt]].
    destruct (Hyf d Hd) as [t Ht].
    rewrite (year_fraction_ok_after _ _ _ _ Ht) in Hlt. discriminate. }
  set (key := fun x : date * R => toordinal (fst x)).
  set (sp := sorted key (combine dates rates)).
  assert (Hkeys : map key (combine dates rates) = map toordinal dates).
  { unfold key. rewrite <- (map_map fst toordinal).
    rewrite map_fst_combine by assumption. reflexivity. }
  assert (Hsp : StronglySorted (fun x y => (key x < key y)%Z) sp).
  { apply sorted_strict. rewrite Hkeys. exact Hnd. }
  assert (Hin : forall d, In d (map fst sp) -> In d dates).
  { intros d Hd. apply in_map_iff in Hd. destruct Hd as [[d' z] [<- Hp]].
    apply (Permutation_in _ (sorted_perm key (combine dates rates))) in Hp.
    apply in_combine_l in Hp. exact Hp. }
  assert (Hds : StronglySorted date_lt (map fst sp)).
  { apply (strongly_sorted_map fst (fun x y => (key x < key y)%Z)); [| exact Hsp].
    intros x y _ _ H. exact H. }
  assert (Hv1 : _validate_strictly_increasing
                  (map (fun d => IZR (toordinal d)) (map fst sp)) = Ok tt).
  { apply validate_ok_sorted, StronglySorted_Sorted.
    apply (strongly_sorted_map _ date_lt); [| exact Hds].
    intros x y _ _ H. apply IZR_lt. exact H. }
  rewrite Hv1. cbn [Py.bind].
  destruct (map_result_all_ok (fun d => year_fraction val d dc) (map fst sp))
    as [times Htimes].
  { intros d Hd. apply Hyf, Hin, Hd. }
  rewrite Htimes. cbn [Py.bind].
  assert (Hv2 : _validate_strictly_increasing times = Ok tt).
  { apply validate_ok_sorted, StronglySorted_Sorted.
    apply (map_result_sorted date_lt (fun d => year_fraction val d dc)
                             (map fst sp) times Hds); [| exact Htimes].
    intros a b x y Ha Hb. apply Hmono; apply Hin; assumption. }
  rewrite Hv2. cbn [Py.bind]. eexists; reflexivity.
Qed.

Lemma build_from_discount_factors_returns val dates dfs dc interp comp :
  length dates = length dfs -> dates <> [] ->
  NoDup (map toordinal dates) ->
  (forall d, In d dates -> exists t, year_fraction val d dc = Ok t /\ 0 < t) ->
  (forall d1 d2 t1 t2, In d1 dates -> In d2 dates -> date_lt d1 d2 ->
      year_fraction val d1 dc = Ok t1 -> year_fraction val d2 dc = Ok t2 ->
      t1 < t2) ->
  Forall df_accepted dfs ->
  returns (build_yield_curve_from_discount_factors val dates dfs dc interp comp).
Proof.
  intros Hlen Hne Hnd Hyf Hmono Hall.
  unfold build_yield_curve_from_discount_factors.
  rewrite (proj2 (Nat.eqb_eq _ _) Hlen). cbn [negb].
  destruct (map_result_all_ok (zero_from_discount_factor val dc comp)
                              (combine dates dfs)) as [zeros Hz].
  { intros [d df] Hin.
    destruct (Hyf d (in_combine_l _ _ _ _ Hin)) as [t [Ht Hpos]].
    rewrite Forall_forall in Hall.
    exists (zero_of comp df t).
    apply zero_from_discount_factor_ok; try assumption.
    apply Hall. eapply in_combine_r; eassumption. }
  rewrite Hz. cbn [Py.bind].
  apply YieldCurve_init_returns; try assumption.
  - rewrite (map_result_length _ _ _ Hz), length_combine. lia.
  - intros d Hd. destruct (Hyf d Hd) as [t [Ht _]]. exists t. exact Ht.
Qed.

Lemma build_from_discount_factors_rejects val dates dfs dc interp comp :
  length dates = length dfs -> Exists df_rejected dfs ->
  raises (build_yield_curve_from_discount_factors val dates dfs dc interp comp).
Proof.
  intros Hlen Hex. unfold build_yield_curve_from_discount_factors.
  rewrite (proj2 (Nat.eqb_eq _ _) Hlen). cbn [negb].
  apply bind_raises_l, map_result_some_raises.
  apply Exists_exists in Hex. destruct Hex as [df [Hin Hbad]].
  destruct (in_combine_exists_l dates dfs df Hlen Hin) as [d Hd].
  exists (d, df). split; [exact Hd |].
  apply zero_from_discount_factor_rejects, Hbad.
Qed.

Lemma df_accepted_or_rejected (df : R) : df_accepted df \/ df_rejected df.
Proof. unfold df_accepted, df_rejected. lra. Qed.

Lemma df_not_both (df : R) : df_accepted df -> df_rejected df -> False.
Proof. unfold df_accepted, df_rejected. lra. Qed.

Lemma all_accepted_or_some_rejected (dfs : list R) :
  Forall df_accepted dfs \/ Exists df_rejected dfs.
Proof.
  induction dfs as [| df r IH]; [left; constructor |].
  destruct (df_accepted_or_rejected df) as [Ha | Hr];
    [| right; constructor; exact Hr].
  destruct IH as [IH | IH]; [left | right]; constructor; assumption.
Qed.

(** Under the actual-day conventions the year fraction of a date on or after
    the valuation date is the number of days over the basis. *)
Lemma actual_year_fraction val d dc basis :
  actual_basis dc = Some basis -> date_ltb d val = false ->
  year_fraction val d dc = Ok (IZR (days_diff d val) / basis) /\ 0 < basis.
Proof.
  intros Hb Hd. unfold year_fraction, days_between. rewrite Hd.
  destruct dc; simpl in Hb; inversion Hb; subst; split; try reflexivity; lra.
Qed.

Lemma actual_year_fraction_positive val d dc basis :
  actual_basis dc = Some basis -> date_lt val d ->
  exists t, year_fraction val d dc = Ok t /\ 0 < t.
Proof.
  intros Hb Hlt. unfold date_lt in Hlt.
  destruct (actual_year_fraction val d dc basis Hb) as [Hyf Hpos].
  { unfold date_ltb. apply Z.ltb_ge. lia. }
  eexists. split; [exact Hyf |].
  apply Rdiv_lt_0_compat; [| exact Hpos].
  apply IZR_lt. unfold days_diff. lia.
Qed.

Lemma actual_year_fraction_monotone val d1 d2 dc basis t1 t2 :
  actual_basis dc = Some basis -> date_lt d1 d2 ->
  year_fraction val d1 dc = Ok t1 -> year_fraction val d2 dc = Ok t2 ->
  t1 < t2.
Proof.
  intros Hb Hlt H1 H2. unfold date_lt in Hlt.
  destruct (actual_year_fraction val d1 dc basis Hb
              (year_fraction_ok_after _ _ _ _ H1)) as [E1 Hpos].
  destruct (actual_year_fraction val d2 dc basis Hb
              (year_fraction_ok_after _ _ _ _ H2)) as [E2 _].
  rewrite E1 in H1. rewrite E2 in H2. inversion H1; inversion H2; subst.
  apply Rmult_lt_compat_r; [apply Rinv_0_lt_compat, Hpos |].
  apply IZR_lt. unfold days_diff. lia.
Qed.

End BuilderTotality.

Import BuilderTotality.

(** C5, as amended.  Given inputs of equal, non-zero length whose pillar
    dates are pairwise distinct and whose year fractions are positive and
    increase strictly with the date, the builder raises whenever some discount
    factor is [<= 0] or [>= 1 + 1e-12], under every compounding; under
    continuous and simple compounding it raises only then, so that it succeeds
    when every discount factor lies in (0, 1].  Nothing is said of success
    under annual compounding, where the power [df ** (-1 / t)] can leave the
    range of floats. *)
Theorem build_from_discount_factors_fails_iff
        (val : date) (dates : list date) (dfs : list R)
        (dc : DayCountConvention) (interp : InterpolationMethod)
        (comp : CompoundingMethod) :
  length dates = length dfs -> dates <> [] ->
  NoDup (map toordinal dates) ->
  (forall d, In d dates -> exists t, year_fraction val d dc = Ok t /\ 0 < t) ->
  (forall d1 d2 t1 t2, In d1 dates -> In d2 dates -> date_lt d1 d2 ->
      year_fraction val d1 dc = Ok t1 -> year_fraction val d2 dc = Ok t2 ->
      t1 < t2) ->
  (Exists df_rejected dfs ->
   raises (build_yield_curve_from_discount_factors val dates dfs dc interp comp))
  /\ (comp <> annual ->
      (raises (build_yield_curve_from_discount_factors
                 val dates dfs dc interp comp)
       <-> Exists df_rejected dfs)
      /\ (Forall (fun df => 0 < df <= 1) dfs ->
          returns (build_yield_curve_from_discount_factors
                     val dates dfs dc interp comp))).
Proof.
  intros Hlen Hne Hnd Hyf Hmono.
  split; [apply build_from_discount_factors_rejects, Hlen |].
  intros _. split; [split |].
  - intros Hr. destruct (all_accepted_or_some_rejected dfs) as [Hall | Hex];
      [| exact Hex].
    exfalso.
    destruct (build_from_discount_factors_returns
                val dates dfs dc interp comp Hlen Hne Hnd Hyf Hmono Hall)
      as [c Hc].
    eapply raises_not_ok; eassumption.
  - apply build_from_discount_factors_rejects, Hlen.
  - intros Hall.
    apply build_from_discount_factors_returns; try assumption.
    eapply Forall_impl; [| exact Hall].
    intros df [H0 H1]. unfold df_accepted. lra.
Qed.

(** ** The exact scheme *)

Module ExactFacts.

Import HullWhite.

(** [_theta_integral] is the composite trapezoidal rule with 10
    sub-intervals, and it evaluates the drift at the 11 nodes. *)
Lemma theta_integral_trapezoid (m : HullWhite1F) (s t v : R) :
  _theta_integral m s t = Ok v ->
  v = composite_trapezoid (theta_value m) 10 s t
  /\ forall k, (k <= 10)%nat -> returns (_theta m (s + INR k * ((t - s) / 10))).
Proof.
  unfold _theta_integral. intros H.
  apply bind_ok_inv in H. destruct H as [integral [Hloop Hv]].
  inversion Hv; subst v; clear Hv.
  assert (H10 : INR 10 = 10) by (simpl; lra).
  cbn [for_range Nat.add Nat.eqb orb] in Hloop. rewrite H10 in Hloop.
  set (h := (t - s) / 10) in *.
  repeat match type of Hloop with
         | context [_theta m ?x] =>
             let th := fresh "th" in
             let E := fresh "E" in
             destruct (_theta m x) as [th |] eqn:E;
             [cbn [Py.bind] in Hloop | discriminate]
         end.
  inversion Hloop; subst integral; clear Hloop.
  split.
  - unfold composite_trapezoid. rewrite H10. fold h.
    cbn [Nat.sub seq map fold_right].
    unfold theta_value.
    replace (_theta m s) with (_theta m (s + INR 0 * h))
      by (f_equal; simpl; ring).
    replace (_theta m t) with (_theta m (s + 10 * h))
      by (f_equal; unfold h; field).
    rewrite E, E0, E1, E2, E3, E4, E5, E6, E7, E8, E9.
    unfold h. field.
  - intros k Hk. rewrite <- H10 in E9 at 1. subst h.
    do 11 (destruct k as [| k]; [eexists; eassumption |]). lia.
Qed.

(** What one pass of the loop of [_simulate_exact] stores. *)
Lemma exact_step_ok (m : HullWhite1F) (times shocks rates rates' : list R)
      (i : nat) :
  exact_step m times shocks (S i) rates = Ok rates' ->
  exists t_prev t_i r_prev shock,
    nth_error times i = Some t_prev /\ nth_error times (S i) = Some t_i
    /\ nth_error rates i = Some r_prev /\ nth_error shocks i = Some shock
    /\ t_prev < t_i
    /\ (forall k, (k <= 10)%nat ->
                  returns (_theta m (t_prev + INR k * ((t_i - t_prev) / 10))))
    /\ store rates (S i) (exact_next_rate m r_prev t_prev t_i shock) = Ok rates'.
Proof.
  unfold exact_step. replace (S i - 1)%nat with i by lia. intros H.
  apply bind_ok_inv in H. destruct H as [t_i [Hti H]].
  apply bind_ok_inv in H. destruct H as [t_prev [Htp H]].
  destruct (fle_spec (t_i - t_prev) 0) as [Hle | Hgt]; [discriminate |].
  apply bind_ok_inv in H. destruct H as [r_prev [Hr H]].
  apply bind_ok_inv in H. destruct H as [drift [Hd H]].
  apply bind_ok_inv in H. destruct H as [c [Hc H]].
  apply bind_ok_inv in H. destruct H as [sd [Hsd H]].
  apply bind_ok_inv in H. destruct H as [shock [Hsh H]].
  apply index_ok in Hti, Htp, Hr, Hsh.
  destruct (theta_integral_trapezoid m t_prev t_i drift Hd) as [-> Hnodes].
  unfold fdiv in Hc. destruct (feq (2 * mean_reversion m) 0); [discriminate |].
  inversion Hc; subst c; clear Hc.
  unfold fsqrt in Hsd.
  destruct (flt _ 0) in Hsd; [discriminate |].
  inversion Hsd; subst sd; clear Hsd.
  exists t_prev, t_i, r_prev, shock.
  repeat (split; [assumption || lra |]).
  exact H.
Qed.

Lemma exact_prefix_step (m : HullWhite1F) (times shocks : list R) (n k : nat)
      (x y : list R) :
  (1 <= k)%nat -> exact_prefix m times shocks n k x ->
  exact_step m times shocks k x = Ok y ->
  exact_prefix m times shocks n (S k) y.
Proof.
  intros Hk [Hlen Hpre] Hstep.
  destruct k as [| k]; [lia |].
  destruct (exact_step_ok _ _ _ _ _ _ Hstep)
    as [t_prev [t_i [r_prev [shock [H1 [H2 [H3 [H4 [_ [H5 H6]]]]]]]]]].
  split; [rewrite (store_length _ _ _ _ H6); exact Hlen |].
  intros i Hi.
  destruct (Nat.eq_dec i k) as [-> | Hne].
  - exists t_prev, t_i, r_prev, shock.
    split; [exact H1 |]. split; [exact H2 |].
    split; [rewrite (store_other _ _ _ k _ H6) by lia; exact H3 |].
    split; [exact H4 |].
    split; [exact (store_same _ _ _ _ H6) | exact H5].
  - destruct (Hpre i) as [a [b [r [s [Ha [Hb [Hr [Hs [Hn Hth]]]]]]]]]; [lia |].
    exists a, b, r, s.
    split; [exact Ha |]. split; [exact Hb |].
    split; [rewrite (store_other _ _ _ i _ H6) by lia; exact Hr |].
    split; [exact Hs |].
    split; [rewrite (store_other _ _ _ (S i) _ H6) by lia; exact Hn |].
    exact Hth.
Qed.

Lemma simulate_exact_ok (m : HullWhite1F) (times shocks rates : list R)
      (r0 : R) (g g' : rng_state) :
  _simulate_exact m times r0 (Some shocks) g = (Ok rates, g') ->
  exact_prefix m times shocks (length times) (length times) rates.
Proof.
  unfold _simulate_exact, simulate_with, shocks_for. intros H.
  destruct (negb (Z.of_nat (length shocks) =? Z.of_nat (length times) - 1)%Z);
    cbn [fst snd Py.bind] in H; [discriminate |].
  inversion H as [[Hrun Hg]]; clear H.
  apply bind_ok_inv in Hrun. destruct Hrun as [rates0 [Hst Hloop]].
  destruct times as [| t0 rest]; [discriminate |].
  cbn [length] in *. replace (S (length rest) - 1)%nat with (length rest) in Hloop by lia.
  pose proof (for_range_invariant
                (exact_step m (t0 :: rest) shocks)
                (fun k rs => (1 <= k)%nat
                             /\ exact_prefix m (t0 :: rest) shocks
                                             (S (length rest)) k rs)
                (length rest) 1 rates0 rates) as Hinv.
  destruct Hinv as [_ Hfinal]; [| | exact Hloop | exact Hfinal].
  - split; [lia |]. split; [| intros i Hi; lia].
    rewrite (store_length _ _ _ _ Hst). apply repeat_length.
  - intros i x y Hi [Hk Hp] Hbody. split; [lia |].
    eapply exact_prefix_step; eassumption.
Qed.

End ExactFacts.

Import ExactFacts.

(** C3.  Under the exact scheme, whenever [simulate_short_rate_path] returns
    a path for supplied shocks, every step [i -> i + 1] of the path satisfies
    [r_next = r_prev * exp(-a dt)
              + trapezoid_10(theta, t_prev, t_i)
              + sqrt((sigma^2 / (2 a)) (1 - exp(-2 a dt))) * shock_i],
    where the drift integral is the composite trapezoidal rule with exactly 10
    sub-intervals over the drift values that [_theta] returns at the 11
    nodes. *)
Theorem exact_scheme_step
        (m : HullWhite.HullWhite1F) (times shocks rates : list R)
        (g g' : HullWhite.rng_state) :
  HullWhite.scheme m = HullWhite.exact ->
  HullWhite.simulate_short_rate_path m times (Some shocks) g = (Ok rates, g') ->
  length rates = length times
  /\ forall i t_prev t_i,
      nth_error times i = Some t_prev -> nth_error times (S i) = Some t_i ->
      exists r_prev shock,
        nth_error rates i = Some r_prev /\ nth_error shocks i = Some shock
        /\ t_prev < t_i
        /\ (forall k, (k <= 10)%nat ->
              returns (HullWhite._theta
                         m (t_prev + INR k * ((t_i - t_prev) / 10))))
        /\ nth_error rates (S i)
           = Some (exact_next_rate m r_prev t_prev t_i shock).
Proof.
  intros Hscheme Hrun. unfold HullWhite.simulate_short_rate_path in Hrun.
  destruct times as [| t0 rest].
  { inversion Hrun; subst. split; [reflexivity |].
    intros i t_prev t_i Hi. destruct i; discriminate. }
  destruct (flt t0 0); [discriminate |].
  destruct (HullWhite._initial_short_rate m t0) as [r0 |]; [| discriminate].
  rewrite Hscheme in Hrun.
  destruct (simulate_exact_ok _ _ _ _ _ _ _ Hrun) as [Hlen Hsteps].
  split; [exact Hlen |].
  intros i t_prev t_i Hp Hi.
  assert (Hlt : (S i < length (t0 :: rest))%nat)
    by (apply nth_error_Some; congruence).
  destruct (Hsteps i Hlt) as [a [b [r [s [Ha [Hb [Hr [Hs [Hn Hth]]]]]]]]].
  assert (a = t_prev) by congruence. assert (b = t_i) by congruence. subst a b.
  exists r, s. repeat (split; [assumption |]).
  split; [| split; assumption].
  (* the times of a returned path increase *)
  destruct (Rlt_dec t_prev t_i) as [Hinc | Hdec]; [exact Hinc |].
  exfalso.
  assert (Hr' : raises (fst (HullWhite._simulate_exact
                               m (t0 :: rest) r0 (Some shocks) g))).
  { apply simulate_with_unsorted; [apply exact_step_rejects |].
    intros Hsorted.
    pose proof (sorted_nth _ Hsorted i (S i) t_prev t_i) as Hx.
    apply Hdec, Hx; [lia | assumption | assumption]. }
  rewrite Hrun in Hr'. destruct Hr' as [e He]. discriminate.
Qed.

(** ** When the simulator returns *)

Module Totality.

Import HullWhite.

Lemma ftrunc_bounds (x : R) :
  0 <= x -> IZR (ftrunc x) <= x < IZR (ftrunc x) + 1 /\ (0 <= ftrunc x)%Z.
Proof.
  intros Hx. unfold ftrunc. rewrite fle_true by assumption.
  destruct (base_Int_part x) as [H1 H2].
  split; [lra |].
  destruct (Z.le_gt_cases 0 (Int_part x)) as [Hz | Hz]; [exact Hz |].
  exfalso. assert (Hm : (Int_part x <= -1)%Z) by lia.
  apply IZR_le in Hm. lra.
Qed.

Lemma ftrunc_mono (x y : R) : 0 <= x <= y -> (ftrunc x <= ftrunc y)%Z.
Proof.
  intros [Hx Hxy].
  destruct (ftrunc_bounds x Hx) as [[H1 H2] _].
  destruct (ftrunc_bounds y) as [[H3 H4] _]; [lra |].
  assert (H : (ftrunc x < ftrunc y + 1)%Z)
    by (apply lt_IZR; rewrite plus_IZR; lra).
  lia.
Qed.

Lemma ftrunc_jump (x y : R) : 0 <= x -> x + 1 <= y -> (ftrunc x < ftrunc y)%Z.
Proof.
  intros Hx Hxy.
  destruct (ftrunc_bounds x Hx) as [[H1 H2] _].
  destruct (ftrunc_bounds y) as [[H3 H4] _]; [lra |].
  apply lt_IZR. lra.
Qed.

Lemma bisect_right_le_length (l : list R) (t : R) :
  (bisect_right l t <= length l)%nat.
Proof.
  induction l as [| y r IH]; simpl; [lia |]. destruct (flt t y); lia.
Qed.

Lemma bisect_right_lt_length (l : list R) (t last : R) :
  nth_error l (length l - 1) = Some last -> t < last ->
  (bisect_right l t < length l)%nat.
Proof.
  induction l as [| y r IH]; intros Hlast Hlt; [discriminate |].
  cbn [bisect_right length]. destruct (flt_spec t y) as [H | H]; [lia |].
  destruct r as [| y' r'].
  - simpl in Hlast. inversion Hlast; subst. lra.
  - assert (bisect_right (y' :: r') t < length (y' :: r'))%nat; [| lia].
    apply IH; [| exact Hlt].
    cbn [length] in *. replace (S (S (length r')) - 1)%nat
      with (S (length r')) in Hlast by lia.
    simpl in Hlast. replace (S (length r') - 1)%nat with (length r') by lia.
    exact Hlast.
Qed.

Lemma bisect_right_pos (l : list R) (t first : R) :
  nth_error l 0 = Some first -> first < t -> (1 <= bisect_right l t)%nat.
Proof.
  destruct l as [| y r]; intros Hf Hlt; [discriminate |].
  simpl in Hf. inversion Hf; subst. cbn [bisect_right].
  rewrite flt_false by lra. lia.
Qed.

Section Curve.

Variables (val : date) (dates : list date) (rates : list R)
          (dc : DayCountConvention) (interp : InterpolationMethod)
          (c : YieldCurve) (basis : R).

Hypothesis Hinit : YieldCurve_init val dates rates dc interp cont = Ok c.
Hypothesis Hbasis : actual_basis dc = Some basis.

Lemma zero_rate_at_time_returns (t : R) :
  t <> 0 -> returns (_zero_rate_at_time c t).
Proof.
  intros Ht. pose proof (YieldCurve_init_ok _ _ _ _ _ _ _ Hinit) as Hc.
  destruct (constructed_lengths _ _ _ _ _ _ _ Hc) as [Hlz [Hlt _]].
  pose proof (c_nonempty _ _ _ _ _ _ _ Hc) as Hne.
  pose proof (c_compounding _ _ _ _ _ _ _ Hc) as Hcomp.
  set (times := _pillar_times c) in *. set (zeros := pillar_zero_rates c) in *.
  destruct (index_in_range times 0) as [t_first [Ht0 Ht0']]; [lia |].
  destruct (index_in_range zeros 0) as [z_first [Hz0 _]]; [lia |].
  destruct (index_in_range times (length times - 1)) as [t_last [_ Ht1']];
    [lia |].
  destruct (index_in_range zeros (length zeros - 1)) as [z_last [_ Hz1']];
    [lia |].
  assert (Hb1 : index_back times 1 = Ok t_last)
    by (apply index_back_ok; split; [lia | assumption]).
  assert (Hb2 : index_back zeros 1 = Ok z_last)
    by (apply index_back_ok; split; [lia | assumption]).
  unfold _zero_rate_at_time. fold times. fold zeros.
  rewrite Ht0. cbn [Py.bind].
  destruct (fle_spec t t_first) as [Hle | Hgt]; [eexists; eassumption |].
  rewrite Hb1. cbn [Py.bind].
  destruct (fle_spec t_last t) as [Hle | Hlt']; [eexists; eassumption |].
  assert (Hlo : (1 <= bisect_right times t)%nat)
    by (apply (bisect_right_pos times t t_first Ht0'); lra).
  assert (Hhi : (bisect_right times t < length times)%nat)
    by (apply (bisect_right_lt_length times t t_last Ht1'); lra).
  set (idx := bisect_right times t) in *.
  destruct (index_in_range times (idx - 1)) as [t0 [E0 _]]; [lia |].
  destruct (index_in_range times idx) as [t1 [E1 _]]; [lia |].
  destruct (index_in_range zeros (idx - 1)) as [z0 [F0 _]]; [lia |].
  destruct (index_in_range zeros idx) as [z1 [F1 _]]; [lia |].
  rewrite E0, E1, F0, F1. cbn [Py.bind].
  destruct (interpolation c); [eexists; reflexivity |].
  unfold _df_from_rate, _rate_from_df. rewrite Hcomp. cbn [Py.bind].
  rewrite !flog_ok by apply exp_pos. cbn [Py.bind].
  rewrite feq_false by assumption.
  rewrite flog_ok by apply exp_pos. cbn [Py.bind].
  rewrite fdiv_ok by assumption. eexists; reflexivity.
Qed.

Lemma curve_discount_factor_returns (d : date) :
  date_ltb d val = false ->
  exists v, YieldCurveM.discount_factor c d = Ok v /\ 0 < v.
Proof.
  intros Hd. pose proof (YieldCurve_init_ok _ _ _ _ _ _ _ Hinit) as Hc.
  unfold YieldCurveM.discount_factor, _time_from_valuation.
  rewrite (c_valuation _ _ _ _ _ _ _ Hc), (c_day_count _ _ _ _ _ _ _ Hc), Hd.
  destruct (actual_year_fraction val d dc basis Hbasis Hd) as [Hyf _].
  rewrite Hyf. cbn [Py.bind].
  destruct (feq_spec (IZR (days_diff d val) / basis) 0) as [Hz | Hnz].
  - exists 1. split; [reflexivity | lra].
  - destruct (zero_rate_at_time_returns _ Hnz) as [r Hr]. rewrite Hr.
    cbn [Py.bind]. unfold _df_from_rate.
    rewrite (c_compounding _ _ _ _ _ _ _ Hc).
    eexists. split; [reflexivity | apply exp_pos].
Qed.

Lemma curve_forward_rate_returns (start_date end_date : date) :
  (toordinal val <= toordinal start_date < toordinal end_date)%Z ->
  returns (forward_rate c start_date end_date).
Proof.
  intros [H1 H2]. pose proof (YieldCurve_init_ok _ _ _ _ _ _ _ Hinit) as Hc.
  unfold forward_rate.
  replace (date_leb end_date start_date) with false
    by (symmetry; apply Z.leb_gt; lia).
  destruct (curve_discount_factor_returns start_date) as [v1 [E1 P1]];
    [apply Z.ltb_ge; lia |].
  destruct (curve_discount_factor_returns end_date) as [v2 [E2 P2]];
    [apply Z.ltb_ge; lia |].
  rewrite E1, E2. cbn [Py.bind].
  rewrite (c_day_count _ _ _ _ _ _ _ Hc).
  destruct (actual_year_fraction start_date end_date dc basis Hbasis)
    as [Hyf Hpos]; [apply Z.ltb_ge; lia |].
  rewrite Hyf. cbn [Py.bind].
  rewrite fdiv_ok by lra. cbn [Py.bind].
  rewrite fdiv_ok; [eexists; reflexivity |].
  assert (0 < IZR (days_diff end_date start_date) / basis); [| lra].
  apply Rdiv_lt_0_compat; [| exact Hpos].
  apply IZR_lt. unfold days_diff. lia.
Qed.

Lemma curve_zero_rate_returns (d : date) :
  date_ltb d val = false -> returns (zero_rate c d).
Proof.
  intros Hd. pose proof (YieldCurve_init_ok _ _ _ _ _ _ _ Hinit) as Hc.
  unfold zero_rate, _time_from_valuation.
  rewrite (c_valuation _ _ _ _ _ _ _ Hc), (c_day_count _ _ _ _ _ _ _ Hc), Hd.
  destruct (actual_year_fraction val d dc basis Hbasis Hd) as [Hyf _].
  rewrite Hyf. cbn [Py.bind].
  destruct (feq_spec (IZR (days_diff d val) / basis) 0) as [Hz | Hnz].
  - destruct (constructed_lengths _ _ _ _ _ _ _ Hc) as [Hlz _].
    pose proof (c_nonempty _ _ _ _ _ _ _ Hc) as Hne.
    destruct (index_in_range (pillar_zero_rates c) 0) as [z [Hz0 _]]; [lia |].
    eexists; eassumption.
  - apply zero_rate_at_time_returns, Hnz.
Qed.

End Curve.

Lemma days_per_year_bounds (m : HullWhite1F) : 360 <= days_per_year m <= 365.
Proof. unfold days_per_year. destruct (day_count m); lra. Qed.

Lemma time_to_date_eq (m : HullWhite1F) (t : R) :
  _time_to_date m t
  = add_days (valuation_date (yield_curve m)) (ftrunc (t * days_per_year m)).
Proof. unfold _time_to_date, days_per_year. destruct (day_count m); reflexivity. Qed.

Lemma time_to_date_ok (m : HullWhite1F) (t : R) (bound : Z) :
  (1 <= toordinal (valuation_date (yield_curve m)))%Z ->
  0 <= t ->
  (ftrunc (t * days_per_year m) <= bound)%Z ->
  (toordinal (valuation_date (yield_curve m)) + bound <= MAXORDINAL)%Z ->
  _time_to_date m t
  = Ok (Date (toordinal (valuation_date (yield_curve m))
              + ftrunc (t * days_per_year m))).
Proof.
  intros Hv Ht Hb Hmax. rewrite time_to_date_eq. unfold add_days.
  pose proof (days_per_year_bounds m) as HK.
  destruct (ftrunc_bounds (t * days_per_year m)) as [_ Hn]; [nra |].
  replace (1 <=? _)%Z with true by (symmetry; apply Z.leb_le; lia).
  replace (_ <=? MAXORDINAL)%Z with true by (symmetry; apply Z.leb_le; lia).
  reflexivity.
Qed.

Lemma fmax_cases (x y : R) :
  (fmax x y = x /\ y <= x) \/ (fmax x y = y /\ x < y).
Proof. unfold fmax. destruct (flt_spec x y); [right | left]; split; lra || reflexivity. Qed.

(** [_theta] returns at every non-negative time whose horizon is a date. *)
Lemma theta_returns (m : HullWhite1F) (t : R) :
  continuous_model m -> 0 <= t ->
  (theta_horizon m t <= MAXORDINAL)%Z ->
  returns (_theta m t).
Proof.
  intros [Ha [Hcomp [[basis Hbasis] [Hv [dates [rates Hinit]]]]]] Ht Hmax.
  unfold theta_horizon in Hmax.
  pose proof (days_per_year_bounds m) as HK.
  set (K := days_per_year m) in *.
  set (v := toordinal (valuation_date (yield_curve m))) in *.
  set (eps := fmax 1e-4 (t * 1e-6)).
  set (w1 := fmax 0.01 (t * 0.01)).
  set (w2 := fmax 0.02 (t * 0.02)) in *.
  assert (He : 1e-4 <= eps /\ (eps = 1e-4 \/ eps = t * 1e-6))
    by (unfold eps; destruct (fmax_cases 1e-4 (t * 1e-6)) as [[-> ?] | [-> ?]]; lra).
  assert (Hw1 : 0.01 <= w1 /\ t * 0.01 <= w1)
    by (unfold w1; destruct (fmax_cases 0.01 (t * 0.01)) as [[-> ?] | [-> ?]]; lra).
  assert (Hw2 : 0.02 <= w2 /\ t * 0.02 <= w2
                /\ (w2 = 0.02 \/ w2 = t * 0.02))
    by (unfold w2; destruct (fmax_cases 0.02 (t * 0.02)) as [[-> ?] | [-> ?]]; lra).
  assert (Hw12 : w1 + 0.01 <= w2).
  { unfold w1, w2. destruct (fmax_cases 0.01 (t * 0.01)) as [[-> ?] | [-> ?]];
      destruct (fmax_cases 0.02 (t * 0.02)) as [[-> ?] | [-> ?]]; lra. }
  assert (He2 : 2 * eps + 0.01 <= w2) by (destruct He as [? [-> | ->]]; lra).
  set (top := ftrunc ((t + w2) * K)) in *.
  assert (Hle : forall x, 0 <= x <= t + w2 -> (ftrunc (x * K) <= top)%Z)
    by (intros x Hx; apply ftrunc_mono; nra).
  assert (Hdate : forall x, 0 <= x <= t + w2 ->
                  _time_to_date m x = Ok (Date (v + ftrunc (x * K)))).
  { intros x Hx. apply (time_to_date_ok m x top); try assumption; try lra.
    apply Hle, Hx. }
  assert (Hfwd : forall x y, 0 <= x -> x <= t + w2 -> y <= t + w2 ->
                 (ftrunc (x * K) < ftrunc (y * K))%Z ->
                 returns (forward_rate (yield_curve m)
                                       (Date (v + ftrunc (x * K)))
                                       (Date (v + ftrunc (y * K))))).
  { intros x y Hx0 Hx Hy Hlt.
    apply (curve_forward_rate_returns _ _ _ _ _ _ basis Hinit Hbasis).
    cbn [toordinal]. fold v.
    destruct (ftrunc_bounds (x * K)) as [_ Hn]; [nra |]. lia. }
  unfold _theta. fold eps w1 w2.
  rewrite (Hdate t) by lra. cbn [Py.bind].
  rewrite (Hdate (t + eps)) by lra. cbn [Py.bind].
  unfold date_leb at 1. cbn [toordinal].
  (* the date at [t + eps], widened if it is the date at [t] *)
  assert (H1 : exists x1,
             t <= x1 /\ x1 <= t + w1 /\ (x1 = t + eps \/ x1 = t + w1)
             /\ (ftrunc (t * K) < ftrunc (x1 * K))%Z
             /\ (if (v + ftrunc ((t + eps) * K) <=? v + ftrunc (t * K))%Z
                 then _time_to_date m (t + w1)
                 else Ok (Date (v + ftrunc ((t + eps) * K))))
                = Ok (Date (v + ftrunc (x1 * K)))).
  { destruct (Z.leb_spec (v + ftrunc ((t + eps) * K)) (v + ftrunc (t * K)))
      as [Hsame | Hdiff].
    - exists (t + w1). repeat split; try lra; [| apply Hdate; lra].
      apply ftrunc_jump; nra.
    - exists (t + eps). repeat split; try lra; try lia. }
  destruct H1 as [x1 [Hx1a [Hx1b [Hx1c [Hx1d ->]]]]]. cbn [Py.bind].
  destruct (Hfwd t x1) as [f_t Hft]; try lra; [exact Hx1d |].
  rewrite Hft. cbn [Py.bind].
  rewrite (Hdate (t + 2 * eps)) by lra. cbn [Py.bind].
  unfold date_leb at 1. cbn [toordinal].
  assert (H2 : exists x2,
             x2 <= t + w2
             /\ (ftrunc (x1 * K) < ftrunc (x2 * K))%Z
             /\ (if (v + ftrunc ((t + 2 * eps) * K) <=? v + ftrunc (x1 * K))%Z
                 then _time_to_date m (t + w2)
                 else Ok (Date (v + ftrunc ((t + 2 * eps) * K))))
                = Ok (Date (v + ftrunc (x2 * K)))).
  { destruct (Z.leb_spec (v + ftrunc ((t + 2 * eps) * K)) (v + ftrunc (x1 * K)))
      as [Hsame | Hdiff].
    - exists (t + w2). repeat split; try lra; [| apply Hdate; lra].
      apply ftrunc_jump; [nra |].
      destruct Hx1c as [-> | ->]; nra.
    - exists (t + 2 * eps). repeat split; try lra; lia. }
  destruct H2 as [x2 [Hx2a [Hx2b ->]]]. cbn [Py.bind].
  destruct (Hfwd x1 x2) as [f_t_plus Hfp]; try lra; [exact Hx2b |].
  rewrite Hfp. cbn [Py.bind].
  rewrite fdiv_ok by lra. cbn [Py.bind].
  rewrite fdiv_ok by lra. cbn [Py.bind].
  eexists; reflexivity.
Qed.


Lemma theta_horizon_mono (m : HullWhite1F) (x t : R) :
  0 <= x <= t -> (theta_horizon m x <= theta_horizon m t)%Z.
Proof.
  intros Hx. unfold theta_horizon.
  pose proof (days_per_year_bounds m) as HK.
  assert ((ftrunc ((x + fmax 0.02 (x * 0.02)) * days_per_year m)
           <= ftrunc ((t + fmax 0.02 (t * 0.02)) * days_per_year m))%Z); [| lia].
  apply ftrunc_mono.
  destruct (fmax_cases 0.02 (x * 0.02)) as [[-> ?] | [-> ?]];
    destruct (fmax_cases 0.02 (t * 0.02)) as [[-> ?] | [-> ?]]; nra.
Qed.

Lemma theta_integral_returns (m : HullWhite1F) (s t : R) :
  continuous_model m -> 0 <= s <= t ->
  (theta_horizon m t <= MAXORDINAL)%Z ->
  returns (_theta_integral m s t).
Proof.
  intros Hm Hst Hmax. unfold _theta_integral.
  assert (H10 : INR 10 = 10) by (simpl; lra).
  destruct (for_range_returns
              (fun i integral =>
                 th <- _theta m (s + INR i * ((t - s) / INR 10)) ;;
                 Ok (integral
                     + (if (i =? 0)%nat || (i =? 10)%nat then 1 else 2) * th))
              (fun _ _ => True) (10 + 1) 0 0 I) as [v [Hv _]].
  - intros i x Hi _.
    destruct (theta_returns m (s + INR i * ((t - s) / INR 10)) Hm) as [th Hth].
    + rewrite H10. assert (0 <= INR i) by apply pos_INR. nra.
    + eapply Z.le_trans; [apply (theta_horizon_mono m _ t) | exact Hmax].
      rewrite H10. assert (0 <= INR i) by apply pos_INR.
      assert (INR i <= 10) by (rewrite <- H10; apply le_INR; lia).
      nra.
    + rewrite Hth. cbn [Py.bind]. eexists. split; [reflexivity | exact I].
  - rewrite Hv. eexists; reflexivity.
Qed.

Lemma exp_nonpos_le_1 (x : R) : x <= 0 -> exp x <= 1.
Proof.
  intros Hx. destruct (Req_dec x 0) as [-> | Hne]; [rewrite exp_0; lra |].
  rewrite <- exp_0. apply Rlt_le, exp_increasing. lra.
Qed.

Lemma exact_step_returns (m : HullWhite1F) (times shocks rates : list R)
      (i : nat) (t_prev t_i : R) :
  continuous_model m ->
  nth_error times i = Some t_prev -> nth_error times (S i) = Some t_i ->
  0 <= t_prev < t_i -> (theta_horizon m t_i <= MAXORDINAL)%Z ->
  length rates = length times -> length shocks = (length times - 1)%nat ->
  exists rates',
    exact_step m times shocks (S i) rates = Ok rates'
    /\ length rates' = length times.
Proof.
  intros Hm Hp Hi Ht Hmax Hlr Hls.
  assert (Hlt : (S i < length times)%nat)
    by (apply nth_error_Some; congruence).
  unfold exact_step. replace (S i - 1)%nat with i by lia.
  apply index_ok in Hp, Hi. rewrite Hi, Hp. cbn [Py.bind].
  rewrite fle_false by lra.
  destruct (index_in_range rates i) as [r_prev [Hr _]]; [lia |].
  rewrite Hr. cbn [Py.bind].
  destruct (theta_integral_returns m t_prev t_i Hm) as [drift Hd];
    [lra | exact Hmax |].
  rewrite Hd. cbn [Py.bind].
  destruct Hm as [Ha _].
  rewrite fdiv_ok by lra. cbn [Py.bind].
  rewrite fsqrt_ok.
  - cbn [Py.bind].
    destruct (index_in_range shocks i) as [shock [Hs _]]; [lia |].
    rewrite Hs. cbn [Py.bind].
    destruct (store_in_range rates (S i)
                (r_prev * exp (- mean_reversion m * (t_i - t_prev)) + drift
                 + sqrt (volatility m ^ 2 / (2 * mean_reversion m)
                         * (1 - exp (- 2 * mean_reversion m * (t_i - t_prev))))
                   * shock)) as [rates' Hst]; [lia |].
    exists rates'. split; [exact Hst |].
    rewrite (store_length _ _ _ _ Hst). exact Hlr.
  - apply Rmult_le_pos.
    + apply Rmult_le_pos; [apply pow2_ge_0 |].
      apply Rlt_le, Rinv_0_lt_compat. lra.
    + assert (exp (- 2 * mean_reversion m * (t_i - t_prev)) <= 1); [| lra].
      apply exp_nonpos_le_1. nra.
Qed.

(** The simulator returns a path on every grid of non-negative, strictly
    increasing times within the horizon, for shocks of the right length. *)
Lemma simulate_exact_returns (m : HullWhite1F) (times shocks : list R)
      (g : rng_state) :
  continuous_model m -> scheme m = exact ->
  times <> [] -> Sorted Rlt times -> 0 <= hd 0 times ->
  (forall t, In t times -> (theta_horizon m t <= MAXORDINAL)%Z) ->
  length shocks = (length times - 1)%nat ->
  exists rates,
    simulate_short_rate_path m times (Some shocks) g = (Ok rates, g).
Proof.
  intros Hm Hscheme Hne Hsorted Hpos Hmax Hlen.
  destruct times as [| t0 rest]; [congruence |]. cbn [hd] in Hpos.
  unfold simulate_short_rate_path. rewrite flt_false by lra.
  (* the initial rate *)
  assert (Hr0 : returns (_initial_short_rate m t0)).
  { unfold _initial_short_rate.
    pose proof Hm as [_ [Hcomp [[basis Hbasis] [Hv [dates [rates Hinit]]]]]].
    pose proof (days_per_year_bounds m) as HK.
    assert (Hh : (theta_horizon m t0 <= MAXORDINAL)%Z)
      by (apply Hmax; left; reflexivity).
    unfold theta_horizon in Hh.
    rewrite (time_to_date_ok
               m t0 (ftrunc ((t0 + fmax 0.02 (t0 * 0.02)) * days_per_year m)));
      try assumption.
    - cbn [Py.bind].
      apply (curve_zero_rate_returns _ _ _ _ _ _ basis Hinit Hbasis).
      unfold date_ltb. cbn [toordinal]. apply Z.ltb_ge.
      destruct (ftrunc_bounds (t0 * days_per_year m)) as [_ Hn]; [nra |]. lia.
    - apply ftrunc_mono.
      destruct (fmax_cases 0.02 (t0 * 0.02)) as [[-> ?] | [-> ?]]; nra. }
  destruct Hr0 as [r0 Hr0]. rewrite Hr0, Hscheme.
  unfold _simulate_exact, simulate_with, shocks_for.
  replace (Z.of_nat (length shocks) =? Z.of_nat (length (t0 :: rest)) - 1)%Z
    with true by (symmetry; apply Z.eqb_eq; cbn [length] in *; lia).
  cbn [negb fst snd Py.bind].
  destruct (store_in_range (repeat 0 (length (t0 :: rest))) 0 r0)
    as [rates0 Hst]; [rewrite repeat_length; cbn [length]; lia |].
  rewrite Hst. cbn [Py.bind].
  assert (Hl0 : length rates0 = length (t0 :: rest))
    by (rewrite (store_length _ _ _ _ Hst); apply repeat_length).
  destruct (for_range_returns
              (exact_step m (t0 :: rest) shocks)
              (fun k rs => length rs = length (t0 :: rest))
              (length (t0 :: rest) - 1) 1 rates0 Hl0) as [rates [Hrun _]].
  - intros k x Hk Hx. destruct k as [| i]; [lia |].
    destruct (index_in_range (t0 :: rest) i) as [t_prev [_ Hp]]; [lia |].
    destruct (index_in_range (t0 :: rest) (S i)) as [t_i [_ Hi]]; [lia |].
    apply (exact_step_returns m (t0 :: rest) shocks x i t_prev t_i);
      try assumption.
    + split.
      * destruct i as [| j]; [simpl in Hp; inversion Hp; lra |].
        assert (t0 < t_prev); [| lra].
        apply (sorted_nth _ Hsorted 0 (S j)); [lia | reflexivity | exact Hp].
      * apply (sorted_nth _ Hsorted i (S i)); [lia | exact Hp | exact Hi].
    + apply Hmax. eapply nth_error_In; eassumption.
  - rewrite Hrun. exists rates. reflexivity.
Qed.

End Totality.

(** ** Instances *)

Import Totality.

Lemma test_model_continuous : continuous_model test_model.
Proof.
  unfold continuous_model. cbn.
  split; [lra |]. split; [reflexivity |].
  split; [exists 365; reflexivity |]. split; [lia |].
  exists [d_2025_01_01; d_2026_01_01; d_2027_01_01], [0.02; 0.022; 0.025].
  exact test_curve_built.
Qed.

Lemma test_model_horizon (t : R) :
  0 <= t <= 1 -> (theta_horizon test_model t <= MAXORDINAL)%Z.
Proof.
  intros Ht.
  eapply Z.le_trans; [apply (theta_horizon_mono test_model t 1); lra |].
  unfold theta_horizon, days_per_year. cbn.
  unfold fmax. rewrite flt_false by lra.
  rewrite (ftrunc_nonneg ((1 + 0.02) * 365) 372) by (try split; simpl; lra || lia).
  vm_compute. discriminate.
Qed.

(** C3 on the model of the tests: the path over the grid [0, 1] with the
    shock 0.5 is returned, and its step satisfies the formula. *)
Lemma exact_scheme_step_witness :
  exists rates,
    HullWhite.simulate_short_rate_path test_model [0; 1] (Some [0.5]) quiet_rng
    = (Ok rates, quiet_rng)
    /\ exists r_prev,
        nth_error rates 0 = Some r_prev
        /\ nth_error rates 1 = Some (exact_next_rate test_model r_prev 0 1 0.5).
Proof.
  destruct (simulate_exact_returns test_model [0; 1] [0.5] quiet_rng)
    as [rates Hrun].
  - exact test_model_continuous.
  - reflexivity.
  - discriminate.
  - repeat constructor. lra.
  - simpl. lra.
  - intros t [<- | [<- | []]]; apply test_model_horizon; lra.
  - reflexivity.
  - exists rates. split; [exact Hrun |].
    destruct (exact_scheme_step test_model [0; 1] [0.5] rates quiet_rng
                                quiet_rng eq_refl Hrun) as [_ Hsteps].
    destruct (Hsteps 0%nat 0 1 eq_refl eq_refl)
      as [r_prev [shock [Hr [Hs [_ [_ Hn]]]]]].
    simpl in Hs. inversion Hs; subst shock.
    exists r_prev. split; assumption.
Defined.

Lemma more_dates_check :
  date_new 2024 7 30 = Ok d_2024_07_30 /\ date_new 2024 10 30 = Ok d_2024_10_30
  /\ date_new 2025 1 30 = Ok d_2025_01_30 /\ date_new 2025 1 31 = Ok d_2025_01_31.
Proof. repeat split; vm_compute; reflexivity. Qed.

(** Dates after the valuation date have positive, strictly increasing year
    fractions under an actual-day convention. *)
Lemma actual_pillars_ok val dates dc basis :
  actual_basis dc = Some basis ->
  Forall (date_lt val) dates ->
  (forall d, In d dates -> exists t, year_fraction val d dc = Ok t /\ 0 < t)
  /\ (forall d1 d2 t1 t2, In d1 dates -> In d2 dates -> date_lt d1 d2 ->
        year_fraction val d1 dc = Ok t1 -> year_fraction val d2 dc = Ok t2 ->
        t1 < t2).
Proof.
  intros Hb Hall. rewrite Forall_forall in Hall. split.
  - intros d Hd. eapply actual_year_fraction_positive; eauto.
  - intros d1 d2 t1 t2 _ _. eapply actual_year_fraction_monotone; eauto.
Qed.

Lemma example_build_returns :
  returns (build_yield_curve_from_discount_factors
             d_2024_01_01 [d_2025_01_01; d_2026_01_01] [0.98; 0.95]
             ACT_365 log_linear_df cont).
Proof.
  unfold build_yield_curve_from_discount_factors, zero_from_discount_factor,
    YieldCurve_init, year_fraction, days_between.
  py_eval. eexists; reflexivity.
Qed.

(** C5 on two pillars under ACT/365 with continuous compounding: accepted
    with the discount factors 0.98 and 0.95, rejected with 0.98 and 1.5. *)
Lemma build_from_discount_factors_fails_iff_witness :
  returns (build_yield_curve_from_discount_factors
             d_2024_01_01 [d_2025_01_01; d_2026_01_01] [0.98; 0.95]
             ACT_365 log_linear_df cont)
  /\ raises (build_yield_curve_from_discount_factors
               d_2024_01_01 [d_2025_01_01; d_2026_01_01] [0.98; 1.5]
               ACT_365 log_linear_df cont).
Proof.
  assert (Hp := actual_pillars_ok d_2024_01_01 [d_2025_01_01; d_2026_01_01]
                                  ACT_365 365 eq_refl).
  destruct Hp as [Hpos Hmono];
    [repeat constructor; unfold date_lt; simpl; lia |].
  assert (Hnd : NoDup (map toordinal [d_2025_01_01; d_2026_01_01])).
  { simpl. repeat constructor; simpl; intuition discriminate. }
  assert (Hne : [d_2025_01_01; d_2026_01_01] <> []) by discriminate.
  assert (Hcomp : cont <> annual) by discriminate.
  split.
  - apply (proj2 (build_from_discount_factors_fails_iff
                    d_2024_01_01 [d_2025_01_01; d_2026_01_01] [0.98; 0.95]
                    ACT_365 log_linear_df cont eq_refl Hne Hnd Hpos Hmono)
                 Hcomp).
    repeat constructor; lra.
  - apply (proj1 (build_from_discount_factors_fails_iff
                    d_2024_01_01 [d_2025_01_01; d_2026_01_01] [0.98; 1.5]
                    ACT_365 log_linear_df cont eq_refl Hne Hnd Hpos Hmono)).
    right. left. unfold df_rejected. lra.
Defined.

(** C5, counterexamples.  A discount factor above 1 but below [1 + 1e-12] is
    accepted; and inputs whose discount factors all lie in (0, 1] are rejected
    when there is no pillar or when two pillars share a date. *)
Lemma build_from_discount_factors_not_exactly_unit_interval :
  (1 < 1 + 5e-13
   /\ returns (build_yield_curve_from_discount_factors
                 d_2024_01_01 [d_2025_01_01] [1 + 5e-13]
                 ACT_365 log_linear_df cont))
  /\ (Forall (fun df => 0 < df <= 1) []
      /\ raises (build_yield_curve_from_discount_factors
                   d_2024_01_01 [] [] ACT_365 log_linear_df cont))
  /\ (Forall (fun df => 0 < df <= 1) [0.9; 0.9]
      /\ date_lt d_2024_01_01 d_2025_01_01
      /\ raises (build_yield_curve_from_discount_factors
                   d_2024_01_01 [d_2025_01_01; d_2025_01_01] [0.9; 0.9]
                   ACT_365 log_linear_df cont)).
Proof.
  split; [split; [lra |] | split; [split; [constructor |] |
          split; [repeat constructor; lra | split; [unfold date_lt; simpl; lia |]]]];
    unfold build_yield_curve_from_discount_factors, zero_from_discount_factor,
      YieldCurve_init, year_fraction, days_between;
    py_eval; eexists; reflexivity.
Qed.

(** C6 on two pillars under ACT/365 with the discount factors 0.98 and
    0.95. *)
Lemma discount_factor_round_trip_witness :
  exists c,
    build_yield_curve_from_discount_factors
      d_2024_01_01 [d_2025_01_01; d_2026_01_01] [0.98; 0.95]
      ACT_365 log_linear_df cont = Ok c
    /\ discount_factor c d_2025_01_01 = Ok 0.98
    /\ discount_factor c d_2026_01_01 = Ok 0.95.
Proof.
  destruct example_build_returns as [c Hc].
  assert (Hs : StronglySorted date_lt [d_2025_01_01; d_2026_01_01])
    by (repeat constructor; unfold date_lt; simpl; lia).
  assert (Hf : Forall (fun df => 0 < df <= 1) [0.98; 0.95])
    by (repeat constructor; lra).
  exists c. split; [exact Hc |]. split.
  - exact (discount_factor_round_trip _ _ _ _ _ _ c Hs Hf Hc 0%nat _ _
                                      eq_refl eq_refl).
  - exact (discount_factor_round_trip _ _ _ _ _ _ c Hs Hf Hc 1%nat _ _
                                      eq_refl eq_refl).
Defined.

(** ** The swap bootstrap at a zero-length final period *)

Module ZeroLengthPeriod.

Lemma schedule_to_2025_01_31 :
  generate_schedule d_2024_07_30 d_2025_01_31 freq_6M NONE None
  = Ok [d_2024_07_30; d_2025_01_30; d_2025_01_31].
Proof. vm_compute. reflexivity. Qed.

Lemma schedule_to_2024_10_30 :
  generate_schedule d_2024_07_30 d_2024_10_30 freq_6M NONE None
  = Ok [d_2024_07_30; d_2024_10_30].
Proof. vm_compute. reflexivity. Qed.

(** Year fractions under 30/360 between the dates of the example. *)
Ltac thirty_360 :=
  unfold year_fraction, days_between;
  match goal with
  | |- context [date_ltb ?a ?b] =>
      let v := eval vm_compute in (date_ltb a b) in
      change (date_ltb a b) with v
  end;
  cbv beta iota; zcompute; reflexivity.

Lemma yf_to_2024_10_30 :
  year_fraction d_2024_07_30 d_2024_10_30 THIRTY_360 = Ok (IZR 90 / 360).
Proof. thirty_360. Qed.

Lemma yf_to_2025_01_30 :
  year_fraction d_2024_07_30 d_2025_01_30 THIRTY_360 = Ok (IZR 180 / 360).
Proof. thirty_360. Qed.

Lemma yf_to_2025_01_31 :
  year_fraction d_2024_07_30 d_2025_01_31 THIRTY_360 = Ok (IZR 180 / 360).
Proof. thirty_360. Qed.

Lemma yf_last_period :
  year_fraction d_2025_01_30 d_2025_01_31 THIRTY_360 = Ok (IZR 0 / 360).
Proof. thirty_360. Qed.

End ZeroLengthPeriod.

Module ZeroLengthSteps.

Import ZeroLengthPeriod.

Lemma df_2024_10_30_range : 0 < df_2024_10_30 < 1.
Proof. unfold df_2024_10_30. lra. Qed.

Lemma first_swap_pillar :
  bootstrap_swap d_2024_07_30 freq_6M THIRTY_360 log_linear_df cont
                 ([], []) (d_2024_10_30, 0.02)
  = Ok ([d_2024_10_30], [df_2024_10_30]).
Proof.
  unfold bootstrap_swap, df_2024_10_30. cbn [fst snd].
  rewrite schedule_to_2024_10_30.
  cbn [Py.bind]. py_eval_dates. rewrite yf_to_2024_10_30.
  py_eval_dates. reflexivity.
Qed.

Lemma temp_curve_built :
  build_yield_curve_from_discount_factors
    d_2024_07_30 [d_2024_10_30] [df_2024_10_30] THIRTY_360 log_linear_df cont
  = Ok temp_curve.
Proof.
  pose proof df_2024_10_30_range as Hdf.
  unfold build_yield_curve_from_discount_factors, zero_from_discount_factor,
    YieldCurve_init.
  cbn [length Nat.eqb negb combine map_result fst snd].
  rewrite yf_to_2024_10_30. cbn [Py.bind].
  py_eval_dates. rewrite yf_to_2024_10_30. py_eval_dates. reflexivity.
Qed.

Lemma temp_curve_df_2025_01_30 :
  discount_factor temp_curve d_2025_01_30 = Ok df_2025_01_30.
Proof.
  unfold discount_factor, _time_from_valuation, _zero_rate_at_time,
    _df_from_rate.
  cbn [valuation_date YieldCurveM.day_count temp_curve].
  rewrite yf_to_2025_01_30.
  py_eval_dates. reflexivity.
Qed.

(** The loop over the two payment periods: the payment on 2025-01-30 is
    known, the period to the maturity 2025-01-31 has year fraction zero. *)
Lemma period_loop :
  for_range 0 2
            (swap_period d_2024_07_30 [d_2025_01_30; d_2025_01_31]
                         d_2025_01_31 0.02 THIRTY_360 temp_curve)
            (0, 0)
  = Ok (0 + df_2025_01_30 * 0.02 * (IZR 180 / 360), IZR 0 / 360).
Proof.
  cbn [for_range]. unfold swap_period.
  cbn [Nat.eqb index nth_error Py.bind fst snd Nat.sub].
  rewrite yf_to_2025_01_30. cbn [Py.bind].
  replace (date_eqb d_2025_01_30 d_2025_01_31) with false by reflexivity.
  rewrite temp_curve_df_2025_01_30. cbn [Py.bind fst snd].
  rewrite yf_last_period. cbn [Py.bind].
  replace (date_eqb d_2025_01_31 d_2025_01_31) with true by reflexivity.
  reflexivity.
Qed.

Lemma second_swap_pillar :
  bootstrap_swap d_2024_07_30 freq_6M THIRTY_360 log_linear_df cont
                 ([d_2024_10_30], [df_2024_10_30]) (d_2025_01_31, 0.02)
  = Ok ([d_2024_10_30; d_2025_01_31], [df_2024_10_30; 1]).
Proof.
  unfold bootstrap_swap. cbn [fst snd]. rewrite schedule_to_2025_01_31.
  cbn [Py.bind].
  replace (date_eqb d_2024_07_30 d_2024_07_30) with true by reflexivity.
  cbn [length Nat.eqb negb].
  rewrite temp_curve_built. cbn [Py.bind].
  rewrite period_loop. cbn [Py.bind fst snd].
  replace (index_back [d_2025_01_30; d_2025_01_31] 1) with (Ok d_2025_01_31)
    by reflexivity.
  cbn [Py.bind].
  replace (date_eqb d_2025_01_31 d_2025_01_31) with true by reflexivity.
  cbn [negb Py.bind].
  rewrite (flt_false 0 (IZR 0 / 360)) by lra. cbn [Py.bind].
  rewrite (fle_false 1 0), (flt_false 1 1) by lra.
  reflexivity.
Qed.

(** The construction as a whole returns a curve, and that curve discounts
    the maturity 2025-01-31 at 1. *)
Lemma swaps_curve_built :
  exists c v,
    build_yield_curve_from_swaps
      d_2024_07_30 [d_2024_10_30; d_2025_01_31] [0.02; 0.02] freq_6M
      THIRTY_360 log_linear_df cont = Ok c
    /\ discount_factor c d_2025_01_31 = Ok v /\ v = 1.
Proof.
  pose proof df_2024_10_30_range as Hdf.
  assert (Hbuild :
            {c | build_yield_curve_from_swaps
                   d_2024_07_30 [d_2024_10_30; d_2025_01_31] [0.02; 0.02]
                   freq_6M THIRTY_360 log_linear_df cont = Ok c
                 /\ valuation_date c = d_2024_07_30
                 /\ YieldCurveM.day_count c = THIRTY_360
                 /\ compounding c = cont
                 /\ _pillar_times c = [IZR 90 / 360; IZR 180 / 360]
                 /\ pillar_zero_rates c
                    = [- ln df_2024_10_30 / (IZR 90 / 360);
                       - ln 1 / (IZR 180 / 360)]}).
  { eexists. split.
    - unfold build_yield_curve_from_swaps.
      cbn [length Nat.eqb negb combine sorted fold_right insert_by fst snd
           toordinal d_2024_10_30 d_2025_01_31 Z.leb Z.compare Pos.compare
           Pos.compare_cont].
      fold d_2024_10_30 d_2025_01_31.
      cbn [bootstrap_swaps].
      rewrite first_swap_pillar. cbn [Py.bind].
      rewrite second_swap_pillar. cbn [Py.bind fst snd].
      unfold build_yield_curve_from_discount_factors,
        zero_from_discount_factor, YieldCurve_init.
      cbn [length Nat.eqb negb combine map_result fst snd].
      rewrite yf_to_2024_10_30, yf_to_2025_01_31. cbn [Py.bind].
      py_eval_dates. rewrite yf_to_2024_10_30, yf_to_2025_01_31.
      py_eval_dates. reflexivity.
    - cbn. repeat split; reflexivity. }
  destruct Hbuild as [c [Hc [Hval [Hdc [Hcomp [Htimes Hzeros]]]]]].
  exists c. eexists. split; [exact Hc |]. split.
  - unfold discount_factor, _time_from_valuation, _zero_rate_at_time,
      _df_from_rate.
    rewrite Hval, Hdc, Hcomp, Htimes, Hzeros.
    replace (date_ltb d_2025_01_31 d_2024_07_30) with false by reflexivity.
    rewrite yf_to_2025_01_31. py_eval_dates. reflexivity.
  - rewrite ln_1. replace (- (- 0 / (IZR 180 / 360)) * (IZR 180 / 360)) with 0
      by (field; lra).
    apply exp_0.
Qed.

End ZeroLengthSteps.

(** C2, at the failing input.  Valued on 2024-07-30 under 30/360 with
    semi-annual payments, the swap maturing on 2025-01-31 has a known payment
    on 2025-01-30 of positive present value and a final period of year
    fraction zero.  The bootstrap stores the discount factor 1 for its
    maturity, and not the closed form [(1 - PV_known) / (1 + rate * tau_last)],
    which is below 1. *)
Theorem bootstrap_zero_length_final_period :
  exists pv_known tau_last,
    for_range 0 2
              (swap_period d_2024_07_30 [d_2025_01_30; d_2025_01_31]
                           d_2025_01_31 0.02 THIRTY_360 temp_curve)
              (0, 0)
    = Ok (pv_known, tau_last)
    /\ tau_last = 0
    /\ 0 < pv_known
    /\ (1 - pv_known) / (1 + 0.02 * tau_last) < 1
    /\ bootstrap_swaps d_2024_07_30 freq_6M THIRTY_360 log_linear_df cont
                       [(d_2024_10_30, 0.02); (d_2025_01_31, 0.02)] ([], [])
       = Ok ([d_2024_10_30; d_2025_01_31], [df_2024_10_30; 1]).
Proof.
  exists (0 + df_2025_01_30 * 0.02 * (IZR 180 / 360)), (IZR 0 / 360).
  assert (Hpos : 0 < df_2025_01_30) by (unfold df_2025_01_30; apply exp_pos).
  split; [exact ZeroLengthSteps.period_loop |].
  split; [lra |]. split; [lra |]. split; [lra |].
  cbn [bootstrap_swaps].
  rewrite ZeroLengthSteps.first_swap_pillar. cbn [Py.bind].
  rewrite ZeroLengthSteps.second_swap_pillar. reflexivity.
Qed.

(** ** The swap bootstrap: schedules and the closed form *)

Module BootstrapFacts.

Lemma date_eqb_eq (d1 d2 : date) : date_eqb d1 d2 = true <-> d1 = d2.
Proof.
  unfold date_eqb. rewrite Z.eqb_eq. destruct d1, d2; cbn [toordinal].
  split; intros H; [f_equal; exact H | inversion H; reflexivity].
Qed.

Lemma date_eqb_refl (d : date) : date_eqb d d = true.
Proof. apply date_eqb_eq. reflexivity. Qed.

Lemma date_eqb_lt (d1 d2 : date) : date_lt d1 d2 -> date_eqb d1 d2 = false.
Proof. unfold date_lt, date_eqb. intros H. apply Z.eqb_neq. lia. Qed.

Lemma schedule_loop_none (fuel : nat) (end_date : date) (frequency : Frequency)
      (first : date) :
  forall appended current_date schedule,
    appended_ok end_date appended current_date ->
    schedule_loop fuel end_date frequency NONE None (first :: appended)
                  current_date = Ok schedule ->
    exists appended' current_date',
      schedule = first :: appended'
      /\ appended_ok end_date appended' current_date'.
Proof.
  induction fuel as [| fuel IH]; intros appended current_date schedule Hok Hrun;
    cbn [schedule_loop] in Hrun; [discriminate |].
  destruct (date_ltb current_date end_date) eqn:Hlt.
  - apply bind_ok_inv in Hrun. destruct Hrun as [current' [_ Hrun]].
    apply bind_ok_inv in Hrun. destruct Hrun as [schedule' [Happ Hrun]].
    destruct Hok as [Hall | [init [_ [_ Hstop]]]]; [| congruence].
    destruct (date_leb current' end_date) eqn:Hle.
    + cbn [adjust_business_day Py.bind] in Happ.
      inversion Happ; subst schedule'; clear Happ.
      apply (IH (appended ++ [current']) current' schedule); [| exact Hrun].
      unfold date_leb in Hle. apply Z.leb_le in Hle.
      destruct (Z.eq_dec (toordinal current') (toordinal end_date)) as [He | Hn].
      * right. exists appended.
        assert (current' = end_date)
          by (apply date_eqb_eq; unfold date_eqb; apply Z.eqb_eq; exact He).
        subst current'. repeat split; [exact Hall |].
        unfold date_ltb. apply Z.ltb_irrefl.
      * left. apply Forall_app. split; [exact Hall |].
        constructor; [unfold date_lt; lia | constructor].
    + inversion Happ; subst schedule'; clear Happ.
      apply (IH appended current' schedule); [left; exact Hall | exact Hrun].
  - inversion Hrun; subst schedule. exists appended, current_date. auto.
Qed.

(** The payment dates that the bootstrap derives from the schedule of a swap:
    dates before the maturity, then the maturity. *)
Lemma payment_dates_shape (val maturity : date) (frequency : Frequency)
      (schedule : list date) :
  generate_schedule val maturity frequency NONE None = Ok schedule ->
  let payments :=
    match schedule with
    | first :: rest => if date_eqb first val then rest else schedule
    | [] => schedule
    end in
  (length payments =? 0)%nat = false ->
  exists init,
    payments = init ++ [maturity]
    /\ Forall (fun d => date_lt d maturity) init.
Proof.
  unfold generate_schedule.
  destruct (date_ltb maturity val) eqn:Hord; [discriminate |].
  cbn [adjust_business_day Py.bind]. intros Hgen.
  apply bind_ok_inv in Hgen. destruct Hgen as [looped [Hloop Hgen]].
  destruct (schedule_loop_none _ _ _ _ [] val looped
              (or_introl (Forall_nil _)) Hloop)
    as [appended [current [-> Hok]]].
  apply bind_ok_inv in Hgen. destruct Hgen as [last [Hlast Hgen]].
  cbn [adjust_business_day Py.bind] in Hgen.
  assert (Hfinal :
            (schedule = val :: appended /\ last = maturity)
            \/ (schedule = (val :: appended) ++ [maturity]
                /\ date_eqb last maturity = false)).
  { destruct (date_eqb last maturity) eqn:E1; cbn [negb] in Hgen.
    - left. apply date_eqb_eq in E1. inversion Hgen; auto.
    - rewrite (proj2 (Bool.negb_true_iff _)) in Hgen.
      + right. inversion Hgen; auto.
      + destruct (date_eqb maturity last) eqn:E2; [| reflexivity].
        apply date_eqb_eq in E2. subst last.
        rewrite date_eqb_refl in E1. discriminate. }
  apply index_back_ok in Hlast. destruct Hlast as [_ Hlast].
  cbn [length] in Hlast. replace (S (length appended) - 1)%nat
    with (length appended) in Hlast by lia.
  cbv zeta.
  destruct Hfinal as [[-> ->] | [-> Hne]]; cbn [app]; rewrite date_eqb_refl;
    intros Hlen.
  - destruct Hok as [Hall | [init [-> [Hall _]]]].
    + exfalso. destruct appended as [| a r]; [discriminate |].
      cbn [length nth_error] in Hlast.
      apply nth_error_In in Hlast. rewrite Forall_forall in Hall.
      specialize (Hall maturity Hlast). unfold date_lt in Hall. lia.
    + exists init. auto.
  - destruct Hok as [Hall | [init [-> [Hall _]]]].
    + exists appended. auto.
    + exfalso. rewrite length_app in Hlast. cbn [length] in Hlast.
      replace (nth_error (val :: init ++ [maturity]) (length init + 1))
        with (Some maturity) in Hlast.
      * inversion Hlast; subst last. rewrite date_eqb_refl in Hne. discriminate.
      * symmetry. replace (length init + 1)%nat with (S (length init)) by lia.
        cbn [nth_error]. rewrite nth_error_app2 by lia.
        rewrite Nat.sub_diag. reflexivity.
Qed.


Lemma periods_length (start : date) (schedule : list date) :
  length (periods start schedule) = length schedule.
Proof.
  revert start. induction schedule as [| e r IH]; intros start; simpl;
    [reflexivity | rewrite IH; reflexivity].
Qed.

Lemma last_cons_default {A : Type} (e : A) (r : list A) (a : A) :
  last (e :: r) a = last r e.
Proof.
  revert e a. induction r as [| d r' IH]; intros e a; [reflexivity |].
  change (last (e :: d :: r') a) with (last (d :: r') a).
  rewrite (IH d a), (IH d e). reflexivity.
Qed.

Lemma periods_app (start : date) (init : list date) (m : date) :
  periods start (init ++ [m]) = periods start init ++ [(last init start, m)].
Proof.
  revert start. induction init as [| e r IH]; intros start; [reflexivity |].
  cbn [app periods]. rewrite IH, last_cons_default. reflexivity.
Qed.

Lemma periods_end_in (start : date) (schedule : list date) (p : date * date) :
  In p (periods start schedule) -> In (snd p) schedule.
Proof.
  revert start. induction schedule as [| e r IH]; intros start H; simpl in H;
    [contradiction |].
  destruct H as [<- | H]; [left; reflexivity | right; eapply IH; eassumption].
Qed.

(** The period that pass [i] of the loop reads off the schedule by index is
    the [i]-th period of the list. *)
Lemma periods_nth (start : date) (schedule : list date) (i : nat)
      (p : date * date) :
  nth_error (periods start schedule) i = Some p ->
  (if (i =? 0)%nat then
     end_date <- index schedule 0 ;;
     Ok (start, end_date)
   else
     start_date <- index schedule (i - 1) ;;
     end_date <- index schedule i ;;
     Ok (start_date, end_date)) = Ok p.
Proof.
  revert start i. induction schedule as [| e r IH]; intros start i H.
  - destruct i; discriminate.
  - destruct i as [| i]; cbn [periods nth_error] in H.
    + inversion H; subst. reflexivity.
    + specialize (IH e i H). cbn [Nat.eqb]. replace (S i - 1)%nat with i by lia.
      destruct i as [| i]; cbn [Nat.eqb] in IH.
      * unfold index in *. cbn [nth_error] in *.
        destruct r; [discriminate | exact IH].
      * replace (S i - 1)%nat with i in IH by lia.
        unfold index in *. cbn [nth_error] in *. exact IH.
Qed.

Lemma fold_result_app {St A : Type} (f : A -> St -> result St) (l l' : list A)
      (s : St) :
  fold_result f (l ++ l') s = (s' <- fold_result f l s ;; fold_result f l' s').
Proof.
  revert s. induction l as [| a r IH]; intros s; cbn [app fold_result Py.bind];
    [reflexivity |].
  destruct (f a s) as [s1 | e]; cbn [Py.bind]; [apply IH | reflexivity].
Qed.

Lemma for_range_list {St A : Type} (body : nat -> St -> result St)
      (f : A -> St -> result St) (l : list A) :
  forall start s,
    (forall i a x, nth_error l i = Some a -> body (start + i)%nat x = f a x) ->
    for_range start (length l) body s = fold_result f l s.
Proof.
  induction l as [| a r IH]; intros start s Hbody; [reflexivity |].
  cbn [length for_range fold_result].
  rewrite <- (Nat.add_0_r start) at 1. rewrite (Hbody 0%nat a s eq_refl).
  destruct (f a s) as [s' | e]; [| reflexivity].
  cbn [Py.bind]. apply IH. intros i b x Hi.
  replace (S start + i)%nat with (start + S i)%nat by lia.
  apply Hbody. exact Hi.
Qed.

Lemma swap_period_is_step val schedule maturity rate dc temp_curve i p st :
  nth_error (periods val schedule) i = Some p ->
  swap_period val schedule maturity rate dc temp_curve i st
  = period_step maturity rate dc temp_curve p st.
Proof.
  intros H. unfold swap_period. rewrite (periods_nth _ _ _ _ H). reflexivity.
Qed.

(** Over periods that end before the maturity the loop adds up the payment
    values and leaves [tau_maturity] alone. *)
Lemma known_periods_fold maturity rate dc temp_curve (ps : list (date * date)) :
  Forall (fun p => date_lt (snd p) maturity) ps ->
  forall pv tau st,
    fold_result (period_step maturity rate dc temp_curve) ps (pv, tau) = Ok st ->
    exists values,
      map_result (payment_value temp_curve rate dc) ps = Ok values
      /\ st = (pv + total values, tau).
Proof.
  induction 1 as [| p r Hp Hall IH]; intros pv tau st Hrun;
    cbn [fold_result] in Hrun.
  - inversion Hrun; subst. exists []. split; [reflexivity |].
    unfold total. cbn. f_equal. ring.
  - apply bind_ok_inv in Hrun. destruct Hrun as [st1 [Hstep Hrun]].
    unfold period_step in Hstep.
    apply bind_ok_inv in Hstep. destruct Hstep as [tau_p [Htau Hstep]].
    rewrite (date_eqb_lt _ _ Hp) in Hstep.
    apply bind_ok_inv in Hstep. destruct Hstep as [df [Hdf Hstep]].
    inversion Hstep; subst st1; clear Hstep. cbn [fst snd] in Hrun.
    destruct (IH _ _ _ Hrun) as [values [Hvalues ->]].
    exists (df * rate * tau_p :: values). split.
    + cbn [map_result]. unfold payment_value at 1. rewrite Htau, Hdf.
      cbn [Py.bind]. rewrite Hvalues. reflexivity.
    + unfold total. cbn [fold_right]. f_equal. ring.
Qed.

(** The swap bootstrap after the first swap.  A step that returns has built
    the temporary curve from the pillars so far, has added up the values of
    the payments before the maturity, and stores for the maturity the closed
    form [(1 - PV_known) / (1 + rate * tau_last)] when the year fraction
    [tau_last] of the final period is positive, and 1 otherwise; the stored
    discount factor lies in (0, 1]. *)
Lemma bootstrap_swap_closed_form
      val frequency dc interp comp pillar_dates discount_factors
      maturity rate st :
  pillar_dates <> [] ->
  bootstrap_swap val frequency dc interp comp
                 (pillar_dates, discount_factors) (maturity, rate) = Ok st ->
  exists temp_curve init values tau_last df,
    build_yield_curve_from_discount_factors
      val pillar_dates discount_factors dc interp comp = Ok temp_curve
    /\ Forall (fun d => date_lt d maturity) init
    /\ map_result (payment_value temp_curve rate dc) (periods val init)
       = Ok values
    /\ year_fraction (last init val) maturity dc = Ok tau_last
    /\ (0 < tau_last -> df = (1 - total values) / (1 + rate * tau_last))
    /\ (tau_last <= 0 -> df = 1)
    /\ 0 < df <= 1
    /\ st = (pillar_dates ++ [maturity], discount_factors ++ [df]).
Proof.
  intros Hne Hrun. unfold bootstrap_swap in Hrun. cbn [fst snd] in Hrun.
  apply bind_ok_inv in Hrun. destruct Hrun as [schedule [Hgen Hrun]].
  pose proof (payment_dates_shape val maturity frequency schedule Hgen) as Hshape.
  cbv zeta in Hshape.
  set (payments := match schedule with
                   | first :: rest =>
                       if date_eqb first val then rest else schedule
                   | [] => schedule
                   end) in *.
  destruct (length payments =? 0)%nat eqn:Hlen; [discriminate |].
  destruct (Hshape eq_refl) as [init [Hpay Hinit]]. clear Hshape.
  replace (length pillar_dates =? 0)%nat with false in Hrun
    by (destruct pillar_dates; [congruence | reflexivity]).
  cbn [negb] in Hrun.
  apply bind_ok_inv in Hrun. destruct Hrun as [temp_curve [Htemp Hrun]].
  apply bind_ok_inv in Hrun. destruct Hrun as [acc [Hloop Hrun]].
  rewrite Hpay in Hloop, Hrun.
  rewrite index_back_1 in Hrun. cbn [Py.bind] in Hrun.
  rewrite date_eqb_refl in Hrun. cbn [negb Py.bind] in Hrun.
  (* the loop over the periods *)
  rewrite <- periods_length with (start := val) in Hloop.
  rewrite (for_range_list _ (period_step maturity rate dc temp_curve)) in Hloop
    by (intros i a x Hi; apply swap_period_is_step; exact Hi).
  rewrite periods_app, fold_result_app in Hloop.
  apply bind_ok_inv in Hloop. destruct Hloop as [st1 [Hknown Hlast]].
  destruct (known_periods_fold maturity rate dc temp_curve (periods val init))
    with (pv := 0) (tau := 0) (st := st1) as [values [Hvalues ->]].
  { rewrite Forall_forall in *. intros p Hp. apply Hinit.
    eapply periods_end_in; eassumption. }
  { exact Hknown. }
  cbn [fold_result] in Hlast. unfold period_step in Hlast.
  cbn [fst snd] in Hlast.
  apply bind_ok_inv in Hlast. destruct Hlast as [acc' [Hstep Hacc]].
  inversion Hacc; subst acc'; clear Hacc.
  apply bind_ok_inv in Hstep. destruct Hstep as [tau_last [Htau Hstep]].
  rewrite date_eqb_refl in Hstep. inversion Hstep; subst acc; clear Hstep.
  cbn [fst snd] in Hrun.
  apply bind_ok_inv in Hrun. destruct Hrun as [df [Hdf Hrun]].
  destruct (fle_spec df 0) as [Hle | Hgt]; [discriminate |].
  destruct (flt_spec 1 df) as [Hlt | Hge]; [discriminate |].
  cbn [orb] in Hrun. inversion Hrun; subst st; clear Hrun.
  exists temp_curve, init, values, tau_last, df.
  repeat (split; [assumption |]).
  split; [| split; [| split; [lra | reflexivity]]].
  - intros Hpos. rewrite flt_true in Hdf by assumption.
    unfold fdiv in Hdf. destruct (feq _ 0); [discriminate |].
    inversion Hdf. f_equal. ring.
  - intros Hnonpos. rewrite flt_false in Hdf by assumption.
    inversion Hdf. reflexivity.
Qed.

End BootstrapFacts.

(** ** When [bond_price] returns *)

Module BondTotality.

Import HullWhite Totality.

(** On a continuous-compounding curve, [bond_price] for [0 <= t < T] returns
    when [t] and [T] fall on different calendar dates, and raises the
    [ValueError] of [forward_rate] when they fall on the same date. *)
Lemma bond_price_by_dates (m : HullWhite1F) (t T r_t : R) :
  continuous_model m -> 0 <= t < T ->
  (toordinal (valuation_date (yield_curve m))
   + ftrunc (T * days_per_year m) <= MAXORDINAL)%Z ->
  (ftrunc (t * days_per_year m) < ftrunc (T * days_per_year m))%Z
  /\ returns (bond_price m t T r_t)
  \/ ftrunc (t * days_per_year m) = ftrunc (T * days_per_year m)
     /\ bond_price m t T r_t
        = Raise (ValueError "end_date must be after start_date.").
Proof.
  intros Hm [Ht HtT] Hmax.
  pose proof Hm as [Ha [Hcomp [[basis Hbasis] [Hv [dates [rates Hinit]]]]]].
  pose proof (days_per_year_bounds m) as HK.
  set (K := days_per_year m) in *.
  set (v := toordinal (valuation_date (yield_curve m))) in *.
  assert (Hmono : (ftrunc (t * K) <= ftrunc (T * K))%Z)
    by (apply ftrunc_mono; nra).
  destruct (ftrunc_bounds (t * K)) as [_ Hn0]; [nra |].
  assert (Hdt : _time_to_date m t = Ok (Date (v + ftrunc (t * K))))
    by (apply (time_to_date_ok m t (ftrunc (T * K))); try assumption; lra).
  assert (HdT : _time_to_date m T = Ok (Date (v + ftrunc (T * K))))
    by (apply (time_to_date_ok m T (ftrunc (T * K)));
        try assumption; try lra; apply Z.le_refl).
  destruct (curve_discount_factor_returns
              _ _ _ _ _ _ basis Hinit Hbasis (Date (v + ftrunc (t * K))))
    as [P_t [HPt HPt_pos]];
    [unfold date_ltb; cbn [toordinal]; fold v; apply Z.ltb_ge; lia |].
  destruct (curve_discount_factor_returns
              _ _ _ _ _ _ basis Hinit Hbasis (Date (v + ftrunc (T * K))))
    as [P_T [HPT HPT_pos]];
    [unfold date_ltb; cbn [toordinal]; fold v; apply Z.ltb_ge; lia |].
  assert (Hhead :
              bond_price m t T r_t
              = (fri <- _forward_rate_integral m t T ;;
                 c <- fdiv (volatility m ^ 2) (mean_reversion m ^ 2) ;;
                 Ok (P_T / P_t
                     * exp ((1 - exp (- mean_reversion m * (T - t)))
                            / mean_reversion m * fri
                            - 0.5 * c
                              * ((1 - exp (- mean_reversion m * (T - t)))
                                 / mean_reversion m - (T - t))
                              * (1 - exp (- 2 * mean_reversion m * t)))
                     * exp (- ((1 - exp (- mean_reversion m * (T - t)))
                               / mean_reversion m) * r_t)))).
  { unfold bond_price.
    rewrite (flt_false T t), (flt_false t 0), (flt_false T 0) by lra.
    cbn [orb]. rewrite feq_false by lra.
    rewrite Hdt, HdT. cbn [Py.bind]. rewrite HPt, HPT. cbn [Py.bind].
    rewrite fdiv_ok by lra. cbn [Py.bind].
    rewrite fdiv_ok by lra. cbn [Py.bind]. reflexivity. }
  rewrite Hhead. clear Hhead.
  unfold _forward_rate_integral. rewrite Hdt, HdT. cbn [Py.bind].
  destruct (Z.eq_dec (ftrunc (t * K)) (ftrunc (T * K))) as [Heq | Hneq].
  - right. split; [exact Heq |].
    unfold forward_rate. rewrite Heq.
    replace (date_leb _ _) with true
      by (symmetry; unfold date_leb; apply Z.leb_refl).
    reflexivity.
  - left. split; [lia |].
    destruct (curve_forward_rate_returns
                _ _ _ _ _ _ basis Hinit Hbasis
                (Date (v + ftrunc (t * K))) (Date (v + ftrunc (T * K))))
      as [fwd Hfwd]; [cbn [toordinal]; fold v; lia |].
    rewrite Hfwd. cbn [Py.bind].
    rewrite fdiv_ok by (apply pow_nonzero; lra). cbn [Py.bind].
    eexists; reflexivity.
Qed.

End BondTotality.

(** ** Grid cells of the volatility surface *)

Module CellFacts.

Lemma bisect_right_in_cell (times : list R) :
  StronglySorted Rlt times ->
  forall i a b x,
    nth_error times i = Some a -> nth_error times (S i) = Some b ->
    a <= x < b -> bisect_right times x = S i.
Proof.
  induction 1 as [| y r Hs IH Hall]; intros i a b x Ha Hb Hx.
  - destruct i; discriminate.
  - cbn [bisect_right]. destruct i as [| i]; cbn [nth_error] in Ha, Hb.
    + inversion Ha; subst. rewrite flt_false by lra. f_equal.
      destruct r as [| y' r']; [discriminate |].
      cbn [nth_error] in Hb. inversion Hb; subst.
      cbn [bisect_right]. rewrite flt_true by lra. reflexivity.
    + rewrite Forall_forall in Hall.
      assert (y < a) by (apply Hall; eapply nth_error_In; eassumption).
      rewrite flt_false by lra. f_equal. eapply IH; eassumption.
Qed.

(** A query strictly inside the cell between two neighbouring grid times has
    the index of the lower one. *)
Lemma find_index_in_cell (times : list R) :
  Sorted Rlt times ->
  forall i a b x,
    nth_error times i = Some a -> nth_error times (S i) = Some b ->
    a < x < b -> VolSurface._find_index times x = Ok (Z.of_nat i).
Proof.
  intros Hsorted i a b x Ha Hb Hx.
  pose proof (sorted_strongly _ Hsorted) as Hs.
  assert (Hlen : (S i < length times)%nat)
    by (apply nth_error_Some; congruence).
  destruct (index_in_range times 0) as [first [Hf Hf']]; [lia |].
  destruct (index_in_range times (length times - 1)) as [last [_ Hl']]; [lia |].
  assert (Hb1 : index_back times 1 = Ok last)
    by (apply index_back_ok; split; [lia | assumption]).
  assert (first <= a).
  { destruct i as [| i]; [assert (a = first) by congruence; lra |].
    apply Rlt_le.
    apply (strongly_sorted_nth times Hs 0 (S i)); [lia | |]; assumption. }
  assert (b <= last).
  { destruct (Nat.eq_dec (S i) (length times - 1)) as [E | E].
    - rewrite E in Hb. assert (b = last) by congruence. lra.
    - apply Rlt_le.
      apply (strongly_sorted_nth times Hs (S i) (length times - 1));
        [lia | |]; assumption. }
  unfold VolSurface._find_index. rewrite Hf. cbn [Py.bind].
  rewrite fle_false by lra. rewrite Hb1. cbn [Py.bind].
  rewrite fle_false by lra.
  rewrite (bisect_right_in_cell times Hs i a b x Ha Hb) by lra.
  f_equal. lia.
Qed.

End CellFacts.

(** * Further properties of the code *)

Import SortFacts BuilderTotality ExactFacts Totality BootstrapFacts CellFacts.

(** ** [utils/date_helpers.py]: year fractions *)

Module YearFractionFacts.

Lemma thirty_360_same_day (d : Z) :
  ((if (d =? 31) && ((if d =? 31 then 30 else d) =? 30) then 30 else d)
   - (if d =? 31 then 30 else d) = 0)%Z.
Proof.
  destruct (Z.eqb_spec d 31) as [-> | Hne]; [reflexivity |].
  cbn [andb]. lia.
Qed.

Lemma year_fraction_same_day (d : date) (dc : DayCountConvention) :
  dc <> ACT_ACT -> year_fraction d d dc = Ok 0.
Proof.
  intros Hdc. unfold year_fraction, days_between, date_ltb.
  rewrite Z.ltb_irrefl. unfold days_diff. rewrite Z.sub_diag.
  destruct dc; try congruence; try (f_equal; lra).
  rewrite !Z.sub_diag. rewrite thirty_360_same_day.
  f_equal. cbn. lra.
Qed.

End YearFractionFacts.

(** X1.  Apart from ACT/ACT, [year_fraction] raises exactly when the end
    date is before the start date, and the year fraction from a date to itself
    is zero. *)
Theorem year_fraction_raises_iff
        (start_date end_date : date) (dc : DayCountConvention) :
  dc <> ACT_ACT ->
  (raises (year_fraction start_date end_date dc) <-> date_lt end_date start_date)
  /\ year_fraction start_date start_date dc = Ok 0.
Proof.
  intros Hdc. split; [| apply YearFractionFacts.year_fraction_same_day, Hdc].
  unfold year_fraction, days_between, date_lt, date_ltb.
  - destruct (Z.ltb_spec (toordinal end_date) (toordinal start_date)) as [H | H].
    + split; [intros _; exact H | intros _; eexists; reflexivity].
    + split; [| lia].
      intros [e He]. destruct dc; try discriminate. congruence.
Qed.

(** X1 under 30/360: the year fraction from 2025-01-01 back to 2024-01-01
    raises, and from 2024-01-01 to itself it is zero. *)
Lemma year_fraction_raises_iff_witness :
  raises (year_fraction d_2025_01_01 d_2024_01_01 THIRTY_360)
  /\ year_fraction d_2024_01_01 d_2024_01_01 THIRTY_360 = Ok 0.
Proof.
  assert (Hdc : THIRTY_360 <> ACT_ACT) by discriminate.
  split.
  - apply (year_fraction_raises_iff d_2025_01_01 d_2024_01_01 THIRTY_360 Hdc).
    unfold date_lt. simpl. lia.
  - apply (year_fraction_raises_iff d_2024_01_01 d_2024_01_01 THIRTY_360 Hdc).
Defined.

(** X2.  Under ACT/360, ACT/365 and ACT/365.25 the year fraction is additive
    over adjacent periods, non-negative, and zero only from a date to
    itself. *)
Theorem actual_year_fraction_additive
        (d1 d2 d3 : date) (dc : DayCountConvention) (basis : R) :
  actual_basis dc = Some basis ->
  (toordinal d1 <= toordinal d2 <= toordinal d3)%Z ->
  exists t12 t23,
    year_fraction d1 d2 dc = Ok t12
    /\ year_fraction d2 d3 dc = Ok t23
    /\ year_fraction d1 d3 dc = Ok (t12 + t23)
    /\ 0 <= t12 /\ (t12 = 0 <-> d1 = d2).
Proof.
  intros Hb [H12 H23].
  destruct (actual_year_fraction d1 d2 dc basis Hb) as [E12 Hpos];
    [apply Z.ltb_ge; lia |].
  destruct (actual_year_fraction d2 d3 dc basis Hb) as [E23 _];
    [apply Z.ltb_ge; lia |].
  destruct (actual_year_fraction d1 d3 dc basis Hb) as [E13 _];
    [apply Z.ltb_ge; lia |].
  exists (IZR (days_diff d2 d1) / basis), (IZR (days_diff d3 d2) / basis).
  split; [exact E12 |]. split; [exact E23 |]. split.
  - rewrite E13. f_equal. unfold days_diff.
    rewrite !minus_IZR. field. lra.
  - assert (Hn : 0 <= IZR (days_diff d2 d1))
      by (apply IZR_le; unfold days_diff; lia).
    split.
    + apply Rmult_le_pos; [exact Hn | apply Rlt_le, Rinv_0_lt_compat, Hpos].
    + split.
      * intros Hz.
        assert (Hd : IZR (days_diff d2 d1) = 0).
        { apply (Rmult_eq_reg_r (/ basis));
            [| apply Rinv_neq_0_compat; lra].
          rewrite Rmult_0_l. exact Hz. }
        apply eq_IZR in Hd. unfold days_diff in Hd.
        apply date_eqb_eq. unfold date_eqb. apply Z.eqb_eq. lia.
      * intros ->. unfold days_diff. rewrite Z.sub_diag.
        unfold Rdiv. apply Rmult_0_l.
Qed.

(** X2 under ACT/365 on the first days of 2024, 2025 and 2026. *)
Lemma actual_year_fraction_additive_witness :
  exists t12 t23,
    year_fraction d_2024_01_01 d_2025_01_01 ACT_365 = Ok t12
    /\ year_fraction d_2025_01_01 d_2026_01_01 ACT_365 = Ok t23
    /\ year_fraction d_2024_01_01 d_2026_01_01 ACT_365 = Ok (t12 + t23)
    /\ 0 <= t12 /\ (t12 = 0 <-> d_2024_01_01 = d_2025_01_01).
Proof.
  apply (actual_year_fraction_additive _ _ _ ACT_365 365 eq_refl).
  simpl. lia.
Defined.

(** ** [utils/date_helpers.py]: business day adjustment *)

Module BusinessDayFacts.

Lemma add_days_ok (d d' : date) (n : Z) :
  add_days d n = Ok d' -> toordinal d' = (toordinal d + n)%Z.
Proof.
  unfold add_days. cbv zeta.
  destruct ((1 <=? toordinal d + n)%Z && (toordinal d + n <=? MAXORDINAL)%Z);
    [| discriminate].
  intros E. inversion E. reflexivity.
Qed.

Lemma add_days_in_range (d : date) (n : Z) :
  (1 <= toordinal d + n <= MAXORDINAL)%Z ->
  add_days d n = Ok (Date (toordinal d + n)).
Proof.
  intros [H1 H2]. unfold add_days. cbv zeta.
  destruct (Z.leb_spec 1 (toordinal d + n)); [| lia].
  destruct (Z.leb_spec (toordinal d + n) MAXORDINAL); [| lia].
  reflexivity.
Qed.

(** The walk ends on a business day, a whole number of steps away. *)
Lemma roll_ok (fuel : nat) (step : Z) (calendar : option (list date)) :
  forall d d',
    roll fuel step calendar d = Ok d' ->
    is_business_day d' calendar = true
    /\ exists k : nat, toordinal d' = (toordinal d + Z.of_nat k * step)%Z.
Proof.
  induction fuel as [| fuel IH]; intros d d' H; [discriminate |].
  cbn [roll] in H.
  destruct (is_business_day d calendar) eqn:Hb.
  - inversion H; subst d'. split; [exact Hb |]. exists 0%nat. lia.
  - destruct (add_days d step) as [d1 | e] eqn:Ha; [| discriminate].
    cbn in H. apply IH in H. destruct H as [Hb' [k Hk]].
    split; [exact Hb' |].
    exists (S k). apply add_days_ok in Ha. lia.
Qed.

Lemma roll_modified_ok (fuel : nat) (step : Z) (calendar : option (list date))
      (d : date) (original_month : Z) :
  forall adjusted d',
    roll_modified fuel step calendar d original_month adjusted = Ok d' ->
    is_business_day d' calendar = true.
Proof.
  induction fuel as [| fuel IH]; intros adjusted d' H; [discriminate |].
  cbn [roll_modified] in H.
  destruct (is_business_day adjusted calendar) eqn:Hb.
  - inversion H; subst d'. exact Hb.
  - destruct (add_days adjusted step) as [d1 | e] eqn:Ha; [| discriminate].
    cbn in H.
    destruct (negb (month d1 =? original_month)%Z).
    + apply roll_ok in H. apply H.
    + apply IH in H. exact H.
Qed.

Lemma adjust_business_day_fixed (d : date) (rule : BusinessDayRule)
      (calendar : option (list date)) :
  is_business_day d calendar = true ->
  adjust_business_day d rule calendar = Ok d.
Proof.
  intros Hb. unfold adjust_business_day. rewrite Hb.
  destruct rule; reflexivity.
Qed.

Lemma weekday_range (d : date) : (0 <= weekday d < 7)%Z.
Proof. unfold weekday. apply Z.mod_pos_bound. lia. Qed.

Lemma weekday_shift (d : date) (n : Z) :
  weekday (Date (toordinal d + n)) = ((weekday d + n) mod 7)%Z.
Proof.
  unfold weekday. cbn [toordinal].
  rewrite Zplus_mod_idemp_l. f_equal. lia.
Qed.

Lemma weekends_only (d : date) :
  is_business_day d None = negb (5 <=? weekday d)%Z.
Proof. unfold is_business_day. destruct (5 <=? weekday d)%Z; reflexivity. Qed.

Lemma fuel_three : exists k, Z.to_nat MAXORDINAL = S (S (S k)).
Proof.
  exists (Z.to_nat MAXORDINAL - 3)%nat. unfold MAXORDINAL. lia.
Qed.

Lemma business_weekday (d : date) :
  (weekday d < 5)%Z -> is_business_day d None = true.
Proof.
  intros H. rewrite weekends_only.
  destruct (Z.leb_spec 5 (weekday d)); [lia | reflexivity].
Qed.

Lemma roll_done (fuel : nat) (step : Z) (d : date) :
  (weekday d < 5)%Z -> roll (S fuel) step None d = Ok d.
Proof. intros H. cbn [roll]. rewrite business_weekday by exact H. reflexivity. Qed.

Lemma roll_weekend (fuel : nat) (step : Z) (d : date) :
  (5 <= weekday d)%Z ->
  (1 <= toordinal d + step <= MAXORDINAL)%Z ->
  roll (S fuel) step None d = roll fuel step None (Date (toordinal d + step)).
Proof.
  intros H Hr. cbn [roll]. rewrite weekends_only.
  destruct (Z.leb_spec 5 (weekday d)); [| lia]. cbn [negb].
  rewrite add_days_in_range by exact Hr. reflexivity.
Qed.

End BusinessDayFacts.

(** X3.  Whatever [adjust_business_day] returns under a rule other than NONE
    is a business day of the calendar; a business day is returned unchanged, so
    adjusting twice is adjusting once; FOLLOWING never moves a date back and
    PRECEDING never moves it forward. *)
Theorem adjust_business_day_result
        (d d' : date) (rule : BusinessDayRule) (calendar : option (list date)) :
  adjust_business_day d rule calendar = Ok d' ->
  (rule <> NONE -> is_business_day d' calendar = true)
  /\ (is_business_day d calendar = true -> d' = d)
  /\ adjust_business_day d' rule calendar = Ok d'
  /\ (rule = FOLLOWING -> (toordinal d <= toordinal d')%Z)
  /\ (rule = PRECEDING -> (toordinal d' <= toordinal d)%Z).
Proof.
  intros H.
  assert (Hfix : is_business_day d calendar = true -> d' = d).
  { intros Hb.
    rewrite (BusinessDayFacts.adjust_business_day_fixed d rule calendar Hb) in H.
    inversion H. reflexivity. }
  destruct (is_business_day d calendar) eqn:Hb.
  - rewrite (Hfix eq_refl).
    split; [intros _; exact Hb |]. split; [reflexivity |].
    split; [apply BusinessDayFacts.adjust_business_day_fixed; exact Hb |].
    split; intros _; lia.
  - unfold adjust_business_day in H. rewrite Hb in H.
    destruct rule.
    + apply BusinessDayFacts.roll_ok in H. destruct H as [Hb' [k Hk]].
      split; [intros _; exact Hb' |]. split; [discriminate |].
      split; [apply BusinessDayFacts.adjust_business_day_fixed; exact Hb' |].
      split; [intros _; lia | discriminate].
    + apply BusinessDayFacts.roll_modified_ok in H.
      split; [intros _; exact H |]. split; [discriminate |].
      split; [apply BusinessDayFacts.adjust_business_day_fixed; exact H |].
      split; discriminate.
    + apply BusinessDayFacts.roll_ok in H. destruct H as [Hb' [k Hk]].
      split; [intros _; exact Hb' |]. split; [discriminate |].
      split; [apply BusinessDayFacts.adjust_business_day_fixed; exact Hb' |].
      split; [discriminate | intros _; lia].
    + apply BusinessDayFacts.roll_modified_ok in H.
      split; [intros _; exact H |]. split; [discriminate |].
      split; [apply BusinessDayFacts.adjust_business_day_fixed; exact H |].
      split; discriminate.
    + inversion H; subst d'.
      split; [intros Hn; contradiction Hn; reflexivity |].
      split; [discriminate |]. split; [reflexivity |].
      split; discriminate.
Qed.

Lemma saturday_following :
  adjust_business_day d_2024_01_06 FOLLOWING None = Ok d_2024_01_08.
Proof. vm_compute. reflexivity. Qed.

(** X3 on Saturday 6 January 2024 under FOLLOWING, the example of the
    docstring. *)
Lemma adjust_business_day_result_witness :
  is_business_day d_2024_01_08 None = true
  /\ adjust_business_day d_2024_01_08 FOLLOWING None = Ok d_2024_01_08
  /\ (toordinal d_2024_01_06 <= toordinal d_2024_01_08)%Z.
Proof.
  pose proof (adjust_business_day_result d_2024_01_06 d_2024_01_08 FOLLOWING
                None saturday_following) as [H1 [_ [H3 [H4 _]]]].
  split; [apply H1; discriminate |]. split; [exact H3 |].
  apply H4. reflexivity.
Defined.

(** X4.  With weekends as the only non-business days, FOLLOWING returns the
    first weekday on or after the date, at most two days later, and PRECEDING
    the first weekday on or before it, at most two days earlier, whenever those
    two days are within the range of [date]. *)
Theorem adjust_business_day_weekend (d : date) :
  (1 <= toordinal d <= MAXORDINAL)%Z ->
  ((toordinal d + 2 <= MAXORDINAL)%Z ->
   exists d', adjust_business_day d FOLLOWING None = Ok d'
              /\ (weekday d' < 5)%Z
              /\ toordinal d' =
                 (toordinal d + (if (weekday d =? 5)%Z then 2
                                 else if (weekday d =? 6)%Z then 1 else 0))%Z)
  /\ ((1 <= toordinal d - 2)%Z ->
      exists d', adjust_business_day d PRECEDING None = Ok d'
                 /\ (weekday d' < 5)%Z
                 /\ toordinal d' =
                    (toordinal d - (if (weekday d =? 5)%Z then 1
                                    else if (weekday d =? 6)%Z then 2 else 0))%Z).
Proof.
  intros Hd.
  pose proof (BusinessDayFacts.weekday_range d) as Hw.
  destruct BusinessDayFacts.fuel_three as [k Hk].
  pose proof (BusinessDayFacts.weekday_shift d) as Hs.
  split; intros Hr.
  - unfold adjust_business_day. rewrite BusinessDayFacts.weekends_only, Hk.
    destruct (Z.leb_spec 5 (weekday d)) as [H5 | H5]; cbn [negb].
    + rewrite BusinessDayFacts.roll_weekend by lia.
      destruct (Z.eqb_spec (weekday d) 5) as [E5 | N5].
      * assert (W1 : weekday (Date (toordinal d + 1)) = 6%Z)
          by (rewrite Hs, E5; reflexivity).
        assert (W2 : weekday (Date (toordinal d + 2)) = 0%Z)
          by (rewrite Hs, E5; reflexivity).
        rewrite BusinessDayFacts.roll_weekend
          by (cbn [toordinal]; rewrite ?W1; lia).
        cbn [toordinal].
        replace (toordinal d + 1 + 1)%Z with (toordinal d + 2)%Z by lia.
        rewrite BusinessDayFacts.roll_done by (rewrite W2; lia).
        eexists. split; [reflexivity |]. rewrite W2. cbn [toordinal]. lia.
      * assert (E6 : weekday d = 6%Z) by lia.
        assert (W1 : weekday (Date (toordinal d + 1)) = 0%Z)
          by (rewrite Hs, E6; reflexivity).
        rewrite BusinessDayFacts.roll_done by (rewrite W1; lia).
        eexists. split; [reflexivity |]. rewrite W1, E6. cbn. lia.
    + exists d. split; [reflexivity |]. split; [exact H5 |].
      destruct (Z.eqb_spec (weekday d) 5); [lia |].
      destruct (Z.eqb_spec (weekday d) 6); lia.
  - unfold adjust_business_day. rewrite BusinessDayFacts.weekends_only, Hk.
    destruct (Z.leb_spec 5 (weekday d)) as [H5 | H5]; cbn [negb].
    + rewrite BusinessDayFacts.roll_weekend by lia.
      destruct (Z.eqb_spec (weekday d) 5) as [E5 | N5].
      * assert (W1 : weekday (Date (toordinal d + -1)) = 4%Z)
          by (rewrite Hs, E5; reflexivity).
        rewrite BusinessDayFacts.roll_done by (rewrite W1; lia).
        eexists. split; [reflexivity |]. rewrite W1. cbn [toordinal]. lia.
      * assert (E6 : weekday d = 6%Z) by lia.
        assert (W1 : weekday (Date (toordinal d + -1)) = 5%Z)
          by (rewrite Hs, E6; reflexivity).
        assert (W2 : weekday (Date (toordinal d + -2)) = 4%Z)
          by (rewrite Hs, E6; reflexivity).
        rewrite BusinessDayFacts.roll_weekend
          by (cbn [toordinal]; rewrite ?W1; lia).
        cbn [toordinal].
        replace (toordinal d + -1 + -1)%Z with (toordinal d + -2)%Z by lia.
        rewrite BusinessDayFacts.roll_done by (rewrite W2; lia).
        eexists. split; [reflexivity |]. rewrite W2, E6. cbn. lia.
    + exists d. split; [reflexivity |]. split; [exact H5 |].
      destruct (Z.eqb_spec (weekday d) 5); [lia |].
      destruct (Z.eqb_spec (weekday d) 6); lia.
Qed.

(** X4 on Saturday 6 January 2024: FOLLOWING lands two days later. *)
Lemma adjust_business_day_weekend_witness :
  exists d', adjust_business_day d_2024_01_06 FOLLOWING None = Ok d'
             /\ (weekday d' < 5)%Z
             /\ toordinal d' =
                (toordinal d_2024_01_06
                 + (if (weekday d_2024_01_06 =? 5)%Z then 2
                    else if (weekday d_2024_01_06 =? 6)%Z then 1 else 0))%Z.
Proof.
  assert (Hd : (1 <= toordinal d_2024_01_06 <= MAXORDINAL)%Z)
    by (unfold MAXORDINAL; simpl; lia).
  apply (proj1 (adjust_business_day_weekend d_2024_01_06 Hd)).
  unfold MAXORDINAL. simpl. lia.
Defined.

(** ** [utils/date_helpers.py]: schedules without business day adjustment *)

Module ScheduleFacts.

(** [schedule_loop_none] for any holiday calendar: the rule [NONE] never
    consults it. *)
Lemma schedule_loop_none_calendar (fuel : nat) (end_date : date)
      (frequency : Frequency) (calendar : option (list date)) (first : date) :
  forall appended current_date schedule,
    appended_ok end_date appended current_date ->
    schedule_loop fuel end_date frequency NONE calendar (first :: appended)
                  current_date = Ok schedule ->
    exists appended' current_date',
      schedule = first :: appended'
      /\ appended_ok end_date appended' current_date'.
Proof.
  induction fuel as [| fuel IH]; intros appended current_date schedule Hok Hrun;
    cbn [schedule_loop] in Hrun; [discriminate |].
  destruct (date_ltb current_date end_date) eqn:Hlt.
  - apply bind_ok_inv in Hrun. destruct Hrun as [current' [_ Hrun]].
    apply bind_ok_inv in Hrun. destruct Hrun as [schedule' [Happ Hrun]].
    destruct Hok as [Hall | [init [_ [_ Hstop]]]]; [| congruence].
    destruct (date_leb current' end_date) eqn:Hle.
    + cbn [adjust_business_day Py.bind] in Happ.
      inversion Happ; subst schedule'; clear Happ.
      apply (IH (appended ++ [current']) current' schedule); [| exact Hrun].
      unfold date_leb in Hle. apply Z.leb_le in Hle.
      destruct (Z.eq_dec (toordinal current') (toordinal end_date)) as [He | Hn].
      * right. exists appended.
        assert (current' = end_date)
          by (apply date_eqb_eq; unfold date_eqb; apply Z.eqb_eq; exact He).
        subst current'. repeat split; [exact Hall |].
        unfold date_ltb. apply Z.ltb_irrefl.
      * left. apply Forall_app. split; [exact Hall |].
        constructor; [unfold date_lt; lia | constructor].
    + inversion Happ; subst schedule'; clear Happ.
      apply (IH appended current' schedule); [left; exact Hall | exact Hrun].
  - inversion Hrun; subst schedule. exists appended, current_date. auto.
Qed.

Lemma schedule_fuel_positive : exists k, SCHEDULE_FUEL = S k.
Proof. exists (SCHEDULE_FUEL - 1)%nat. unfold SCHEDULE_FUEL. lia. Qed.

Lemma index_back_last {A : Type} (l : list A) (a : A) :
  index_back (l ++ [a]) 1 = Ok a.
Proof.
  apply index_back_ok. rewrite length_app. cbn [length]. split; [lia |].
  rewrite nth_error_app2 by lia.
  replace (length l + 1 - 1 - length l)%nat with 0%nat by lia. reflexivity.
Qed.

Lemma generate_schedule_same_day (d : date) (frequency : Frequency)
      (calendar : option (list date)) :
  generate_schedule d d frequency NONE calendar = Ok [d].
Proof.
  unfold generate_schedule, date_ltb. rewrite Z.ltb_irrefl.
  cbn [adjust_business_day Py.bind].
  destruct schedule_fuel_positive as [k ->].
  cbn [schedule_loop]. unfold date_ltb. rewrite Z.ltb_irrefl.
  cbn [Py.bind]. change [d] with ([] ++ [d]) at 1.
  rewrite index_back_last. cbn [Py.bind app].
  rewrite date_eqb_refl. reflexivity.
Qed.

(** The dates of a schedule without business day adjustment. *)
Lemma none_shape
        (start_date end_date : date) (frequency : Frequency)
        (calendar : option (list date)) (schedule : list date) :
  generate_schedule start_date end_date frequency NONE calendar = Ok schedule ->
  (start_date = end_date /\ schedule = [start_date])
  \/ (date_lt start_date end_date
      /\ exists mid,
           schedule = start_date :: mid ++ [end_date]
           /\ Forall (fun d => date_lt d end_date) mid).
Proof.
  intros Hgen.
  destruct (Z.eq_dec (toordinal start_date) (toordinal end_date)) as [He | Hne].
  { left.
    assert (start_date = end_date)
      by (apply date_eqb_eq; unfold date_eqb; apply Z.eqb_eq; exact He).
    subst end_date. rewrite generate_schedule_same_day in Hgen.
    inversion Hgen. auto. }
  right. unfold generate_schedule in Hgen.
  destruct (date_ltb end_date start_date) eqn:Hord; [discriminate |].
  unfold date_ltb in Hord. apply Z.ltb_ge in Hord.
  assert (Hlt : date_lt start_date end_date) by (unfold date_lt; lia).
  split; [exact Hlt |].
  cbn [adjust_business_day Py.bind] in Hgen.
  apply bind_ok_inv in Hgen. destruct Hgen as [looped [Hloop Hgen]].
  destruct (schedule_loop_none_calendar
              _ _ _ _ _ [] start_date looped
              (or_introl (Forall_nil _)) Hloop)
    as [appended [current [-> Hok]]].
  apply bind_ok_inv in Hgen. destruct Hgen as [last [Hlast Hgen]].
  destruct Hok as [Hall | [init [-> [Hall _]]]].
  - assert (Hbefore : date_lt last end_date).
    { apply index_back_ok in Hlast. destruct Hlast as [_ Hlast].
      apply nth_error_In in Hlast. destruct Hlast as [<- | Hin];
        [exact Hlt |].
      rewrite Forall_forall in Hall. apply Hall. exact Hin. }
    rewrite (date_eqb_lt _ _ Hbefore) in Hgen. cbn [negb Py.bind] in Hgen.
    assert (E : date_eqb end_date last = false)
      by (unfold date_eqb; apply Z.eqb_neq; unfold date_lt in Hbefore; lia).
    rewrite E in Hgen. cbn [negb] in Hgen. inversion Hgen.
    exists appended. auto.
  - change (start_date :: init ++ [end_date])
      with ((start_date :: init) ++ [end_date]) in Hlast.
    rewrite index_back_last in Hlast.
    inversion Hlast; subst last.
    rewrite date_eqb_refl in Hgen. cbn [negb] in Hgen. inversion Hgen.
    exists init. auto.
Qed.

End ScheduleFacts.

(** X5.  Under the rule NONE a schedule that [generate_schedule] returns is
    the start date alone when the two dates coincide, and otherwise the start
    date, then dates strictly before the end date, then the end date, exactly
    once. *)
Theorem generate_schedule_none_shape
        (start_date end_date : date) (frequency : Frequency)
        (calendar : option (list date)) (schedule : list date) :
  generate_schedule start_date end_date frequency NONE calendar = Ok schedule ->
  (start_date = end_date /\ schedule = [start_date])
  \/ (date_lt start_date end_date
      /\ exists mid,
           schedule = start_date :: mid ++ [end_date]
           /\ Forall (fun d => date_lt d end_date) mid).
Proof. apply ScheduleFacts.none_shape. Qed.

(** X5 on the semi-annual schedule from 2024-07-30 to 2025-01-31. *)
Lemma generate_schedule_none_shape_witness :
  (d_2024_07_30 = d_2025_01_31
   /\ [d_2024_07_30; d_2025_01_30; d_2025_01_31] = [d_2024_07_30])
  \/ (date_lt d_2024_07_30 d_2025_01_31
      /\ exists mid,
           [d_2024_07_30; d_2025_01_30; d_2025_01_31]
           = d_2024_07_30 :: mid ++ [d_2025_01_31]
           /\ Forall (fun d => date_lt d d_2025_01_31) mid).
Proof.
  apply (generate_schedule_none_shape d_2024_07_30 d_2025_01_31 freq_6M None).
  exact ZeroLengthPeriod.schedule_to_2025_01_31.
Defined.

(** X6.  [generate_schedule] raises when the end date is before the start
    date, and when the start date is before the end date and the unit of the
    frequency is neither M nor Y; when the two dates coincide the unit is never
    looked at, and under the rule NONE the schedule is the one date. *)
Theorem generate_schedule_edge_cases
        (start_date end_date : date) (frequency : Frequency)
        (business_day_rule : BusinessDayRule) (calendar : option (list date)) :
  (date_lt end_date start_date ->
   generate_schedule start_date end_date frequency business_day_rule calendar
   = Raise (ValueError "end_date must be >= start_date"))
  /\ (date_lt start_date end_date ->
      frequency_unit frequency = UnitOther ->
      raises (generate_schedule start_date end_date frequency
                                business_day_rule calendar))
  /\ generate_schedule start_date start_date frequency NONE calendar
     = Ok [start_date].
Proof.
  split; [| split].
  - intros H. unfold generate_schedule, date_ltb.
    unfold date_lt in H. apply Z.ltb_lt in H. rewrite H. reflexivity.
  - intros H Hunit. unfold generate_schedule, date_ltb.
    unfold date_lt in H.
    destruct (Z.ltb_spec (toordinal end_date) (toordinal start_date)); [lia |].
    destruct (adjust_business_day start_date business_day_rule calendar)
      as [adjusted | e]; [| eexists; reflexivity].
    cbn [Py.bind].
    destruct ScheduleFacts.schedule_fuel_positive as [k ->].
    cbn [schedule_loop]. unfold date_ltb.
    apply Z.ltb_lt in H. rewrite H, Hunit. eexists. reflexivity.
  - apply ScheduleFacts.generate_schedule_same_day.
Qed.

(** X6: dates in the wrong order, and a unit that is neither M nor Y. *)
Lemma generate_schedule_edge_cases_witness :
  generate_schedule d_2025_01_01 d_2024_01_01 freq_6M MODIFIED_FOLLOWING None
  = Raise (ValueError "end_date must be >= start_date")
  /\ raises (generate_schedule d_2024_01_01 d_2025_01_01
               {| frequency_value := 6; frequency_unit := UnitOther |}
               MODIFIED_FOLLOWING None).
Proof.
  pose proof (generate_schedule_edge_cases d_2025_01_01 d_2024_01_01 freq_6M
                MODIFIED_FOLLOWING None) as [H1 _].
  pose proof (generate_schedule_edge_cases d_2024_01_01 d_2025_01_01
                {| frequency_value := 6; frequency_unit := UnitOther |}
                MODIFIED_FOLLOWING None) as [_ [H2 _]].
  split.
  - apply H1. unfold date_lt. simpl. lia.
  - apply H2; [unfold date_lt; simpl; lia | reflexivity].
Defined.

(** ** [market_data/yield_curve.py]: the canonical form of a curve *)

Module ConstructorFacts.

Lemma validate_raise (values : list R) :
  _validate_strictly_increasing values = Ok tt
  \/ _validate_strictly_increasing values
     = Raise (ValueError "Values must be strictly increasing.").
Proof.
  induction values as [| a r IH]; [left; reflexivity |].
  destruct r as [| b r']; [left; reflexivity |].
  cbn [_validate_strictly_increasing].
  destruct (flt a b); cbn [negb]; [exact IH | right; reflexivity].
Qed.

Lemma existsb_perm {A : Type} (f : A -> bool) (l l' : list A) :
  Permutation l l' -> existsb f l = existsb f l'.
Proof.
  induction 1 as [| x l l' _ IH | x y l | l l' l'' _ IH1 _ IH2]; simpl.
  - reflexivity.
  - rewrite IH. reflexivity.
  - destruct (f x), (f y); reflexivity.
  - congruence.
Qed.

Lemma strongly_sorted_unmap {A B : Type} (f : A -> B)
      (ltA : A -> A -> Prop) (ltB : B -> B -> Prop) (l : list A) :
  (forall x y, ltB (f x) (f y) -> ltA x y) ->
  StronglySorted ltB (map f l) -> StronglySorted ltA l.
Proof.
  intros Hf. induction l as [| a r IH]; intros Hs; [constructor |].
  simpl in Hs. inversion Hs as [| a' r' Hs' Hall]; subst.
  constructor; [apply IH, Hs' |].
  rewrite Forall_forall in *. intros x Hx. apply Hf, Hall, in_map, Hx.
Qed.

Section ByKey.

Context {A : Type} (key : A -> Z).

Lemma strict_nodup (l : list A) :
  StronglySorted (fun x y => (key x < key y)%Z) l -> NoDup (map key l).
Proof.
  induction 1 as [| a r Hs IH Hall]; simpl; constructor; [| exact IH].
  intros Hin. apply in_map_iff in Hin. destruct Hin as [x [Hk Hx]].
  rewrite Forall_forall in Hall. specialize (Hall x Hx). lia.
Qed.

(** A list has at most one arrangement in strictly increasing key order. *)
Lemma strict_sorted_unique (l l' : list A) :
  StronglySorted (fun x y => (key x < key y)%Z) l ->
  StronglySorted (fun x y => (key x < key y)%Z) l' ->
  Permutation l l' -> l = l'.
Proof.
  intros Hs. revert l'. induction Hs as [| a r Hs IH Hall]; intros l' Hs' Hp.
  - apply Permutation_nil in Hp. congruence.
  - destruct l' as [| b r'];
      [apply Permutation_sym, Permutation_nil in Hp; discriminate |].
    inversion Hs' as [| b' r'' Hs'' Hall']; subst.
    rewrite Forall_forall in Hall, Hall'.
    assert (Ha : In a (b :: r'))
      by (apply (Permutation_in _ Hp); left; reflexivity).
    assert (Hb : In b (a :: r))
      by (apply (Permutation_in _ (Permutation_sym Hp)); left; reflexivity).
    assert (Heq : a = b).
    { destruct Ha as [Ha | Ha]; [congruence |].
      destruct Hb as [Hb | Hb]; [congruence |].
      specialize (Hall b Hb). specialize (Hall' a Ha). lia. }
    subst b. f_equal. apply IH; [exact Hs'' |].
    apply Permutation_cons_inv in Hp. exact Hp.
Qed.

(** Sorting is independent of the input order once the sorted keys are
    strictly increasing. *)
Lemma sorted_perm_unique (l l' : list A) :
  Permutation l l' ->
  StronglySorted (fun x y => (key x < key y)%Z) (sorted key l) ->
  sorted key l' = sorted key l.
Proof.
  intros Hp Hs.
  assert (Hpp : Permutation (sorted key l') (sorted key l)).
  { eapply Permutation_trans; [apply sorted_perm |].
    eapply Permutation_trans; [apply Permutation_sym, Hp |].
    apply Permutation_sym, sorted_perm. }
  apply strict_sorted_unique; [| exact Hs | exact Hpp].
  apply sorted_strict.
  eapply Permutation_NoDup; [| apply (strict_nodup _ Hs)].
  apply Permutation_map.
  eapply Permutation_trans; [apply sorted_perm | exact Hp].
Qed.

End ByKey.

Lemma combine_fst_snd {A B : Type} (l : list (A * B)) :
  combine (map fst l) (map snd l) = l.
Proof.
  induction l as [| [a b] r IH]; simpl; [reflexivity | rewrite IH; reflexivity].
Qed.

(** The date check of the constructor, read back on the sorted pairs. *)
Lemma validated_dates_strict (sp : list (date * R)) :
  _validate_strictly_increasing
    (map (fun d => IZR (toordinal d)) (map fst sp)) = Ok tt ->
  StronglySorted (fun x y => (pair_key x < pair_key y)%Z) sp.
Proof.
  intros Hv. apply validate_ok_sorted, sorted_strongly in Hv.
  rewrite map_map in Hv.
  apply (strongly_sorted_unmap (fun x => IZR (toordinal (fst x))) _ Rlt);
    [| exact Hv].
  intros x y H. apply lt_IZR in H. exact H.
Qed.

End ConstructorFacts.

(** X7.  The constructor of [YieldCurve] does not depend on the order in
    which the pillars are given: two inputs that pair the same dates with the
    same rates give the same curve, or the same error. *)
Theorem YieldCurve_init_order_independent
        (val : date) (dates dates' : list date) (rates rates' : list R)
        (dc : DayCountConvention) (interp : InterpolationMethod)
        (comp : CompoundingMethod) :
  length dates = length rates ->
  length dates' = length rates' ->
  Permutation (combine dates rates) (combine dates' rates') ->
  YieldCurve_init val dates rates dc interp comp
  = YieldCurve_init val dates' rates' dc interp comp.
Proof.
  intros Hlen Hlen' Hp.
  assert (Hd : Permutation dates dates').
  { rewrite <- (map_fst_combine dates rates), <- (map_fst_combine dates' rates')
      by assumption.
    apply Permutation_map, Hp. }
  unfold YieldCurve_init.
  rewrite <- (Permutation_length Hd).
  rewrite (proj2 (Nat.eqb_eq _ _) Hlen).
  assert (Hl' : length dates = length rates')
    by (rewrite (Permutation_length Hd); exact Hlen').
  rewrite (proj2 (Nat.eqb_eq _ _) Hl'). cbn [negb].
  destruct (length dates =? 0)%nat; [reflexivity |].
  rewrite <- (ConstructorFacts.existsb_perm _ _ _ Hd).
  destruct (existsb (fun d => date_ltb d val) dates); [reflexivity |].
  fold pair_key.
  set (sp := sorted pair_key (combine dates rates)).
  set (sp' := sorted pair_key (combine dates' rates')).
  destruct (ConstructorFacts.validate_raise
              (map (fun d => IZR (toordinal d)) (map fst sp))) as [Hv | Hv].
  - assert (E : sp' = sp).
    { apply ConstructorFacts.sorted_perm_unique; [exact Hp |].
      apply ConstructorFacts.validated_dates_strict, Hv. }
    rewrite E. reflexivity.
  - destruct (ConstructorFacts.validate_raise
                (map (fun d => IZR (toordinal d)) (map fst sp'))) as [Hv' | Hv'].
    + assert (E : sp = sp').
      { apply ConstructorFacts.sorted_perm_unique;
          [apply Permutation_sym, Hp |].
        apply ConstructorFacts.validated_dates_strict, Hv'. }
      rewrite E. reflexivity.
    + rewrite Hv, Hv'. reflexivity.
Qed.

(** X7 on two pillars given in either order. *)
Lemma YieldCurve_init_order_independent_witness :
  YieldCurve_init d_2024_01_01 [d_2025_01_01; d_2026_01_01] [0.02; 0.022]
                  ACT_365 log_linear_df cont
  = YieldCurve_init d_2024_01_01 [d_2026_01_01; d_2025_01_01] [0.022; 0.02]
                    ACT_365 log_linear_df cont.
Proof.
  apply YieldCurve_init_order_independent;
    [reflexivity | reflexivity | apply perm_swap].
Defined.

(** X8.  A curve that the constructor returns is in canonical form: its
    pillars are the given pairs of date and rate, rearranged so that the dates
    increase strictly; every pillar date is on or after the valuation date; the
    pillar times are the year fractions of the pillar dates and increase
    strictly; and pillars given in strictly increasing date order are kept as
    given. *)
Theorem YieldCurve_init_canonical
        (val : date) (dates : list date) (rates : list R)
        (dc : DayCountConvention) (interp : InterpolationMethod)
        (comp : CompoundingMethod) (c : YieldCurve) :
  YieldCurve_init val dates rates dc interp comp = Ok c ->
  Permutation (combine (pillar_dates c) (pillar_zero_rates c))
              (combine dates rates)
  /\ StronglySorted date_lt (pillar_dates c)
  /\ StronglySorted Rlt (_pillar_times c)
  /\ length (pillar_zero_rates c) = length (pillar_dates c)
  /\ length (_pillar_times c) = length (pillar_dates c)
  /\ pillar_dates c <> []
  /\ Forall (fun d => (toordinal val <= toordinal d)%Z) (pillar_dates c)
  /\ (forall i d, nth_error (pillar_dates c) i = Some d ->
        exists t, nth_error (_pillar_times c) i = Some t
                  /\ year_fraction val d dc = Ok t)
  /\ (StronglySorted date_lt dates ->
      pillar_dates c = dates /\ pillar_zero_rates c = rates).
Proof.
  intros Hinit. pose proof (YieldCurve_init_ok _ _ _ _ _ _ _ Hinit) as Hc.
  destruct (constructed_lengths _ _ _ _ _ _ _ Hc) as [Hlz [Hlt Hld]].
  pose proof (c_dates _ _ _ _ _ _ _ Hc) as Hdates.
  pose proof (c_rates _ _ _ _ _ _ _ Hc) as Hrates.
  assert (Hperm : Permutation (combine (pillar_dates c) (pillar_zero_rates c))
                              (combine dates rates)).
  { rewrite Hdates, Hrates, ConstructorFacts.combine_fst_snd.
    apply sorted_perm. }
  assert (Hin : forall d, In d (pillar_dates c) -> In d dates).
  { intros d Hd.
    assert (Hpd : Permutation (pillar_dates c) dates).
    { rewrite <- (map_fst_combine (pillar_dates c) (pillar_zero_rates c))
        by (symmetry; exact Hlz || lia).
      rewrite <- (map_fst_combine dates rates)
        by exact (c_same_length _ _ _ _ _ _ _ Hc).
      apply Permutation_map, Hperm. }
    apply (Permutation_in _ Hpd), Hd. }
  split; [exact Hperm |].
  split.
  { pose proof (sorted_strongly _ (c_dates_sorted _ _ _ _ _ _ _ Hc)) as Hs.
    apply (ConstructorFacts.strongly_sorted_unmap
             (fun d => IZR (toordinal d)) _ Rlt); [| exact Hs].
    intros x y H. apply lt_IZR in H. exact H. }
  split; [apply sorted_strongly, (c_times_sorted _ _ _ _ _ _ _ Hc) |].
  split; [lia |]. split; [lia |].
  split.
  { intros E. rewrite E in Hld. simpl in Hld.
    apply (c_nonempty _ _ _ _ _ _ _ Hc). lia. }
  split.
  { apply Forall_forall. intros d Hd.
    pose proof (c_after _ _ _ _ _ _ _ Hc d (Hin d Hd)) as Ha.
    unfold date_ltb in Ha. apply Z.ltb_ge in Ha. exact Ha. }
  split.
  { intros i d Hi.
    apply (map_result_nth _ _ _ i d (c_times _ _ _ _ _ _ _ Hc) Hi). }
  intros Hs.
  assert (Hid : sorted (fun x : date * R => toordinal (fst x))
                       (combine dates rates) = combine dates rates).
  { apply sorted_increasing_id, combine_strongly_sorted, Hs. }
  rewrite Hdates, Hrates, Hid.
  pose proof (c_same_length _ _ _ _ _ _ _ Hc).
  split; [apply map_fst_combine | apply map_snd_combine]; assumption.
Qed.

(** X8 on the curve of the tests. *)
Lemma YieldCurve_init_canonical_witness :
  Permutation (combine (pillar_dates test_curve) (pillar_zero_rates test_curve))
              (combine [d_2025_01_01; d_2026_01_01; d_2027_01_01]
                       [0.02; 0.022; 0.025])
  /\ StronglySorted date_lt (pillar_dates test_curve)
  /\ StronglySorted Rlt (_pillar_times test_curve).
Proof.
  pose proof (YieldCurve_init_canonical _ _ _ _ _ _ _ test_curve_built)
    as [H1 [H2 [H3 _]]].
  auto.
Defined.

(** X9.  Under ACT/360, ACT/365 and ACT/365.25 the constructor of
    [YieldCurve] returns a curve exactly when there are as many dates as rates,
    at least one, no date before the valuation date, and no date twice. *)
Theorem YieldCurve_init_accepts_iff
        (val : date) (dates : list date) (rates : list R)
        (dc : DayCountConvention) (interp : InterpolationMethod)
        (comp : CompoundingMethod) (basis : R) :
  actual_basis dc = Some basis ->
  (returns (YieldCurve_init val dates rates dc interp comp)
   <-> length dates = length rates
       /\ dates <> []
       /\ Forall (fun d => (toordinal val <= toordinal d)%Z) dates
       /\ NoDup (map toordinal dates)).
Proof.
  intros Hb. split.
  - intros [c Hinit].
    pose proof (YieldCurve_init_ok _ _ _ _ _ _ _ Hinit) as Hc.
    pose proof (c_same_length _ _ _ _ _ _ _ Hc) as Hlen.
    split; [exact Hlen |]. split.
    { intros ->. apply (c_nonempty _ _ _ _ _ _ _ Hc). reflexivity. }
    split.
    { apply Forall_forall. intros d Hd.
      pose proof (c_after _ _ _ _ _ _ _ Hc d Hd) as Ha.
      unfold date_ltb in Ha. apply Z.ltb_ge in Ha. exact Ha. }
    pose proof (sorted_strongly _ (c_dates_sorted _ _ _ _ _ _ _ Hc)) as Hs.
    assert (Hnd : NoDup (map toordinal (pillar_dates c))).
    { apply (ConstructorFacts.strict_nodup toordinal).
      apply (ConstructorFacts.strongly_sorted_unmap
               (fun d => IZR (toordinal d)) _ Rlt); [| exact Hs].
      intros x y H. apply lt_IZR in H. exact H. }
    eapply Permutation_NoDup; [| exact Hnd].
    apply Permutation_map.
    rewrite (c_dates _ _ _ _ _ _ _ Hc).
    apply (Permutation_trans (l' := map fst (combine dates rates)));
      [apply Permutation_map, sorted_perm |].
    rewrite map_fst_combine by exact Hlen. apply Permutation_refl.
  - intros [Hlen [Hne [Hafter Hnd]]].
    rewrite Forall_forall in Hafter.
    apply YieldCurve_init_returns; try assumption.
    + intros d Hd.
      destruct (actual_year_fraction val d dc basis Hb) as [Hyf _].
      * apply Z.ltb_ge, Hafter, Hd.
      * eexists; exact Hyf.
    + intros d1 d2 t1 t2 _ _.
      apply (actual_year_fraction_monotone val d1 d2 dc basis t1 t2 Hb).
Qed.

(** X9: two distinct pillar dates after the valuation date, in descending
    order, are accepted. *)
Lemma YieldCurve_init_accepts_iff_witness :
  returns (YieldCurve_init d_2024_01_01 [d_2026_01_01; d_2025_01_01]
                           [0.022; 0.02] ACT_365 linear_zero annual).
Proof.
  apply (YieldCurve_init_accepts_iff _ _ _ ACT_365 linear_zero annual 365
           eq_refl).
  split; [reflexivity |]. split; [discriminate |]. split.
  - repeat constructor; simpl; lia.
  - repeat constructor; simpl; intuition discriminate.
Defined.

(** ** [market_data/yield_curve.py]: curve queries *)

Module QueryFacts.

(** [bisect_right] stops at the first element greater than [x]. *)
Lemma bisect_right_spec (l : list R) (x : R) :
  (forall j a, (j < bisect_right l x)%nat -> nth_error l j = Some a -> a <= x)
  /\ (forall b, nth_error l (bisect_right l x) = Some b -> x < b).
Proof.
  induction l as [| y r [IH1 IH2]]; cbn [bisect_right].
  - split; [intros j a Hj; lia | intros b Hb; discriminate].
  - destruct (flt_spec x y) as [H | H].
    + split; [intros j a Hj; lia |].
      intros b Hb. simpl in Hb. inversion Hb; subst. exact H.
    + split.
      * intros [| j] a Hj Ha; simpl in Ha.
        -- inversion Ha; subst. lra.
        -- apply (IH1 j a); [lia | exact Ha].
      * intros b Hb. simpl in Hb. apply IH2, Hb.
Qed.

Lemma linear_interpolate_between (x0 y0 x1 y1 x lo hi : R) :
  x0 <= x < x1 -> lo <= y0 <= hi -> lo <= y1 <= hi ->
  lo <= _linear_interpolate x0 y0 x1 y1 x <= hi.
Proof.
  intros Hx H0 H1. unfold _linear_interpolate.
  rewrite feq_false by lra.
  set (w := (x - x0) / (x1 - x0)).
  assert (Hw : 0 <= w < 1).
  { unfold w. split.
    - apply Rmult_le_pos; [lra | apply Rlt_le, Rinv_0_lt_compat; lra].
    - apply (Rmult_lt_reg_r (x1 - x0)); [lra |].
      unfold Rdiv. rewrite Rmult_assoc, Rinv_l by lra. lra. }
  split.
  - replace lo with ((1 - w) * lo + w * lo) by ring.
    apply Rplus_le_compat; apply Rmult_le_compat_l; lra.
  - replace hi with ((1 - w) * hi + w * hi) by ring.
    apply Rplus_le_compat; apply Rmult_le_compat_l; lra.
Qed.

(** The rate read off a log-linear discount factor between two pillars is a
    weighted mean of the two pillar rates. *)
Lemma log_linear_rate_between (t0 z0 t1 z1 t lo hi : R) :
  0 <= t0 -> t0 <= t < t1 -> 0 < t ->
  lo <= z0 <= hi -> lo <= z1 <= hi ->
  lo <= - _linear_interpolate t0 (- z0 * t0) t1 (- z1 * t1) t / t <= hi.
Proof.
  intros Ht0 Ht Hpos H0 H1. unfold _linear_interpolate.
  rewrite feq_false by lra.
  set (w := (t - t0) / (t1 - t0)).
  assert (Hw : 0 <= w < 1).
  { unfold w. split.
    - apply Rmult_le_pos; [lra | apply Rlt_le, Rinv_0_lt_compat; lra].
    - apply (Rmult_lt_reg_r (t1 - t0)); [lra |].
      unfold Rdiv. rewrite Rmult_assoc, Rinv_l by lra. lra. }
  assert (Et : t = (1 - w) * t0 + w * t1) by (unfold w; field; lra).
  set (a := (1 - w) * t0). set (b := w * t1).
  assert (Ha : 0 <= a) by (apply Rmult_le_pos; lra).
  assert (Hb : 0 <= b) by (apply Rmult_le_pos; lra).
  assert (Eab : t = a + b) by exact Et.
  replace (- ((1 - w) * (- z0 * t0) + w * (- z1 * t1)))
    with (a * z0 + b * z1) by (unfold a, b; ring).
  split.
  - apply (Rmult_le_reg_r t); [exact Hpos |].
    unfold Rdiv. rewrite Rmult_assoc, Rinv_l by lra. rewrite Rmult_1_r.
    rewrite Eab. replace (lo * (a + b)) with (a * lo + b * lo) by ring.
    apply Rplus_le_compat; apply Rmult_le_compat_l; lra.
  - apply (Rmult_le_reg_r t); [exact Hpos |].
    unfold Rdiv. rewrite Rmult_assoc, Rinv_l by lra. rewrite Rmult_1_r.
    rewrite Eab. replace (hi * (a + b)) with (a * hi + b * hi) by ring.
    apply Rplus_le_compat; apply Rmult_le_compat_l; lra.
Qed.

Lemma index_forall {A : Type} (P : A -> Prop) (l : list A) (i : nat) (a : A) :
  Forall P l -> index l i = Ok a -> P a.
Proof.
  intros H Hi. apply index_ok in Hi. rewrite Forall_forall in H.
  apply H. eapply nth_error_In; eassumption.
Qed.

Lemma index_back_forall {A : Type} (P : A -> Prop) (l : list A) (k : nat)
      (a : A) :
  Forall P l -> index_back l k = Ok a -> P a.
Proof.
  intros H Hi. apply index_back_ok in Hi. destruct Hi as [_ Hi].
  rewrite Forall_forall in H. apply H. eapply nth_error_In; eassumption.
Qed.

(** Between the pillars, and beyond them, the zero rate stays within any
    bounds that hold for the pillar rates. *)
Lemma zero_rate_at_time_between (c : YieldCurve) (lo hi t r : R) :
  interpolation c = linear_zero
  \/ (compounding c = cont /\ Forall (fun s => 0 <= s) (_pillar_times c)) ->
  Forall (fun z => lo <= z <= hi) (pillar_zero_rates c) ->
  _zero_rate_at_time c t = Ok r -> lo <= r <= hi.
Proof.
  intros Hmode Hall. unfold _zero_rate_at_time.
  set (times := _pillar_times c) in *. set (zeros := pillar_zero_rates c) in *.
  intros H.
  apply bind_ok_inv in H. destruct H as [t_first [Hf H]].
  destruct (fle_spec t t_first) as [Hle | Hgt];
    [apply (index_forall _ _ _ _ Hall H) |].
  apply bind_ok_inv in H. destruct H as [t_last [Hl H]].
  destruct (fle_spec t_last t) as [Hle | Hlt];
    [apply (index_back_forall _ _ _ _ Hall H) |].
  apply bind_ok_inv in H. destruct H as [t0 [E0 H]].
  apply bind_ok_inv in H. destruct H as [t1 [E1 H]].
  apply bind_ok_inv in H. destruct H as [z0 [F0 H]].
  apply bind_ok_inv in H. destruct H as [z1 [F1 H]].
  destruct (bisect_right_spec times t) as [Hbelow Habove].
  assert (Hidx : (1 <= bisect_right times t)%nat).
  { apply index_ok in Hf. apply (bisect_right_pos times t t_first Hf). lra. }
  assert (Ht0 : t0 <= t).
  { apply index_ok in E0. apply (Hbelow (bisect_right times t - 1)%nat);
      [lia | exact E0]. }
  assert (Ht1 : t < t1) by (apply index_ok in E1; apply Habove, E1).
  pose proof (index_forall _ _ _ _ Hall F0) as Hz0.
  pose proof (index_forall _ _ _ _ Hall F1) as Hz1.
  cbv beta in Hz0, Hz1.
  destruct (interpolation c) eqn:Hinterp.
  - inversion H; subst r.
    apply linear_interpolate_between; [lra | assumption | assumption].
  - destruct Hmode as [Hm | [Hcomp Hpos]]; [discriminate |].
    assert (Hp0 : 0 <= t0) by apply (index_forall _ _ _ _ Hpos E0).
    unfold _df_from_rate, _rate_from_df in H. rewrite Hcomp in H.
    cbn [Py.bind] in H. rewrite !flog_ok in H by apply exp_pos.
    cbn [Py.bind] in H. rewrite !ln_exp in H.
    destruct (feq_spec t 0) as [Hz | Hnz].
    + apply (index_forall _ _ _ _ Hall H).
    + rewrite flog_ok in H by apply exp_pos. cbn [Py.bind] in H.
      rewrite ln_exp, fdiv_ok in H by exact Hnz.
      inversion H; subst r.
      apply log_linear_rate_between; try assumption; lra.
Qed.


Lemma upper_bound_exists (l : list R) : exists hi, Forall (fun z => z <= hi) l.
Proof.
  induction l as [| a r [hi IH]]; [exists 0; constructor |].
  exists (Rmax a hi). constructor; [apply Rmax_l |].
  rewrite Forall_forall in *. intros z Hz. specialize (IH z Hz).
  pose proof (Rmax_r a hi). lra.
Qed.

Section Constructed.

Variables (val : date) (dates : list date) (rates : list R)
          (dc : DayCountConvention) (interp : InterpolationMethod)
          (comp : CompoundingMethod) (c : YieldCurve).

Hypothesis Hinit : YieldCurve_init val dates rates dc interp comp = Ok c.

Lemma rates_forall (P : R -> Prop) :
  Forall P rates -> Forall P (pillar_zero_rates c).
Proof.
  intros H. pose proof (YieldCurve_init_ok _ _ _ _ _ _ _ Hinit) as Hc.
  rewrite (c_rates _ _ _ _ _ _ _ Hc).
  rewrite Forall_forall in *. intros z Hz.
  apply in_map_iff in Hz. destruct Hz as [[d z'] [<- Hp]].
  apply (Permutation_in _ (sorted_perm _ _)) in Hp.
  apply in_combine_r in Hp. apply H, Hp.
Qed.

Lemma times_nonneg (basis : R) :
  actual_basis dc = Some basis ->
  Forall (fun s => 0 <= s) (_pillar_times c).
Proof.
  intros Hb. pose proof (YieldCurve_init_ok _ _ _ _ _ _ _ Hinit) as Hc.
  apply Forall_forall. intros s Hs.
  apply In_nth_error in Hs. destruct Hs as [i Hi].
  destruct (constructed_lengths _ _ _ _ _ _ _ Hc) as [_ [Hlt Hld]].
  destruct (nth_error (pillar_dates c) i) as [d |] eqn:Hd.
  - destruct (map_result_nth _ _ _ i d (c_times _ _ _ _ _ _ _ Hc) Hd)
      as [s' [Hs' Hyf]].
    assert (s' = s) by congruence. subst s'.
    destruct (actual_year_fraction val d dc basis Hb
                (year_fraction_ok_after _ _ _ _ Hyf)) as [E Hpos].
    rewrite E in Hyf. inversion Hyf.
    apply Rmult_le_pos; [| apply Rlt_le, Rinv_0_lt_compat, Hpos].
    apply IZR_le. unfold days_diff.
    pose proof (year_fraction_ok_after _ _ _ _ E) as Ha.
    unfold date_ltb in Ha. apply Z.ltb_ge in Ha. lia.
  - exfalso. apply nth_error_None in Hd.
    assert (i < length (_pillar_times c))%nat
      by (apply nth_error_Some; congruence).
    lia.
Qed.

End Constructed.

End QueryFacts.

(** X10.  Interpolation never leaves the range of the pillar rates: on a curve
    with linear interpolation of zero rates (any compounding and day count),
    or with continuous compounding under ACT/360, ACT/365 or ACT/365.25 (either
    interpolation), bounds that hold for every pillar rate hold for every zero
    rate the curve returns. *)
Theorem zero_rate_within_pillar_rates
        (val : date) (dates : list date) (rates : list R)
        (dc : DayCountConvention) (interp : InterpolationMethod)
        (comp : CompoundingMethod) (c : YieldCurve)
        (lo hi : R) (d : date) (r : R) :
  YieldCurve_init val dates rates dc interp comp = Ok c ->
  interp = linear_zero \/ (comp = cont /\ actual_basis dc <> None) ->
  Forall (fun z => lo <= z <= hi) rates ->
  zero_rate c d = Ok r ->
  lo <= r <= hi.
Proof.
  intros Hinit Hmode Hall Hz.
  pose proof (YieldCurve_init_ok _ _ _ _ _ _ _ Hinit) as Hc.
  pose proof (QueryFacts.rates_forall _ _ _ _ _ _ _ Hinit _ Hall) as Hall'.
  unfold zero_rate in Hz.
  destruct (date_ltb d (valuation_date c)); [discriminate |].
  apply bind_ok_inv in Hz. destruct Hz as [t [_ Hz]].
  destruct (feq t 0); [apply (QueryFacts.index_forall _ _ _ _ Hall' Hz) |].
  apply (QueryFacts.zero_rate_at_time_between c lo hi t r); [| exact Hall' | exact Hz].
  rewrite (c_interpolation _ _ _ _ _ _ _ Hc), (c_compounding _ _ _ _ _ _ _ Hc).
  destruct Hmode as [Hm | [Hm Hb]]; [left; exact Hm | right].
  split; [exact Hm |].
  destruct (actual_basis dc) as [basis |] eqn:Eb; [| congruence].
  apply (QueryFacts.times_nonneg _ _ _ _ _ _ _ Hinit basis Eb).
Qed.

(** X10 on the curve of the tests, at 2024-07-30. *)
Lemma zero_rate_within_pillar_rates_witness :
  exists r, zero_rate test_curve d_2024_07_30 = Ok r /\ 0.02 <= r <= 0.025.
Proof.
  destruct (curve_zero_rate_returns _ _ _ _ _ _ 365 test_curve_built eq_refl
              d_2024_07_30 eq_refl) as [r Hr].
  exists r. split; [exact Hr |].
  apply (zero_rate_within_pillar_rates _ _ _ _ _ _ _ 0.02 0.025 d_2024_07_30 r
           test_curve_built).
  - right. split; [reflexivity | discriminate].
  - repeat constructor; lra.
  - exact Hr.
Defined.



(** X12.  Under every convention other than ACT/ACT, on a curve that the
    constructor returns, the discount factor at the valuation date is 1 and the
    zero rate there is the rate of the earliest pillar, whatever the
    interpolation and the compounding. *)
Theorem curve_at_valuation_date
        (val : date) (dates : list date) (rates : list R)
        (dc : DayCountConvention) (interp : InterpolationMethod)
        (comp : CompoundingMethod) (c : YieldCurve) :
  YieldCurve_init val dates rates dc interp comp = Ok c ->
  dc <> ACT_ACT ->
  YieldCurveM.discount_factor c val = Ok 1
  /\ exists z, nth_error (pillar_zero_rates c) 0 = Some z
               /\ zero_rate c val = Ok z.
Proof.
  intros Hinit Hdc.
  pose proof (YieldCurve_init_ok _ _ _ _ _ _ _ Hinit) as Hc.
  destruct (constructed_lengths _ _ _ _ _ _ _ Hc) as [Hlz _].
  pose proof (c_nonempty _ _ _ _ _ _ _ Hc) as Hne.
  destruct (index_in_range (pillar_zero_rates c) 0) as [z [Hz Hz']]; [lia |].
  unfold YieldCurveM.discount_factor, zero_rate, _time_from_valuation, date_ltb.
  rewrite (c_valuation _ _ _ _ _ _ _ Hc), (c_day_count _ _ _ _ _ _ _ Hc).
  rewrite Z.ltb_irrefl.
  rewrite (YearFractionFacts.year_fraction_same_day _ _ Hdc). cbn [Py.bind].
  rewrite feq_true by reflexivity.
  split; [reflexivity |]. exists z. split; assumption.
Qed.

(** X12 on the curve of the tests. *)
Lemma curve_at_valuation_date_witness :
  YieldCurveM.discount_factor test_curve d_2024_01_01 = Ok 1
  /\ exists z, nth_error (pillar_zero_rates test_curve) 0 = Some z
               /\ zero_rate test_curve d_2024_01_01 = Ok z.
Proof.
  apply (curve_at_valuation_date _ _ _ _ _ _ _ test_curve_built).
  discriminate.
Defined.

(** X13.  On a curve with continuous compounding, ACT/360, ACT/365 or
    ACT/365.25, and no negative pillar rate, whatever [discount_factor] returns
    is at most 1 and not negative. *)
Theorem discount_factor_in_unit_interval
        (val : date) (dates : list date) (rates : list R)
        (dc : DayCountConvention) (interp : InterpolationMethod)
        (c : YieldCurve) (basis : R) (d : date) (v : R) :
  YieldCurve_init val dates rates dc interp cont = Ok c ->
  actual_basis dc = Some basis ->
  Forall (fun z => 0 <= z) rates ->
  YieldCurveM.discount_factor c d = Ok v ->
  0 <= v <= 1.
Proof.
  intros Hinit Hb Hall Hv.
  pose proof (YieldCurve_init_ok _ _ _ _ _ _ _ Hinit) as Hc.
  unfold YieldCurveM.discount_factor, _time_from_valuation in Hv.
  rewrite (c_valuation _ _ _ _ _ _ _ Hc), (c_day_count _ _ _ _ _ _ _ Hc) in Hv.
  destruct (date_ltb d val) eqn:Hafter; [discriminate |].
  destruct (actual_year_fraction val d dc basis Hb Hafter) as [Hyf Hbasis].
  rewrite Hyf in Hv. cbn [Py.bind] in Hv.
  set (t := IZR (days_diff d val) / basis) in *.
  assert (Ht : 0 <= t).
  { apply Rmult_le_pos; [| apply Rlt_le, Rinv_0_lt_compat, Hbasis].
    apply IZR_le. unfold days_diff.
    unfold date_ltb in Hafter. apply Z.ltb_ge in Hafter. lia. }
  destruct (feq t 0); [inversion Hv; lra |].
  apply bind_ok_inv in Hv. destruct Hv as [r [Hr Hv]].
  destruct (QueryFacts.upper_bound_exists rates) as [hi Hhi].
  assert (Hbounds : Forall (fun z => 0 <= z <= hi) rates).
  { rewrite Forall_forall in *. intros z Hz.
    split; [apply Hall | apply Hhi]; exact Hz. }
  assert (Hr0 : 0 <= r <= hi).
  { apply (QueryFacts.zero_rate_at_time_between c 0 hi t r); [| | exact Hr].
    - right. split; [exact (c_compounding _ _ _ _ _ _ _ Hc) |].
      apply (QueryFacts.times_nonneg _ _ _ _ _ _ _ Hinit basis Hb).
    - apply (QueryFacts.rates_forall _ _ _ _ _ _ _ Hinit _ Hbounds). }
  unfold _df_from_rate in Hv. rewrite (c_compounding _ _ _ _ _ _ _ Hc) in Hv.
  inversion Hv. split; [apply Rlt_le, exp_pos |].
  apply exp_nonpos_le_1.
  assert (0 <= r * t) by (apply Rmult_le_pos; lra). lra.
Qed.

(** X13 on the curve of the tests, at 2024-07-30. *)
Lemma discount_factor_in_unit_interval_witness :
  exists v, YieldCurveM.discount_factor test_curve d_2024_07_30 = Ok v
            /\ 0 <= v <= 1.
Proof.
  destruct (curve_discount_factor_returns _ _ _ _ _ _ 365 test_curve_built
              eq_refl d_2024_07_30 eq_refl) as [v [Hv _]].
  exists v. split; [exact Hv |].
  apply (discount_factor_in_unit_interval _ _ _ _ _ _ 365 d_2024_07_30 v
           test_curve_built eq_refl); [| exact Hv].
  repeat constructor; lra.
Defined.

(** X14.  A curve with continuous compounding, ACT/360, ACT/365 or
    ACT/365.25, whose pillar rates all equal [r] is flat: whatever [zero_rate]
    returns is [r], whatever [discount_factor] returns at a date of year
    fraction [t] is [exp (- r t)], and whatever [forward_rate] returns over a
    period of year fraction [tau] is [(exp (r tau) - 1) / tau]. *)
Theorem flat_curve_rates
        (val : date) (dates : list date) (rates : list R)
        (dc : DayCountConvention) (interp : InterpolationMethod)
        (c : YieldCurve) (basis r : R) :
  YieldCurve_init val dates rates dc interp cont = Ok c ->
  actual_basis dc = Some basis ->
  Forall (fun z => z = r) rates ->
  (forall d z, zero_rate c d = Ok z -> z = r)
  /\ (forall d v,
        YieldCurveM.discount_factor c d = Ok v ->
        exists t, year_fraction val d dc = Ok t /\ v = exp (- r * t))
  /\ (forall start_date end_date f,
        forward_rate c start_date end_date = Ok f ->
        exists tau, year_fraction start_date end_date dc = Ok tau
                    /\ 0 < tau
                    /\ f = (exp (r * tau) - 1) / tau).
Proof.
  intros Hinit Hb Hall.
  pose proof (YieldCurve_init_ok _ _ _ _ _ _ _ Hinit) as Hc.
  assert (Hbounds : Forall (fun z => r <= z <= r) (pillar_zero_rates c)).
  { apply (QueryFacts.rates_forall _ _ _ _ _ _ _ Hinit).
    rewrite Forall_forall in *. intros z Hz. rewrite (Hall z Hz). lra. }
  assert (Hmode : interpolation c = linear_zero
                  \/ (compounding c = cont
                      /\ Forall (fun s => 0 <= s) (_pillar_times c))).
  { right. split; [exact (c_compounding _ _ _ _ _ _ _ Hc) |].
    apply (QueryFacts.times_nonneg _ _ _ _ _ _ _ Hinit basis Hb). }
  assert (Hat : forall t z, _zero_rate_at_time c t = Ok z -> z = r).
  { intros t z Hz.
    pose proof (QueryFacts.zero_rate_at_time_between c r r t z Hmode Hbounds Hz).
    lra. }
  assert (Hdf : forall d v,
              YieldCurveM.discount_factor c d = Ok v ->
              (toordinal val <= toordinal d)%Z
              /\ v = exp (- r * (IZR (days_diff d val) / basis))).
  { intros d v Hv.
    unfold YieldCurveM.discount_factor, _time_from_valuation in Hv.
    rewrite (c_valuation _ _ _ _ _ _ _ Hc), (c_day_count _ _ _ _ _ _ _ Hc)
      in Hv.
    destruct (date_ltb d val) eqn:Hafter; [discriminate |].
    split; [unfold date_ltb in Hafter; apply Z.ltb_ge in Hafter; exact Hafter |].
    destruct (actual_year_fraction val d dc basis Hb Hafter) as [Hyf _].
    rewrite Hyf in Hv. cbn [Py.bind] in Hv.
    destruct (feq_spec (IZR (days_diff d val) / basis) 0) as [Hz | Hnz].
    - inversion Hv. rewrite Hz, Rmult_0_r, exp_0. reflexivity.
    - apply bind_ok_inv in Hv. destruct Hv as [z [Hz Hv]].
      rewrite (Hat _ _ Hz) in Hv. unfold _df_from_rate in Hv.
      rewrite (c_compounding _ _ _ _ _ _ _ Hc) in Hv.
      inversion Hv. reflexivity. }
  split; [| split].
  - intros d z Hz. unfold zero_rate in Hz.
    destruct (date_ltb d (valuation_date c)); [discriminate |].
    apply bind_ok_inv in Hz. destruct Hz as [t [_ Hz]].
    destruct (feq t 0).
    + pose proof (QueryFacts.index_forall _ _ _ _ Hbounds Hz) as H.
      cbv beta in H. lra.
    + apply (Hat _ _ Hz).
  - intros d v Hv. destruct (Hdf d v Hv) as [Hd ->].
    destruct (actual_year_fraction val d dc basis Hb) as [Hyf _];
      [apply Z.ltb_ge; exact Hd |].
    eexists. split; [exact Hyf | reflexivity].
  - intros s e f Hf. unfold forward_rate in Hf.
    destruct (date_leb e s) eqn:Hle; [discriminate |].
    unfold date_leb in Hle. apply Z.leb_gt in Hle.
    apply bind_ok_inv in Hf. destruct Hf as [df_s [Hs Hf]].
    apply bind_ok_inv in Hf. destruct Hf as [df_e [He Hf]].
    apply bind_ok_inv in Hf. destruct Hf as [tau [Htau Hf]].
    apply bind_ok_inv in Hf. destruct Hf as [q [Hq Hf]].
    destruct (Hdf s df_s Hs) as [Hvs ->].
    destruct (Hdf e df_e He) as [Hve ->].
    rewrite (c_day_count _ _ _ _ _ _ _ Hc) in Htau.
    destruct (actual_year_fraction s e dc basis Hb) as [Hyf Hbasis];
      [apply Z.ltb_ge; lia |].
    rewrite Hyf in Htau. inversion Htau; subst tau; clear Htau.
    assert (Hpos : 0 < IZR (days_diff e s) / basis).
    { apply Rdiv_lt_0_compat; [| exact Hbasis].
      apply IZR_lt. unfold days_diff. lia. }
    rewrite fdiv_ok in Hq
      by (pose proof (exp_pos (- r * (IZR (days_diff e val) / basis))); lra).
    inversion Hq; subst q; clear Hq.
    rewrite fdiv_ok in Hf by lra. inversion Hf; subst f; clear Hf.
    eexists. split; [exact Hyf |]. split; [exact Hpos |].
    f_equal. f_equal.
    unfold Rdiv at 1. rewrite <- exp_Ropp, <- exp_plus. f_equal.
    unfold days_diff. rewrite !minus_IZR. field. lra.
Qed.

(** X14 on a curve with the single pillar 2025-01-01 at 2%. *)
Lemma flat_curve_rates_witness :
  exists c z f tau,
    YieldCurve_init d_2024_01_01 [d_2025_01_01] [0.02] ACT_365 log_linear_df cont
    = Ok c
    /\ zero_rate c d_2026_01_01 = Ok z /\ z = 0.02
    /\ forward_rate c d_2025_01_01 d_2026_01_01 = Ok f
    /\ year_fraction d_2025_01_01 d_2026_01_01 ACT_365 = Ok tau
    /\ f = (exp (0.02 * tau) - 1) / tau.
Proof.
  assert (Hinit : YieldCurve_init d_2024_01_01 [d_2025_01_01] [0.02] ACT_365
                                  log_linear_df cont
                  = Ok {| valuation_date := d_2024_01_01;
                          pillar_dates := [d_2025_01_01];
                          pillar_zero_rates := [0.02];
                          YieldCurveM.day_count := ACT_365;
                          interpolation := log_linear_df;
                          compounding := cont;
                          _pillar_times := [IZR 366 / 365] |})
    by (unfold YieldCurve_init; py_eval; reflexivity).
  destruct (curve_zero_rate_returns _ _ _ _ _ _ 365 Hinit eq_refl
              d_2026_01_01 eq_refl) as [z Hz].
  destruct (curve_forward_rate_returns _ _ _ _ _ _ 365 Hinit eq_refl
              d_2025_01_01 d_2026_01_01) as [f Hf]; [simpl; lia |].
  pose proof (flat_curve_rates _ _ _ _ _ _ 365 0.02 Hinit eq_refl
                (Forall_cons _ eq_refl (Forall_nil _))) as [H1 [_ H3]].
  destruct (H3 _ _ _ Hf) as [tau [Htau [_ Hval]]].
  eexists. exists z, f, tau.
  split; [exact Hinit |]. split; [exact Hz |].
  split; [exact (H1 _ _ Hz) |]. split; [exact Hf |].
  split; [exact Htau | exact Hval].
Defined.

(** ** [market_data/vol_surface.py]: surface queries *)

Module SurfaceFacts.

Import VolSurface.

Lemma volatility_at_times_steps (s : VolatilitySurface) (e t : R) :
  volatility_at_times s e t =
  if flt e 0 then Raise (ValueError "expiry_time must be non-negative.")
  else if flt t 0 then Raise (ValueError "tenor_time must be non-negative.")
  else
    exp_idx <- _find_index (expiry_times s) e ;;
    ten_idx <- _find_index (tenor_times s) t ;;
    exp_bounds <- _get_bounds s (expiry_times s) exp_idx ;;
    ten_bounds <- _get_bounds s (tenor_times s) ten_idx ;;
    rows <- select_rows s exp_idx ;;
    vols <- select_vols s ten_idx (fst ten_bounds) (snd ten_bounds) t
                        (fst rows) (snd rows) ;;
    Ok (_interpolate_1d s (fst exp_bounds) (fst vols)
                        (snd exp_bounds) (snd vols) e).
Proof. reflexivity. Qed.

Lemma validate_row_ok (n : nat) (row : list R) :
  validate_row n row = Ok tt ->
  length row = n /\ Forall (fun vol => 0 <= vol) row.
Proof.
  unfold validate_row.
  destruct (Nat.eqb_spec (length row) n) as [Hlen | Hlen]; cbn [negb];
    [| discriminate].
  intros H. split; [exact Hlen |].
  destruct (map_result
              (fun vol =>
                 if flt vol 0
                 then Raise (ValueError
                               "Volatility at [{i}][{j}] must be non-negative, got {vol}.")
                 else Ok tt) row) as [us |] eqn:E; [| discriminate].
  clear H Hlen. revert us E.
  induction row as [| v r IH]; intros us E; [constructor |].
  cbn [map_result] in E. destruct (flt_spec v 0) as [Hv | Hv]; [discriminate |].
  destruct (map_result _ r) as [us' |] eqn:E'; [| discriminate].
  constructor; [lra | apply (IH us' eq_refl)].
Qed.

Lemma surface_init_ok val expiries tenors matrix interp extrap dc s :
  VolatilitySurface_init val expiries tenors matrix interp extrap dc = Ok s ->
  surface_ok s
  /\ expiry_times s = expiries /\ tenor_times s = tenors
  /\ volatility_matrix s = matrix
  /\ interpolation s = interp /\ extrapolation s = extrap.
Proof.
  unfold VolatilitySurface_init.
  destruct (Nat.eqb_spec (length expiries) 0) as [He | He]; [discriminate |].
  destruct (Nat.eqb_spec (length tenors) 0) as [Ht | Ht]; [discriminate |].
  unfold _validate_strictly_increasing.
  destruct (validate_cases expiries) as [Hv1 | [e Hv1]];
    rewrite Hv1; [| discriminate].
  cbn [Py.bind].
  destruct (validate_cases tenors) as [Hv2 | [e Hv2]];
    rewrite Hv2; [| discriminate].
  cbn [Py.bind].
  destruct (Nat.eqb_spec (length matrix) (length expiries)) as [Hm | Hm];
    cbn [negb]; [| discriminate].
  destruct (map_result (validate_row (length tenors)) matrix) as [us |] eqn:E;
    [| discriminate].
  cbn [Py.bind]. intros H. inversion H; subst s; clear H. cbn.
  assert (Hrows : Forall (fun row => length row = length tenors
                                     /\ Forall (fun vol => 0 <= vol) row)
                         matrix).
  { apply Forall_forall. intros row Hrow.
    apply In_nth_error in Hrow. destruct Hrow as [i Hi].
    destruct (map_result_nth _ _ _ i row E Hi) as [[] [_ Hok]].
    apply validate_row_ok, Hok. }
  split; [| repeat split; reflexivity].
  constructor; cbn.
  - intros ->. apply He. reflexivity.
  - intros ->. apply Ht. reflexivity.
  - apply sorted_strongly, validate_ok_sorted, Hv1.
  - apply sorted_strongly, validate_ok_sorted, Hv2.
  - exact Hm.
  - eapply Forall_impl; [| exact Hrows]. intros row [H _]. exact H.
  - eapply Forall_impl; [| exact Hrows]. intros row [_ H]. exact H.
Qed.

Lemma find_index_position (times : list R) (t : R) :
  times <> [] ->
  exists idx, _find_index times t = Ok idx /\ grid_position times t idx.
Proof.
  intros Hne.
  assert (Hlen : (0 < length times)%nat)
    by (destruct times; [congruence | simpl; lia]).
  destruct (index_in_range times 0) as [first [Hf Hf']]; [lia |].
  destruct (index_in_range times (length times - 1)) as [last [_ Hl']]; [lia |].
  assert (Hb1 : index_back times 1 = Ok last)
    by (apply index_back_ok; split; [lia | assumption]).
  unfold _find_index. rewrite Hf. cbn [Py.bind].
  destruct (fle_spec t first) as [Hle | Hgt].
  { eexists. split; [reflexivity |]. eapply below_first; eassumption. }
  rewrite Hb1. cbn [Py.bind].
  destruct (fle_spec last t) as [Hle | Hlt].
  { eexists. split; [reflexivity |].
    apply (above_last times t first last); [assumption | lra | assumption | lra]. }
  eexists. split; [reflexivity |].
  assert (Hlo : (1 <= bisect_right times t)%nat)
    by (apply (bisect_right_pos times t first Hf'); lra).
  assert (Hhi : (bisect_right times t < length times)%nat)
    by (apply (bisect_right_lt_length times t last Hl'); lra).
  destruct (QueryFacts.bisect_right_spec times t) as [Hbelow Habove].
  set (k := bisect_right times t) in *.
  destruct (index_in_range times (k - 1)) as [a [_ Ha]]; [lia |].
  destruct (index_in_range times k) as [b [_ Hb]]; [lia |].
  replace (Z.of_nat k - 1)%Z with (Z.of_nat (k - 1)) by lia.
  apply (in_cell times t (k - 1) a b); [lia | exact Ha | |].
  - replace (S (k - 1)) with k by lia. exact Hb.
  - split; [apply (Hbelow (k - 1)%nat); [lia | exact Ha] | apply Habove, Hb].
Qed.

Lemma get_bounds_position (s : VolatilitySurface) (times : list R) (t : R)
      (idx : Z) :
  grid_position times t idx ->
  exists a b,
    _get_bounds s times idx = Ok (a, b)
    /\ (a <= t < b
        \/ (extrapolation s = extrapolation_flat -> a = b)).
Proof.
  intros Hpos. unfold _get_bounds.
  destruct Hpos as [first Hf Hle | first last Hf Hgt Hl Hle | i a b Hi Ha Hb Hab].
  - cbn [Z.ltb Z.compare].
    assert (Hlen : (0 < length times)%nat)
      by (apply nth_error_Some; congruence).
    apply index_ok in Hf. rewrite Hf. cbn [Py.bind].
    destruct (extrapolation s).
    + exists first, first. split; [reflexivity | right; reflexivity].
    + destruct (Nat.ltb_spec 1 (length times)) as [H1 | H1].
      * destruct (index_in_range times 1) as [second [Hs _]]; [lia |].
        rewrite Hs. cbn [Py.bind]. exists first, second.
        split; [reflexivity | right; discriminate].
      * exists first, first. split; [reflexivity | right; reflexivity].
  - assert (Hlen : (0 < length times)%nat)
      by (apply nth_error_Some; congruence).
    destruct (Z.ltb_spec (Z.of_nat (length times) - 1) 0) as [Hc | _]; [lia |].
    rewrite Z.leb_refl.
    assert (Hb1 : index_back times 1 = Ok last)
      by (apply index_back_ok; split; [lia | assumption]).
    rewrite Hb1. cbn [Py.bind].
    destruct (extrapolation s).
    + exists last, last. split; [reflexivity | right; reflexivity].
    + destruct (Nat.ltb_spec 1 (length times)) as [H1 | H1].
      * destruct (index_in_range times (length times - 2)) as [prev [_ Hp]];
          [lia |].
        assert (Hb2 : index_back times 2 = Ok prev)
          by (apply index_back_ok; split; [lia | assumption]).
        rewrite Hb2. cbn [Py.bind]. exists prev, last.
        split; [reflexivity | right; discriminate].
      * exists last, last. split; [reflexivity | right; reflexivity].
  - destruct (Z.ltb_spec (Z.of_nat i) 0) as [Hc | _]; [lia |].
    destruct (Z.leb_spec (Z.of_nat (length times) - 1) (Z.of_nat i))
      as [Hc | _]; [lia |].
    rewrite Nat2Z.id.
    replace (Z.to_nat (Z.of_nat i + 1)) with (S i) by lia.
    apply index_ok in Ha. apply index_ok in Hb. rewrite Ha, Hb.
    exists a, b. split; [reflexivity | left; exact Hab].
Qed.

Lemma select_rows_position (s : VolatilitySurface) (e : R) (idx : Z) :
  surface_ok s -> grid_position (expiry_times s) e idx ->
  exists rl rh,
    select_rows s idx = Ok (rl, rh)
    /\ In rl (volatility_matrix s) /\ In rh (volatility_matrix s).
Proof.
  intros Hs Hpos. pose proof (s_rows s Hs) as Hrows.
  set (times := expiry_times s) in *. set (matrix := volatility_matrix s) in *.
  unfold select_rows. fold times. fold matrix.
  destruct Hpos as [first Hf Hle | first last Hf Hgt Hl Hle | i a b Hi Ha Hb Hab].
  - cbn [Z.ltb Z.compare].
    assert (Hlen : (0 < length times)%nat)
      by (apply nth_error_Some; congruence).
    destruct (index_in_range matrix 0) as [r0 [E0 N0]]; [lia |].
    rewrite E0. cbn [Py.bind].
    destruct (Nat.eqb_spec (length times) 1) as [H1 | H1].
    + cbn [Py.bind]. exists r0, r0.
      split; [reflexivity |]. split; eapply nth_error_In; eassumption.
    + destruct (index_in_range matrix 1) as [r1 [E1 N1]]; [lia |].
      rewrite E1. cbn [Py.bind]. exists r0, r1.
      split; [reflexivity |]. split; eapply nth_error_In; eassumption.
  - assert (Hlen : (0 < length times)%nat)
      by (apply nth_error_Some; congruence).
    destruct (Z.ltb_spec (Z.of_nat (length times) - 1) 0) as [Hc | _]; [lia |].
    rewrite Z.leb_refl.
    destruct (index_in_range matrix (length matrix - 1)) as [rl [_ Nl]]; [lia |].
    assert (Hb1 : index_back matrix 1 = Ok rl)
      by (apply index_back_ok; split; [lia | assumption]).
    destruct (Nat.ltb_spec 1 (length times)) as [H1 | H1]; cbn [andb].
    + destruct (extrapolation s).
      * rewrite Hb1. cbn [Py.bind]. exists rl, rl.
        split; [reflexivity |]. split; eapply nth_error_In; eassumption.
      * destruct (index_in_range matrix (length matrix - 2)) as [rp [_ Np]];
          [lia |].
        assert (Hb2 : index_back matrix 2 = Ok rp)
          by (apply index_back_ok; split; [lia | assumption]).
        rewrite Hb2, Hb1. cbn [Py.bind]. exists rp, rl.
        split; [reflexivity |]. split; eapply nth_error_In; eassumption.
    + rewrite Hb1. cbn [Py.bind]. exists rl, rl.
      split; [reflexivity |]. split; eapply nth_error_In; eassumption.
  - destruct (Z.ltb_spec (Z.of_nat i) 0) as [Hc | _]; [lia |].
    destruct (Z.leb_spec (Z.of_nat (length times) - 1) (Z.of_nat i))
      as [Hc | _]; [lia |].
    rewrite Nat2Z.id.
    replace (Z.to_nat (Z.of_nat i + 1)) with (S i) by lia.
    destruct (index_in_range matrix i) as [r0 [E0 N0]]; [lia |].
    destruct (index_in_range matrix (S i)) as [r1 [E1 N1]]; [lia |].
    rewrite E0, E1. cbn [Py.bind]. exists r0, r1.
    split; [reflexivity |]. split; eapply nth_error_In; eassumption.
Qed.

Lemma interpolate_1d_between (s : VolatilitySurface) (x0 y0 x1 y1 x lo hi : R) :
  x0 <= x < x1 -> lo <= y0 <= hi -> lo <= y1 <= hi ->
  lo <= _interpolate_1d s x0 y0 x1 y1 x <= hi.
Proof.
  intros Hx H0 H1. unfold _interpolate_1d.
  destruct (interpolation s); [| exact H0].
  apply QueryFacts.linear_interpolate_between; assumption.
Qed.

Lemma interpolate_1d_same (s : VolatilitySurface) (x0 y0 y1 x : R) :
  _interpolate_1d s x0 y0 x0 y1 x = y0.
Proof.
  unfold _interpolate_1d, _linear_interpolate, YieldCurveM._linear_interpolate.
  destruct (interpolation s); [| reflexivity].
  rewrite feq_true by reflexivity. reflexivity.
Qed.

Lemma select_vols_position (s : VolatilitySurface) (t : R) (idx : Z)
      (a b : R) (rl rh : list R) :
  grid_position (tenor_times s) t idx ->
  _get_bounds s (tenor_times s) idx = Ok (a, b) ->
  length rl = length (tenor_times s) -> length rh = length (tenor_times s) ->
  exists vl vh,
    select_vols s idx a b t rl rh = Ok (vl, vh)
    /\ forall lo hi,
         Forall (fun vol => lo <= vol <= hi) rl ->
         Forall (fun vol => lo <= vol <= hi) rh ->
         lo <= vl <= hi /\ lo <= vh <= hi.
Proof.
  intros Hpos Hbounds Hl Hh.
  set (times := tenor_times s) in *.
  unfold select_vols. fold times.
  destruct Hpos as [first Hf Hle | first last Hf Hgt Hlast Hle
                    | i x0 x1 Hi Ha Hb Hab].
  - cbn [Z.ltb Z.compare].
    assert (Hlen : (0 < length times)%nat)
      by (apply nth_error_Some; congruence).
    destruct (index_in_range rl 0) as [vl [El Nl]]; [lia |].
    destruct (index_in_range rh 0) as [vh [Eh Nh]]; [lia |].
    rewrite El, Eh. cbn [Py.bind]. exists vl, vh. split; [reflexivity |].
    intros lo hi Fl Fh. rewrite Forall_forall in Fl, Fh.
    split; [apply Fl | apply Fh]; eapply nth_error_In; eassumption.
  - assert (Hlen : (0 < length times)%nat)
      by (apply nth_error_Some; congruence).
    destruct (Z.ltb_spec (Z.of_nat (length times) - 1) 0) as [Hc | _]; [lia |].
    rewrite Z.leb_refl.
    destruct (index_in_range rl (length rl - 1)) as [vl [_ Nl]]; [lia |].
    destruct (index_in_range rh (length rh - 1)) as [vh [_ Nh]]; [lia |].
    assert (El : index_back rl 1 = Ok vl)
      by (apply index_back_ok; split; [lia | assumption]).
    assert (Eh : index_back rh 1 = Ok vh)
      by (apply index_back_ok; split; [lia | assumption]).
    rewrite El, Eh. cbn [Py.bind]. exists vl, vh. split; [reflexivity |].
    intros lo hi Fl Fh. rewrite Forall_forall in Fl, Fh.
    split; [apply Fl | apply Fh]; eapply nth_error_In; eassumption.
  - assert (Hab' : a = x0 /\ b = x1).
    { unfold _get_bounds in Hbounds.
      destruct (Z.ltb_spec (Z.of_nat i) 0) as [Hc | _]; [lia |].
      destruct (Z.leb_spec (Z.of_nat (length times) - 1) (Z.of_nat i))
        as [Hc | _]; [lia |].
      rewrite Nat2Z.id in Hbounds.
      replace (Z.to_nat (Z.of_nat i + 1)) with (S i) in Hbounds by lia.
      apply index_ok in Ha. apply index_ok in Hb.
      rewrite Ha, Hb in Hbounds. cbn [Py.bind] in Hbounds.
      inversion Hbounds. auto. }
    destruct Hab' as [-> ->].
    destruct (Z.ltb_spec (Z.of_nat i) 0) as [Hc | _]; [lia |].
    destruct (Z.leb_spec (Z.of_nat (length times) - 1) (Z.of_nat i))
      as [Hc | _]; [lia |].
    rewrite Nat2Z.id.
    replace (Z.to_nat (Z.of_nat i + 1)) with (S i) by lia.
    destruct (index_in_range rl i) as [a0 [Ea0 Na0]]; [lia |].
    destruct (index_in_range rl (S i)) as [a1 [Ea1 Na1]]; [lia |].
    destruct (index_in_range rh i) as [b0 [Eb0 Nb0]]; [lia |].
    destruct (index_in_range rh (S i)) as [b1 [Eb1 Nb1]]; [lia |].
    rewrite Ea0, Ea1, Eb0, Eb1. cbn [Py.bind].
    eexists. eexists. split; [reflexivity |].
    intros lo hi Fl Fh. rewrite Forall_forall in Fl, Fh.
    split; apply interpolate_1d_between; try assumption;
      try (apply Fl; eapply nth_error_In; eassumption);
      try (apply Fh; eapply nth_error_In; eassumption).
Qed.

Lemma matrix_upper_bound (matrix : list (list R)) :
  exists hi, Forall (Forall (fun vol => vol <= hi)) matrix.
Proof.
  induction matrix as [| row rest [hi IH]]; [exists 0; constructor |].
  destruct (QueryFacts.upper_bound_exists row) as [hr Hr].
  exists (Rmax hr hi). constructor.
  - eapply Forall_impl; [| exact Hr]. intros v Hv. cbv beta in *.
    pose proof (Rmax_l hr hi). lra.
  - eapply Forall_impl; [| exact IH]. intros r Hrow. cbv beta in *.
    eapply Forall_impl; [| exact Hrow]. intros v Hv. cbv beta in *.
    pose proof (Rmax_r hr hi). lra.
Qed.

(** A query on a surface that passed the constructor's checks. *)
Lemma volatility_at_times_checked (s : VolatilitySurface) (e t : R) :
  surface_ok s -> 0 <= e -> 0 <= t ->
  exists v,
    volatility_at_times s e t = Ok v
    /\ (extrapolation s = extrapolation_flat ->
        forall lo hi,
          Forall (Forall (fun vol => lo <= vol <= hi)) (volatility_matrix s) ->
          lo <= v <= hi).
Proof.
  intros Hs He Ht. rewrite volatility_at_times_steps.
  rewrite (flt_false e 0), (flt_false t 0) by lra.
  destruct (find_index_position (expiry_times s) e (s_expiries s Hs))
    as [exp_idx [Ee Pe]].
  destruct (find_index_position (tenor_times s) t (s_tenors s Hs))
    as [ten_idx [Et Pt]].
  rewrite Ee, Et. cbn [Py.bind].
  destruct (get_bounds_position s _ _ _ Pe) as [ea [eb [Be Ce]]].
  destruct (get_bounds_position s _ _ _ Pt) as [ta [tb [Bt _]]].
  rewrite Be, Bt. cbn [Py.bind fst snd].
  destruct (select_rows_position s e exp_idx Hs Pe) as [rl [rh [Er [Il Ih]]]].
  rewrite Er. cbn [Py.bind fst snd].
  pose proof (s_columns s Hs) as Hcols. rewrite Forall_forall in Hcols.
  destruct (select_vols_position s t ten_idx ta tb rl rh Pt Bt
              (Hcols rl Il) (Hcols rh Ih)) as [vl [vh [Ev Hv]]].
  rewrite Ev. cbn [Py.bind fst snd].
  eexists. split; [reflexivity |].
  intros Hflat lo hi Hall. rewrite Forall_forall in Hall.
  destruct (Hv lo hi (Hall rl Il) (Hall rh Ih)) as [Hvl Hvh].
  destruct Ce as [Hcell | Hsame].
  - apply interpolate_1d_between; assumption.
  - rewrite <- (Hsame Hflat), interpolate_1d_same. exact Hvl.
Qed.

(** A query at a grid time: the index, by the place of the time in the
    grid. *)
Lemma find_index_at_grid (times : list R) (i : nat) (x : R) :
  StronglySorted Rlt times -> nth_error times i = Some x ->
  _find_index times x
  = Ok (if (i =? 0)%nat then (-1)%Z
        else if (i =? length times - 1)%nat then (Z.of_nat (length times) - 1)%Z
             else Z.of_nat i).
Proof.
  intros Hsorted Hi.
  assert (Hlen : (i < length times)%nat) by (apply nth_error_Some; congruence).
  destruct (index_in_range times 0) as [first [Hf Hf']]; [lia |].
  destruct (index_in_range times (length times - 1)) as [last [_ Hl']]; [lia |].
  assert (Hb1 : index_back times 1 = Ok last)
    by (apply index_back_ok; split; [lia | assumption]).
  unfold _find_index. rewrite Hf. cbn [Py.bind].
  destruct (Nat.eqb_spec i 0) as [-> | Hi0].
  { assert (x = first) by congruence. subst x.
    rewrite fle_true by lra. reflexivity. }
  assert (first < x)
    by (apply (strongly_sorted_nth times Hsorted 0 i); [lia | |]; assumption).
  rewrite fle_false by lra. rewrite Hb1. cbn [Py.bind].
  destruct (Nat.eqb_spec i (length times - 1)) as [-> | Hi1].
  { assert (x = last) by congruence. subst x.
    rewrite fle_true by lra. reflexivity. }
  assert (x < last)
    by (apply (strongly_sorted_nth times Hsorted i (length times - 1));
        [lia | |]; assumption).
  rewrite fle_false by lra.
  rewrite (bisect_right_at_pillar times Hsorted i x Hi). f_equal. lia.
Qed.

Lemma interpolate_1d_at_low (s : VolatilitySurface) (x0 y0 x1 y1 : R) :
  _interpolate_1d s x0 y0 x1 y1 x0 = y0.
Proof.
  unfold _interpolate_1d, _linear_interpolate, YieldCurveM._linear_interpolate.
  destruct (interpolation s); [| reflexivity].
  destruct (feq_spec x1 x0) as [E | N]; [reflexivity |].
  field. lra.
Qed.

Lemma interpolate_1d_at_high (s : VolatilitySurface) (x0 y0 x1 y1 : R) :
  interpolation s = linear -> x0 < x1 ->
  _interpolate_1d s x0 y0 x1 y1 x1 = y1.
Proof.
  intros Hi Hx.
  unfold _interpolate_1d, _linear_interpolate, YieldCurveM._linear_interpolate.
  rewrite Hi. rewrite feq_false by lra. field. lra.
Qed.

(** Along the tenor axis a query at a grid tenor reads the entry of each
    row. *)
Lemma select_vols_at_grid (s : VolatilitySurface) (j : nat) (t a b : R)
      (rl rh : list R) (vl vh : R) :
  StronglySorted Rlt (tenor_times s) ->
  nth_error (tenor_times s) j = Some t ->
  length rl = length (tenor_times s) -> length rh = length (tenor_times s) ->
  nth_error rl j = Some vl -> nth_error rh j = Some vh ->
  forall idx,
    _find_index (tenor_times s) t = Ok idx ->
    _get_bounds s (tenor_times s) idx = Ok (a, b) ->
    select_vols s idx a b t rl rh = Ok (vl, vh).
Proof.
  intros Hsorted Hj Hl Hh Hvl Hvh idx Hidx Hbounds.
  set (times := tenor_times s) in *.
  assert (Hlen : (j < length times)%nat) by (apply nth_error_Some; congruence).
  rewrite (find_index_at_grid times j t Hsorted Hj) in Hidx.
  unfold select_vols. fold times.
  destruct (Nat.eqb_spec j 0) as [-> | Hj0].
  { inversion Hidx; subst idx. cbn [Z.ltb Z.compare].
    apply index_ok in Hvl. apply index_ok in Hvh. rewrite Hvl, Hvh.
    reflexivity. }
  destruct (Nat.eqb_spec j (length times - 1)) as [-> | Hj1].
  { inversion Hidx; subst idx.
    destruct (Z.ltb_spec (Z.of_nat (length times) - 1) 0) as [Hc | _]; [lia |].
    rewrite Z.leb_refl.
    assert (El : index_back rl 1 = Ok vl)
      by (apply index_back_ok; split; [lia |]; rewrite Hl; exact Hvl).
    assert (Eh : index_back rh 1 = Ok vh)
      by (apply index_back_ok; split; [lia |]; rewrite Hh; exact Hvh).
    rewrite El, Eh. reflexivity. }
  inversion Hidx; subst idx.
  unfold _get_bounds in Hbounds.
  destruct (Z.ltb_spec (Z.of_nat j) 0) as [Hc | _]; [lia |].
  destruct (Z.leb_spec (Z.of_nat (length times) - 1) (Z.of_nat j))
    as [Hc | _]; [lia |].
  rewrite Nat2Z.id in *.
  replace (Z.to_nat (Z.of_nat j + 1)) with (S j) in * by lia.
  apply index_ok in Hj. rewrite Hj in Hbounds. cbn [Py.bind] in Hbounds.
  destruct (index times (S j)) as [t1 |] eqn:E1; [| discriminate].
  cbn [Py.bind] in Hbounds. inversion Hbounds; subst a b.
  destruct (index_in_range rl (S j)) as [a1 [Ea1 _]]; [lia |].
  destruct (index_in_range rh (S j)) as [b1 [Eb1 _]]; [lia |].
  apply index_ok in Hvl. apply index_ok in Hvh.
  rewrite Hvl, Ea1, Hvh, Eb1. cbn [Py.bind].
  rewrite !interpolate_1d_at_low. reflexivity.
Qed.

(** Along the expiry axis a query at a grid expiry brackets it so that the
    last interpolation lands on the row of that expiry, unless interpolation
    is flat and extrapolation linear. *)
Lemma expiry_at_grid (s : VolatilitySurface) (i : nat) (e : R) (row : list R) :
  surface_ok s ->
  interpolation s = linear \/ extrapolation s = extrapolation_flat ->
  nth_error (expiry_times s) i = Some e ->
  nth_error (volatility_matrix s) i = Some row ->
  exists idx a b rl rh,
    _find_index (expiry_times s) e = Ok idx
    /\ _get_bounds s (expiry_times s) idx = Ok (a, b)
    /\ select_rows s idx = Ok (rl, rh)
    /\ In rl (volatility_matrix s) /\ In rh (volatility_matrix s)
    /\ ((a = e /\ rl = row)
        \/ (interpolation s = linear /\ a < b /\ b = e /\ rh = row)).
Proof.
  intros Hs Hmode Hi Hrow.
  pose proof (s_rows s Hs) as Hrows.
  pose proof (s_expiries_sorted s Hs) as Hsorted.
  set (times := expiry_times s) in *. set (matrix := volatility_matrix s) in *.
  assert (Hlen : (i < length times)%nat) by (apply nth_error_Some; congruence).
  rewrite (find_index_at_grid times i e Hsorted Hi).
  unfold _get_bounds, select_rows. fold times. fold matrix.
  destruct (Nat.eqb_spec i 0) as [-> | Hi0].
  { cbn [Z.ltb Z.compare].
    apply index_ok in Hi. apply index_ok in Hrow. rewrite Hi, Hrow.
    cbn [Py.bind].
    assert (Hin : In row matrix)
      by (apply index_ok in Hrow; eapply nth_error_In; eassumption).
    destruct (Nat.eqb_spec (length times) 1) as [H1 | H1].
    - exists (-1)%Z, e, e, row, row. split; [reflexivity |].
      split.
      { destruct (extrapolation s); [reflexivity |].
        destruct (Nat.ltb_spec 1 (length times)); [lia | reflexivity]. }
      cbn [Py.bind]. repeat split; auto.
    - destruct (index_in_range times 1) as [t1 [Et1 _]]; [lia |].
      destruct (index_in_range matrix 1) as [r1 [Er1 Nr1]]; [lia |].
      rewrite Er1. cbn [Py.bind].
      destruct (extrapolation s).
      + exists (-1)%Z, e, e, row, r1. repeat split; auto.
        eapply nth_error_In; eassumption.
      + destruct (Nat.ltb_spec 1 (length times)); [| lia].
        rewrite Et1. cbn [Py.bind].
        exists (-1)%Z, e, t1, row, r1. repeat split; auto.
        eapply nth_error_In; eassumption. }
  destruct (Nat.eqb_spec i (length times - 1)) as [-> | Hi1].
  { exists (Z.of_nat (length times) - 1)%Z.
    destruct (Z.ltb_spec (Z.of_nat (length times) - 1) 0) as [Hc | _]; [lia |].
    rewrite Z.leb_refl.
    assert (Hb1 : index_back times 1 = Ok e)
      by (apply index_back_ok; split; [lia | assumption]).
    assert (Hr1 : index_back matrix 1 = Ok row)
      by (apply index_back_ok; split; [lia |]; rewrite Hrows; exact Hrow).
    assert (Hin : In row matrix) by (eapply nth_error_In; eassumption).
    destruct (Nat.ltb_spec 1 (length times)) as [_ | Hc]; [| lia].
    cbn [andb].
    destruct (extrapolation s) eqn:Hx.
    - rewrite Hb1, Hr1. cbn [Py.bind].
      exists e, e, row, row.
      repeat split; auto.
    - destruct Hmode as [Hlin | Hc]; [| discriminate].
      destruct (index_in_range times (length times - 2)) as [prev [_ Np]];
        [lia |].
      destruct (index_in_range matrix (length matrix - 2)) as [rp [_ Nrp]];
        [lia |].
      assert (Hb2 : index_back times 2 = Ok prev)
        by (apply index_back_ok; split; [lia | assumption]).
      assert (Hr2 : index_back matrix 2 = Ok rp)
        by (apply index_back_ok; split; [lia | assumption]).
      rewrite Hb2, Hb1, Hr2, Hr1. cbn [Py.bind].
      exists prev, e, rp, row.
      split; [reflexivity |]. split; [reflexivity |]. split; [reflexivity |].
      split; [eapply nth_error_In; eassumption |]. split; [exact Hin |].
      right. repeat split; auto.
      apply (strongly_sorted_nth times Hsorted (length times - 2)
                                 (length times - 1)); [lia | |]; assumption. }
  exists (Z.of_nat i).
  destruct (Z.ltb_spec (Z.of_nat i) 0) as [Hc | _]; [lia |].
  destruct (Z.leb_spec (Z.of_nat (length times) - 1) (Z.of_nat i))
    as [Hc | _]; [lia |].
  rewrite Nat2Z.id.
  replace (Z.to_nat (Z.of_nat i + 1)) with (S i) by lia.
  destruct (index_in_range times (S i)) as [t1 [Et1 _]]; [lia |].
  destruct (index_in_range matrix (S i)) as [r1 [Er1 Nr1]]; [lia |].
  assert (Hin : In row matrix) by (eapply nth_error_In; eassumption).
  apply index_ok in Hi. apply index_ok in Hrow.
  rewrite Hi, Et1, Hrow, Er1. cbn [Py.bind].
  exists e, t1, row, r1. repeat split; auto.
  eapply nth_error_In; eassumption.
Qed.

(** A query at a grid point of a checked surface. *)
Lemma grid_point_checked (s : VolatilitySurface) (i j : nat) (e t : R)
      (row : list R) (v : R) :
  surface_ok s ->
  interpolation s = linear \/ extrapolation s = extrapolation_flat ->
  nth_error (expiry_times s) i = Some e ->
  nth_error (tenor_times s) j = Some t ->
  0 <= e -> 0 <= t ->
  nth_error (volatility_matrix s) i = Some row -> nth_error row j = Some v ->
  volatility_at_times s e t = Ok v.
Proof.
  intros Hs Hmode Hi Hj He Ht Hrow Hv.
  destruct (expiry_at_grid s i e row Hs Hmode Hi Hrow)
    as [exp_idx [a [b [rl [rh [Hfe [Hbe [Hrows [Il [Ih Hcase]]]]]]]]]].
  pose proof (s_columns s Hs) as Hcols. rewrite Forall_forall in Hcols.
  pose proof (Hcols rl Il) as Hll. pose proof (Hcols rh Ih) as Hlh.
  assert (Hjlen : (j < length (tenor_times s))%nat)
    by (apply nth_error_Some; congruence).
  destruct (index_in_range rl j) as [vl [_ Nl]]; [lia |].
  destruct (index_in_range rh j) as [vh [_ Nh]]; [lia |].
  destruct (find_index_position (tenor_times s) t (s_tenors s Hs))
    as [ten_idx [Hft Pt]].
  destruct (get_bounds_position s _ _ _ Pt) as [ta [tb [Hbt _]]].
  pose proof (select_vols_at_grid
                s j t ta tb rl rh vl vh (s_tenors_sorted s Hs) Hj Hll Hlh Nl Nh
                ten_idx Hft Hbt) as Hvols.
  rewrite volatility_at_times_steps.
  rewrite (flt_false e 0), (flt_false t 0) by lra.
  rewrite Hfe, Hft. cbn [Py.bind]. rewrite Hbe, Hbt. cbn [Py.bind fst snd].
  rewrite Hrows. cbn [Py.bind fst snd]. rewrite Hvols. cbn [Py.bind fst snd].
  f_equal.
  destruct Hcase as [[-> ->] | [Hlin [Hab [-> ->]]]].
  - rewrite interpolate_1d_at_low. congruence.
  - rewrite interpolate_1d_at_high by assumption. congruence.
Qed.

Lemma surface_init_fields val expiries tenors matrix interp extrap dc s :
  VolatilitySurface_init val expiries tenors matrix interp extrap dc = Ok s ->
  valuation_date s = val /\ day_count s = dc.
Proof.
  unfold VolatilitySurface_init.
  destruct (length expiries =? 0)%nat; [discriminate |].
  destruct (length tenors =? 0)%nat; [discriminate |].
  destruct (_validate_strictly_increasing expiries); [| discriminate].
  destruct (_validate_strictly_increasing tenors); [| discriminate].
  cbn [Py.bind].
  destruct (negb (length matrix =? length expiries)%nat); [discriminate |].
  destruct (map_result (validate_row (length tenors)) matrix); [| discriminate].
  cbn [Py.bind]. intros H. inversion H. split; reflexivity.
Qed.

End SurfaceFacts.

(** X15.  A surface that the constructor returns answers every query with
    non-negative expiry and tenor times, with no index error; under flat
    extrapolation the answer lies within any bounds that hold for the entries of
    the matrix, so it is never negative. *)
Theorem volatility_at_times_in_range
        (val : date) (expiries tenors : list R) (matrix : list (list R))
        (interp : VolSurface.InterpolationMethod)
        (extrap : VolSurface.ExtrapolationMethod) (dc : DayCountConvention)
        (s : VolSurface.VolatilitySurface) (e t : R) :
  VolSurface.VolatilitySurface_init val expiries tenors matrix interp extrap dc
  = Ok s ->
  0 <= e -> 0 <= t ->
  exists v,
    VolSurface.volatility_at_times s e t = Ok v
    /\ (extrap = VolSurface.extrapolation_flat ->
        0 <= v
        /\ forall lo hi,
             Forall (Forall (fun vol => lo <= vol <= hi)) matrix ->
             lo <= v <= hi).
Proof.
  intros Hinit He Ht.
  destruct (SurfaceFacts.surface_init_ok _ _ _ _ _ _ _ _ Hinit)
    as [Hs [_ [_ [Hm [_ Hx]]]]].
  destruct (SurfaceFacts.volatility_at_times_checked s e t Hs He Ht)
    as [v [Hv Hrange]].
  exists v. split; [exact Hv |].
  intros Hflat. rewrite Hx, Hm in Hrange. specialize (Hrange Hflat).
  split; [| exact Hrange].
  destruct (SurfaceFacts.matrix_upper_bound matrix) as [hi Hhi].
  apply (Hrange 0 hi).
  pose proof (s_nonneg s Hs) as Hnn. rewrite Hm in Hnn.
  rewrite Forall_forall in *. intros row Hrow.
  specialize (Hnn row Hrow). specialize (Hhi row Hrow).
  rewrite Forall_forall in *. intros vol Hvol.
  split; [apply Hnn | apply Hhi]; exact Hvol.
Qed.

(** X15 on the surface of the tests, at expiry 0.75 and tenor 3. *)
Lemma volatility_at_times_in_range_witness :
  exists v,
    VolSurface.volatility_at_times flat_surface 0.75 3 = Ok v
    /\ 0 <= v /\ 0.20 <= v <= 0.23.
Proof.
  assert (He : 0 <= 0.75) by lra.
  assert (Ht : 0 <= 3) by lra.
  destruct (volatility_at_times_in_range _ _ _ _ _ _ _ _ 0.75 3
              flat_surface_built He Ht) as [v [Hv Hr]].
  exists v. split; [exact Hv |].
  destruct (Hr eq_refl) as [H0 Hb]. split; [exact H0 |].
  apply Hb. repeat constructor; lra.
Defined.

(** X16.  With linear interpolation, or with flat extrapolation, a query at a
    grid point with non-negative times returns the entry of the matrix at that
    expiry and tenor. *)
Theorem volatility_at_grid_point
        (val : date) (expiries tenors : list R) (matrix : list (list R))
        (interp : VolSurface.InterpolationMethod)
        (extrap : VolSurface.ExtrapolationMethod) (dc : DayCountConvention)
        (s : VolSurface.VolatilitySurface)
        (i j : nat) (e t : R) (row : list R) (v : R) :
  VolSurface.VolatilitySurface_init val expiries tenors matrix interp extrap dc
  = Ok s ->
  interp = VolSurface.linear \/ extrap = VolSurface.extrapolation_flat ->
  nth_error expiries i = Some e -> nth_error tenors j = Some t ->
  0 <= e -> 0 <= t ->
  nth_error matrix i = Some row -> nth_error row j = Some v ->
  VolSurface.volatility_at_times s e t = Ok v.
Proof.
  intros Hinit Hmode Hi Hj He Ht Hrow Hv.
  destruct (SurfaceFacts.surface_init_ok _ _ _ _ _ _ _ _ Hinit)
    as [Hs [Ee [Et [Em [Ei Ex]]]]].
  rewrite <- Ee in Hi. rewrite <- Et in Hj. rewrite <- Em in Hrow.
  rewrite <- Ei, <- Ex in Hmode.
  apply (SurfaceFacts.grid_point_checked s i j e t row v); assumption.
Qed.

(** X16 on the surface of the tests, at expiry 2 and tenor 1. *)
Lemma volatility_at_grid_point_witness :
  VolSurface.volatility_at_times flat_surface 2 1 = Ok 0.22.
Proof.
  assert (He : 0 <= 2) by lra.
  assert (Ht : 0 <= 1) by lra.
  apply (volatility_at_grid_point _ _ _ _ _ _ _ _ 1 0 2 1 [0.22; 0.23] 0.22
           flat_surface_built (or_intror eq_refl) eq_refl eq_refl He Ht
           eq_refl eq_refl).
Defined.

(** X17.  With flat interpolation and linear extrapolation, on a surface with
    at least two expiries, a query at the last grid expiry does not return the
    last row of the matrix: it returns the entry of the row before it. *)
Theorem volatility_at_last_expiry_flat_linear
        (val : date) (expiries tenors : list R) (matrix : list (list R))
        (dc : DayCountConvention) (s : VolSurface.VolatilitySurface)
        (j : nat) (e t : R) (row : list R) (v : R) :
  VolSurface.VolatilitySurface_init val expiries tenors matrix VolSurface.flat
                                    VolSurface.extrapolation_linear dc
  = Ok s ->
  (1 < length expiries)%nat ->
  nth_error expiries (length expiries - 1) = Some e ->
  nth_error tenors j = Some t ->
  0 <= e -> 0 <= t ->
  nth_error matrix (length expiries - 2) = Some row ->
  nth_error row j = Some v ->
  VolSurface.volatility_at_times s e t = Ok v.
Proof.
  intros Hinit Hn Hi Hj He Ht Hrow Hv.
  destruct (SurfaceFacts.surface_init_ok _ _ _ _ _ _ _ _ Hinit)
    as [Hs [Ee [Et [Em [Ei Ex]]]]].
  rewrite <- Ee in Hi, Hn, Hrow. rewrite <- Et in Hj. rewrite <- Em in Hrow.
  pose proof (s_rows s Hs) as Hrows.
  pose proof (s_expiries_sorted s Hs) as Hsorted.
  set (times := VolSurface.expiry_times s) in *.
  set (mat := VolSurface.volatility_matrix s) in *.
  assert (Hfe : VolSurface._find_index times e
                = Ok (Z.of_nat (length times) - 1)%Z).
  { rewrite (SurfaceFacts.find_index_at_grid times _ e Hsorted Hi).
    destruct (Nat.eqb_spec (length times - 1) 0) as [Hc | _]; [lia |].
    rewrite Nat.eqb_refl. reflexivity. }
  destruct (index_in_range times (length times - 2)) as [prev [_ Np]]; [lia |].
  destruct (index_in_range mat (length mat - 1)) as [rlast [_ Nlast]]; [lia |].
  assert (Hb1 : index_back times 1 = Ok e)
    by (apply index_back_ok; split; [lia | assumption]).
  assert (Hb2 : index_back times 2 = Ok prev)
    by (apply index_back_ok; split; [lia | assumption]).
  assert (Hr1 : index_back mat 1 = Ok rlast)
    by (apply index_back_ok; split; [lia | assumption]).
  assert (Hr2 : index_back mat 2 = Ok row)
    by (apply index_back_ok; split; [lia |]; rewrite Hrows; exact Hrow).
  assert (Hbe : VolSurface._get_bounds s times (Z.of_nat (length times) - 1)
                = Ok (prev, e)).
  { unfold VolSurface._get_bounds.
    destruct (Z.ltb_spec (Z.of_nat (length times) - 1) 0) as [Hc | _]; [lia |].
    rewrite Z.leb_refl, Ex.
    destruct (Nat.ltb_spec 1 (length times)) as [_ | Hc]; [| lia].
    rewrite Hb2, Hb1. reflexivity. }
  assert (Hsel : select_rows s (Z.of_nat (length times) - 1) = Ok (row, rlast)).
  { unfold select_rows. fold times. fold mat.
    destruct (Z.ltb_spec (Z.of_nat (length times) - 1) 0) as [Hc | _]; [lia |].
    rewrite Z.leb_refl, Ex.
    destruct (Nat.ltb_spec 1 (length times)) as [_ | Hc]; [| lia].
    cbn [andb]. rewrite Hr2, Hr1. reflexivity. }
  pose proof (s_columns s Hs) as Hcols. rewrite Forall_forall in Hcols.
  assert (Hll : length row = length (VolSurface.tenor_times s))
    by (apply Hcols; eapply nth_error_In; eassumption).
  assert (Hlh : length rlast = length (VolSurface.tenor_times s))
    by (apply Hcols; eapply nth_error_In; eassumption).
  assert (Hjlen : (j < length (VolSurface.tenor_times s))%nat)
    by (apply nth_error_Some; congruence).
  destruct (index_in_range rlast j) as [vh [_ Nh]]; [lia |].
  destruct (SurfaceFacts.find_index_position
              (VolSurface.tenor_times s) t (s_tenors s Hs))
    as [ten_idx [Hft Pt]].
  destruct (SurfaceFacts.get_bounds_position s _ _ _ Pt) as [ta [tb [Hbt _]]].
  pose proof (SurfaceFacts.select_vols_at_grid
                s j t ta tb row rlast v vh (s_tenors_sorted s Hs) Hj Hll Hlh
                Hv Nh ten_idx Hft Hbt) as Hvols.
  rewrite SurfaceFacts.volatility_at_times_steps.
  rewrite (flt_false e 0), (flt_false t 0) by lra.
  fold times. rewrite Hfe, Hft. cbn [Py.bind]. rewrite Hbe, Hbt.
  cbn [Py.bind fst snd]. rewrite Hsel. cbn [Py.bind fst snd].
  rewrite Hvols. cbn [Py.bind fst snd].
  unfold VolSurface._interpolate_1d. rewrite Ei. reflexivity.
Qed.

(** X17 on the matrix of the tests: at expiry 2 and tenor 1 the query
    returns 0.20, the entry of the first row, and not 0.22. *)
Lemma volatility_at_last_expiry_flat_linear_witness :
  exists s,
    VolSurface.VolatilitySurface_init
      d_2024_01_01 [1; 2] [1; 2] [[0.20; 0.21]; [0.22; 0.23]]
      VolSurface.flat VolSurface.extrapolation_linear ACT_365 = Ok s
    /\ VolSurface.volatility_at_times s 2 1 = Ok 0.20.
Proof.
  assert (Hinit :
            VolSurface.VolatilitySurface_init
              d_2024_01_01 [1; 2] [1; 2] [[0.20; 0.21]; [0.22; 0.23]]
              VolSurface.flat VolSurface.extrapolation_linear ACT_365
            = Ok {| VolSurface.valuation_date := d_2024_01_01;
                    VolSurface.expiry_times := [1; 2];
                    VolSurface.tenor_times := [1; 2];
                    VolSurface.volatility_matrix :=
                      [[0.20; 0.21]; [0.22; 0.23]];
                    VolSurface.interpolation := VolSurface.flat;
                    VolSurface.extrapolation := VolSurface.extrapolation_linear;
                    VolSurface.day_count := ACT_365 |})
    by (unfold VolSurface.VolatilitySurface_init; py_eval; reflexivity).
  eexists. split; [exact Hinit |].
  assert (He : 0 <= 2) by lra.
  assert (Ht : 0 <= 1) by lra.
  apply (volatility_at_last_expiry_flat_linear _ _ _ _ _ _ 0 2 1 [0.20; 0.21]
           0.20 Hinit (Nat.lt_succ_diag_r 1) eq_refl eq_refl He Ht eq_refl
           eq_refl).
Defined.

(** X18.  A surface built from expiry dates gives back its matrix: with
    linear interpolation, or with flat extrapolation, the volatility at an
    expiry date and a tenor of the grid is the entry of the matrix at that
    expiry and tenor, when the tenor and the year fraction of the expiry date
    are not negative. *)
Theorem surface_round_trip
        (val : date) (expiry_dates : list date) (tenors : list R)
        (matrix : list (list R)) (dc : DayCountConvention)
        (interp : VolSurface.InterpolationMethod)
        (extrap : VolSurface.ExtrapolationMethod)
        (s : VolSurface.VolatilitySurface) :
  VolSurface.build_volatility_surface_from_matrix
    val expiry_dates tenors matrix dc interp extrap = Ok s ->
  interp = VolSurface.linear \/ extrap = VolSurface.extrapolation_flat ->
  forall i j d t row v,
    nth_error expiry_dates i = Some d -> nth_error tenors j = Some t ->
    0 <= t ->
    nth_error matrix i = Some row -> nth_error row j = Some v ->
    exists e,
      year_fraction val d dc = Ok e
      /\ (0 <= e -> VolSurface.volatility s d t = Ok v).
Proof.
  intros Hbuild Hmode i j d t row v Hd Hj Ht Hrow Hv.
  unfold VolSurface.build_volatility_surface_from_matrix in Hbuild.
  apply bind_ok_inv in Hbuild. destruct Hbuild as [times [Htimes Hinit]].
  destruct (map_result_nth _ _ _ i d Htimes Hd) as [e [He Hyf]].
  exists e. split; [exact Hyf |]. intros Hpos.
  destruct (SurfaceFacts.surface_init_ok _ _ _ _ _ _ _ _ Hinit)
    as [Hs [Ee [Et [Em [Ei Ex]]]]].
  destruct (SurfaceFacts.surface_init_fields _ _ _ _ _ _ _ _ Hinit)
    as [Eval Edc].
  unfold VolSurface.volatility. rewrite Eval, Edc.
  rewrite (year_fraction_ok_after _ _ _ _ Hyf), Hyf. cbn [Py.bind].
  rewrite <- Ee in He. rewrite <- Et in Hj. rewrite <- Em in Hrow.
  rewrite <- Ei, <- Ex in Hmode.
  apply (SurfaceFacts.grid_point_checked s i j e t row v); assumption.
Qed.

(** X18 on the matrix of the tests with the expiries 2025-01-01 and
    2026-01-01. *)
Lemma surface_round_trip_witness :
  exists s,
    VolSurface.build_volatility_surface_from_matrix
      d_2024_01_01 [d_2025_01_01; d_2026_01_01] [1; 2]
      [[0.20; 0.21]; [0.22; 0.23]] ACT_365 VolSurface.linear
      VolSurface.extrapolation_flat = Ok s
    /\ VolSurface.volatility s d_2026_01_01 2 = Ok 0.23.
Proof.
  assert (Hbuild :
            VolSurface.build_volatility_surface_from_matrix
              d_2024_01_01 [d_2025_01_01; d_2026_01_01] [1; 2]
              [[0.20; 0.21]; [0.22; 0.23]] ACT_365 VolSurface.linear
              VolSurface.extrapolation_flat
            = Ok {| VolSurface.valuation_date := d_2024_01_01;
                    VolSurface.expiry_times := [IZR 366 / 365; IZR 731 / 365];
                    VolSurface.tenor_times := [1; 2];
                    VolSurface.volatility_matrix :=
                      [[0.20; 0.21]; [0.22; 0.23]];
                    VolSurface.interpolation := VolSurface.linear;
                    VolSurface.extrapolation := VolSurface.extrapolation_flat;
                    VolSurface.day_count := ACT_365 |})
    by (unfold VolSurface.build_volatility_surface_from_matrix,
          VolSurface.VolatilitySurface_init; py_eval; reflexivity).
  eexists. split; [exact Hbuild |].
  assert (Ht : 0 <= 2) by lra.
  destruct (surface_round_trip _ _ _ _ _ _ _ _ Hbuild (or_introl eq_refl)
              1%nat 1%nat d_2026_01_01 2 [0.22; 0.23] 0.23
              eq_refl eq_refl Ht eq_refl eq_refl) as [e [Hyf Hvol]].
  apply Hvol.
  destruct (actual_year_fraction d_2024_01_01 d_2026_01_01 ACT_365 365 eq_refl
              eq_refl) as [Hyf' _].
  rewrite Hyf' in Hyf. inversion Hyf. unfold days_diff. simpl. lra.
Defined.

(** ** [models/hull_white.py]: the Euler scheme, the shocks, the path *)

Module EulerFacts.

Import HullWhite.

(** What one pass of the loop of [_simulate_euler] stores. *)
Lemma euler_step_ok (m : HullWhite1F) (times shocks rates rates' : list R)
      (i : nat) :
  euler_step m times shocks (S i) rates = Ok rates' ->
  exists t_prev t_i r_prev shock,
    nth_error times i = Some t_prev /\ nth_error times (S i) = Some t_i
    /\ nth_error rates i = Some r_prev /\ nth_error shocks i = Some shock
    /\ t_prev < t_i
    /\ returns (_theta m t_prev)
    /\ store rates (S i) (euler_next_rate m r_prev t_prev t_i shock) = Ok rates'.
Proof.
  unfold euler_step. replace (S i - 1)%nat with i by lia. intros H.
  apply bind_ok_inv in H. destruct H as [t_i [Hti H]].
  apply bind_ok_inv in H. destruct H as [t_prev [Htp H]].
  destruct (fle_spec (t_i - t_prev) 0) as [Hle | Hgt]; [discriminate |].
  apply bind_ok_inv in H. destruct H as [theta_t [Hth H]].
  apply bind_ok_inv in H. destruct H as [r_prev [Hr H]].
  apply bind_ok_inv in H. destruct H as [sd [Hsd H]].
  apply bind_ok_inv in H. destruct H as [shock [Hsh H]].
  apply index_ok in Hti, Htp, Hr, Hsh.
  rewrite fsqrt_ok in Hsd by lra. inversion Hsd; subst sd; clear Hsd.
  exists t_prev, t_i, r_prev, shock.
  repeat (split; [assumption || lra |]).
  split; [exists theta_t; exact Hth |].
  unfold euler_next_rate, theta_value. rewrite Hth. exact H.
Qed.

Lemma euler_prefix_step (m : HullWhite1F) (times shocks : list R) (n k : nat)
      (x y : list R) :
  (1 <= k)%nat -> euler_prefix m times shocks n k x ->
  euler_step m times shocks k x = Ok y ->
  euler_prefix m times shocks n (S k) y.
Proof.
  intros Hk [Hlen Hpre] Hstep.
  destruct k as [| k]; [lia |].
  destruct (euler_step_ok _ _ _ _ _ _ Hstep)
    as [t_prev [t_i [r_prev [shock [H1 [H2 [H3 [H4 [H5 [H6 H7]]]]]]]]]].
  split; [rewrite (store_length _ _ _ _ H7); exact Hlen |].
  intros i Hi.
  destruct (Nat.eq_dec i k) as [-> | Hne].
  - exists t_prev, t_i, r_prev, shock.
    split; [exact H1 |]. split; [exact H2 |].
    split; [rewrite (store_other _ _ _ k _ H7) by lia; exact H3 |].
    split; [exact H4 |]. split; [exact H5 |]. split; [exact H6 |].
    exact (store_same _ _ _ _ H7).
  - destruct (Hpre i) as [a [b [r [s [Ha [Hb [Hr [Hs [Hab [Hth Hn]]]]]]]]]];
      [lia |].
    exists a, b, r, s.
    split; [exact Ha |]. split; [exact Hb |].
    split; [rewrite (store_other _ _ _ i _ H7) by lia; exact Hr |].
    split; [exact Hs |]. split; [exact Hab |]. split; [exact Hth |].
    rewrite (store_other _ _ _ (S i) _ H7) by lia. exact Hn.
Qed.

Lemma simulate_euler_ok (m : HullWhite1F) (times shocks rates : list R)
      (r0 : R) (g g' : rng_state) :
  _simulate_euler m times r0 (Some shocks) g = (Ok rates, g') ->
  euler_prefix m times shocks (length times) (length times) rates.
Proof.
  unfold _simulate_euler, simulate_with, shocks_for. intros H.
  destruct (negb (Z.of_nat (length shocks) =? Z.of_nat (length times) - 1)%Z);
    cbn [fst snd Py.bind] in H; [discriminate |].
  inversion H as [[Hrun Hg]]; clear H.
  apply bind_ok_inv in Hrun. destruct Hrun as [rates0 [Hst Hloop]].
  destruct times as [| t0 rest]; [discriminate |].
  cbn [length] in *.
  replace (S (length rest) - 1)%nat with (length rest) in Hloop by lia.
  pose proof (for_range_invariant
                (euler_step m (t0 :: rest) shocks)
                (fun k rs => (1 <= k)%nat
                             /\ euler_prefix m (t0 :: rest) shocks
                                             (S (length rest)) k rs)
                (length rest) 1 rates0 rates) as Hinv.
  destruct Hinv as [_ Hfinal]; [| | exact Hloop | exact Hfinal].
  - split; [lia |]. split; [| intros i Hi; lia].
    rewrite (store_length _ _ _ _ Hst). apply repeat_length.
  - intros i x y Hi [Hk Hp] Hbody. split; [lia |].
    eapply euler_prefix_step; eassumption.
Qed.

End EulerFacts.

(** X19.  Under the Euler scheme, whenever [simulate_short_rate_path] returns
    a path for supplied shocks, the path has one rate per time and every step
    [i -> i + 1] satisfies
    [r_next = r_prev + (theta(t_prev) - a r_prev) dt + sigma sqrt(dt) shock_i]
    with [dt = t_i - t_prev > 0], the drift being the value that [_theta]
    returns at [t_prev]. *)
Theorem euler_scheme_step
        (m : HullWhite.HullWhite1F) (times shocks rates : list R)
        (g g' : HullWhite.rng_state) :
  HullWhite.scheme m = HullWhite.euler ->
  HullWhite.simulate_short_rate_path m times (Some shocks) g = (Ok rates, g') ->
  length rates = length times
  /\ forall i t_prev t_i,
      nth_error times i = Some t_prev -> nth_error times (S i) = Some t_i ->
      exists r_prev shock,
        nth_error rates i = Some r_prev /\ nth_error shocks i = Some shock
        /\ t_prev < t_i
        /\ returns (HullWhite._theta m t_prev)
        /\ nth_error rates (S i)
           = Some (euler_next_rate m r_prev t_prev t_i shock).
Proof.
  intros Hscheme Hrun. unfold HullWhite.simulate_short_rate_path in Hrun.
  destruct times as [| t0 rest].
  { inversion Hrun; subst. split; [reflexivity |].
    intros i t_prev t_i Hi. destruct i; discriminate. }
  destruct (flt t0 0); [discriminate |].
  destruct (HullWhite._initial_short_rate m t0) as [r0 |]; [| discriminate].
  rewrite Hscheme in Hrun.
  destruct (EulerFacts.simulate_euler_ok _ _ _ _ _ _ _ Hrun) as [Hlen Hsteps].
  split; [exact Hlen |].
  intros i t_prev t_i Hp Hi.
  assert (Hlt : (S i < length (t0 :: rest))%nat)
    by (apply nth_error_Some; congruence).
  destruct (Hsteps i Hlt) as [a [b [r [s [Ha [Hb [Hr [Hs [Hab [Hth Hn]]]]]]]]]].
  assert (a = t_prev) by congruence. assert (b = t_i) by congruence. subst a b.
  exists r, s. repeat (split; [assumption |]). exact Hn.
Qed.

Module PathFacts.

Import HullWhite Totality.

Lemma initial_short_rate_returns (m : HullWhite1F) (t0 : R) :
  continuous_model m -> 0 <= t0 -> (theta_horizon m t0 <= MAXORDINAL)%Z ->
  returns (_initial_short_rate m t0).
Proof.
  intros Hm Hpos Hh. unfold _initial_short_rate.
  pose proof Hm as [_ [Hcomp [[basis Hbasis] [Hv [dates [rates Hinit]]]]]].
  pose proof (days_per_year_bounds m) as HK.
  unfold theta_horizon in Hh.
  rewrite (time_to_date_ok
             m t0 (ftrunc ((t0 + fmax 0.02 (t0 * 0.02)) * days_per_year m)));
    try assumption.
  - cbn [Py.bind].
    apply (curve_zero_rate_returns _ _ _ _ _ _ basis Hinit Hbasis).
    unfold date_ltb. cbn [toordinal]. apply Z.ltb_ge.
    destruct (ftrunc_bounds (t0 * days_per_year m)) as [_ Hn]; [nra |]. lia.
  - apply ftrunc_mono.
    destruct (fmax_cases 0.02 (t0 * 0.02)) as [[-> ?] | [-> ?]]; nra.
Qed.

Lemma euler_step_returns (m : HullWhite1F) (times shocks rates : list R)
      (i : nat) (t_prev t_i : R) :
  continuous_model m ->
  nth_error times i = Some t_prev -> nth_error times (S i) = Some t_i ->
  0 <= t_prev < t_i -> (theta_horizon m t_prev <= MAXORDINAL)%Z ->
  length rates = length times -> length shocks = (length times - 1)%nat ->
  returns (euler_step m times shocks (S i) rates).
Proof.
  intros Hm Hp Hi Ht Hmax Hlr Hls.
  assert (Hlt : (S i < length times)%nat)
    by (apply nth_error_Some; congruence).
  unfold euler_step. replace (S i - 1)%nat with i by lia.
  apply index_ok in Hp, Hi. rewrite Hi, Hp. cbn [Py.bind].
  rewrite fle_false by lra.
  destruct (theta_returns m t_prev Hm) as [th Hth]; [lra | exact Hmax |].
  rewrite Hth. cbn [Py.bind].
  destruct (index_in_range rates i) as [r_prev [Hr _]]; [lia |].
  rewrite Hr. cbn [Py.bind].
  rewrite fsqrt_ok by lra. cbn [Py.bind].
  destruct (index_in_range shocks i) as [shock [Hs _]]; [lia |].
  rewrite Hs. cbn [Py.bind].
  apply store_in_range. lia.
Qed.

(** On a valid grid one pass of either loop returns, and changes only the
    entry it writes. *)
Lemma step_returns (m : HullWhite1F) (times shocks rates : list R)
      (i : nat) (t_prev t_i : R) :
  continuous_model m ->
  nth_error times i = Some t_prev -> nth_error times (S i) = Some t_i ->
  0 <= t_prev < t_i ->
  (theta_horizon m t_prev <= MAXORDINAL)%Z ->
  (theta_horizon m t_i <= MAXORDINAL)%Z ->
  length rates = length times -> length shocks = (length times - 1)%nat ->
  exists rates',
    (match scheme m with
     | exact => exact_step m
     | euler => euler_step m
     end) times shocks (S i) rates = Ok rates'
    /\ length rates' = length times
    /\ nth_error rates' 0 = nth_error rates 0.
Proof.
  intros Hm Hp Hi Ht Hmax0 Hmax1 Hlr Hls.
  destruct (scheme m).
  - destruct (exact_step_returns m times shocks rates i t_prev t_i)
      as [rates' [Hstep Hlen]]; try assumption.
    exists rates'. split; [exact Hstep |]. split; [exact Hlen |].
    destruct (exact_step_ok _ _ _ _ _ _ Hstep)
      as [a [b [r [s [_ [_ [_ [_ [_ [_ Hst]]]]]]]]]].
    apply (store_other _ _ _ 0 _ Hst). lia.
  - destruct (euler_step_returns m times shocks rates i t_prev t_i)
      as [rates' Hstep]; try assumption.
    exists rates'. split; [exact Hstep |].
    destruct (EulerFacts.euler_step_ok _ _ _ _ _ _ Hstep)
      as [a [b [r [s [_ [_ [_ [_ [_ [_ Hst]]]]]]]]]].
    split; [rewrite (store_length _ _ _ _ Hst); exact Hlr |].
    apply (store_other _ _ _ 0 _ Hst). lia.
Qed.

(** With no shocks supplied the loop runs on the next [n - 1] variates of the
    source. *)
Lemma simulate_with_drawn step (times : list R) (r0 : R) (g : rng_state) :
  times <> [] ->
  simulate_with step times r0 None g
  = (fst (simulate_with step times r0
                        (Some (drawn_shocks (length times) g)) g),
     advanced (length times) g).
Proof.
  intros Hne.
  assert (Hlen : (1 <= length times)%nat)
    by (destruct times; [congruence | simpl; lia]).
  unfold simulate_with, shocks_for, standard_normal, drawn_shocks, advanced.
  destruct (Z.ltb_spec (Z.of_nat (length times) - 1) 0) as [Hc | _]; [lia |].
  rewrite length_map, length_seq.
  replace (Z.to_nat (Z.of_nat (length times) - 1)) with (length times - 1)%nat
    by lia.
  replace (Z.of_nat (length times - 1) =? Z.of_nat (length times) - 1)%Z
    with true by (symmetry; apply Z.eqb_eq; lia).
  reflexivity.
Qed.

Lemma path_drawn (m : HullWhite1F) (times : list R) (g : rng_state) :
  fst (simulate_short_rate_path m times None g)
  = fst (simulate_short_rate_path
           m times (Some (drawn_shocks (length times) g)) g)
  /\ (returns (fst (simulate_short_rate_path m times None g)) ->
      snd (simulate_short_rate_path m times None g)
      = advanced (length times) g).
Proof.
  unfold simulate_short_rate_path.
  destruct times as [| t0 rest]; [split; reflexivity |].
  destruct (flt t0 0); [split; [reflexivity | intros [x Hx]; discriminate] |].
  destruct (_initial_short_rate m t0) as [r0 | e];
    [| split; [reflexivity | intros [x Hx]; discriminate]].
  unfold _simulate_exact, _simulate_euler.
  destruct (scheme m); rewrite simulate_with_drawn by discriminate;
    split; reflexivity.
Qed.

(** On a valid grid the simulator returns a path that starts at the initial
    rate. *)
Lemma path_returns (m : HullWhite1F) (times shocks : list R) (g : rng_state) :
  continuous_model m ->
  times <> [] -> Sorted Rlt times -> 0 <= hd 0 times ->
  (forall t, In t times -> (theta_horizon m t <= MAXORDINAL)%Z) ->
  length shocks = (length times - 1)%nat ->
  exists rates r0,
    simulate_short_rate_path m times (Some shocks) g = (Ok rates, g)
    /\ length rates = length times
    /\ _initial_short_rate m (hd 0 times) = Ok r0
    /\ nth_error rates 0 = Some r0.
Proof.
  intros Hm Hne Hsorted Hpos Hmax Hlen.
  destruct times as [| t0 rest]; [congruence |]. cbn [hd] in *.
  unfold simulate_short_rate_path. rewrite flt_false by lra.
  destruct (initial_short_rate_returns m t0 Hm Hpos) as [r0 Hr0];
    [apply Hmax; left; reflexivity |].
  rewrite Hr0.
  assert (Hgo : exists rates,
             simulate_with
               (match scheme m with
                | exact => exact_step m
                | euler => euler_step m
                end) (t0 :: rest) r0 (Some shocks) g = (Ok rates, g)
             /\ length rates = length (t0 :: rest)
             /\ nth_error rates 0 = Some r0).
  { unfold simulate_with, shocks_for.
    replace (Z.of_nat (length shocks) =? Z.of_nat (length (t0 :: rest)) - 1)%Z
      with true by (symmetry; apply Z.eqb_eq; cbn [length] in *; lia).
    cbn [negb fst snd Py.bind].
    destruct (store_in_range (repeat 0 (length (t0 :: rest))) 0 r0)
      as [rates0 Hst]; [rewrite repeat_length; cbn [length]; lia |].
    rewrite Hst. cbn [Py.bind].
    assert (Hl0 : length rates0 = length (t0 :: rest))
      by (rewrite (store_length _ _ _ _ Hst); apply repeat_length).
    pose proof (store_same _ _ _ _ Hst) as Hfirst.
    destruct (for_range_returns
                ((match scheme m with
                  | exact => exact_step m
                  | euler => euler_step m
                  end) (t0 :: rest) shocks)
                (fun k rs => length rs = length (t0 :: rest)
                             /\ nth_error rs 0 = Some r0)
                (length (t0 :: rest) - 1) 1 rates0 (conj Hl0 Hfirst))
      as [rates [Hrun [Hl Hf]]].
    - intros k x Hk [Hx Hx0]. destruct k as [| i]; [lia |].
      destruct (index_in_range (t0 :: rest) i) as [t_prev [_ Hp]]; [lia |].
      destruct (index_in_range (t0 :: rest) (S i)) as [t_i [_ Hi]]; [lia |].
      destruct (step_returns m (t0 :: rest) shocks x i t_prev t_i)
        as [y [Hy [Hly Hy0]]]; try assumption.
      + split.
        * destruct i as [| j]; [simpl in Hp; inversion Hp; lra |].
          assert (t0 < t_prev); [| lra].
          apply (sorted_nth _ Hsorted 0 (S j)); [lia | reflexivity | exact Hp].
        * apply (sorted_nth _ Hsorted i (S i)); [lia | exact Hp | exact Hi].
      + apply Hmax. eapply nth_error_In; eassumption.
      + apply Hmax. eapply nth_error_In; eassumption.
      + exists y. split; [exact Hy |]. split; [exact Hly | congruence].
    - rewrite Hrun. exists rates. auto. }
  destruct Hgo as [rates [Hrun [Hl Hf]]].
  exists rates, r0.
  split; [| auto].
  unfold _simulate_exact, _simulate_euler. destruct (scheme m); exact Hrun.
Qed.

(** A loop that returns has filled an array of one rate per time, and has
    left its first entry alone. *)
Lemma simulate_with_shape
      (step : list R -> list R -> nat -> list R -> result (list R))
      (times shocks rates : list R) (r0 : R) (g : rng_state) :
  (forall i x y, step times shocks (S i) x = Ok y ->
                 exists v, store x (S i) v = Ok y) ->
  fst (simulate_with step times r0 (Some shocks) g) = Ok rates ->
  length rates = length times
  /\ nth_error rates 0 = Some r0
  /\ length shocks = (length times - 1)%nat.
Proof.
  intros Hstep H. unfold simulate_with, shocks_for in H.
  destruct (Z.eqb_spec (Z.of_nat (length shocks)) (Z.of_nat (length times) - 1))
    as [Hlen | Hlen]; cbn [negb fst snd Py.bind] in H; [| discriminate].
  apply bind_ok_inv in H. destruct H as [rates0 [Hst Hloop]].
  assert (H0 : length rates0 = length times
               /\ nth_error rates0 0 = Some r0).
  { split; [rewrite (store_length _ _ _ _ Hst); apply repeat_length |].
    exact (store_same _ _ _ _ Hst). }
  pose proof (for_range_invariant
                (step times shocks)
                (fun k rs => (1 <= k)%nat
                             /\ length rs = length times
                             /\ nth_error rs 0 = Some r0)
                (length times - 1) 1 rates0 rates) as Hinv.
  destruct Hinv as [_ [Hl Hf]]; [| | exact Hloop |].
  - split; [lia | exact H0].
  - intros i x y Hi [Hk [Hx Hx0]] Hbody. destruct i as [| j]; [lia |].
    destruct (Hstep j x y Hbody) as [v Hv].
    split; [lia |]. split.
    + rewrite (store_length _ _ _ _ Hv). exact Hx.
    + rewrite (store_other _ _ _ 0 _ Hv) by lia. exact Hx0.
  - split; [exact Hl |]. split; [exact Hf | lia].
Qed.

Lemma exact_step_stores (m : HullWhite1F) (times shocks : list R) :
  forall i x y, exact_step m times shocks (S i) x = Ok y ->
                exists v, store x (S i) v = Ok y.
Proof.
  intros i x y H.
  destruct (exact_step_ok _ _ _ _ _ _ H)
    as [a [b [r [s [_ [_ [_ [_ [_ [_ Hst]]]]]]]]]].
  eexists; exact Hst.
Qed.

Lemma euler_step_stores (m : HullWhite1F) (times shocks : list R) :
  forall i x y, euler_step m times shocks (S i) x = Ok y ->
                exists v, store x (S i) v = Ok y.
Proof.
  intros i x y H.
  destruct (EulerFacts.euler_step_ok _ _ _ _ _ _ H)
    as [a [b [r [s [_ [_ [_ [_ [_ [_ Hst]]]]]]]]]].
  eexists; exact Hst.
Qed.

(** A loop that returns has run on strictly increasing times. *)
Lemma simulate_with_sorted step times r0 random_shocks g rates :
  descent_rejecting step ->
  fst (simulate_with step times r0 random_shocks g) = Ok rates ->
  Sorted Rlt times.
Proof.
  intros Hstep H.
  destruct (validate_cases times) as [Hv | Hv];
    [apply validate_ok_sorted, Hv |].
  exfalso.
  assert (Hns : ~ Sorted Rlt times).
  { intros Hs. apply validate_ok_sorted in Hs. destruct Hv as [e He].
    congruence. }
  destruct (simulate_with_unsorted step times r0 random_shocks g Hstep Hns)
    as [e He].
  congruence.
Qed.

(** With continuous compounding a discount factor of the curve is
    positive. *)
Lemma cont_discount_factor_positive (c : YieldCurve) (d : date) (v : R) :
  compounding c = cont -> YieldCurveM.discount_factor c d = Ok v -> 0 < v.
Proof.
  intros Hcomp H. unfold YieldCurveM.discount_factor in H.
  destruct (date_ltb d (valuation_date c)); [discriminate |].
  apply bind_ok_inv in H. destruct H as [t [_ H]].
  destruct (feq t 0); [inversion H; lra |].
  apply bind_ok_inv in H. destruct H as [r [_ H]].
  unfold _df_from_rate in H. rewrite Hcomp in H. inversion H. apply exp_pos.
Qed.

(** What [bond_price] returns between two different times. *)
Lemma bond_price_ok (m : HullWhite1F) (t T r_t p : R) :
  T - t <> 0 -> bond_price m t T r_t = Ok p ->
  exists P_t P_T fri,
    t < T
    /\ (exists t_date, _time_to_date m t = Ok t_date
                       /\ YieldCurveM.discount_factor (yield_curve m) t_date
                          = Ok P_t)
    /\ (exists T_date, _time_to_date m T = Ok T_date
                       /\ YieldCurveM.discount_factor (yield_curve m) T_date
                          = Ok P_T)
    /\ _forward_rate_integral m t T = Ok fri
    /\ p = P_T / P_t
           * exp (bond_B m t T * fri
                  - 0.5 * (volatility m ^ 2 / mean_reversion m ^ 2)
                    * (bond_B m t T - (T - t))
                    * (1 - exp (- 2 * mean_reversion m * t)))
           * exp (- bond_B m t T * r_t).
Proof.
  intros Htau H. unfold bond_price in H.
  destruct (flt_spec T t) as [Hlt | Hge]; [discriminate |].
  destruct (flt t 0 || flt T 0); [discriminate |].
  cbv zeta in H. rewrite feq_false in H by exact Htau.
  apply bind_ok_inv in H. destruct H as [t_date [Hdt H]].
  apply bind_ok_inv in H. destruct H as [T_date [HdT H]].
  apply bind_ok_inv in H. destruct H as [P_t [HPt H]].
  apply bind_ok_inv in H. destruct H as [P_T [HPT H]].
  apply bind_ok_inv in H. destruct H as [q [Hq H]].
  apply bind_ok_inv in H. destruct H as [ratio [Hratio H]].
  apply bind_ok_inv in H. destruct H as [fri [Hfri H]].
  apply bind_ok_inv in H. destruct H as [c [Hc H]].
  unfold fdiv in Hq, Hratio, Hc.
  destruct (feq (mean_reversion m) 0); [discriminate |].
  destruct (feq P_t 0); [discriminate |].
  destruct (feq (mean_reversion m ^ 2) 0); [discriminate |].
  inversion Hq; subst q. inversion Hratio; subst ratio. inversion Hc; subst c.
  inversion H; subst p.
  exists P_t, P_T, fri.
  split; [lra |].
  split; [exists t_date; split; assumption |].
  split; [exists T_date; split; assumption |].
  split; [exact Hfri | reflexivity].
Qed.

Lemma bond_B_same_time (m : HullWhite1F) (t T : R) :
  T - t = 0 -> bond_B m t T = 0.
Proof.
  intros H. unfold bond_B. rewrite H, Rmult_0_r, exp_0.
  unfold Rdiv. replace (1 - 1) with 0 by ring. apply Rmult_0_l.
Qed.

Lemma bond_B_nonneg (m : HullWhite1F) (t T : R) :
  0 < mean_reversion m -> t <= T ->
  0 <= bond_B m t T /\ (t < T -> 0 < bond_B m t T).
Proof.
  intros Ha Ht. unfold bond_B. split.
  - apply Rmult_le_pos; [| apply Rlt_le, Rinv_0_lt_compat, Ha].
    assert (exp (- mean_reversion m * (T - t)) <= 1); [| lra].
    apply exp_nonpos_le_1. nra.
  - intros Hlt. apply Rdiv_lt_0_compat; [| exact Ha].
    assert (exp (- mean_reversion m * (T - t)) < 1); [| lra].
    rewrite <- exp_0. apply exp_increasing. nra.
Qed.

Lemma euler_model_continuous : continuous_model euler_model.
Proof.
  unfold continuous_model. cbn.
  split; [lra |]. split; [reflexivity |].
  split; [exists 365; reflexivity |]. split; [lia |].
  exists [d_2025_01_01; d_2026_01_01; d_2027_01_01], [0.02; 0.022; 0.025].
  exact test_curve_built.
Qed.

Lemma euler_model_horizon (t : R) :
  0 <= t <= 1 -> (theta_horizon euler_model t <= MAXORDINAL)%Z.
Proof. exact (test_model_horizon t). Qed.

End PathFacts.

(** X19 on the model of the tests under the Euler scheme: the path over the
    grid [0, 1] with the shock 0.5 is returned, and its step satisfies the
    formula. *)
Lemma euler_scheme_step_witness :
  exists rates,
    HullWhite.simulate_short_rate_path euler_model [0; 1] (Some [0.5]) quiet_rng
    = (Ok rates, quiet_rng)
    /\ exists r_prev,
        nth_error rates 0 = Some r_prev
        /\ nth_error rates 1 = Some (euler_next_rate euler_model r_prev 0 1 0.5).
Proof.
  destruct (PathFacts.path_returns euler_model [0; 1] [0.5] quiet_rng)
    as [rates [r0 [Hrun _]]].
  - exact PathFacts.euler_model_continuous.
  - discriminate.
  - repeat constructor. lra.
  - simpl. lra.
  - intros t [<- | [<- | []]]; apply PathFacts.euler_model_horizon; lra.
  - reflexivity.
  - exists rates. split; [exact Hrun |].
    destruct (euler_scheme_step euler_model [0; 1] [0.5] rates quiet_rng
                                quiet_rng eq_refl Hrun) as [_ Hsteps].
    destruct (Hsteps 0%nat 0 1 eq_refl eq_refl)
      as [r_prev [shock [Hr [Hs [_ [_ Hn]]]]]].
    simpl in Hs. inversion Hs; subst shock.
    exists r_prev. split; assumption.
Defined.

(** X20.  A simulation without supplied shocks gives what the same call gives
    when it is handed the next [len(times) - 1] variates of the random source,
    and when it returns a path it has advanced the source by exactly that many
    variates. *)
Theorem simulate_draws_its_shocks
        (m : HullWhite.HullWhite1F) (times : list R) (g : HullWhite.rng_state) :
  fst (HullWhite.simulate_short_rate_path m times None g)
  = fst (HullWhite.simulate_short_rate_path
           m times (Some (drawn_shocks (length times) g)) g)
  /\ (returns (fst (HullWhite.simulate_short_rate_path m times None g)) ->
      snd (HullWhite.simulate_short_rate_path m times None g)
      = advanced (length times) g).
Proof. apply PathFacts.path_drawn. Qed.

(** X21.  Whatever path [simulate_short_rate_path] returns, under either
    scheme and with supplied shocks or with none, has one rate per time and
    starts at the zero rate that the curve gives at the first time; and the
    call returns a path only for a first time that is not negative, for
    strictly increasing times and, on a non-empty grid, for supplied shocks of
    length [len(times) - 1]. *)
Theorem simulate_short_rate_path_shape
        (m : HullWhite.HullWhite1F) (times : list R)
        (random_shocks : option (list R)) (g : HullWhite.rng_state)
        (rates : list R) :
  fst (HullWhite.simulate_short_rate_path m times random_shocks g) = Ok rates ->
  length rates = length times
  /\ Sorted Rlt times
  /\ (forall t0, nth_error times 0 = Some t0 ->
        0 <= t0
        /\ exists r0, HullWhite._initial_short_rate m t0 = Ok r0
                      /\ nth_error rates 0 = Some r0)
  /\ (forall shocks, random_shocks = Some shocks -> times <> [] ->
        length shocks = (length times - 1)%nat).
Proof.
  intros H. unfold HullWhite.simulate_short_rate_path in H.
  destruct times as [| t0 rest].
  { cbn [fst] in H. inversion H; subst rates.
    split; [reflexivity |]. split; [constructor |].
    split; [intros t0 Ht0; discriminate | intros shocks _ Hne; congruence]. }
  destruct (flt_spec t0 0) as [Hneg | Hpos]; [discriminate |].
  destruct (HullWhite._initial_short_rate m t0) as [r0 |] eqn:Hr0;
    [| discriminate].
  set (step := match HullWhite.scheme m with
               | HullWhite.exact => HullWhite.exact_step m
               | HullWhite.euler => HullWhite.euler_step m
               end).
  assert (Hrun : fst (HullWhite.simulate_with step (t0 :: rest) r0
                                              random_shocks g) = Ok rates).
  { unfold step, HullWhite._simulate_exact, HullWhite._simulate_euler in *.
    destruct (HullWhite.scheme m); exact H. }
  assert (Hstores : forall shocks i x y,
             step (t0 :: rest) shocks (S i) x = Ok y ->
             exists v, store x (S i) v = Ok y).
  { intros shocks. unfold step. destruct (HullWhite.scheme m);
      [apply PathFacts.exact_step_stores | apply PathFacts.euler_step_stores]. }
  assert (Hrej : descent_rejecting step).
  { unfold step. destruct (HullWhite.scheme m);
      [apply exact_step_rejects | apply euler_step_rejects]. }
  pose proof (PathFacts.simulate_with_sorted _ _ _ _ _ _ Hrej Hrun) as Hsorted.
  assert (Hshape : length rates = length (t0 :: rest)
                   /\ nth_error rates 0 = Some r0
                   /\ (forall shocks, random_shocks = Some shocks ->
                         length shocks = (length (t0 :: rest) - 1)%nat)).
  { destruct random_shocks as [shocks |].
    - destruct (PathFacts.simulate_with_shape step _ _ _ _ _
                  (Hstores shocks) Hrun) as [Hl [Hf Hs]].
      split; [exact Hl |]. split; [exact Hf |].
      intros shocks' E. inversion E; subst shocks'. exact Hs.
    - rewrite PathFacts.simulate_with_drawn in Hrun by discriminate.
      cbn [fst] in Hrun.
      destruct (PathFacts.simulate_with_shape step _ _ _ _ _
                  (Hstores _) Hrun) as [Hl [Hf _]].
      split; [exact Hl |]. split; [exact Hf |].
      intros shocks' E. discriminate. }
  destruct Hshape as [Hl [Hf Hs]].
  split; [exact Hl |]. split; [exact Hsorted |]. split.
  - intros t Ht. cbn [nth_error] in Ht. inversion Ht; subst t.
    split; [lra |]. exists r0. split; [exact Hr0 | exact Hf].
  - intros shocks E _. apply Hs, E.
Qed.

(** X21 on the Euler model, the grid [0, 0.5, 1] and no supplied shocks. *)
Lemma simulate_short_rate_path_shape_witness :
  exists rates r0,
    fst (HullWhite.simulate_short_rate_path euler_model [0; 0.5; 1] None
                                            quiet_rng) = Ok rates
    /\ length rates = 3%nat
    /\ HullWhite._initial_short_rate euler_model 0 = Ok r0
    /\ nth_error rates 0 = Some r0.
Proof.
  destruct (PathFacts.path_returns
              euler_model [0; 0.5; 1] (drawn_shocks 3 quiet_rng) quiet_rng)
    as [rates [r0 [Hrun _]]].
  - exact PathFacts.euler_model_continuous.
  - discriminate.
  - repeat constructor; lra.
  - simpl. lra.
  - intros t [<- | [<- | [<- | []]]]; apply PathFacts.euler_model_horizon; lra.
  - reflexivity.
  - assert (Hnone :
              fst (HullWhite.simulate_short_rate_path euler_model [0; 0.5; 1]
                                                      None quiet_rng)
              = Ok rates).
    { rewrite (proj1 (PathFacts.path_drawn euler_model [0; 0.5; 1] quiet_rng)).
      change (length [0; 0.5; 1]) with 3%nat. rewrite Hrun. reflexivity. }
    destruct (simulate_short_rate_path_shape _ _ _ _ _ Hnone)
      as [Hl [_ [Hfirst _]]].
    destruct (Hfirst 0 eq_refl) as [_ [r [Hr Hn]]].
    exists rates, r. split; [exact Hnone |]. split; [exact Hl |].
    split; assumption.
Defined.

(** X20 on a grid of three times: the source is advanced by two variates. *)
Lemma simulate_draws_its_shocks_witness :
  snd (HullWhite.simulate_short_rate_path euler_model [0; 0.5; 1] None quiet_rng)
  = advanced 3 quiet_rng.
Proof.
  apply (proj2 (simulate_draws_its_shocks euler_model [0; 0.5; 1] quiet_rng)).
  destruct (PathFacts.path_returns
              euler_model [0; 0.5; 1] (drawn_shocks 3 quiet_rng) quiet_rng)
    as [rates [r0 [Hrun _]]].
  - exact PathFacts.euler_model_continuous.
  - discriminate.
  - repeat constructor; lra.
  - simpl. lra.
  - intros t [<- | [<- | [<- | []]]]; apply PathFacts.euler_model_horizon; lra.
  - reflexivity.
  - exists rates.
    rewrite (proj1 (PathFacts.path_drawn euler_model [0; 0.5; 1] quiet_rng)).
    change (length [0; 0.5; 1]) with 3%nat. rewrite Hrun. reflexivity.
Defined.

(** ** [models/hull_white.py]: bond prices *)

(** X22.  Whatever [bond_price] returns for the times [t] and [T] at two
    short rates differs by the factor [exp (- B (r2 - r1))] with
    [B = (1 - exp (- a (T - t))) / a], which is positive when [a > 0] and
    [t < T].  With a continuously compounded curve a returned price is not
    negative, so that with [a > 0] the price does not increase with the short
    rate.  And for [0 <= t < T] the call raises whenever [_time_to_date] gives
    the same date for [t] and for [T]. *)
Theorem bond_price_affine (m : HullWhite.HullWhite1F) (t T : R) :
  (forall r1 r2 p1 p2,
     HullWhite.bond_price m t T r1 = Ok p1 ->
     HullWhite.bond_price m t T r2 = Ok p2 ->
     p2 = p1 * exp (- bond_B m t T * (r2 - r1)))
  /\ (0 < HullWhite.mean_reversion m -> t < T -> 0 < bond_B m t T)
  /\ (compounding (HullWhite.yield_curve m) = cont ->
      (forall r p, HullWhite.bond_price m t T r = Ok p -> 0 <= p)
      /\ (0 < HullWhite.mean_reversion m ->
          forall r1 r2 p1 p2,
            r1 <= r2 ->
            HullWhite.bond_price m t T r1 = Ok p1 ->
            HullWhite.bond_price m t T r2 = Ok p2 ->
            p2 <= p1))
  /\ (forall d r,
        0 <= t < T ->
        HullWhite._time_to_date m t = Ok d ->
        HullWhite._time_to_date m T = Ok d ->
        raises (HullWhite.bond_price m t T r)).
Proof.
  assert (Hratio : forall r1 r2 p1 p2,
             HullWhite.bond_price m t T r1 = Ok p1 ->
             HullWhite.bond_price m t T r2 = Ok p2 ->
             p2 = p1 * exp (- bond_B m t T * (r2 - r1))).
  { intros r1 r2 p1 p2 H1 H2.
    destruct (Req_dec (T - t) 0) as [Hz | Hnz].
    - rewrite (PathFacts.bond_B_same_time m t T Hz).
      unfold HullWhite.bond_price in H1, H2.
      destruct (flt T t); [discriminate |].
      destruct (flt t 0 || flt T 0); [discriminate |].
      cbv zeta in H1, H2. rewrite feq_true in H1, H2 by exact Hz.
      inversion H1; inversion H2.
      replace (- 0 * (r2 - r1)) with 0 by ring. rewrite exp_0. ring.
    - destruct (PathFacts.bond_price_ok m t T r1 p1 Hnz H1)
        as [P_t [P_T [fri [_ [[d1 [Hd1 HP1]] [[D1 [HD1 HQ1]] [Hf1 ->]]]]]]].
      destruct (PathFacts.bond_price_ok m t T r2 p2 Hnz H2)
        as [P_t' [P_T' [fri' [_ [[d2 [Hd2 HP2]] [[D2 [HD2 HQ2]] [Hf2 ->]]]]]]].
      assert (d2 = d1) by congruence. assert (D2 = D1) by congruence.
      subst d2 D2.
      assert (P_t' = P_t) by congruence. assert (P_T' = P_T) by congruence.
      assert (fri' = fri) by congruence. subst P_t' P_T' fri'.
      rewrite !Rmult_assoc. f_equal. f_equal.
      rewrite <- exp_plus. f_equal. ring. }
  assert (Hsign : compounding (HullWhite.yield_curve m) = cont ->
                  forall r p, HullWhite.bond_price m t T r = Ok p -> 0 <= p).
  { intros Hcomp r p H.
    destruct (Req_dec (T - t) 0) as [Hz | Hnz].
    - unfold HullWhite.bond_price in H.
      destruct (flt T t); [discriminate |].
      destruct (flt t 0 || flt T 0); [discriminate |].
      cbv zeta in H. rewrite feq_true in H by exact Hz. inversion H. lra.
    - destruct (PathFacts.bond_price_ok m t T r p Hnz H)
        as [P_t [P_T [fri [_ [[d1 [_ HP]] [[D1 [_ HQ]] [_ ->]]]]]]].
      pose proof (PathFacts.cont_discount_factor_positive _ _ _ Hcomp HP).
      pose proof (PathFacts.cont_discount_factor_positive _ _ _ Hcomp HQ).
      apply Rlt_le. apply Rmult_lt_0_compat; [| apply exp_pos].
      apply Rmult_lt_0_compat; [| apply exp_pos].
      apply Rdiv_lt_0_compat; assumption. }
  split; [exact Hratio |].
  split; [intros Ha Hlt; apply (PathFacts.bond_B_nonneg m t T Ha); lra |].
  split.
  - intros Hcomp. split; [exact (Hsign Hcomp) |].
    intros Ha r1 r2 p1 p2 Hr H1 H2.
    rewrite (Hratio r1 r2 p1 p2 H1 H2).
    pose proof (Hsign Hcomp r1 p1 H1) as Hp1.
    assert (HtT : t <= T).
    { unfold HullWhite.bond_price in H1.
      destruct (flt_spec T t) as [Hlt | Hge]; [discriminate | lra]. }
    destruct (PathFacts.bond_B_nonneg m t T Ha HtT) as [HB _].
    assert (He : exp (- bond_B m t T * (r2 - r1)) <= 1).
    { apply exp_nonpos_le_1.
      assert (0 <= bond_B m t T * (r2 - r1))
        by (apply Rmult_le_pos; lra).
      lra. }
    rewrite <- (Rmult_1_r p1) at 2.
    apply Rmult_le_compat_l; assumption.
  - intros d r [Ht HtT] Hdt HdT. unfold HullWhite.bond_price.
    rewrite (flt_false T t), (flt_false t 0), (flt_false T 0) by lra.
    cbn [orb]. cbv zeta. rewrite feq_false by lra.
    rewrite Hdt, HdT. cbn [Py.bind].
    destruct (YieldCurveM.discount_factor (HullWhite.yield_curve m) d)
      as [P |]; [| eexists; reflexivity].
    cbn [Py.bind].
    destruct (fdiv _ (HullWhite.mean_reversion m)) as [q |];
      [| eexists; reflexivity].
    cbn [Py.bind].
    destruct (fdiv P P) as [ratio |]; [| eexists; reflexivity].
    cbn [Py.bind].
    unfold HullWhite._forward_rate_integral. rewrite Hdt, HdT. cbn [Py.bind].
    unfold forward_rate.
    replace (date_leb d d) with true
      by (symmetry; unfold date_leb; apply Z.leb_refl).
    eexists; reflexivity.
Qed.

(** X22 on the model of the tests: the prices from time 0 to time 1 at the
    short rates 2% and 3%, and the raise from time 0 to time 0.001, which falls
    on the valuation date. *)
Lemma bond_price_affine_witness :
  (exists p1 p2,
     HullWhite.bond_price test_model 0 1 0.02 = Ok p1
     /\ HullWhite.bond_price test_model 0 1 0.03 = Ok p2
     /\ p2 = p1 * exp (- bond_B test_model 0 1 * (0.03 - 0.02))
     /\ 0 <= p1 /\ p2 <= p1)
  /\ 0 < bond_B test_model 0 1
  /\ raises (HullWhite.bond_price test_model 0 0.001 0.02).
Proof.
  assert (H0 : ftrunc (0 * days_per_year test_model) = 0%Z)
    by (apply ftrunc_nonneg; [unfold days_per_year; simpl; lra | lia]).
  assert (H1 : ftrunc (1 * days_per_year test_model) = 365%Z)
    by (apply ftrunc_nonneg; [unfold days_per_year; simpl; lra | lia]).
  assert (Ht : 0 <= 0 < 1) by lra.
  assert (Hret : forall r, returns (HullWhite.bond_price test_model 0 1 r)).
  { intros r.
    destruct (BondTotality.bond_price_by_dates
                test_model 0 1 r test_model_continuous Ht)
      as [[_ Hr] | [Hsame _]].
    - rewrite H1. vm_compute. discriminate.
    - exact Hr.
    - exfalso. rewrite H0, H1 in Hsame. discriminate. }
  destruct (Hret 0.02) as [p1 Hp1]. destruct (Hret 0.03) as [p2 Hp2].
  destruct (bond_price_affine test_model 0 1) as [Hratio [HB [Hcont _]]].
  destruct (Hcont eq_refl) as [Hsign Hmono].
  assert (Ha : 0 < HullWhite.mean_reversion test_model) by (simpl; lra).
  split; [| split].
  - exists p1, p2. split; [exact Hp1 |]. split; [exact Hp2 |].
    split; [exact (Hratio _ _ _ _ Hp1 Hp2) |].
    split; [exact (Hsign _ _ Hp1) |].
    apply (Hmono Ha 0.02 0.03 p1 p2); [lra | exact Hp1 | exact Hp2].
  - apply HB; [exact Ha | lra].
  - destruct (bond_price_affine test_model 0 0.001) as [_ [_ [_ Hsame]]].
    assert (Ht' : 0 <= 0 < 0.001) by lra.
    apply (Hsame d_2024_01_01 0.02 Ht').
    + unfold HullWhite._time_to_date. cbn.
      rewrite (ftrunc_nonneg (0 * 365) 0) by (try split; simpl; lra || lia).
      reflexivity.
    + unfold HullWhite._time_to_date. cbn.
      rewrite (ftrunc_nonneg (0.001 * 365) 0) by (try split; simpl; lra || lia).
      reflexivity.
Defined.

(** ** [market_data/yield_curve.py]: deposits and swaps *)

Module BuilderRoundTrip.

(** The discount factor at a pillar of a curve built from discount factors
    is the discount factor of that pillar. *)
Lemma discount_factor_at_pillar val dates dfs dc interp comp c i d df :
  StronglySorted date_lt dates ->
  build_yield_curve_from_discount_factors val dates dfs dc interp comp = Ok c ->
  nth_error dates i = Some d -> nth_error dfs i = Some df ->
  YieldCurveM.discount_factor c d = Ok df /\ 0 < df < 1 + 1e-12.
Proof.
  intros Hinc Hbuild Hd Hdf.
  destruct (build_from_discount_factors_ok _ _ _ _ _ _ _ Hinc Hbuild)
    as [Hval [Hdc [Hcomp [_ [_ [Htimes Hpil]]]]]].
  destruct (map_result_nth _ _ _ _ _ Htimes Hd) as [t [Ht Hyf]].
  destruct (proj2 (proj2 (proj2 (proj2 Hpil))) i t df Ht Hdf)
    as [Htpos [Hdfpos _]].
  split.
  - unfold YieldCurveM.discount_factor, _time_from_valuation.
    rewrite Hval, Hdc.
    rewrite (year_fraction_ok_after _ _ _ _ Hyf), Hyf. cbn [Py.bind].
    rewrite feq_false by lra.
    rewrite (zero_rate_at_pillar c dfs i t df Hpil Ht Hdf). cbn [Py.bind].
    apply df_from_rate_zero_of; assumption.
  - unfold build_yield_curve_from_discount_factors in Hbuild.
    destruct (Nat.eqb_spec (length dates) (length dfs)) as [Hlen | Hlen];
      cbn [negb] in Hbuild; [| discriminate].
    apply bind_ok_inv in Hbuild. destruct Hbuild as [zeros [Hz _]].
    pose proof (nth_error_combine _ _ _ _ _ Hd Hdf) as Hc.
    destruct (map_result_nth _ _ _ _ _ Hz Hc) as [z [_ Hzf]].
    apply zero_from_discount_factor_inv in Hzf.
    destruct Hzf as [t' [_ [_ [Hr _]]]]. exact Hr.
Qed.

(** One swap of the bootstrap appends its maturity and one discount
    factor. *)
Lemma bootstrap_swap_appends val frequency dc interp comp st swap st' :
  bootstrap_swap val frequency dc interp comp st swap = Ok st' ->
  exists df, st' = (fst st ++ [fst swap], snd st ++ [df]).
Proof.
  unfold bootstrap_swap. intros H.
  apply bind_ok_inv in H. destruct H as [schedule [_ H]].
  destruct (length _ =? 0)%nat; [discriminate |].
  destruct (negb (length (fst st) =? 0)%nat).
  - apply bind_ok_inv in H. destruct H as [temp_curve [_ H]].
    apply bind_ok_inv in H. destruct H as [acc [_ H]].
    apply bind_ok_inv in H. destruct H as [last [_ H]].
    apply bind_ok_inv in H. destruct H as [tau [_ H]].
    apply bind_ok_inv in H. destruct H as [df [_ H]].
    destruct (fle df 0 || flt 1 df); [discriminate |].
    inversion H. exists df. reflexivity.
  - apply bind_ok_inv in H. destruct H as [t [_ H]].
    destruct (fle t 0); [discriminate |].
    apply bind_ok_inv in H. destruct H as [df [_ H]].
    inversion H. exists df. reflexivity.
Qed.

Lemma bootstrap_swaps_appends val frequency dc interp comp swaps :
  forall st st',
    bootstrap_swaps val frequency dc interp comp swaps st = Ok st' ->
    exists dfs,
      st' = (fst st ++ map fst swaps, snd st ++ dfs)
      /\ length dfs = length swaps.
Proof.
  induction swaps as [| swap rest IH]; intros st st' H; cbn [bootstrap_swaps] in H.
  - inversion H; subst st'. exists []. rewrite !app_nil_r.
    split; [destruct st; reflexivity | reflexivity].
  - apply bind_ok_inv in H. destruct H as [st1 [Hstep H]].
    destruct (bootstrap_swap_appends _ _ _ _ _ _ _ _ Hstep) as [df ->].
    destruct (IH _ _ H) as [dfs [-> Hlen]]. cbn [fst snd].
    exists (df :: dfs). cbn [map length].
    rewrite <- !app_assoc. cbn [app]. split; [reflexivity | lia].
Qed.

(** The first swap of the bootstrap is treated as a deposit. *)
Lemma first_swap_step val frequency dc interp comp discount_factors
      maturity rate st :
  bootstrap_swap val frequency dc interp comp
                 ([], discount_factors) (maturity, rate) = Ok st ->
  exists t, year_fraction val maturity dc = Ok t /\ 0 < t
            /\ 1 + rate * t <> 0
            /\ st = ([maturity], discount_factors ++ [1 / (1 + rate * t)]).
Proof.
  intros Hrun. unfold bootstrap_swap in Hrun. cbn [fst snd] in Hrun.
  apply bind_ok_inv in Hrun. destruct Hrun as [schedule [_ Hrun]].
  destruct (length _ =? 0)%nat; [discriminate |].
  cbn [length Nat.eqb negb] in Hrun.
  apply bind_ok_inv in Hrun. destruct Hrun as [t [Hyf Hrun]].
  destruct (fle_spec t 0) as [Hle | Hgt]; [discriminate |].
  apply bind_ok_inv in Hrun. destruct Hrun as [df [Hdf Hrun]].
  unfold fdiv in Hdf. destruct (feq_spec (1 + rate * t) 0) as [Hz | Hnz];
    [discriminate |].
  inversion Hdf; subst df. inversion Hrun.
  exists t. repeat split; try assumption; lra.
Qed.

(** A later swap of the bootstrap.  The payment dates are the dates of the
    schedule after the valuation date; the payments before the maturity are
    valued on the curve built from the pillars so far, and the maturity gets
    the closed form when the final period has a positive year fraction. *)
Lemma later_swap_step val frequency dc interp comp pillars discount_factors
      maturity rate st :
  pillars <> [] ->
  bootstrap_swap val frequency dc interp comp
                 (pillars, discount_factors) (maturity, rate) = Ok st ->
  exists temp_curve init values tau_last df,
    generate_schedule val maturity frequency NONE None
    = Ok (val :: init ++ [maturity])
    /\ Forall (fun d => date_lt d maturity) init
    /\ build_yield_curve_from_discount_factors
         val pillars discount_factors dc interp comp = Ok temp_curve
    /\ map_result (payment_value temp_curve rate dc) (periods val init)
       = Ok values
    /\ year_fraction (last init val) maturity dc = Ok tau_last
    /\ (0 < tau_last -> df = (1 - total values) / (1 + rate * tau_last))
    /\ (tau_last <= 0 -> df = 1)
    /\ 0 < df <= 1
    /\ st = (pillars ++ [maturity], discount_factors ++ [df]).
Proof.
  intros Hne Hrun. unfold bootstrap_swap in Hrun. cbn [fst snd] in Hrun.
  apply bind_ok_inv in Hrun. destruct Hrun as [schedule [Hgen Hrun]].
  destruct (ScheduleFacts.none_shape _ _ _ _ _ Hgen)
    as [[<- ->] | [Hlt [init [-> Hinit]]]].
  { rewrite date_eqb_refl in Hrun. discriminate. }
  rewrite date_eqb_refl in Hrun.
  replace (length (init ++ [maturity]) =? 0)%nat with false in Hrun
    by (rewrite length_app; cbn [length]; symmetry; apply Nat.eqb_neq; lia).
  replace (length pillars =? 0)%nat with false in Hrun
    by (destruct pillars; [congruence | reflexivity]).
  cbn [negb] in Hrun.
  apply bind_ok_inv in Hrun. destruct Hrun as [temp_curve [Htemp Hrun]].
  apply bind_ok_inv in Hrun. destruct Hrun as [acc [Hloop Hrun]].
  rewrite index_back_1 in Hrun. cbn [Py.bind] in Hrun.
  rewrite date_eqb_refl in Hrun. cbn [negb Py.bind] in Hrun.
  rewrite <- periods_length with (start := val) in Hloop.
  rewrite (for_range_list _ (period_step maturity rate dc temp_curve)) in Hloop
    by (intros i a x Hi; apply swap_period_is_step; exact Hi).
  rewrite periods_app, fold_result_app in Hloop.
  apply bind_ok_inv in Hloop. destruct Hloop as [st1 [Hknown Hlast]].
  destruct (known_periods_fold maturity rate dc temp_curve (periods val init))
    with (pv := 0) (tau := 0) (st := st1) as [values [Hvalues ->]].
  { rewrite Forall_forall in *. intros p Hp. apply Hinit.
    eapply periods_end_in; eassumption. }
  { exact Hknown. }
  cbn [fold_result] in Hlast. unfold period_step in Hlast.
  cbn [fst snd] in Hlast.
  apply bind_ok_inv in Hlast. destruct Hlast as [acc' [Hstep Hacc]].
  inversion Hacc; subst acc'; clear Hacc.
  apply bind_ok_inv in Hstep. destruct Hstep as [tau_last [Htau Hstep]].
  rewrite date_eqb_refl in Hstep. inversion Hstep; subst acc; clear Hstep.
  cbn [fst snd] in Hrun.
  apply bind_ok_inv in Hrun. destruct Hrun as [df [Hdf Hrun]].
  destruct (fle_spec df 0) as [Hle | Hgt]; [discriminate |].
  destruct (flt_spec 1 df) as [Hlt1 | Hge]; [discriminate |].
  cbn [orb] in Hrun. inversion Hrun; subst st; clear Hrun.
  exists temp_curve, init, values, tau_last, df.
  split; [exact Hgen |].
  repeat (split; [assumption |]).
  split; [| split; [| split; [lra | reflexivity]]].
  - intros Hpos. rewrite flt_true in Hdf by assumption.
    unfold fdiv in Hdf. destruct (feq _ 0); [discriminate |].
    inversion Hdf. f_equal. ring.
  - intros Hnonpos. rewrite flt_false in Hdf by assumption.
    inversion Hdf. reflexivity.
Qed.

End BuilderRoundTrip.

(** X23.  A curve built from deposits at strictly increasing maturities
    reprices them: its pillars are the maturities, and its discount factor at
    each maturity is the simple discount factor [1 / (1 + r t)] of that
    deposit, for every day count, interpolation and compounding. *)
Theorem deposits_round_trip
        (val : date) (dates : list date) (rates : list R)
        (dc : DayCountConvention) (interp : InterpolationMethod)
        (comp : CompoundingMethod) (c : YieldCurve) :
  StronglySorted date_lt dates ->
  build_yield_curve_from_deposits_simple val dates rates dc interp comp = Ok c ->
  pillar_dates c = dates
  /\ forall i d r,
       nth_error dates i = Some d -> nth_error rates i = Some r ->
       exists t,
         year_fraction val d dc = Ok t /\ 0 < t /\ 0 < 1 + r * t
         /\ YieldCurveM.discount_factor c d = Ok (1 / (1 + r * t)).
Proof.
  intros Hinc Hbuild. unfold build_yield_curve_from_deposits_simple in Hbuild.
  destruct (Nat.eqb_spec (length dates) (length rates)) as [Hlen | Hlen];
    cbn [negb] in Hbuild; [| discriminate].
  apply bind_ok_inv in Hbuild. destruct Hbuild as [dfs [Hdfs Hbuild]].
  split.
  { destruct (build_from_discount_factors_ok _ _ _ _ _ _ _ Hinc Hbuild)
      as [_ [_ [_ [_ [Hdates _]]]]]. exact Hdates. }
  intros i d r Hd Hr.
  pose proof (nth_error_combine _ _ _ _ _ Hd Hr) as Hc.
  destruct (map_result_nth _ _ _ _ _ Hdfs Hc) as [df [Hdf Hf]].
  cbn [fst snd] in Hf.
  apply bind_ok_inv in Hf. destruct Hf as [t [Hyf Hf]].
  destruct (fle_spec t 0) as [Hle | Hgt]; [discriminate |].
  unfold fdiv in Hf. destruct (feq_spec (1 + r * t) 0) as [Hz | Hnz];
    [discriminate |].
  inversion Hf; subst df; clear Hf.
  destruct (BuilderRoundTrip.discount_factor_at_pillar
              _ _ _ _ _ _ _ i d _ Hinc Hbuild Hd Hdf) as [Hround [Hpos _]].
  exists t. split; [exact Hyf |]. split; [lra |]. split; [| exact Hround].
  destruct (Rlt_dec 0 (1 + r * t)) as [Hp | Hn]; [exact Hp |].
  exfalso.
  assert (Hneg : 1 + r * t < 0) by lra.
  assert (1 / (1 + r * t) < 0); [| lra].
  unfold Rdiv. rewrite Rmult_1_l. apply Rinv_lt_0_compat. exact Hneg.
Qed.

(** X23 on one deposit at 2% to 2025-01-01. *)
Lemma deposits_round_trip_witness :
  exists c t,
    build_yield_curve_from_deposits_simple
      d_2024_01_01 [d_2025_01_01] [0.02] ACT_365 linear_zero simple = Ok c
    /\ year_fraction d_2024_01_01 d_2025_01_01 ACT_365 = Ok t
    /\ YieldCurveM.discount_factor c d_2025_01_01 = Ok (1 / (1 + 0.02 * t)).
Proof.
  assert (Hbuild :
            returns (build_yield_curve_from_deposits_simple
                       d_2024_01_01 [d_2025_01_01] [0.02] ACT_365 linear_zero
                       simple)).
  { unfold build_yield_curve_from_deposits_simple. cbn [length Nat.eqb negb].
    cbn [combine map_result fst snd].
    destruct (actual_year_fraction_positive d_2024_01_01 d_2025_01_01 ACT_365
                365 eq_refl) as [t [Hyf Hpos]];
      [unfold date_lt; simpl; lia |].
    rewrite Hyf. cbn [Py.bind]. rewrite fle_false by lra.
    rewrite fdiv_ok by nra. cbn [Py.bind].
    apply build_from_discount_factors_returns.
    - reflexivity.
    - discriminate.
    - repeat constructor. simpl. intuition.
    - intros d [<- | []]. exists t. split; assumption.
    - intros d1 d2 t1 t2 [<- | []] [<- | []] Hlt. unfold date_lt in Hlt. lia.
    - constructor; [| constructor]. unfold df_accepted.
      assert (H1 : 1 < 1 + 0.02 * t) by nra.
      split.
      + apply Rdiv_lt_0_compat; lra.
      + apply (Rmult_lt_reg_r (1 + 0.02 * t)); [lra |].
        unfold Rdiv. rewrite Rmult_assoc, Rinv_l by lra. nra. }
  destruct Hbuild as [c Hc].
  assert (Hinc : StronglySorted date_lt [d_2025_01_01])
    by (repeat constructor).
  destruct (deposits_round_trip _ _ _ _ _ _ c Hinc Hc) as [_ Hall].
  destruct (Hall 0%nat d_2025_01_01 0.02 eq_refl eq_refl)
    as [t [Hyf [_ [_ Hdf]]]].
  exists c, t. auto.
Defined.

(** X24.  One step of the swap bootstrap that returns appends the maturity
    and one discount factor.  For the first swap that is the simple discount
    factor [1 / (1 + rate t)] over the time to the maturity.  For a later swap
    the schedule that [generate_schedule] returns is the valuation date, then
    payment dates before the maturity, then the maturity; the discount factor
    is [(1 - PV_known) / (1 + rate tau_last)], where [PV_known] adds up the
    fixed payments on those payment dates, valued on the curve built from the
    pillars so far, and [tau_last] is the year fraction from the last of them
    to the maturity, when [tau_last] is positive, and 1 when it is not; a
    later swap's discount factor lies in (0, 1]. *)
Theorem bootstrap_swap_step
        (val : date) (frequency : Frequency) (dc : DayCountConvention)
        (interp : InterpolationMethod) (comp : CompoundingMethod)
        (pillars : list date) (discount_factors : list R)
        (maturity : date) (rate : R) (st : list date * list R) :
  bootstrap_swap val frequency dc interp comp
                 (pillars, discount_factors) (maturity, rate) = Ok st ->
  (pillars = [] ->
   exists t, year_fraction val maturity dc = Ok t /\ 0 < t
             /\ 1 + rate * t <> 0
             /\ st = ([maturity], discount_factors ++ [1 / (1 + rate * t)]))
  /\ (pillars <> [] ->
      exists temp_curve init values tau_last df,
        generate_schedule val maturity frequency NONE None
        = Ok (val :: init ++ [maturity])
        /\ Forall (fun d => date_lt d maturity) init
        /\ build_yield_curve_from_discount_factors
             val pillars discount_factors dc interp comp = Ok temp_curve
        /\ map_result (payment_value temp_curve rate dc) (periods val init)
           = Ok values
        /\ year_fraction (last init val) maturity dc = Ok tau_last
        /\ (0 < tau_last -> df = (1 - total values) / (1 + rate * tau_last))
        /\ (tau_last <= 0 -> df = 1)
        /\ 0 < df <= 1
        /\ st = (pillars ++ [maturity], discount_factors ++ [df])).
Proof.
  intros Hrun. split.
  - intros ->. apply (BuilderRoundTrip.first_swap_step _ _ _ _ _ _ _ _ _ Hrun).
  - intros Hne.
    apply (BuilderRoundTrip.later_swap_step val frequency dc interp comp pillars
             discount_factors maturity rate st Hne Hrun).
Qed.

(** X24 on the two swaps of the zero-length example: the first as a
    deposit; the second with the one payment date 2025-01-30 before its
    maturity. *)
Lemma bootstrap_swap_step_witness :
  (exists t, year_fraction d_2024_07_30 d_2024_10_30 THIRTY_360 = Ok t /\ 0 < t
             /\ 1 + 0.02 * t <> 0
             /\ ([d_2024_10_30], [df_2024_10_30])
                = ([d_2024_10_30], [] ++ [1 / (1 + 0.02 * t)]))
  /\ exists temp_curve values tau_last df,
       generate_schedule d_2024_07_30 d_2025_01_31 freq_6M NONE None
       = Ok (d_2024_07_30 :: [d_2025_01_30] ++ [d_2025_01_31])
       /\ build_yield_curve_from_discount_factors
            d_2024_07_30 [d_2024_10_30] [df_2024_10_30] THIRTY_360
            log_linear_df cont = Ok temp_curve
       /\ map_result (payment_value temp_curve 0.02 THIRTY_360)
                     (periods d_2024_07_30 [d_2025_01_30]) = Ok values
       /\ year_fraction d_2025_01_30 d_2025_01_31 THIRTY_360 = Ok tau_last
       /\ (0 < tau_last -> df = (1 - total values) / (1 + 0.02 * tau_last))
       /\ (tau_last <= 0 -> df = 1)
       /\ 0 < df <= 1
       /\ ([d_2024_10_30; d_2025_01_31], [df_2024_10_30; 1])
          = ([d_2024_10_30] ++ [d_2025_01_31], [df_2024_10_30] ++ [df]).
Proof.
  split.
  - apply (proj1 (bootstrap_swap_step _ _ _ _ _ _ _ _ _ _
                    ZeroLengthSteps.first_swap_pillar)).
    reflexivity.
  - destruct (proj2 (bootstrap_swap_step _ _ _ _ _ _ _ _ _ _
                       ZeroLengthSteps.second_swap_pillar))
      as [temp_curve [init [values [tau_last [df H]]]]]; [discriminate |].
    destruct H as [Hgen [Hinit [Htemp [Hvalues [Htau Hrest]]]]].
    assert (E : init = [d_2025_01_30]).
    { rewrite ZeroLengthPeriod.schedule_to_2025_01_31 in Hgen.
      inversion Hgen as [Hs].
      destruct init as [| a [| b r]]; [discriminate | | ].
      - inversion Hs. reflexivity.
      - cbn [app] in Hs. inversion Hs. destruct r; discriminate. }
    subst init. cbn [last] in Htau.
    exists temp_curve, values, tau_last, df.
    split; [exact Hgen |]. split; [exact Htemp |].
    split; [exact Hvalues |]. split; [exact Htau | exact Hrest].
Defined.

(** X25.  [build_yield_curve_from_swaps] does not depend on the order in
    which swaps with pairwise distinct maturities are given: two inputs that
    pair the same maturities with the same rates give the same curve, or the
    same error. *)
Theorem build_from_swaps_order_independent
        (val : date) (maturities maturities' : list date)
        (rates rates' : list R) (frequency : Frequency)
        (dc : DayCountConvention) (interp : InterpolationMethod)
        (comp : CompoundingMethod) :
  length maturities = length rates ->
  length maturities' = length rates' ->
  NoDup (map toordinal maturities) ->
  Permutation (combine maturities rates) (combine maturities' rates') ->
  build_yield_curve_from_swaps val maturities rates frequency dc interp comp
  = build_yield_curve_from_swaps val maturities' rates' frequency dc interp
                                 comp.
Proof.
  intros Hlen Hlen' Hnd Hp.
  assert (Hd : Permutation maturities maturities').
  { rewrite <- (map_fst_combine maturities rates),
      <- (map_fst_combine maturities' rates') by assumption.
    apply Permutation_map, Hp. }
  unfold build_yield_curve_from_swaps.
  rewrite <- (Permutation_length Hd).
  rewrite (proj2 (Nat.eqb_eq _ _) Hlen).
  assert (Hl' : length maturities = length rates')
    by (rewrite (Permutation_length Hd); exact Hlen').
  rewrite (proj2 (Nat.eqb_eq _ _) Hl'). cbn [negb].
  destruct (length maturities =? 0)%nat; [reflexivity |].
  fold pair_key.
  assert (E : sorted pair_key (combine maturities' rates')
              = sorted pair_key (combine maturities rates)).
  { apply ConstructorFacts.sorted_perm_unique; [exact Hp |].
    apply sorted_strict. unfold pair_key.
    rewrite <- (map_map fst toordinal), map_fst_combine by assumption.
    exact Hnd. }
  rewrite E. reflexivity.
Qed.

(** X25 on two swaps given in either order. *)
Lemma build_from_swaps_order_independent_witness :
  build_yield_curve_from_swaps
    d_2024_07_30 [d_2024_10_30; d_2025_01_31] [0.02; 0.03] freq_6M
    THIRTY_360 log_linear_df cont
  = build_yield_curve_from_swaps
      d_2024_07_30 [d_2025_01_31; d_2024_10_30] [0.03; 0.02] freq_6M
      THIRTY_360 log_linear_df cont.
Proof.
  apply build_from_swaps_order_independent;
    [reflexivity | reflexivity | | apply perm_swap].
  repeat constructor; simpl; intuition discriminate.
Defined.

(** X26.  A curve that [build_yield_curve_from_swaps] returns for swaps with
    pairwise distinct maturities has the maturities in increasing order as its
    pillars, and at each maturity its discount factor is the one that the
    bootstrap stored for that swap; for the earliest swap that is the simple
    discount factor [1 / (1 + rate t)]. *)
Theorem build_from_swaps_pillars
        (val : date) (maturities : list date) (rates : list R)
        (frequency : Frequency) (dc : DayCountConvention)
        (interp : InterpolationMethod) (comp : CompoundingMethod)
        (c : YieldCurve) :
  NoDup (map toordinal maturities) ->
  build_yield_curve_from_swaps val maturities rates frequency dc interp comp
  = Ok c ->
  exists dfs,
    bootstrap_swaps val frequency dc interp comp
                    (sorted pair_key (combine maturities rates)) ([], [])
    = Ok (map fst (sorted pair_key (combine maturities rates)), dfs)
    /\ pillar_dates c = map fst (sorted pair_key (combine maturities rates))
    /\ Permutation (pillar_dates c) maturities
    /\ StronglySorted date_lt (pillar_dates c)
    /\ (forall i d df,
          nth_error (pillar_dates c) i = Some d -> nth_error dfs i = Some df ->
          YieldCurveM.discount_factor c d = Ok df /\ 0 < df < 1 + 1e-12)
    /\ (forall d r,
          nth_error (sorted pair_key (combine maturities rates)) 0
          = Some (d, r) ->
          exists t, year_fraction val d dc = Ok t /\ 0 < t
                    /\ YieldCurveM.discount_factor c d
                       = Ok (1 / (1 + r * t))).
Proof.
  intros Hnd Hbuild. unfold build_yield_curve_from_swaps in Hbuild.
  destruct (Nat.eqb_spec (length maturities) (length rates)) as [Hlen | Hlen];
    cbn [negb] in Hbuild; [| discriminate].
  destruct (length maturities =? 0)%nat; [discriminate |].
  fold pair_key in Hbuild.
  set (sp := sorted pair_key (combine maturities rates)) in *.
  apply bind_ok_inv in Hbuild. destruct Hbuild as [st [Hboot Hbuild]].
  destruct (BuilderRoundTrip.bootstrap_swaps_appends _ _ _ _ _ _ _ _ Hboot)
    as [dfs [-> Hdfs]].
  cbn [fst snd app] in *.
  assert (Hsp : StronglySorted (fun x y => (pair_key x < pair_key y)%Z) sp).
  { apply sorted_strict. unfold pair_key.
    rewrite <- (map_map fst toordinal), map_fst_combine by assumption.
    exact Hnd. }
  assert (Hinc : StronglySorted date_lt (map fst sp)).
  { apply (strongly_sorted_map fst (fun x y => (pair_key x < pair_key y)%Z));
      [| exact Hsp].
    intros x y _ _ H. exact H. }
  destruct (build_from_discount_factors_ok _ _ _ _ _ _ _ Hinc Hbuild)
    as [_ [_ [_ [_ [Hdates _]]]]].
  exists dfs. split; [exact Hboot |]. split; [exact Hdates |].
  split.
  { rewrite Hdates.
    apply (Permutation_trans (l' := map fst (combine maturities rates)));
      [apply Permutation_map, sorted_perm |].
    rewrite map_fst_combine by assumption. apply Permutation_refl. }
  split; [rewrite Hdates; exact Hinc |].
  split.
  { intros i d df Hd Hdf. rewrite Hdates in Hd.
    apply (BuilderRoundTrip.discount_factor_at_pillar
             _ _ _ _ _ _ _ i d df Hinc Hbuild Hd Hdf). }
  intros d r Hfirst.
  destruct sp as [| [d0 r0] rest] eqn:Esp; [discriminate |].
  cbn [nth_error] in Hfirst. inversion Hfirst; subst d0 r0.
  cbn [bootstrap_swaps] in Hboot.
  apply bind_ok_inv in Hboot. destruct Hboot as [st1 [Hstep Hrest]].
  destruct (BuilderRoundTrip.first_swap_step _ _ _ _ _ _ _ _ _ Hstep)
    as [t [Hyf [Hpos [_ ->]]]].
  destruct (BuilderRoundTrip.bootstrap_swaps_appends _ _ _ _ _ _ _ _ Hrest)
    as [dfs' [E _]].
  cbn [fst snd app map] in E. inversion E as [Edfs].
  exists t. split; [exact Hyf |]. split; [exact Hpos |].
  apply (BuilderRoundTrip.discount_factor_at_pillar
           _ _ _ _ _ _ _ 0 d _ Hinc Hbuild eq_refl).
  rewrite Edfs. reflexivity.
Qed.

(** X26 on the two swaps of the zero-length example. *)
Lemma build_from_swaps_pillars_witness :
  exists c t,
    build_yield_curve_from_swaps
      d_2024_07_30 [d_2024_10_30; d_2025_01_31] [0.02; 0.02] freq_6M
      THIRTY_360 log_linear_df cont = Ok c
    /\ pillar_dates c = [d_2024_10_30; d_2025_01_31]
    /\ year_fraction d_2024_07_30 d_2024_10_30 THIRTY_360 = Ok t
    /\ YieldCurveM.discount_factor c d_2024_10_30 = Ok (1 / (1 + 0.02 * t)).
Proof.
  destruct ZeroLengthSteps.swaps_curve_built as [c [v [Hbuild _]]].
  assert (Hnd : NoDup (map toordinal [d_2024_10_30; d_2025_01_31]))
    by (repeat constructor; simpl; intuition discriminate).
  destruct (build_from_swaps_pillars _ _ _ _ _ _ _ c Hnd Hbuild)
    as [dfs [_ [Hdates [_ [_ [_ Hfirst]]]]]].
  destruct (Hfirst d_2024_10_30 0.02 eq_refl) as [t [Hyf [_ Hdf]]].
  exists c, t. split; [exact Hbuild |]. split; [exact Hdates |].
  split; [exact Hyf | exact Hdf].
Defined.
